(* ===== verification/_CoqProject ===== *)
-Q . S2P
Prelude.v
Abi.v
PolicyLib.v
PoliciesBasic.v
PoliciesTable.v
PoliciesFamily.v
PolicyFacts.v
PolicyProps.v
PolicyViews.v
Kernel.v
Rcu.v
Targets.v
TargetRcu.v
TargetRcuProps.v
TargetLinear.v
TargetRefine.v
Scopes.v
ScopeFacts.v
ScopeProps.v
ScopeRcu.v
ScopeRcuFacts.v
ScopeGrace.v
ScopeRcuProps.v
ScopeLinear.v
ScopeLive.v
ScopeApi.v
ScopeSystem.v
Cgroups.v
EffectiveFacts.v
Dispatch.v
CgroupFacts.v
CgroupProps.v
DispatchProps.v
System.v
Lookup.v
Walk.v
PathWalk.v
PathOpen.v
LookupProps.v
WalkProps.v
SystemProps.v
PathInv.v
PathRefs.v
PathSafe.v
PathTotal.v
PathOpenSafe.v
PathOpenTotal.v
PathOpenProps.v
PathFrame.v
PathExact.v
PathView.v
PathNames.v
PathViewFacts.v
PathViewProps.v
PathResolve.v
PathOpenView.v
PathOpenResolve.v
PathPolicies.v
PathOpenPolicies.v
PathParent.v
PathPositive.v
PathParentResolve.v
PathChange.v
PathChangeSafe.v
PathChangeCalls.v
Readdir.v
ReaddirProps.v
Control.v
Harness.v
HarnessProps.v
FuseDaemon.v
Litmus.v
LitmusProps.v
Example.v
Witnesses.v
WitnessesRcu.v
WitnessesPath.v
WitnessesOpen.v
WitnessesChange.v
WitnessesIo.v
