(* ===== verification/Prelude.v ===== *)
(** * namei_ext: a verification library

    namei_ext lets an eBPF policy, attached to a cgroup, decide what the name
    of each path component and directory entry means below the directories it
    manages: PASS leaves it to the file system, REDIRECT replaces the name by
    another name of the same directory, HIDE makes it not exist, and
    SELECT_TARGET continues in a directory registered beforehand.  This
    library models the kernel side, the shipped policies, and the user-space
    harness that configures both, and proves that they do what they promise.

    ** The program and the files that model it

    Kernel sources are those archived with the results, below
    results/experiments/agent-workspace-rq3-formal/.../artifacts/source/kernel.
    This archive predates the selection of final regular files: in it a
    selection of the last component of an open is an error, and the model
    follows it.

    - [Abi]: struct bpf_namei_ext_ctx, the actions, and the verifier's checks
      (kernel/bpf/cgroup.c, verifier.c).  [VerifiedProgram] is the contract a
      loaded program satisfies; the kernel's theorems assume it of the
      programs, [PolicyProps] discharges it for every policy.
    - [PolicyLib], [PoliciesBasic], [PoliciesTable], [PoliciesFamily]: the
      policy header and every program of bpf/policies/, in a state monad over
      the program's maps and its context; one Module per program.
      [PolicyFacts], [PolicyProps], [PolicyViews]: their properties.
    - [Kernel]: paths, names, inodes and reference counts.  A reference count
      is a map from paths to integers that [path_get] and [path_put] move by
      one, so a theorem can say that references balance.
    - [Rcu]: hash chains that lockless readers walk while writers insert,
      replace and unlink nodes; what a reader can reach, which nodes are
      doomed, and the safety lemmas of each store.
    - [Targets] (fs/namei_ext.c): the registry of selectable directories, a
      hash table with chains keyed by cgroup and target id.  [TargetRcu] has
      the same code store by store, with a reader between any two stores;
      [TargetRcuProps], [TargetLinear] and [TargetRefine] are its theorems.
    - [Scopes] (fs/namei_ext.c): for each cgroup the set of parents its policy
      manages, and the index of parents behind the fast path's prefilter;
      [ScopeFacts] has the invariant, [ScopeProps] the theorems.
      [ScopeRcu] has the same code store by store, with the sequence counter
      and grace periods, and the prefilter as a reader between any two stores;
      [ScopeRcuFacts], [ScopeGrace], [ScopeRcuProps], [ScopeLinear] and
      [ScopeLive] are its theorems.
    - [ScopeApi]: the class [PolicyScopes] of what attachments and dispatch
      use of scopes, and its laws [PolicyScopesLaws]; [ScopeSystem] is the
      instance.  [Cgroups], [Dispatch] and their theorems are proved against
      the class only.
    - [Cgroups] (kernel/bpf/cgroup.c): attach, detach, replacement,
      inheritance and release over the cgroup tree; [EffectiveFacts] has the
      reference definition of effective arrays, [CgroupFacts] the lemmas,
      [CgroupProps] the invariant.  [Dispatch], [DispatchProps]: which program
      answers for a task and a directory.
    - [System], [SystemProps]: attachments, scopes and cgroup lifetime
      together as one transition system [sys_step], with [reachable_inv].
    - [Lookup] (fs/namei_ext.c): one consultation; [Walk] (fs/namei.c): the
      walk of a component and of the last component of an open, with the
      redirect and the target applied, over what they call; [LookupProps],
      [WalkProps].
    - [PathWalk] (fs/namei.c): a whole lookup, [filename_lookup] and
      [filename_parentat]: path_init, link_path_walk, pick_link and the stack of
      links, dots, roots, the two modes of the walk and the switch between them
      (try_to_unlazy), terminate_walk.  The record [vfs] has what it calls.
      [PathInv] is the invariant (who holds which reference, the bounds of the
      stack, the mode), [PathRefs] and [PathSafe] preserve it by the parts of a
      step and by a component, [PathTotal] by the loops, with their
      termination; [PathFrame] says what no step of a lookup or an open changes; [PathExact] lifts the
      prefilter's exactness to pathnames.
    - [PathView]: the name space a policy makes, as a recursive function
      [resolve] over components with a decision for each name; [PathNames] on
      words and strings, [PathViewFacts] the law [shows] of a file system that
      does not change and [means] of a policy, one component; [PathViewProps]
      the inner loop, [PathResolve] a lookup; [PathPolicies] the decisions of
      programs, and of the program in effect in a running system.
    - [PathOpen] (fs/namei.c): a whole open, [do_file_open] and
      [do_file_open_root]: path_openat and its loop, lookup_open with
      atomic_open and creation, do_open with its checks, vfs_tmpfile, O_PATH.
      The record [vopen] has what it calls of file systems, security modules
      and delegations.  [PathOpenSafe] and [PathOpenTotal] keep the invariant
      through the last component and bound its loops, [PathOpenProps] has the
      whole open.  [PathOpenView] has the
      last component of an open in a name space ([final_open], the law
      [shows_open]), [PathOpenResolve] the resolution of an open, and
      [PathOpenPolicies] the opens of a running system.
    - [PathParent]: the walk to the parent of a pathname; [PathParentResolve]
      resolves it in a name space.  [PathPositive]: a lookup ends where there is
      an inode.
    - [PathChange] (fs/namei.c): the system calls that change names, mknod,
      mkdir, symlink, link, rmdir, unlink and rename, from the pathname to the
      calls of the file system, with the locks and references they hold.  The
      record [vchange] has what they call.  [PathChangeSafe] has a calculus of
      weakest preconditions, the laws [change_ok] and [tree_ok] of the dentry
      cache and the file systems, and a specification of each function;
      [PathChangeCalls] the retries and the system calls.
    - [Readdir] (fs/namei_ext.c, fs/readdir.c): iterate_dir with the
      extension's actor, filldir64 and getdents64; [ReaddirProps].
    - [Control]: the two control files.
    - [Harness] (runner/src/namei_ext_harness.c): keys, maps, control
      messages, batches, waiting for children; [HarnessProps].
    - [FuseDaemon] (experiments/agent_workspace): the user-space file system
      that agent_workspace_view is compared with, its callbacks and the pipe
      that switches its directory.
    - [Litmus] (experiments/namei_ext_target_lifetime): the probes that hold
      a reader at a borrowed target while a writer retires it; [LitmusProps].
    - [Example], [Witnesses], [WitnessesRcu], [WitnessesPath], [WitnessesOpen],
      [WitnessesChange], [WitnessesIo]: a concrete kernel, policies, schedules
      and messages at which the theorems with hypotheses are applied.

    Names are those of the sources.  A C function that fails returns its
    negative errno; functions that change state return it; allocations,
    copies from user space and other calls that can fail are inputs.

    ** What the theorems show

    - The system as a whole: in every reachable state each live cgroup's
      effective array, owner and scope activity are what its hierarchy
      prescribes ([system_consistent]); the static key and the prefilter never
      change the result of a walk ([system_walk_exact]), and without a policy
      the walk is the unextended one ([unmanaged_unchanged]).
    - Attachments: attach and detach keep that invariant whatever allocation
      fails, a failed attach is invisible, and the in-place computation of
      effective arrays is its specification ([effective_order]).
    - Scopes: operations refine sets of parents per cgroup, the prefilter has
      no false negatives and, below the hash, no spurious ones; references
      balance.
    - Concurrency: under every interleaving the prefilter and the lookup of a
      target answer as one of the states the index went through while they ran
      ([reader_linearizable], [target_lookup_linearizable]), never touch freed
      memory ([reader_never_at_freed_node], [target_in_use_alive]), and the
      stores of each writer compose to its operation
      ([stores_refine_operation], [registry_stores_refine]).  A reader left
      alone answers within a bound, and writers never block each other for
      good ([reader_returns_bounded], [scope_updates_never_deadlock]).
    - Dispatch and consultation: the program that runs, the order, and the
      checks that make any answer of a verified program harmless.
    - Pathnames: a lookup in a reachable system resolves the pathname in the
      tree in which the directories governed by the task's policy, and only
      those, have the program's view ([running_policy_is_name_space]); under
      any policy that means a view it is the recursive reference
      ([lookup_is_resolution]).  Whatever the policies answer and whatever
      interferes, references balance ([lookup_refs_balanced]), the stack of
      links stays in its memory ([link_stack_in_bounds]), and the lookup
      returns ([lookup_returns]).
    - Opens: an open that creates nothing gives the error of the recursive
      reference, or opens the path that the reference resolves the pathname to
      ([open_is_resolution], [running_policy_opens]); any open, creating or
      not, leaves its caller the reference of the open file or nothing
      ([open_refs_balanced]) and returns ([open_returns]).
    - Changes of names: the parent of a pathname is resolved in the name space
      of the policy, the last component is not ([running_policy_names_parent]).
      A system call returns with every lock and reference given back, takes no
      lock twice, and leaves every name alone unless it succeeds
      ([change_calls_safe]); whatever it moves, every directory still leads to
      a root ([directories_stay_rooted]).
    - Walk and enumeration: each action has the effect it names; an
      enumeration delivers the policy's view exactly once for any buffer.
    - Policies: the verifier's contract, agreement of lookups and listings,
      isolation between cgroups, round trips of aliases.
    - Control path: writes refine map updates, the harness's messages reach
      the kernel as meant, waits terminate.
    - The baseline: the FUSE daemon and the policy give the same answers to
      lookups ([fuse_answers_as_policy]); its control pipe is served whatever
      pieces the messages come in ([control_serves_requests]).

    ** Bounds

    Widths are explicit ([u32], [u64], [in_width]).  Loops over C arrays run
    over the array's length; the ascent to the root takes as many steps as
    cgroups have levels ([walk_parents]).  A lookup takes two bounds: rounds
    of its outer loop, of which 42 are enough (40 links, the pathname, and the
    error), and components of the inner one, of which the length of the
    pathname and 4096 for each link are enough ([lookup_returns]); attempts
    after the first keep the link count, so a lookup that restarts has fewer
    links left than one attempt has, and [answered] says so.  An open also
    takes a bound on the delegations it waits for and the dentries it
    invalidates under the lock: more than there are is enough ([settles],
    [open_returns]).  A system call that changes names takes bounds on the
    delegations it waits for and on the depth of directories ([can_change]); it
    tries twice after ESTALE.  The waits of the harness take fuel, of which
    [wait_control_terminates] gives an amount that suffices.

    ** Not modelled

    In [System] each operation of the registry, the scopes and the
    attachments is one step; [ScopeRcu] and [TargetRcu] justify that for the
    first two.  There, one reader stands for all (readers do not write),
    addresses are not reused, loads and stores are sequentially consistent,
    and finish phases may overlap with more operations than cgroup_mutex
    would allow.  Interleavings of a dispatch with the stores of an effective
    array are not modelled.  The dentry cache (__d_lookup, revalidation),
    mount traversal, permissions, sequence counters, delegations, file systems
    (link bodies, lookup, create, atomic_open, tmpfile, do_dentry_open,
    iterate_shared), sscanf, the hash functions and the helpers of libc and
    libbpf are parameters.  [shows], [shows_open], [env_ok] and [open_ok] state
    what their documentation promises of them.  The resolution of opens is for
    opens without O_CREAT on file systems without atomic_open.  Changes of names
    are modelled one call at a time: the dentry cache and the file systems may
    do what [change_ok] allows between two steps, which does not include
    renames of another task below unlocked directories.  The experiment
    drivers, the benchmarks, the other FUSE and wrapfs baselines, and the analysis
    scripts are not modelled: they drive and measure from outside what is
    modelled here. *)

From stdpp Require Export base tactics list gmap strings numbers relations.
From Stdlib Require Export Lia.

(** ** Prelude: integers, lists, automation *)

Open Scope Z_scope.

(** ** Machine integers

    C unsigned integers are integers of [Z] reduced modulo [2 ^ w]; every
    arithmetic operation of the code that can wrap is written with one of
    these reductions. *)

Definition wrap (w : Z) (z : Z) : Z := z mod 2 ^ w.
Definition u8 : Z → Z := wrap 8.
Definition u32 : Z → Z := wrap 32.
Definition u64 : Z → Z := wrap 64.

Definition UINT_MAX : Z := 4294967295.

Definition in_width (w : Z) (z : Z) : Prop := 0 ≤ z < 2 ^ w.

Lemma wrap_in_width w z : 0 ≤ w → in_width w (wrap w z).
Proof. intros Hw. apply Z.mod_pos_bound. lia. Qed.

Lemma wrap_small w z : in_width w z → wrap w z = z.
Proof. intros [??]. by apply Z.mod_small. Qed.

(** A counter of [w] bits keeps its parity, and two of its values taken less
    than a whole turn apart are equal only if the counter has not moved. *)
Lemma wrap_odd w z : 0 < w → Z.odd (wrap w z) = Z.odd z.
Proof.
  intros Hw. unfold wrap. rewrite Z.mod_eq by lia.
  replace (2 ^ w) with (2 * 2 ^ (w - 1)) by (rewrite <- Z.pow_succ_r by lia; f_equal; lia).
  rewrite <- Z.mul_assoc, Z.odd_sub, Z.odd_mul. simpl. by destruct (Z.odd z).
Qed.

Lemma wrap_close w a b :
  0 ≤ w → a ≤ b < a + 2 ^ w → wrap w b = wrap w a → b = a.
Proof.
  unfold wrap. intros Hw Hab He.
  assert ((b - a) mod 2 ^ w = 0) as Hz.
  { rewrite Zminus_mod, He, Z.sub_diag. apply Z.mod_0_l. lia. }
  rewrite Z.mod_small in Hz by lia. lia.
Qed.

Create HintDb namei discriminated.
Create Rewrite HintDb namei_rw.
#[export] Hint Resolve wrap_in_width : namei.

Lemma existsb_none {A} (f : A → bool) l :
  (∀ x, x ∈ l → f x = false) → existsb f l = false.
Proof.
  intros H. apply not_true_is_false. rewrite existsb_exists. intros (x & Hx & Hf).
  apply list_elem_of_In in Hx. rewrite H in Hf; done.
Qed.

(** ** Error codes

    Kernel functions return 0 or a negated error number; the numbers are those
    of errno.h. *)

Definition EPERM : Z := 1.
Definition ENOENT : Z := 2.
Definition EIO : Z := 5.
Definition E2BIG : Z := 7.
Definition EBADF : Z := 9.
Definition ECHILD : Z := 10.
Definition EAGAIN : Z := 11.
Definition ENOMEM : Z := 12.
Definition EACCES : Z := 13.
Definition EFAULT : Z := 14.
Definition EXDEV : Z := 18.
Definition EBUSY : Z := 16.
Definition EEXIST : Z := 17.
Definition ENODEV : Z := 19.
Definition ENOTDIR : Z := 20.
Definition EISDIR : Z := 21.
Definition EINVAL : Z := 22.
Definition ENAMETOOLONG : Z := 36.
Definition EROFS : Z := 30.
Definition EMLINK : Z := 31.
Definition ENOTEMPTY : Z := 39.
Definition ELOOP : Z := 40.
Definition EOVERFLOW : Z := 75.
Definition EOPNOTSUPP : Z := 95.
Definition ETIMEDOUT : Z := 110.
Definition ESTALE : Z := 116.
Definition ENOTRECOVERABLE : Z := 131.
Definition EOPENSTALE : Z := 518.

(** ** Bytes and byte strings *)

Definition is_byte (b : Z) : Prop := in_width 8 b.

Fixpoint bytes_of_string (s : String.string) : list Z :=
  match s with
  | String.EmptyString => []
  | String.String c s' => Z.of_nat (Ascii.nat_of_ascii c) :: bytes_of_string s'
  end.

(** The numeral of a C character literal. *)
Definition chr (s : String.string) : Z :=
  match s with
  | String.EmptyString => 0
  | String.String c _ => Z.of_nat (Ascii.nat_of_ascii c)
  end.

(** [memcmp]-style comparison of two byte strings. *)
Definition bytes_eqb (a b : list Z) : bool := bool_decide (a = b).

Lemma bytes_eqb_eq a b : bytes_eqb a b = true ↔ a = b.
Proof. unfold bytes_eqb. apply bool_decide_eq_true. Qed.

(** A buffer of [n] bytes holding [src] from its start, zero elsewhere. *)
Definition zero_pad (n : nat) (src : list Z) : list Z :=
  take n src ++ replicate (n - length src) 0.

Lemma length_zero_pad n src : length (zero_pad n src) = n.
Proof. unfold zero_pad. rewrite length_app, length_take, length_replicate. lia. Qed.

Lemma zero_pad_inj n a b :
  length a = length b → (length a ≤ n)%nat → zero_pad n a = zero_pad n b → a = b.
Proof.
  unfold zero_pad. intros Hl Hn Heq. rewrite !take_ge in Heq by lia.
  rewrite Hl in Heq. by simplify_list_eq.
Qed.

(** ** Lists *)

Lemma list_eq_total (a b : list Z) :
  length a = length b → (∀ i, (i < length a)%nat → a !!! i = b !!! i) → a = b.
Proof.
  intros Hl Hi. apply list_eq. intros i.
  destruct (decide (i < length a)%nat) as [H|H].
  - specialize (Hi i H). rewrite !list_lookup_total_alt in Hi.
    destruct (lookup_lt_is_Some_2 a i H) as [x Hx].
    destruct (lookup_lt_is_Some_2 b i ltac:(lia)) as [y Hy].
    rewrite Hx, Hy in *. simpl in Hi. by subst.
  - rewrite !lookup_ge_None_2 by lia. done.
Qed.

Lemma filter_all {A} (P : A → Prop) `{∀ x, Decision (P x)} (l : list A) :
  (∀ x, x ∈ l → P x) → filter P l = l.
Proof.
  induction l as [|x l IH]; intros Hl; [done|].
  rewrite filter_cons, decide_True by (apply Hl; left).
  rewrite IH; [done|]. intros y Hy. apply Hl. by right.
Qed.

Lemma filter_none {A} (P : A → Prop) `{∀ x, Decision (P x)} (l : list A) :
  (∀ x, x ∈ l → ¬ P x) → filter P l = [].
Proof.
  induction l as [|x l IH]; intros Hl; [done|].
  rewrite filter_cons, decide_False by (apply Hl; left).
  apply IH. intros y Hy. apply Hl. by right.
Qed.

Lemma filter_ext_in {A} (P Q : A → Prop) `{∀ x, Decision (P x), ∀ x, Decision (Q x)}
  (l : list A) : (∀ x, x ∈ l → P x ↔ Q x) → filter P l = filter Q l.
Proof.
  induction l as [|x l IH]; intros Hl; [done|]. rewrite !filter_cons.
  rewrite IH by (intros y Hy; apply Hl; by right).
  destruct (Hl x) as [H1 H2]; [left|]. repeat case_decide; tauto.
Qed.

(** ** A C array written by a fully unrolled [for] loop

    [array_init n f] is the array whose cell [i] is [f i]. *)
Definition array_init {A} (n : nat) (f : nat → A) : list A := f <$> seq 0 n.

Lemma length_array_init {A} n (f : nat → A) : length (array_init n f) = n.
Proof. unfold array_init. by rewrite length_fmap, length_seq. Qed.

Lemma lookup_array_init {A} n (f : nat → A) i :
  (i < n)%nat → array_init n f !! i = Some (f i).
Proof.
  intros Hi. unfold array_init. rewrite list_lookup_fmap, lookup_seq_lt by done. done.
Qed.

Lemma lookup_total_array_init `{Inhabited A} n (f : nat → A) i :
  (i < n)%nat → array_init n f !!! i = f i.
Proof.
  intros Hi. rewrite list_lookup_total_alt, lookup_array_init by done. done.
Qed.

Lemma array_init_ext {A} n (f g : nat → A) :
  (∀ i, (i < n)%nat → f i = g i) → array_init n f = array_init n g.
Proof.
  intros Hfg. unfold array_init. apply list_fmap_ext.
  intros i x Hx. apply lookup_seq in Hx as [-> ?]. apply Hfg. lia.
Qed.

#[export] Hint Rewrite @length_array_init @length_zero_pad : namei_rw.

(** ** Tactics *)

(** Split every conditional and match of the goal, discharging the branches
    that the context refutes. *)
Ltac split_ifs :=
  repeat (case_match || case_decide || case_bool_decide); simplify_eq; try done.

Ltac unfold_bools :=
  repeat match goal with
  | H : bool_decide _ = true |- _ => apply bool_decide_eq_true in H
  | H : bool_decide _ = false |- _ => apply bool_decide_eq_false in H
  | H : (_ && _)%bool = true |- _ => apply andb_true_iff in H as [??]
  | H : (_ || _)%bool = false |- _ => apply orb_false_iff in H as [??]
  | H : negb _ = true |- _ => apply negb_true_iff in H
  | H : negb _ = false |- _ => apply negb_false_iff in H
  | H : (_ =? _) = true |- _ => apply Z.eqb_eq in H
  | H : (_ =? _) = false |- _ => apply Z.eqb_neq in H
  | H : (_ <? _) = true |- _ => apply Z.ltb_lt in H
  | H : (_ <? _) = false |- _ => apply Z.ltb_ge in H
  | H : (_ <=? _) = true |- _ => apply Z.leb_le in H
  | H : (_ <=? _) = false |- _ => apply Z.leb_gt in H
  end.
