(* ===== verification/Abi.v ===== *)
(** * The policy ABI

    The context structure shared by the kernel and the policies
    (bpf/include/namei_ext.h and include/uapi/linux/bpf.h), its C layout, the
    verifier's access check [namei_ext_is_valid_access] (kernel/bpf/cgroup.c)
    and the interface a verified policy program offers the dispatcher. *)

From S2P Require Import Prelude.

(** ** Constants *)

Definition BPF_NAMEI_EXT_NAME_MAX : Z := 64.
Definition NAME_MAX_nat : nat := 64.
#[global] Arguments NAME_MAX_nat : simpl never.

Definition BPF_NAMEI_EXT_LOOKUP : Z := 0.
Definition BPF_NAMEI_EXT_READDIR : Z := 1.

Definition BPF_NAMEI_EXT_PASS : Z := 0.
Definition BPF_NAMEI_EXT_REDIRECT : Z := 1.
Definition BPF_NAMEI_EXT_HIDE : Z := 2.
Definition BPF_NAMEI_EXT_SELECT_TARGET : Z := 3.

(** ** The context structure *)

Record bpf_namei_ext_ctx := mk_ctx {
  ctx_event : Z;
  ctx_flags : Z;
  ctx_name_len : Z;
  ctx_name_hash : Z;
  ctx_cgroup_id : Z;
  ctx_name : list Z;
  ctx_redirect_name_len : Z;
  ctx_target_id : Z;
  ctx_redirect_name : list Z;
  ctx_parent_dev : Z;
  ctx_parent_ino : Z;
  ctx_parent_generation : Z;
  ctx_parent_flags : Z
}.

Definition set_cgroup_id (v : Z) (c : bpf_namei_ext_ctx) : bpf_namei_ext_ctx :=
  mk_ctx (ctx_event c) (ctx_flags c) (ctx_name_len c) (ctx_name_hash c) v
    (ctx_name c) (ctx_redirect_name_len c) (ctx_target_id c) (ctx_redirect_name c)
    (ctx_parent_dev c) (ctx_parent_ino c) (ctx_parent_generation c)
    (ctx_parent_flags c).

Definition set_event (v : Z) (c : bpf_namei_ext_ctx) : bpf_namei_ext_ctx :=
  mk_ctx v (ctx_flags c) (ctx_name_len c) (ctx_name_hash c) (ctx_cgroup_id c)
    (ctx_name c) (ctx_redirect_name_len c) (ctx_target_id c) (ctx_redirect_name c)
    (ctx_parent_dev c) (ctx_parent_ino c) (ctx_parent_generation c)
    (ctx_parent_flags c).

(** The three output fields: what a policy may write. *)
Definition set_outputs (len tid : Z) (rname : list Z) (c : bpf_namei_ext_ctx)
  : bpf_namei_ext_ctx :=
  mk_ctx (ctx_event c) (ctx_flags c) (ctx_name_len c) (ctx_name_hash c)
    (ctx_cgroup_id c) (ctx_name c) len tid rname
    (ctx_parent_dev c) (ctx_parent_ino c) (ctx_parent_generation c)
    (ctx_parent_flags c).

Definition set_target_id (v : Z) (c : bpf_namei_ext_ctx) : bpf_namei_ext_ctx :=
  set_outputs (ctx_redirect_name_len c) v (ctx_redirect_name c) c.
Definition set_redirect_name_len (v : Z) (c : bpf_namei_ext_ctx) : bpf_namei_ext_ctx :=
  set_outputs v (ctx_target_id c) (ctx_redirect_name c) c.
Definition set_redirect_name (v : list Z) (c : bpf_namei_ext_ctx) : bpf_namei_ext_ctx :=
  set_outputs (ctx_redirect_name_len c) (ctx_target_id c) v c.
(** [ctx->redirect_name[i] = b] *)
Definition set_redirect_byte (i : nat) (b : Z) (c : bpf_namei_ext_ctx)
  : bpf_namei_ext_ctx :=
  set_redirect_name (<[i := b]> (ctx_redirect_name c)) c.

(** The input fields, and contexts that agree on them. *)
Definition ctx_inputs (c : bpf_namei_ext_ctx) :=
  (ctx_event c, ctx_flags c, ctx_name_len c, ctx_name_hash c, ctx_cgroup_id c,
   ctx_name c, (ctx_parent_dev c, ctx_parent_ino c, ctx_parent_generation c,
   ctx_parent_flags c)).

Definition same_inputs (c c' : bpf_namei_ext_ctx) : Prop :=
  ctx_inputs c = ctx_inputs c'.

#[export] Instance same_inputs_equiv : Equivalence same_inputs.
Proof. split; unfold same_inputs; intros ?; intros; congruence. Qed.

Lemma same_inputs_outputs l t r c : same_inputs c (set_outputs l t r c).
Proof. done. Qed.
#[export] Hint Resolve same_inputs_outputs : namei.

(** The C arrays have their declared sizes and every cell its C type. *)
Record ctx_wf (c : bpf_namei_ext_ctx) : Prop := {
  wf_event : in_width 32 (ctx_event c);
  wf_name_len : in_width 32 (ctx_name_len c);
  wf_name : length (ctx_name c) = NAME_MAX_nat;
  wf_redirect_name : length (ctx_redirect_name c) = NAME_MAX_nat;
}.

(** ** C layout *)

Inductive ctx_field :=
  | F_event | F_flags | F_name_len | F_name_hash | F_cgroup_id | F_name
  | F_redirect_name_len | F_target_id | F_redirect_name
  | F_parent_dev | F_parent_ino | F_parent_generation | F_parent_flags.

#[export] Instance ctx_field_eq_dec : EqDecision ctx_field.
Proof. intros [] []; first [left; reflexivity | right; discriminate]. Defined.

(** In declaration order. *)
Definition ctx_fields : list ctx_field :=
  [F_event; F_flags; F_name_len; F_name_hash; F_cgroup_id; F_name;
   F_redirect_name_len; F_target_id; F_redirect_name;
   F_parent_dev; F_parent_ino; F_parent_generation; F_parent_flags].

Definition field_size (f : ctx_field) : Z :=
  match f with
  | F_event | F_flags | F_name_len | F_name_hash
  | F_redirect_name_len | F_target_id
  | F_parent_generation | F_parent_flags => 4
  | F_cgroup_id | F_parent_dev | F_parent_ino => 8
  | F_name | F_redirect_name => BPF_NAMEI_EXT_NAME_MAX
  end.

Definition field_align (f : ctx_field) : Z :=
  match f with
  | F_name | F_redirect_name => 1
  | f => field_size f
  end.

Definition align_up (n a : Z) : Z := (n + a - 1) / a * a.

(** The C layout rule: a field starts at the next multiple of its alignment. *)
Fixpoint offset_from (fs : list ctx_field) (cur : Z) (f : ctx_field) : Z :=
  match fs with
  | [] => cur
  | g :: fs' =>
      let o := align_up cur (field_align g) in
      if decide (g = f) then o else offset_from fs' (o + field_size g) f
  end.

Definition offsetof (f : ctx_field) : Z := offset_from ctx_fields 0 f.

Definition sizeof_ctx : Z :=
  align_up (offsetof F_parent_flags + field_size F_parent_flags) 8.

(** [case bpf_ctx_range(struct bpf_namei_ext_ctx, f)]: the bytes of [f]. *)
Definition bpf_ctx_range (f : ctx_field) (off : Z) : bool :=
  (offsetof f <=? off) && (off <? offsetof f + field_size f).

(** ** The verifier's access check *)

Section access.
(** [bpf_ctx_narrow_access_ok] of include/linux/filter.h. *)
Variable narrow_access_ok : Z → Z → Z → bool.

(** The result is the verdict and the field size recorded in [info]. *)
Definition namei_ext_is_valid_access (off size : Z) (is_write : bool)
  : bool * option Z :=
  let name_off := offsetof F_name in
  let redirect_off := offsetof F_redirect_name in
  if (off <? 0) || (sizeof_ctx <? off + size) then (false, None) else
  if is_write then
    if (off =? offsetof F_redirect_name_len) && (size =? 4) then (true, None) else
    if (off =? offsetof F_target_id) && (size =? 4) then (true, None) else
    if (redirect_off <=? off) &&
       (off + size <=? redirect_off + BPF_NAMEI_EXT_NAME_MAX)
    then ((size =? 1) || (size =? 2) || (size =? 4) || (size =? 8), None)
    else (false, None)
  else
  if (name_off <=? off) && (off + size <=? name_off + BPF_NAMEI_EXT_NAME_MAX)
  then (size =? 1, None) else
  if (redirect_off <=? off) &&
     (off + size <=? redirect_off + BPF_NAMEI_EXT_NAME_MAX)
  then (size =? 1, None) else
  if negb (Z.rem off size =? 0) then (false, None) else
  if existsb (λ f, bpf_ctx_range f off)
       [F_event; F_flags; F_name_len; F_name_hash; F_redirect_name_len; F_target_id]
  then (narrow_access_ok off size 4, Some 4) else
  if existsb (λ f, bpf_ctx_range f off) [F_cgroup_id; F_parent_dev; F_parent_ino]
  then (narrow_access_ok off size 8, Some 8) else
  if existsb (λ f, bpf_ctx_range f off) [F_parent_generation; F_parent_flags]
  then (narrow_access_ok off size 4, Some 4)
  else (false, None).

Definition writable_field (f : ctx_field) : bool :=
  bool_decide (f ∈ [F_redirect_name_len; F_target_id; F_redirect_name]).

(** [off, off + size) lies inside the field [f]. *)
Definition within_field (off size : Z) (f : ctx_field) : Prop :=
  offsetof f ≤ off ∧ off + size ≤ offsetof f + field_size f.

End access.

(** The return values the verifier accepts from a namei_ext program
    ([retval_range] in kernel/bpf/verifier.c). *)
Definition namei_ext_retval_ok (r : Z) : bool :=
  (BPF_NAMEI_EXT_PASS <=? r) && (r <=? BPF_NAMEI_EXT_SELECT_TARGET).

(** ** Programs

    A program is a transformer of the BPF maps it can reach (of type [W]) and
    of its context, with a return value. *)

Definition bpf_program (W : Type) : Type :=
  W → bpf_namei_ext_ctx → Z * W * bpf_namei_ext_ctx.

(** What the verifier guarantees about a loaded program: it leaves the input
    fields of its context alone, keeps the context well formed, and returns an
    action. *)
Class VerifiedProgram {W} (p : bpf_program W) : Prop := {
  prog_inputs : ∀ w c, same_inputs c (p w c).2;
  prog_wf : ∀ w c, ctx_wf c → ctx_wf (p w c).2;
  prog_retval : ∀ w c, namei_ext_retval_ok (p w c).1.1 = true;
}.
