(* ===== verification/PolicyLib.v ===== *)
(** * The policy library (bpf/include/namei_ext_policy.h)

    BPF maps, the monad policies are written in, the component key and the
    helpers every policy shares. *)

From S2P Require Import Prelude Abi.

(** ** Keys and rules *)

Record namei_ext_component_key := mk_key {
  key_event : Z;
  key_name_len : Z;
  key_cgroup_id : Z;
  key_parent_dev : Z;
  key_parent_ino : Z;
  key_name : list Z
}.

#[export] Instance component_key_eq_dec : EqDecision namei_ext_component_key.
Proof. solve_decision. Defined.
#[export] Instance component_key_countable : Countable namei_ext_component_key.
Proof.
  refine (inj_countable'
    (λ k, (key_event k, key_name_len k, key_cgroup_id k, key_parent_dev k,
           key_parent_ino k, key_name k))
    (λ '(e, l, g, d, i, n), mk_key e l g d i n) _).
  by intros [].
Defined.

(** [struct namei_ext_component_key key = {};] *)
Definition zero_key : namei_ext_component_key :=
  mk_key 0 0 0 0 0 (replicate NAME_MAX_nat 0).

Definition set_key_event (v : Z) (k : namei_ext_component_key) :=
  mk_key v (key_name_len k) (key_cgroup_id k) (key_parent_dev k)
    (key_parent_ino k) (key_name k).
Definition set_key_cgroup_id (v : Z) (k : namei_ext_component_key) :=
  mk_key (key_event k) (key_name_len k) v (key_parent_dev k)
    (key_parent_ino k) (key_name k).

Record namei_ext_redirect_rule := mk_rule {
  rule_action : Z;
  rule_target_len : Z;
  rule_branch : Z;
  rule_flags : Z;
  rule_target : list Z
}.

(** ** Maps

    A BPF hash map is a finite map; a BPF array is a list of [max_entries]
    cells.  [bpf_map_lookup_elem] of an index past the end is NULL. *)

Abbreviation bpf_hash V := (gmap namei_ext_component_key V).
Abbreviation bpf_array := (list Z).

Definition array_lookup (a : bpf_array) (key : Z) : option Z :=
  if bool_decide (0 ≤ key) then a !! Z.to_nat key else None.

(** [__sync_fetch_and_add(value, 1)] on a __u64 cell, when the key is in range. *)
Definition array_count (a : bpf_array) (key : Z) : bpf_array :=
  match array_lookup a key with
  | Some v => <[Z.to_nat key := u64 (v + 1)]> a
  | None => a
  end.

(** ** The policy monad: maps and context *)

Definition policy_m (S A : Type) : Type :=
  S → bpf_namei_ext_ctx → A * S * bpf_namei_ext_ctx.

#[export] Instance policy_ret {S} : MRet (policy_m S) := λ A a s c, (a, s, c).
#[export] Instance policy_bind {S} : MBind (policy_m S) := λ A B f m s c,
  let '(a, s', c') := m s c in f a s' c'.

Definition get_ctx {S} : policy_m S bpf_namei_ext_ctx := λ s c, (c, s, c).
Definition get_maps {S} : policy_m S S := λ s c, (s, s, c).
Definition modify_ctx {S} (f : bpf_namei_ext_ctx → bpf_namei_ext_ctx)
  : policy_m S unit := λ s c, (tt, s, f c).
Definition modify_maps {S} (f : S → S) : policy_m S unit := λ s c, (tt, f s, c).

(** ** Helpers of the header *)

(** The index loop is unrolled over the 64 cells of the name. *)
Definition namei_ext_build_component_key (c : bpf_namei_ext_ctx)
  : namei_ext_component_key :=
  mk_key (ctx_event c) (ctx_name_len c) (ctx_cgroup_id c) (ctx_parent_dev c)
    (ctx_parent_ino c)
    (array_init NAME_MAX_nat (λ i,
       if bool_decide (Z.of_nat i < ctx_name_len c) then ctx_name c !!! i else 0)).

(** Compare from index [i]; [fuel] is the number of unrolled iterations left. *)
Fixpoint name_is_loop (fuel i : nat) (c_name lit : list Z) (len : Z) : bool :=
  match fuel with
  | O => true
  | S fuel' =>
      if len <=? Z.of_nat i then true
      else if negb (c_name !!! i =? lit !!! i) then false
      else name_is_loop fuel' (S i) c_name lit len
  end.

Definition namei_ext_name_is (c : bpf_namei_ext_ctx) (lit : list Z) (len : Z) : bool :=
  if negb (ctx_name_len c =? len) then false
  else name_is_loop NAME_MAX_nat 0 (ctx_name c) lit len.

(** [namei_ext_is(ctx, "literal")] *)
Definition namei_ext_is (c : bpf_namei_ext_ctx) (literal : String.string) : bool :=
  let lit := bytes_of_string literal in
  namei_ext_name_is c lit (Z.of_nat (length lit)).

Definition namei_ext_set_redirect (target : list Z) (len : Z)
  (c : bpf_namei_ext_ctx) : bpf_namei_ext_ctx :=
  set_redirect_name
    (array_init NAME_MAX_nat (λ i,
       if bool_decide (Z.of_nat i < len) then target !!! i
       else ctx_redirect_name c !!! i))
    (set_redirect_name_len len c).

(** [namei_ext_redirect_literal(ctx, "literal")] *)
Definition namei_ext_redirect_literal {S} (literal : String.string) : policy_m S unit :=
  let lit := bytes_of_string literal in
  modify_ctx (namei_ext_set_redirect lit (Z.of_nat (length lit))).

Definition namei_ext_apply_rule {S} (rule : option namei_ext_redirect_rule)
  : policy_m S Z :=
  match rule with
  | None => mret BPF_NAMEI_EXT_PASS
  | Some rule =>
      if rule_action rule =? BPF_NAMEI_EXT_HIDE then mret BPF_NAMEI_EXT_HIDE else
      if negb (rule_action rule =? BPF_NAMEI_EXT_REDIRECT)
      then mret BPF_NAMEI_EXT_PASS else
      _ ← modify_ctx (namei_ext_set_redirect (rule_target rule) (rule_target_len rule));
      mret BPF_NAMEI_EXT_REDIRECT
  end.
