(* ===== verification/PoliciesBasic.v ===== *)
(** * Policies without rule tables (bpf/policies/)

    pass_only, fxmark_pass, hide_secret, select_portal, fxmark_select,
    redirect_alias, table_redirect, agent_workspace_view and the fault
    injection policies; one Module per file. *)

From S2P Require Import Prelude Abi PolicyLib.

(** Both events of the interface. *)
Definition is_lookup (c : bpf_namei_ext_ctx) : bool :=
  ctx_event c =? BPF_NAMEI_EXT_LOOKUP.
Definition is_readdir (c : bpf_namei_ext_ctx) : bool :=
  ctx_event c =? BPF_NAMEI_EXT_READDIR.

(** [ctx->target_id = id; return BPF_NAMEI_EXT_SELECT_TARGET;] *)
Definition select_target {S} (id : Z) : policy_m S Z :=
  _ ← modify_ctx (set_target_id id); mret BPF_NAMEI_EXT_SELECT_TARGET.

Module PassOnly.

Definition pass_only_policy : policy_m unit Z := mret BPF_NAMEI_EXT_PASS.

Definition fxmark_pass_policy : policy_m unit Z := mret BPF_NAMEI_EXT_PASS.

End PassOnly.

Module HideSecret.

Definition hide_secret_policy : policy_m unit Z :=
  c ← get_ctx;
  if (is_lookup c || is_readdir c) && namei_ext_is c "secret"
  then mret BPF_NAMEI_EXT_HIDE
  else mret BPF_NAMEI_EXT_PASS.

End HideSecret.

Module TableRedirect.

Definition table_redirect_policy : policy_m (bpf_hash namei_ext_redirect_rule) Z :=
  c ← get_ctx;
  exact_redirects ← get_maps;
  let key := namei_ext_build_component_key c in
  namei_ext_apply_rule (exact_redirects !! key).

End TableRedirect.

Module SelectPortal.

Definition select_portal_policy : policy_m unit Z :=
  c ← get_ctx;
  if is_lookup c && namei_ext_is c "portal" then select_target 1 else
  if is_lookup c && namei_ext_is c "selected-file" then select_target 2 else
  if is_lookup c && namei_ext_is c "selected-exec" then select_target 3 else
  if is_lookup c && namei_ext_is c "pinned-file" then select_target 4 else
  mret BPF_NAMEI_EXT_PASS.

Definition fxmark_select_policy : policy_m unit Z :=
  c ← get_ctx;
  if is_lookup c && namei_ext_is c "view" then select_target 1 else
  mret BPF_NAMEI_EXT_PASS.

End SelectPortal.

Module RedirectAlias.

Definition name_is_tool (c : bpf_namei_ext_ctx) : bool :=
  if negb (ctx_name_len c =? 4) then false else
  (ctx_name c !!! 0%nat =? chr "t") && (ctx_name c !!! 1%nat =? chr "o") &&
  (ctx_name c !!! 2%nat =? chr "o") && (ctx_name c !!! 3%nat =? chr "l").

Definition name_is_tool_real (c : bpf_namei_ext_ctx) : bool :=
  if negb (ctx_name_len c =? 9) then false else
  (ctx_name c !!! 0%nat =? chr "t") && (ctx_name c !!! 1%nat =? chr "o") &&
  (ctx_name c !!! 2%nat =? chr "o") && (ctx_name c !!! 3%nat =? chr "l") &&
  (ctx_name c !!! 4%nat =? chr ".") && (ctx_name c !!! 5%nat =? chr "r") &&
  (ctx_name c !!! 6%nat =? chr "e") && (ctx_name c !!! 7%nat =? chr "a") &&
  (ctx_name c !!! 8%nat =? chr "l").

Definition redirect_to_tool : policy_m unit unit :=
  _ ← modify_ctx (set_redirect_name_len 4);
  _ ← modify_ctx (set_redirect_byte 0 (chr "t"));
  _ ← modify_ctx (set_redirect_byte 1 (chr "o"));
  _ ← modify_ctx (set_redirect_byte 2 (chr "o"));
  modify_ctx (set_redirect_byte 3 (chr "l")).

Definition redirect_to_tool_real : policy_m unit unit :=
  _ ← modify_ctx (set_redirect_name_len 9);
  _ ← modify_ctx (set_redirect_byte 0 (chr "t"));
  _ ← modify_ctx (set_redirect_byte 1 (chr "o"));
  _ ← modify_ctx (set_redirect_byte 2 (chr "o"));
  _ ← modify_ctx (set_redirect_byte 3 (chr "l"));
  _ ← modify_ctx (set_redirect_byte 4 (chr "."));
  _ ← modify_ctx (set_redirect_byte 5 (chr "r"));
  _ ← modify_ctx (set_redirect_byte 6 (chr "e"));
  _ ← modify_ctx (set_redirect_byte 7 (chr "a"));
  modify_ctx (set_redirect_byte 8 (chr "l")).

Definition redirect_alias_policy : policy_m unit Z :=
  c ← get_ctx;
  if is_lookup c && name_is_tool c
  then _ ← redirect_to_tool_real; mret BPF_NAMEI_EXT_REDIRECT else
  if is_readdir c && name_is_tool_real c
  then _ ← redirect_to_tool; mret BPF_NAMEI_EXT_REDIRECT
  else mret BPF_NAMEI_EXT_PASS.

End RedirectAlias.

Module AgentWorkspaceView.

Definition AW_COUNTER_TOTAL : Z := 0.
Definition AW_COUNTER_LOOKUP : Z := 1.
Definition AW_COUNTER_READDIR : Z := 2.
Definition AW_COUNTER_SELECT_WS_LOOKUP : Z := 3.
Definition AW_COUNTER_HIDE_DELETED_LOOKUP : Z := 4.
Definition AW_COUNTER_HIDE_DELETED_READDIR : Z := 5.
Definition AW_COUNTER_PASS : Z := 6.
Definition AW_COUNTER_MAX : nat := 7.

(** The policy's only map is the array [aw_counters]. *)
Definition aw_count_event (key : Z) : policy_m bpf_array unit :=
  modify_maps (λ aw_counters, array_count aw_counters key).

Definition agent_workspace_view_policy : policy_m bpf_array Z :=
  _ ← aw_count_event AW_COUNTER_TOTAL;
  c ← get_ctx;
  _ ← (if is_lookup c then aw_count_event AW_COUNTER_LOOKUP else mret tt);
  _ ← (if is_readdir c then aw_count_event AW_COUNTER_READDIR else mret tt);
  if is_lookup c && namei_ext_is c "ws" then
    _ ← modify_ctx (set_target_id 1);
    _ ← aw_count_event AW_COUNTER_SELECT_WS_LOOKUP;
    mret BPF_NAMEI_EXT_SELECT_TARGET
  else if (is_lookup c || is_readdir c) && namei_ext_is c "deleted.txt" then
    _ ← (if is_lookup c
         then aw_count_event AW_COUNTER_HIDE_DELETED_LOOKUP
         else aw_count_event AW_COUNTER_HIDE_DELETED_READDIR);
    mret BPF_NAMEI_EXT_HIDE
  else
    _ ← aw_count_event AW_COUNTER_PASS;
    mret BPF_NAMEI_EXT_PASS.

End AgentWorkspaceView.

Module Rq3Faults.

Definition RQ3_FAULT_PASS : Z := 0.
Definition RQ3_FAULT_REDIRECT_LEN_ZERO : Z := 1.
Definition RQ3_FAULT_REDIRECT_LEN_65 : Z := 2.
Definition RQ3_FAULT_REDIRECT_DOT : Z := 3.
Definition RQ3_FAULT_REDIRECT_DOT_DOT : Z := 4.
Definition RQ3_FAULT_REDIRECT_SLASH : Z := 5.
Definition RQ3_FAULT_REDIRECT_EMBEDDED_NUL : Z := 6.
Definition RQ3_FAULT_TARGET_ZERO : Z := 7.
Definition RQ3_FAULT_TARGET_UNREGISTERED : Z := 8.
Definition RQ3_FAULT_SELECT_READDIR : Z := 9.
Definition RQ3_FAULT_SELECT_CREATE : Z := 10.
Definition RQ3_FAULT_SELECT_FINAL_OPEN : Z := 11.
Definition RQ3_FAULT_REDIRECT_CREATE : Z := 12.
Definition RQ3_UNREGISTERED_TARGET_ID : Z := 4294967295.

Definition emit_redirect_fault (mode : Z) : policy_m bpf_array Z :=
  if mode =? RQ3_FAULT_REDIRECT_LEN_ZERO then
    _ ← modify_ctx (set_redirect_name_len 0);
    mret BPF_NAMEI_EXT_REDIRECT
  else if mode =? RQ3_FAULT_REDIRECT_LEN_65 then
    _ ← modify_ctx (set_redirect_name_len (BPF_NAMEI_EXT_NAME_MAX + 1));
    _ ← modify_ctx (set_redirect_byte 0 (chr "x"));
    mret BPF_NAMEI_EXT_REDIRECT
  else if mode =? RQ3_FAULT_REDIRECT_DOT then
    _ ← modify_ctx (set_redirect_name_len 1);
    _ ← modify_ctx (set_redirect_byte 0 (chr "."));
    mret BPF_NAMEI_EXT_REDIRECT
  else if mode =? RQ3_FAULT_REDIRECT_DOT_DOT then
    _ ← modify_ctx (set_redirect_name_len 2);
    _ ← modify_ctx (set_redirect_byte 0 (chr "."));
    _ ← modify_ctx (set_redirect_byte 1 (chr "."));
    mret BPF_NAMEI_EXT_REDIRECT
  else if mode =? RQ3_FAULT_REDIRECT_SLASH then
    _ ← modify_ctx (set_redirect_name_len 3);
    _ ← modify_ctx (set_redirect_byte 0 (chr "a"));
    _ ← modify_ctx (set_redirect_byte 1 (chr "/"));
    _ ← modify_ctx (set_redirect_byte 2 (chr "b"));
    mret BPF_NAMEI_EXT_REDIRECT
  else if mode =? RQ3_FAULT_REDIRECT_EMBEDDED_NUL then
    _ ← modify_ctx (set_redirect_name_len 3);
    _ ← modify_ctx (set_redirect_byte 0 (chr "a"));
    _ ← modify_ctx (set_redirect_byte 1 0);
    _ ← modify_ctx (set_redirect_byte 2 (chr "b"));
    mret BPF_NAMEI_EXT_REDIRECT
  else mret BPF_NAMEI_EXT_PASS.

(** The map is the one-cell array [rq3_fault_mode]. *)
Definition rq3_fault_injection_policy : policy_m bpf_array Z :=
  rq3_fault_mode ← get_maps;
  c ← get_ctx;
  match array_lookup rq3_fault_mode 0 with
  | None => mret BPF_NAMEI_EXT_PASS
  | Some mode =>
      if mode =? RQ3_FAULT_PASS then mret BPF_NAMEI_EXT_PASS else
      if mode =? RQ3_FAULT_SELECT_READDIR then
        if is_readdir c then mret BPF_NAMEI_EXT_SELECT_TARGET
        else mret BPF_NAMEI_EXT_PASS
      else if (RQ3_FAULT_REDIRECT_LEN_ZERO <=? mode) &&
              (mode <=? RQ3_FAULT_REDIRECT_EMBEDDED_NUL) then
        if negb (namei_ext_is c "rq3_redirect") then mret BPF_NAMEI_EXT_PASS
        else emit_redirect_fault mode
      else if negb (is_lookup c) then mret BPF_NAMEI_EXT_PASS
      else if (mode =? RQ3_FAULT_TARGET_ZERO) && namei_ext_is c "rq3_target" then
        select_target 0
      else if (mode =? RQ3_FAULT_TARGET_UNREGISTERED) && namei_ext_is c "rq3_target" then
        select_target RQ3_UNREGISTERED_TARGET_ID
      else if (mode =? RQ3_FAULT_SELECT_CREATE) && namei_ext_is c "rq3_select_create" then
        select_target 1
      else if (mode =? RQ3_FAULT_SELECT_FINAL_OPEN) && namei_ext_is c "rq3_select_open" then
        select_target 1
      else if (mode =? RQ3_FAULT_REDIRECT_CREATE) && namei_ext_is c "rq3_redirect_create" then
        _ ← namei_ext_redirect_literal "redirected_create";
        mret BPF_NAMEI_EXT_REDIRECT
      else mret BPF_NAMEI_EXT_PASS
  end.

Definition rq3_invalid_action_policy : policy_m unit Z :=
  mret (BPF_NAMEI_EXT_SELECT_TARGET + 1).

Definition rq3_invalid_ctx_write_policy : policy_m unit Z :=
  _ ← modify_ctx (set_event BPF_NAMEI_EXT_LOOKUP);
  mret BPF_NAMEI_EXT_PASS.

End Rq3Faults.
