(* ===== verification/PoliciesTable.v ===== *)
(** * Policies driven by component tables (bpf/policies/)

    One Module per file: the maps as a record, the counter indices, and the
    program.  [count_array] / [count_event] add one to a cell of a counter
    array. *)

From S2P Require Import Prelude Abi PolicyLib PoliciesBasic.

(** [!value || !*value] is false *)
Definition nonzero (v : option Z) : bool :=
  match v with Some x => negb (x =? 0) | None => false end.

Module CheckpointRestoreMigration.

Record cr_maps := mk_cr {
  checkpoint_restore_views : bpf_hash Z;
  checkpoint_restore_counters : bpf_array
}.

Definition CR_COUNTER_TOTAL : Z := 0.
Definition CR_COUNTER_LOOKUP : Z := 1.
Definition CR_COUNTER_SELECT : Z := 2.
Definition CR_COUNTER_PASS : Z := 3.

Definition cr_count_event (key : Z) : policy_m cr_maps unit :=
  modify_maps (λ m, mk_cr (checkpoint_restore_views m)
    (array_count (checkpoint_restore_counters m) key)).

Definition checkpoint_restore_migration_policy : policy_m cr_maps Z :=
  _ ← cr_count_event CR_COUNTER_TOTAL;
  c ← get_ctx;
  if negb (is_lookup c) then
    _ ← cr_count_event CR_COUNTER_PASS; mret BPF_NAMEI_EXT_PASS
  else
  _ ← cr_count_event CR_COUNTER_LOOKUP;
  m ← get_maps;
  let key := set_key_event 0 (namei_ext_build_component_key c) in
  match checkpoint_restore_views m !! key with
  | Some tid =>
      if tid =? 0 then _ ← cr_count_event CR_COUNTER_PASS; mret BPF_NAMEI_EXT_PASS else
      _ ← modify_ctx (set_target_id tid);
      _ ← cr_count_event CR_COUNTER_SELECT;
      mret BPF_NAMEI_EXT_SELECT_TARGET
  | None => _ ← cr_count_event CR_COUNTER_PASS; mret BPF_NAMEI_EXT_PASS
  end.

End CheckpointRestoreMigration.

Module ToolchainEnvironment.

Record te_maps := mk_te {
  toolchain_environment_views : bpf_hash Z;
  toolchain_environment_counters : bpf_array;
  toolchain_environment_target_hits : bpf_array
}.

Definition TE_COUNTER_TOTAL : Z := 0.
Definition TE_COUNTER_LOOKUP : Z := 1.
Definition TE_COUNTER_SELECT : Z := 2.
Definition TE_COUNTER_PASS : Z := 3.

Definition te_count (key : Z) : policy_m te_maps unit :=
  modify_maps (λ m, mk_te (toolchain_environment_views m)
    (array_count (toolchain_environment_counters m) key)
    (toolchain_environment_target_hits m)).
Definition te_hit (key : Z) : policy_m te_maps unit :=
  modify_maps (λ m, mk_te (toolchain_environment_views m)
    (toolchain_environment_counters m)
    (array_count (toolchain_environment_target_hits m) key)).

Definition toolchain_environment_policy : policy_m te_maps Z :=
  _ ← te_count TE_COUNTER_TOTAL;
  c ← get_ctx;
  if negb (is_lookup c) then
    _ ← te_count TE_COUNTER_PASS; mret BPF_NAMEI_EXT_PASS
  else
  _ ← te_count TE_COUNTER_LOOKUP;
  m ← get_maps;
  let key := set_key_event 0 (namei_ext_build_component_key c) in
  match toolchain_environment_views m !! key with
  | Some tid =>
      if tid =? 0 then _ ← te_count TE_COUNTER_PASS; mret BPF_NAMEI_EXT_PASS else
      _ ← modify_ctx (set_target_id tid);
      _ ← te_count TE_COUNTER_SELECT;
      _ ← te_hit tid;
      mret BPF_NAMEI_EXT_SELECT_TARGET
  | None => _ ← te_count TE_COUNTER_PASS; mret BPF_NAMEI_EXT_PASS
  end.

End ToolchainEnvironment.

Module ServiceConfigRotation.

Record scr_maps := mk_scr {
  service_config_views : bpf_hash Z;
  service_config_rotation_counters : bpf_array;
  service_config_rotation_cgroups : gmap Z Z
}.

Definition SCR_COUNTER_TOTAL : Z := 0.
Definition SCR_COUNTER_LOOKUP : Z := 1.
Definition SCR_COUNTER_READDIR : Z := 2.
Definition SCR_COUNTER_SELECT : Z := 3.
Definition SCR_COUNTER_PASS : Z := 4.

Definition scr_count_event (key : Z) : policy_m scr_maps unit :=
  modify_maps (λ m, mk_scr (service_config_views m)
    (array_count (service_config_rotation_counters m) key)
    (service_config_rotation_cgroups m)).

Definition service_config_rotation_policy : policy_m scr_maps Z :=
  c ← get_ctx;
  m ← get_maps;
  let cgroup_id := ctx_cgroup_id c in
  if negb (nonzero (service_config_rotation_cgroups m !! cgroup_id))
  then mret BPF_NAMEI_EXT_PASS else
  _ ← scr_count_event SCR_COUNTER_TOTAL;
  _ ← (if is_lookup c then scr_count_event SCR_COUNTER_LOOKUP
       else if is_readdir c then scr_count_event SCR_COUNTER_READDIR
       else mret tt);
  let key := set_key_event 0 (namei_ext_build_component_key c) in
  match service_config_views m !! key with
  | Some tid =>
      if negb (tid =? 0) && is_lookup c then
        _ ← modify_ctx (set_target_id tid);
        _ ← scr_count_event SCR_COUNTER_SELECT;
        mret BPF_NAMEI_EXT_SELECT_TARGET
      else _ ← scr_count_event SCR_COUNTER_PASS; mret BPF_NAMEI_EXT_PASS
  | None => _ ← scr_count_event SCR_COUNTER_PASS; mret BPF_NAMEI_EXT_PASS
  end.

End ServiceConfigRotation.

Module SemanticContinuation.

Record sc_maps := mk_sc {
  semantic_continuation_views : bpf_hash Z;
  semantic_continuation_counters : bpf_array;
  semantic_continuation_target_hits : bpf_array
}.

Definition SC_COUNTER_TOTAL : Z := 0.
Definition SC_COUNTER_LOOKUP : Z := 1.
Definition SC_COUNTER_SELECT : Z := 2.
Definition SC_COUNTER_PASS : Z := 3.
Definition SC_COUNTER_READDIR : Z := 4.
Definition SEMANTIC_CONTINUATION_TARGET_MAX : Z := 4.

Definition sc_count (key : Z) : policy_m sc_maps unit :=
  modify_maps (λ m, mk_sc (semantic_continuation_views m)
    (array_count (semantic_continuation_counters m) key)
    (semantic_continuation_target_hits m)).
Definition sc_hit (key : Z) : policy_m sc_maps unit :=
  modify_maps (λ m, mk_sc (semantic_continuation_views m)
    (semantic_continuation_counters m)
    (array_count (semantic_continuation_target_hits m) key)).

Definition semantic_continuation_policy : policy_m sc_maps Z :=
  _ ← sc_count SC_COUNTER_TOTAL;
  c ← get_ctx;
  if is_readdir c then
    _ ← sc_count SC_COUNTER_READDIR;
    _ ← sc_count SC_COUNTER_PASS;
    mret BPF_NAMEI_EXT_PASS
  else if negb (is_lookup c) then
    _ ← sc_count SC_COUNTER_PASS; mret BPF_NAMEI_EXT_PASS
  else
  _ ← sc_count SC_COUNTER_LOOKUP;
  m ← get_maps;
  let key := set_key_event 0 (namei_ext_build_component_key c) in
  match semantic_continuation_views m !! key with
  | Some tid =>
      if (tid =? 0) || (SEMANTIC_CONTINUATION_TARGET_MAX <=? tid) then
        _ ← sc_count SC_COUNTER_PASS; mret BPF_NAMEI_EXT_PASS
      else
      _ ← modify_ctx (set_target_id tid);
      _ ← sc_count SC_COUNTER_SELECT;
      _ ← sc_hit tid;
      mret BPF_NAMEI_EXT_SELECT_TARGET
  | None => _ ← sc_count SC_COUNTER_PASS; mret BPF_NAMEI_EXT_PASS
  end.

End SemanticContinuation.

Module SpindleStaging.

Record spindle_maps := mk_spindle {
  spindle_staging_rules : bpf_hash Z;
  spindle_staging_counters : bpf_array;
  spindle_staging_rule_hits : bpf_array
}.

Definition SPINDLE_COUNTER_TOTAL : Z := 0.
Definition SPINDLE_COUNTER_LOOKUP : Z := 1.
Definition SPINDLE_COUNTER_SELECT : Z := 2.
Definition SPINDLE_COUNTER_PASS : Z := 3.
Definition SPINDLE_COUNTER_READDIR : Z := 4.
Definition SPINDLE_COUNTER_HIDE_LOOKUP : Z := 5.
Definition SPINDLE_COUNTER_HIDE_READDIR : Z := 6.
Definition SPINDLE_TARGET_MAX : Z := 64.

Definition spindle_count (key : Z) : policy_m spindle_maps unit :=
  modify_maps (λ m, mk_spindle (spindle_staging_rules m)
    (array_count (spindle_staging_counters m) key)
    (spindle_staging_rule_hits m)).
Definition spindle_hit (key : Z) : policy_m spindle_maps unit :=
  modify_maps (λ m, mk_spindle (spindle_staging_rules m)
    (spindle_staging_counters m)
    (array_count (spindle_staging_rule_hits m) key)).

Definition spindle_rule_action (c : bpf_namei_ext_ctx) : policy_m spindle_maps Z :=
  m ← get_maps;
  let key := set_key_event 0 (namei_ext_build_component_key c) in
  match spindle_staging_rules m !! key with
  | None => _ ← spindle_count SPINDLE_COUNTER_PASS; mret BPF_NAMEI_EXT_PASS
  | Some tid =>
      if tid =? 0 then
        _ ← (if is_readdir c then spindle_count SPINDLE_COUNTER_HIDE_READDIR
             else spindle_count SPINDLE_COUNTER_HIDE_LOOKUP);
        mret BPF_NAMEI_EXT_HIDE
      else if negb (is_lookup c) || (SPINDLE_TARGET_MAX <=? tid) then
        _ ← spindle_count SPINDLE_COUNTER_PASS; mret BPF_NAMEI_EXT_PASS
      else
      _ ← modify_ctx (set_target_id tid);
      _ ← spindle_count SPINDLE_COUNTER_SELECT;
      _ ← spindle_hit tid;
      mret BPF_NAMEI_EXT_SELECT_TARGET
  end.

Definition spindle_staging_policy : policy_m spindle_maps Z :=
  _ ← spindle_count SPINDLE_COUNTER_TOTAL;
  c ← get_ctx;
  if is_lookup c then
    _ ← spindle_count SPINDLE_COUNTER_LOOKUP; spindle_rule_action c
  else if is_readdir c then
    _ ← spindle_count SPINDLE_COUNTER_READDIR; spindle_rule_action c
  else
    _ ← spindle_count SPINDLE_COUNTER_PASS; mret BPF_NAMEI_EXT_PASS.

End SpindleStaging.

Module AgentSourceTask.

Record ast_maps := mk_ast {
  agent_source_task_views : bpf_hash Z;
  agent_source_task_counters : bpf_array;
  agent_source_task_target_hits : bpf_array
}.

Definition AST_COUNTER_TOTAL : Z := 0.
Definition AST_COUNTER_LOOKUP : Z := 1.
Definition AST_COUNTER_READDIR : Z := 2.
Definition AST_COUNTER_SELECT : Z := 3.
Definition AST_COUNTER_HIDE_LOOKUP : Z := 4.
Definition AST_COUNTER_HIDE_READDIR : Z := 5.
Definition AST_COUNTER_PASS : Z := 6.
Definition AGENT_SOURCE_TASK_TARGET_MAX : Z := 5.

Definition ast_count (key : Z) : policy_m ast_maps unit :=
  modify_maps (λ m, mk_ast (agent_source_task_views m)
    (array_count (agent_source_task_counters m) key)
    (agent_source_task_target_hits m)).
Definition ast_hit (key : Z) : policy_m ast_maps unit :=
  modify_maps (λ m, mk_ast (agent_source_task_views m)
    (agent_source_task_counters m)
    (array_count (agent_source_task_target_hits m) key)).

Definition ast_view_action (c : bpf_namei_ext_ctx) : policy_m ast_maps Z :=
  if negb (namei_ext_is c "ws") then
    _ ← ast_count AST_COUNTER_PASS; mret BPF_NAMEI_EXT_PASS
  else
  m ← get_maps;
  let key := set_key_event 0 (namei_ext_build_component_key c) in
  let hide : policy_m ast_maps Z :=
    _ ← (if is_lookup c then ast_count AST_COUNTER_HIDE_LOOKUP
         else ast_count AST_COUNTER_HIDE_READDIR);
    mret BPF_NAMEI_EXT_HIDE in
  match agent_source_task_views m !! key with
  | None => hide
  | Some tid =>
      if tid =? 0 then hide else
      if is_readdir c then
        _ ← ast_count AST_COUNTER_PASS; mret BPF_NAMEI_EXT_PASS
      else
      _ ← modify_ctx (set_target_id tid);
      _ ← ast_count AST_COUNTER_SELECT;
      _ ← (if tid <? AGENT_SOURCE_TASK_TARGET_MAX then ast_hit tid else mret tt);
      mret BPF_NAMEI_EXT_SELECT_TARGET
  end.

Definition agent_workspace_source_task_policy : policy_m ast_maps Z :=
  _ ← ast_count AST_COUNTER_TOTAL;
  c ← get_ctx;
  if is_lookup c then
    _ ← ast_count AST_COUNTER_LOOKUP; ast_view_action c
  else if is_readdir c then
    _ ← ast_count AST_COUNTER_READDIR; ast_view_action c
  else
    _ ← ast_count AST_COUNTER_PASS; mret BPF_NAMEI_EXT_PASS.

End AgentSourceTask.

Module ApplicationFileSharing.

Record afs_maps := mk_afs {
  sharing_scopes : bpf_hash Z;
  sharing_grants : bpf_hash Z;
  application_file_sharing_counters : bpf_array
}.

Definition AFS_COUNTER_TOTAL : Z := 0.
Definition AFS_COUNTER_LOOKUP : Z := 1.
Definition AFS_COUNTER_READDIR : Z := 2.
Definition AFS_COUNTER_SELECT : Z := 3.
Definition AFS_COUNTER_HIDE_LOOKUP : Z := 4.
Definition AFS_COUNTER_HIDE_READDIR : Z := 5.
Definition AFS_COUNTER_PASS : Z := 6.
Definition AFS_COUNTER_VISIBLE_READDIR : Z := 7.

Definition afs_count_event (key : Z) : policy_m afs_maps unit :=
  modify_maps (λ m, mk_afs (sharing_scopes m) (sharing_grants m)
    (array_count (application_file_sharing_counters m) key)).

Definition application_file_sharing_policy : policy_m afs_maps Z :=
  _ ← afs_count_event AFS_COUNTER_TOTAL;
  c ← get_ctx;
  _ ← (if is_lookup c then afs_count_event AFS_COUNTER_LOOKUP
       else if is_readdir c then afs_count_event AFS_COUNTER_READDIR
       else mret tt);
  if negb (namei_ext_is c "document") &&
     negb (namei_ext_is c "namei-fixed-doc-id-001")
  then _ ← afs_count_event AFS_COUNTER_PASS; mret BPF_NAMEI_EXT_PASS else
  m ← get_maps;
  let key := set_key_event 0 (namei_ext_build_component_key c) in
  let scope_key := set_key_cgroup_id 0 key in
  if negb (nonzero (sharing_scopes m !! scope_key))
  then _ ← afs_count_event AFS_COUNTER_PASS; mret BPF_NAMEI_EXT_PASS else
  let hide : policy_m afs_maps Z :=
    _ ← (if is_readdir c then afs_count_event AFS_COUNTER_HIDE_READDIR
         else afs_count_event AFS_COUNTER_HIDE_LOOKUP);
    mret BPF_NAMEI_EXT_HIDE in
  match sharing_grants m !! key with
  | None => hide
  | Some tid =>
      if tid =? 0 then hide else
      if is_lookup c then
        _ ← modify_ctx (set_target_id tid);
        _ ← afs_count_event AFS_COUNTER_SELECT;
        mret BPF_NAMEI_EXT_SELECT_TARGET
      else
        _ ← afs_count_event AFS_COUNTER_VISIBLE_READDIR;
        _ ← afs_count_event AFS_COUNTER_PASS;
        mret BPF_NAMEI_EXT_PASS
  end.

End ApplicationFileSharing.

Module ConfigMapPublication.

Record configmap_maps := mk_configmap {
  configmap_publication_v0_views : bpf_hash Z;
  configmap_publication_v1_views : bpf_hash Z;
  configmap_publication_generations : gmap Z Z;
  configmap_publication_counters : bpf_array
}.

Definition CONFIGMAP_COUNTER_TOTAL : Z := 0.
Definition CONFIGMAP_COUNTER_LOOKUP : Z := 1.
Definition CONFIGMAP_COUNTER_READDIR : Z := 2.
Definition CONFIGMAP_COUNTER_SELECT : Z := 3.
Definition CONFIGMAP_COUNTER_PASS : Z := 4.
Definition CONFIGMAP_COUNTER_HIDE : Z := 5.

Definition configmap_count_event (key : Z) : policy_m configmap_maps unit :=
  modify_maps (λ m, mk_configmap (configmap_publication_v0_views m)
    (configmap_publication_v1_views m) (configmap_publication_generations m)
    (array_count (configmap_publication_counters m) key)).

Definition kubernetes_configmap_publication_policy : policy_m configmap_maps Z :=
  c ← get_ctx;
  m ← get_maps;
  let cgroup_id := ctx_cgroup_id c in
  match configmap_publication_generations m !! cgroup_id with
  | None => mret BPF_NAMEI_EXT_PASS
  | Some generation =>
      _ ← configmap_count_event CONFIGMAP_COUNTER_TOTAL;
      _ ← (if is_lookup c then configmap_count_event CONFIGMAP_COUNTER_LOOKUP
           else if is_readdir c then configmap_count_event CONFIGMAP_COUNTER_READDIR
           else mret tt);
      let key := set_key_event 0 (namei_ext_build_component_key c) in
      let target_id :=
        if negb (generation =? 0) then configmap_publication_v1_views m !! key
        else configmap_publication_v0_views m !! key in
      match target_id with
      | None =>
          _ ← configmap_count_event CONFIGMAP_COUNTER_PASS; mret BPF_NAMEI_EXT_PASS
      | Some tid =>
          if tid =? 0 then
            _ ← configmap_count_event CONFIGMAP_COUNTER_HIDE; mret BPF_NAMEI_EXT_HIDE
          else if is_lookup c then
            _ ← modify_ctx (set_target_id tid);
            _ ← configmap_count_event CONFIGMAP_COUNTER_SELECT;
            mret BPF_NAMEI_EXT_SELECT_TARGET
          else
            _ ← configmap_count_event CONFIGMAP_COUNTER_PASS;
            mret BPF_NAMEI_EXT_PASS
      end
  end.

End ConfigMapPublication.

Module BuildActionSandboxing.

Record bas_maps := mk_bas {
  build_action_views : bpf_hash Z;
  build_action_roots : bpf_hash Z;
  build_action_declared_inputs : bpf_hash Z;
  build_action_sandboxing_counters : bpf_array
}.

Definition BAS_COUNTER_TOTAL : Z := 0.
Definition BAS_COUNTER_LOOKUP : Z := 1.
Definition BAS_COUNTER_READDIR : Z := 2.
Definition BAS_COUNTER_SELECT : Z := 3.
Definition BAS_COUNTER_ALLOW_LOOKUP : Z := 4.
Definition BAS_COUNTER_ALLOW_READDIR : Z := 5.
Definition BAS_COUNTER_HIDE_LOOKUP : Z := 6.
Definition BAS_COUNTER_HIDE_READDIR : Z := 7.
Definition BAS_COUNTER_PASS : Z := 8.

Definition bas_count_event (key : Z) : policy_m bas_maps unit :=
  modify_maps (λ m, mk_bas (build_action_views m) (build_action_roots m)
    (build_action_declared_inputs m)
    (array_count (build_action_sandboxing_counters m) key)).

(** [root_key]: the action's parent directory with an empty name. *)
Definition bas_root_key (key : namei_ext_component_key) : namei_ext_component_key :=
  mk_key (key_event zero_key) (key_name_len zero_key) (key_cgroup_id key)
    (key_parent_dev key) (key_parent_ino key) (key_name zero_key).

Definition build_action_sandboxing_policy : policy_m bas_maps Z :=
  _ ← bas_count_event BAS_COUNTER_TOTAL;
  c ← get_ctx;
  _ ← (if is_lookup c then bas_count_event BAS_COUNTER_LOOKUP
       else if is_readdir c then bas_count_event BAS_COUNTER_READDIR
       else mret tt);
  m ← get_maps;
  let key := set_key_event 0 (namei_ext_build_component_key c) in
  let root_key := bas_root_key key in
  if nonzero (build_action_roots m !! root_key) then
    if nonzero (build_action_declared_inputs m !! key) then
      _ ← (if is_readdir c then bas_count_event BAS_COUNTER_ALLOW_READDIR
           else bas_count_event BAS_COUNTER_ALLOW_LOOKUP);
      mret BPF_NAMEI_EXT_PASS
    else
      _ ← (if is_readdir c then bas_count_event BAS_COUNTER_HIDE_READDIR
           else bas_count_event BAS_COUNTER_HIDE_LOOKUP);
      mret BPF_NAMEI_EXT_HIDE
  else
  match build_action_views m !! key with
  | Some tid =>
      if negb (tid =? 0) && is_lookup c then
        _ ← modify_ctx (set_target_id tid);
        _ ← bas_count_event BAS_COUNTER_SELECT;
        mret BPF_NAMEI_EXT_SELECT_TARGET
      else _ ← bas_count_event BAS_COUNTER_PASS; mret BPF_NAMEI_EXT_PASS
  | None => _ ← bas_count_event BAS_COUNTER_PASS; mret BPF_NAMEI_EXT_PASS
  end.

End BuildActionSandboxing.
