(* ===== verification/PoliciesFamily.v ===== *)
(** * The four policy families (bpf/policies/)

    build_graph_view, sandbox_fixture_view, checkpoint_restore_view and
    cache_locality_view: fixed alias tables followed by epoch-indexed rule
    maps that userspace fills. *)

From S2P Require Import Prelude Abi PolicyLib PoliciesBasic.

(** [namei_ext_redirect_literal(ctx, lit); return BPF_NAMEI_EXT_REDIRECT;] *)
Definition redirect_to {S} (literal : String.string) : policy_m S Z :=
  _ ← namei_ext_redirect_literal literal; mret BPF_NAMEI_EXT_REDIRECT.

(** A chain [if (namei_ext_is(ctx, a)) { redirect b }] over an alias table. *)
Fixpoint alias_chain {S} (table : list (String.string * String.string))
  (otherwise : policy_m S Z) : policy_m S Z :=
  match table with
  | [] => otherwise
  | (from, to) :: rest =>
      c ← get_ctx;
      if namei_ext_is c from then redirect_to to else alias_chain rest otherwise
  end.

(** [if (apply(class) == REDIRECT) return REDIRECT;] for each class in turn,
    then the fallback. *)
Fixpoint first_redirect {S} (apply : Z → policy_m S Z) (classes : list Z)
  (otherwise : policy_m S Z) : policy_m S Z :=
  match classes with
  | [] => otherwise
  | k :: rest =>
      r ← apply k;
      if r =? BPF_NAMEI_EXT_REDIRECT then mret BPF_NAMEI_EXT_REDIRECT
      else first_redirect apply rest otherwise
  end.

(** The key of an epoch rule: component, class and epoch. *)
Definition epoch_key : Type := namei_ext_component_key * Z * Z.

(** A session entry: its epoch and whether it is active. *)
Record epoch_session := mk_session {
  session_epoch : Z;
  session_active : Z
}.

(** [if (!session || !session->active) return 1; return session->epoch;] *)
Definition epoch_of (sessions : gmap Z epoch_session) (cgroup_id : Z) : Z :=
  match sessions !! cgroup_id with
  | Some s => if session_active s =? 0 then 1 else session_epoch s
  | None => 1
  end.

Module BuildGraphView.

Definition BUILD_BRANCH_GENERATED : Z := 1.
Definition BUILD_BRANCH_SOURCE_FALLBACK : Z := 2.
Definition BUILD_BRANCH_TOOLCHAIN : Z := 3.
Definition BUILD_BRANCH_EXTERNAL_DEP : Z := 4.
Definition BUILD_BRANCH_UNDECLARED_POISON : Z := 5.
Definition BUILD_BRANCH_NEGATIVE : Z := 6.

Record build_maps := mk_build {
  build_graph_rules : bpf_hash namei_ext_redirect_rule;
  build_graph_sessions : gmap Z epoch_session;
  build_graph_epoch_rules : gmap epoch_key namei_ext_redirect_rule
}.

Definition build_epoch : policy_m build_maps Z :=
  m ← get_maps; c ← get_ctx;
  mret (epoch_of (build_graph_sessions m) (ctx_cgroup_id c)).

Definition apply_build_rule : policy_m build_maps Z :=
  m ← get_maps; c ← get_ctx;
  namei_ext_apply_rule (build_graph_rules m !! namei_ext_build_component_key c).

Definition apply_build_epoch_rule (branch_class : Z) : policy_m build_maps Z :=
  m ← get_maps; c ← get_ctx;
  epoch ← build_epoch;
  namei_ext_apply_rule (build_graph_epoch_rules m !!
    (namei_ext_build_component_key c, branch_class, epoch)).

Definition apply_dynamic_build_rules : policy_m build_maps Z :=
  first_redirect apply_build_epoch_rule
    [BUILD_BRANCH_GENERATED; BUILD_BRANCH_SOURCE_FALLBACK; BUILD_BRANCH_TOOLCHAIN;
     BUILD_BRANCH_EXTERNAL_DEP; BUILD_BRANCH_UNDECLARED_POISON]
    apply_build_rule.

Definition build_aliases : list (String.string * String.string) :=
  [("config.h", "config.gen.h"); ("version.h", "version.src.h"); ("cc", "cc.real");
   ("libssl.so", "libssl.dep"); ("private.h", "poison.dep")]%string.

Definition build_lookup : policy_m build_maps Z :=
  alias_chain build_aliases
    (c ← get_ctx;
     if namei_ext_is c "missing.h" then mret BPF_NAMEI_EXT_PASS
     else apply_dynamic_build_rules).

Definition build_reverse_aliases : list (String.string * String.string) :=
  [("config.gen.h", "config.h"); ("version.src.h", "version.h"); ("cc.real", "cc");
   ("libssl.dep", "libssl.so"); ("poison.dep", "private.h")]%string.

Definition build_readdir : policy_m build_maps Z :=
  alias_chain build_reverse_aliases apply_dynamic_build_rules.

Definition build_graph_view_policy : policy_m build_maps Z :=
  c ← get_ctx;
  if is_lookup c then build_lookup else
  if is_readdir c then build_readdir else
  mret BPF_NAMEI_EXT_PASS.

End BuildGraphView.

Module SandboxFixtureView.

Definition FIXTURE_BRANCH_CONFIG : Z := 1.
Definition FIXTURE_BRANCH_SECRET : Z := 2.
Definition FIXTURE_BRANCH_CERT : Z := 3.
Definition FIXTURE_BRANCH_ENDPOINT : Z := 4.
Definition FIXTURE_BRANCH_POISON : Z := 5.

Record fixture_maps := mk_fixture {
  fixture_rules : bpf_hash namei_ext_redirect_rule;
  fixture_sessions : gmap Z epoch_session;
  fixture_epoch_rules : gmap epoch_key namei_ext_redirect_rule
}.

Definition fixture_epoch : policy_m fixture_maps Z :=
  m ← get_maps; c ← get_ctx;
  mret (epoch_of (fixture_sessions m) (ctx_cgroup_id c)).

Definition apply_fixture_rule : policy_m fixture_maps Z :=
  m ← get_maps; c ← get_ctx;
  namei_ext_apply_rule (fixture_rules m !! namei_ext_build_component_key c).

Definition apply_fixture_epoch_rule (path_class : Z) : policy_m fixture_maps Z :=
  m ← get_maps; c ← get_ctx;
  epoch ← fixture_epoch;
  namei_ext_apply_rule (fixture_epoch_rules m !!
    (namei_ext_build_component_key c, path_class, epoch)).

Definition apply_dynamic_fixture_rules : policy_m fixture_maps Z :=
  first_redirect apply_fixture_epoch_rule
    [FIXTURE_BRANCH_CONFIG; FIXTURE_BRANCH_SECRET; FIXTURE_BRANCH_CERT;
     FIXTURE_BRANCH_ENDPOINT; FIXTURE_BRANCH_POISON]
    apply_fixture_rule.

Definition fixture_aliases : list (String.string * String.string) :=
  [("nginx.conf", "nginx.test.conf"); ("postgresql.conf", "postgres.test.conf");
   ("db.password", "db.fake.pass"); ("server.crt", "server.fake.crt");
   ("upstream.sock", "upstream.local"); ("prod.token", "poison.secret")]%string.

Definition fixture_lookup : policy_m fixture_maps Z :=
  alias_chain fixture_aliases apply_dynamic_fixture_rules.

Definition fixture_reverse_aliases : list (String.string * String.string) :=
  [("nginx.test.conf", "nginx.conf"); ("postgres.test.conf", "postgresql.conf");
   ("db.fake.pass", "db.password"); ("server.fake.crt", "server.crt");
   ("upstream.local", "upstream.sock"); ("poison.secret", "prod.token")]%string.

Definition fixture_readdir : policy_m fixture_maps Z :=
  alias_chain fixture_reverse_aliases apply_dynamic_fixture_rules.

Definition sandbox_fixture_view_policy : policy_m fixture_maps Z :=
  c ← get_ctx;
  if is_lookup c then fixture_lookup else
  if is_readdir c then fixture_readdir else
  mret BPF_NAMEI_EXT_PASS.

End SandboxFixtureView.

Module CheckpointRestoreView.

Definition CHECKPOINT_CLASS_STATE : Z := 1.
Definition CHECKPOINT_CLASS_CONFIG : Z := 2.
Definition CHECKPOINT_CLASS_CACHE : Z := 3.
Definition CHECKPOINT_CLASS_RUNTIME : Z := 4.
Definition CHECKPOINT_CLASS_MIXED_EPOCH : Z := 5.

Record checkpoint_maps := mk_checkpoint {
  checkpoint_sessions : gmap Z epoch_session;
  checkpoint_rules : gmap epoch_key namei_ext_redirect_rule
}.

Definition checkpoint_epoch : policy_m checkpoint_maps Z :=
  m ← get_maps; c ← get_ctx;
  mret (epoch_of (checkpoint_sessions m) (ctx_cgroup_id c)).

Definition apply_checkpoint_rule (path_class : Z) : policy_m checkpoint_maps Z :=
  m ← get_maps; c ← get_ctx;
  epoch ← checkpoint_epoch;
  namei_ext_apply_rule (checkpoint_rules m !!
    (namei_ext_build_component_key c, path_class, epoch)).

Definition checkpoint_aliases : list (String.string * String.string) :=
  [("dump.rdb", "dump.ckpt"); ("appendonly.aof", "aof.ckpt");
   ("nginx.conf", "nginx.ckpt"); ("cache.db", "cache.ckpt");
   ("redis.sock", "redis.sock.new"); ("nginx.pid", "nginx.pid.new");
   ("epoch.bad", "poison.epoch")]%string.

Definition checkpoint_lookup : policy_m checkpoint_maps Z :=
  alias_chain checkpoint_aliases
    (first_redirect apply_checkpoint_rule
       [CHECKPOINT_CLASS_STATE; CHECKPOINT_CLASS_CONFIG; CHECKPOINT_CLASS_CACHE;
        CHECKPOINT_CLASS_RUNTIME]
       (apply_checkpoint_rule CHECKPOINT_CLASS_MIXED_EPOCH)).

Definition checkpoint_reverse_aliases : list (String.string * String.string) :=
  [("dump.ckpt", "dump.rdb"); ("aof.ckpt", "appendonly.aof");
   ("nginx.ckpt", "nginx.conf"); ("cache.ckpt", "cache.db");
   ("redis.sock.new", "redis.sock"); ("nginx.pid.new", "nginx.pid");
   ("poison.epoch", "epoch.bad")]%string.

Definition checkpoint_readdir : policy_m checkpoint_maps Z :=
  alias_chain checkpoint_reverse_aliases
    (apply_checkpoint_rule CHECKPOINT_CLASS_STATE).

Definition checkpoint_restore_view_policy : policy_m checkpoint_maps Z :=
  c ← get_ctx;
  if is_lookup c then checkpoint_lookup else
  if is_readdir c then checkpoint_readdir else
  mret BPF_NAMEI_EXT_PASS.

End CheckpointRestoreView.

Module CacheLocalityView.

Definition CACHE_STATE_VERIFIED_HIT : Z := 1.
Definition CACHE_STATE_MISS : Z := 2.
Definition CACHE_STATE_STALE : Z := 3.
Definition CACHE_STATE_CORRUPT : Z := 4.
Definition CACHE_STATE_PASSTHROUGH : Z := 5.

Definition CACHE_LOCAL_SUFFIX_LEN : Z := 6.
Definition CACHE_CCACHE_OBJECT_LEN : Z := 32.
Definition CACHE_PARENT_NAME_WITNESSES : Z := 4.
Definition CACHE_NAME_HASH_OFFSET : Z := 1469598103934665603.
Definition CACHE_NAME_HASH_PRIME : Z := 1099511628211.

Record cache_rule := mk_cache_rule {
  cr_verified_hit : namei_ext_redirect_rule;
  cr_canonical : namei_ext_redirect_rule;
  cr_reject : namei_ext_redirect_rule;
  cr_expected_hash : list Z;
  cr_observed_hash : list Z;
  cr_state : Z;
  cr_witness_count : Z
}.

Record cache_maps := mk_cache {
  cache_rules : bpf_hash cache_rule;
  cache_epoch_sessions : gmap Z epoch_session;
  cache_epoch_rules : gmap (namei_ext_component_key * Z) namei_ext_redirect_rule
}.

Definition cache_build_parent_component_key (c : bpf_namei_ext_ctx)
  : namei_ext_component_key :=
  mk_key (ctx_event c) 0 (ctx_cgroup_id c) (ctx_parent_dev c) (ctx_parent_ino c)
    (key_name zero_key).

(** Cells 0 to 3 in turn: a counted cell that differs fails the check. *)
Definition cache_hash_witness_ok (rule : cache_rule) : bool :=
  forallb (λ i : nat,
    negb ((Z.of_nat i <? cr_witness_count rule) &&
          negb (cr_expected_hash rule !!! i =? cr_observed_hash rule !!! i)))
    [0; 1; 2; 3]%nat.

Definition cache_component_name_hash (c : bpf_namei_ext_ctx) : Z :=
  foldl (λ hash (i : nat),
    if Z.of_nat i <? ctx_name_len c
    then u64 (Z.lxor hash (ctx_name c !!! i) * CACHE_NAME_HASH_PRIME)
    else hash)
    CACHE_NAME_HASH_OFFSET (seq 0 NAME_MAX_nat).

Definition cache_parent_name_witness_ok (c : bpf_namei_ext_ctx) (rule : cache_rule)
  : bool :=
  if (cr_witness_count rule =? 0) ||
     (CACHE_PARENT_NAME_WITNESSES <? cr_witness_count rule) then false else
  let hash := cache_component_name_hash c in
  existsb (λ i : nat,
    (Z.of_nat i <? cr_witness_count rule) && (cr_expected_hash rule !!! i =? hash))
    [0; 1; 2; 3]%nat.

Definition cache_name_is_stats (c : bpf_namei_ext_ctx) : bool :=
  if negb (ctx_name_len c =? 5) then false else
  (ctx_name c !!! 0%nat =? chr "s") && (ctx_name c !!! 1%nat =? chr "t") &&
  (ctx_name c !!! 2%nat =? chr "a") && (ctx_name c !!! 3%nat =? chr "t") &&
  (ctx_name c !!! 4%nat =? chr "s").

Definition cache_char_is_lower_alnum (b : Z) : bool :=
  ((chr "0" <=? b) && (b <=? chr "9")) || ((chr "a" <=? b) && (b <=? chr "z")).

Definition cache_name_is_ccache_object (c : bpf_namei_ext_ctx) : bool :=
  if negb (ctx_name_len c =? CACHE_CCACHE_OBJECT_LEN) then false else
  if negb (forallb (λ i, cache_char_is_lower_alnum (ctx_name c !!! i)) (seq 0 31))
  then false else
  if negb (ctx_name c !!! 31%nat =? chr "M") && negb (ctx_name c !!! 31%nat =? chr "R")
  then false else true.

Definition cache_name_has_local_suffix (c : bpf_namei_ext_ctx) : bool :=
  if ctx_name_len c <=? CACHE_LOCAL_SUFFIX_LEN then false else
  existsb (λ i : nat,
    (ctx_name_len c =? Z.of_nat i + CACHE_LOCAL_SUFFIX_LEN) &&
    (ctx_name c !!! i =? chr ".") && (ctx_name c !!! (i + 1)%nat =? chr "l") &&
    (ctx_name c !!! (i + 2)%nat =? chr "o") && (ctx_name c !!! (i + 3)%nat =? chr "c") &&
    (ctx_name c !!! (i + 4)%nat =? chr "a") && (ctx_name c !!! (i + 5)%nat =? chr "l"))
    (seq 0 58).

Definition cache_local_suffix (idx : Z) : Z :=
  if idx =? 0 then chr "." else
  if idx =? 1 then chr "l" else
  if idx =? 2 then chr "o" else
  if idx =? 3 then chr "c" else
  if idx =? 4 then chr "a" else
  if idx =? 5 then chr "l" else 0.

Definition cache_lookup_parent_rule (rule : cache_rule) : policy_m cache_maps Z :=
  c ← get_ctx;
  if negb (cr_state rule =? CACHE_STATE_VERIFIED_HIT) then mret BPF_NAMEI_EXT_PASS else
  if BPF_NAMEI_EXT_NAME_MAX - CACHE_LOCAL_SUFFIX_LEN <? ctx_name_len c
  then mret BPF_NAMEI_EXT_PASS else
  if cache_name_is_stats c then mret BPF_NAMEI_EXT_PASS else
  if negb (cache_name_is_ccache_object c) then mret BPF_NAMEI_EXT_PASS else
  if cache_name_has_local_suffix c then mret BPF_NAMEI_EXT_PASS else
  if negb (cache_parent_name_witness_ok c rule) then mret BPF_NAMEI_EXT_PASS else
  _ ← modify_ctx (set_redirect_name_len (u32 (ctx_name_len c + CACHE_LOCAL_SUFFIX_LEN)));
  _ ← modify_ctx (λ c, set_redirect_name
        (array_init NAME_MAX_nat (λ i,
           if Z.of_nat i <? ctx_name_len c then ctx_name c !!! i
           else if Z.of_nat i <? u32 (ctx_name_len c + CACHE_LOCAL_SUFFIX_LEN)
           then cache_local_suffix (Z.of_nat i - ctx_name_len c)
           else ctx_redirect_name c !!! i)) c);
  mret BPF_NAMEI_EXT_REDIRECT.

Definition apply_cache_parent_rule : policy_m cache_maps Z :=
  m ← get_maps; c ← get_ctx;
  match cache_rules m !! cache_build_parent_component_key c with
  | None => mret BPF_NAMEI_EXT_PASS
  | Some rule =>
      if is_lookup c then cache_lookup_parent_rule rule
      else mret BPF_NAMEI_EXT_PASS
  end.

Definition apply_cache_epoch_rule : policy_m cache_maps Z :=
  m ← get_maps; c ← get_ctx;
  match cache_epoch_sessions m !! ctx_cgroup_id c with
  | None => mret BPF_NAMEI_EXT_PASS
  | Some session =>
      if session_active session =? 0 then mret BPF_NAMEI_EXT_PASS else
      namei_ext_apply_rule (cache_epoch_rules m !!
        (namei_ext_build_component_key c, session_epoch session))
  end.

Definition apply_cache_rule : policy_m cache_maps Z :=
  ret ← apply_cache_epoch_rule;
  if negb (ret =? BPF_NAMEI_EXT_PASS) then mret ret else
  m ← get_maps; c ← get_ctx;
  match cache_rules m !! namei_ext_build_component_key c with
  | None => apply_cache_parent_rule
  | Some rule =>
      if (cr_state rule =? CACHE_STATE_VERIFIED_HIT) && cache_hash_witness_ok rule
      then namei_ext_apply_rule (Some (cr_verified_hit rule)) else
      if (cr_state rule =? CACHE_STATE_STALE) || (cr_state rule =? CACHE_STATE_MISS)
      then namei_ext_apply_rule (Some (cr_canonical rule)) else
      if (cr_state rule =? CACHE_STATE_CORRUPT) || negb (cache_hash_witness_ok rule)
      then namei_ext_apply_rule (Some (cr_reject rule)) else
      ret ← apply_cache_parent_rule;
      if negb (ret =? BPF_NAMEI_EXT_PASS) then mret ret
      else mret BPF_NAMEI_EXT_PASS
  end.

Definition cache_aliases : list (String.string * String.string) :=
  [("object.o", "object.local"); ("pkg.mod", "pkg.canon");
   ("stale.o", "stale.canon"); ("corrupt.o", "corrupt.reject")]%string.

Definition cache_lookup : policy_m cache_maps Z :=
  ret ← apply_cache_rule;
  if negb (ret =? BPF_NAMEI_EXT_PASS) then mret ret else
  alias_chain cache_aliases (mret BPF_NAMEI_EXT_PASS).

Definition cache_reverse_aliases : list (String.string * String.string) :=
  [("object.local", "object.o"); ("pkg.canon", "pkg.mod");
   ("stale.canon", "stale.o"); ("corrupt.reject", "corrupt.o")]%string.

Definition cache_readdir : policy_m cache_maps Z :=
  ret ← apply_cache_rule;
  if negb (ret =? BPF_NAMEI_EXT_PASS) then mret ret else
  alias_chain cache_reverse_aliases (mret BPF_NAMEI_EXT_PASS).

Definition cache_locality_view_policy : policy_m cache_maps Z :=
  c ← get_ctx;
  if is_lookup c then cache_lookup else
  if is_readdir c then cache_readdir else
  mret BPF_NAMEI_EXT_PASS.

End CacheLocalityView.
