(* ===== verification/PolicyFacts.v ===== *)
(** * Facts about the policy library

    What the name test, the component key and the redirect writer compute, the
    safety judgement behind every [VerifiedProgram] instance, and the
    judgement's instances for all policies of bpf/policies/. *)

From S2P Require Import Prelude Abi PolicyLib PoliciesBasic PoliciesTable PoliciesFamily.

(** ** Names *)

(** The component a context carries: its first [name_len] bytes. *)
Definition ctx_component (c : bpf_namei_ext_ctx) : list Z :=
  take (Z.to_nat (ctx_name_len c)) (ctx_name c).

(** The replacement a policy wrote. *)
Definition ctx_redirect (c : bpf_namei_ext_ctx) : list Z :=
  take (Z.to_nat (ctx_redirect_name_len c)) (ctx_redirect_name c).

Lemma name_is_loop_spec fuel i nm lit len :
  0 ≤ len → len ≤ Z.of_nat (i + fuel) →
  name_is_loop fuel i nm lit len = true ↔
  ∀ j, (i ≤ j)%nat → Z.of_nat j < len → nm !!! j = lit !!! j.
Proof.
  intros H0. revert i. induction fuel as [|fuel IH]; intros i Hlen; simpl.
  { split; [|done]. intros _ j ??. lia. }
  destruct (len <=? Z.of_nat i) eqn:Hi; unfold_bools.
  { split; [|done]. intros _ j ??. lia. }
  destruct (nm !!! i =? lit !!! i) eqn:Hb; unfold_bools; simpl.
  - rewrite IH by lia. split; intros H j ??.
    + destruct (decide (j = i)) as [->|]; [done|]. apply H; lia.
    + apply H; lia.
  - split; [done|]. intros H. exfalso. apply Hb, H; lia.
Qed.

Lemma take_eq_total (nm lit : list Z) :
  (length lit ≤ length nm)%nat →
  take (length lit) nm = lit ↔ ∀ j, (j < length lit)%nat → nm !!! j = lit !!! j.
Proof.
  intros Hl. split.
  - intros <- j Hj. rewrite length_take in Hj. by rewrite lookup_total_take_lt by lia.
  - intros H. apply list_eq_total.
    + rewrite length_take. lia.
    + intros j Hj. rewrite length_take in Hj.
      rewrite lookup_total_take_lt by lia. apply H. lia.
Qed.

Lemma namei_ext_name_is_spec c lit :
  ctx_wf c → (length lit ≤ NAME_MAX_nat)%nat →
  namei_ext_name_is c lit (Z.of_nat (length lit)) = true ↔
  ctx_name_len c = Z.of_nat (length lit) ∧ ctx_component c = lit.
Proof.
  intros Hwf Hl. unfold namei_ext_name_is, ctx_component.
  pose proof (wf_name c Hwf) as Hn.
  destruct (ctx_name_len c =? Z.of_nat (length lit)) eqn:E; unfold_bools; cbn [negb].
  - rewrite E, Nat2Z.id, take_eq_total by lia.
    rewrite name_is_loop_spec by (unfold NAME_MAX_nat in *; lia).
    split.
    + intros Hj. split; [done|]. intros j ?. apply Hj; lia.
    + intros [_ Hj] j ??. apply Hj; lia.
  - split; [done|]. by intros [? _].
Qed.

(** The literal a policy compares with. *)
Lemma namei_ext_is_spec c s :
  ctx_wf c → (length (bytes_of_string s) ≤ NAME_MAX_nat)%nat →
  namei_ext_is c s = true ↔
  ctx_name_len c = Z.of_nat (length (bytes_of_string s)) ∧
  ctx_component c = bytes_of_string s.
Proof. intros. by apply namei_ext_name_is_spec. Qed.

(** ** Component keys *)

Lemma build_component_key_name c :
  ctx_wf c → 0 ≤ ctx_name_len c ≤ BPF_NAMEI_EXT_NAME_MAX →
  key_name (namei_ext_build_component_key c) = zero_pad NAME_MAX_nat (ctx_component c).
Proof.
  intros Hwf Hl. unfold BPF_NAMEI_EXT_NAME_MAX in Hl. simpl.
  pose proof (wf_name c Hwf) as Hn. unfold NAME_MAX_nat in Hn.
  apply list_eq_total.
  { by rewrite length_array_init, length_zero_pad. }
  intros i Hi. rewrite length_array_init in Hi.
  rewrite lookup_total_array_init by done.
  unfold zero_pad, ctx_component, NAME_MAX_nat in *.
  rewrite take_take, length_take, Hn.
  rewrite !Nat.min_r, Nat.min_l by lia.
  case_bool_decide.
  - rewrite lookup_total_app_l by (rewrite length_take; lia).
    by rewrite lookup_total_take_lt by lia.
  - rewrite lookup_total_app_r by (rewrite length_take; lia).
    rewrite length_take, list_lookup_total_alt, lookup_replicate_2; [done|lia].
Qed.

Lemma key_eq_iff k k' :
  k = k' ↔
  (key_event k, key_name_len k, key_cgroup_id k, key_parent_dev k,
   key_parent_ino k, key_name k) =
  (key_event k', key_name_len k', key_cgroup_id k', key_parent_dev k',
   key_parent_ino k', key_name k').
Proof. destruct k, k'; simpl. split; congruence. Qed.

(** Two short components with the same key are the same component of the same
    parent, event and cgroup. *)
Lemma build_component_key_inj c c' :
  ctx_wf c → ctx_wf c' →
  0 ≤ ctx_name_len c ≤ BPF_NAMEI_EXT_NAME_MAX →
  0 ≤ ctx_name_len c' ≤ BPF_NAMEI_EXT_NAME_MAX →
  namei_ext_build_component_key c = namei_ext_build_component_key c' ↔
  (ctx_event c, ctx_name_len c, ctx_cgroup_id c, ctx_parent_dev c,
   ctx_parent_ino c, ctx_component c) =
  (ctx_event c', ctx_name_len c', ctx_cgroup_id c', ctx_parent_dev c',
   ctx_parent_ino c', ctx_component c').
Proof.
  intros Hwf Hwf' Hl Hl'.
  rewrite (key_eq_iff _ (namei_ext_build_component_key c')).
  rewrite !build_component_key_name by done.
  cbn [namei_ext_build_component_key key_event key_name_len key_cgroup_id
    key_parent_dev key_parent_ino].
  split; intros [= He Hlen Hg Hd Hi Hn].
  - assert (ctx_component c = ctx_component c'); [|congruence].
    pose proof (wf_name c Hwf). pose proof (wf_name c' Hwf').
    unfold BPF_NAMEI_EXT_NAME_MAX, NAME_MAX_nat in *.
    eapply zero_pad_inj; [..|exact Hn]; unfold ctx_component;
      rewrite !length_take; lia.
  - congruence.
Qed.

(** ** Redirects *)

Lemma set_redirect_wf t len c :
  ctx_wf c → ctx_wf (namei_ext_set_redirect t len c).
Proof.
  intros [????]; split; simpl; rewrite ?length_array_init; done.
Qed.

Lemma set_redirect_spec t c :
  (length t ≤ NAME_MAX_nat)%nat →
  let c' := namei_ext_set_redirect t (Z.of_nat (length t)) c in
  ctx_redirect c' = t ∧ ctx_redirect_name_len c' = Z.of_nat (length t).
Proof.
  intros Hl. split; [|done]. unfold ctx_redirect. simpl. rewrite Nat2Z.id.
  apply take_eq_total.
  { by rewrite length_array_init. }
  intros j Hj. rewrite lookup_total_array_init by lia.
  by rewrite bool_decide_true by lia.
Qed.

Lemma set_redirect_byte_wf i b c : ctx_wf c → ctx_wf (set_redirect_byte i b c).
Proof. intros [????]; split; simpl; rewrite ?length_insert; done. Qed.

Lemma set_outputs_wf l t r c :
  ctx_wf c → length r = NAME_MAX_nat → ctx_wf (set_outputs l t r c).
Proof. intros [????] ?; split; done. Qed.

(** ** The safety judgement *)

(** [m] only writes output fields, keeps contexts well formed, and its result
    satisfies [P]. *)
Definition policy_safe {S A} (m : policy_m S A) (P : A → Prop) : Prop :=
  ∀ s c, same_inputs c (m s c).2 ∧ (ctx_wf c → ctx_wf (m s c).2) ∧ P (m s c).1.1.

Definition action_ok (r : Z) : Prop := namei_ext_retval_ok r = true.

Section safe.
Context {S : Type}.

Lemma safe_ret {A} (a : A) (P : A → Prop) : P a → policy_safe (S:=S) (mret a) P.
Proof. intros Ha s c. split; [|done]. reflexivity. Qed.

Lemma safe_bind {A B} (m : policy_m S A) (f : A → policy_m S B) P Q :
  policy_safe m P → (∀ a, P a → policy_safe (f a) Q) → policy_safe (m ≫= f) Q.
Proof.
  intros Hm Hf s c. unfold mbind, policy_bind.
  destruct (Hm s c) as (Hs & Hw & HP). destruct (m s c) as [[a s'] c']; simpl in *.
  destruct (Hf a HP s' c') as (Hs' & Hw' & HQ).
  split_and!; [by etrans|eauto|done].
Qed.

Lemma safe_bind_any {A B} (m : policy_m S A) (f : A → policy_m S B) Q :
  policy_safe m (λ _, True) → (∀ a, policy_safe (f a) Q) → policy_safe (m ≫= f) Q.
Proof. intros Hm Hf. eapply safe_bind; [done|]. auto. Qed.

Lemma safe_bind_action {B} (m : policy_m S Z) (f : Z → policy_m S B) Q :
  policy_safe m action_ok → (∀ a, action_ok a → policy_safe (f a) Q) →
  policy_safe (m ≫= f) Q.
Proof. apply safe_bind. Qed.

Lemma safe_get_ctx : policy_safe (S:=S) get_ctx (λ _, True).
Proof. intros s c. split; [reflexivity|done]. Qed.
Lemma safe_get_maps : policy_safe (S:=S) get_maps (λ _, True).
Proof. intros s c. split; [reflexivity|done]. Qed.
Lemma safe_modify_maps (f : S → S) : policy_safe (modify_maps f) (λ _, True).
Proof. intros s c. split; [reflexivity|done]. Qed.

Lemma safe_modify_ctx f :
  (∀ c, same_inputs c (f c)) → (∀ c, ctx_wf c → ctx_wf (f c)) →
  policy_safe (S:=S) (modify_ctx f) (λ _, True).
Proof. intros H1 H2 s c. split_and!; simpl; auto. Qed.

Lemma safe_set_target_id v : policy_safe (S:=S) (modify_ctx (set_target_id v)) (λ _, True).
Proof. apply safe_modify_ctx; [done|]. intros c Hc. apply set_outputs_wf; [done|apply Hc]. Qed.
Lemma safe_set_redirect_name_len v :
  policy_safe (S:=S) (modify_ctx (set_redirect_name_len v)) (λ _, True).
Proof. apply safe_modify_ctx; [done|]. intros c Hc. apply set_outputs_wf; [done|apply Hc]. Qed.
Lemma safe_set_redirect_byte i b :
  policy_safe (S:=S) (modify_ctx (set_redirect_byte i b)) (λ _, True).
Proof. apply safe_modify_ctx; [done|]. intros c. apply set_redirect_byte_wf. Qed.
Lemma safe_set_redirect t len :
  policy_safe (S:=S) (modify_ctx (namei_ext_set_redirect t len)) (λ _, True).
Proof. apply safe_modify_ctx; [done|]. intros c. apply set_redirect_wf. Qed.

Lemma safe_redirect_literal lit :
  policy_safe (S:=S) (namei_ext_redirect_literal lit) (λ _, True).
Proof. apply safe_set_redirect. Qed.

Lemma safe_verified (p : policy_m S Z) :
  policy_safe p action_ok → VerifiedProgram (W:=S) p.
Proof. intros Hp. split; intros w c; destruct (Hp w c) as (?&?&?); auto. Qed.
End safe.

Create HintDb policy_safe discriminated.
#[export] Hint Resolve safe_get_ctx safe_get_maps safe_modify_maps
  safe_set_target_id safe_set_redirect_name_len safe_set_redirect_byte
  safe_set_redirect safe_redirect_literal : policy_safe.

(** Decompose a policy into its primitive steps. *)
Ltac policy_step :=
  lazymatch goal with
  | |- ∀ _, _ => intros ?
  | |- policy_safe (mret _) _ => apply safe_ret; first [done | assumption]
  | |- policy_safe (match ?x with _ => _ end) _ => destruct x
  | |- policy_safe (?m ≫= _) _ =>
      first [apply safe_bind_action; [solve [repeat policy_step]|]
            |apply safe_bind_any; [solve [repeat policy_step]|]]
  | |- policy_safe _ _ => solve [eauto with policy_safe]
  end.
Ltac solve_policy_safe := repeat policy_step.

Lemma safe_apply_rule {S} rule :
  policy_safe (S:=S) (namei_ext_apply_rule rule) action_ok.
Proof. unfold namei_ext_apply_rule. solve_policy_safe. Qed.
Lemma safe_select_target {S} v : policy_safe (S:=S) (select_target v) action_ok.
Proof. unfold select_target. solve_policy_safe. Qed.
Lemma safe_redirect_to {S} lit : policy_safe (S:=S) (redirect_to lit) action_ok.
Proof. unfold redirect_to. solve_policy_safe. Qed.
#[export] Hint Resolve safe_apply_rule safe_select_target safe_redirect_to : policy_safe.

Lemma safe_alias_chain {S} table (otherwise : policy_m S Z) :
  policy_safe otherwise action_ok → policy_safe (alias_chain table otherwise) action_ok.
Proof.
  intros Ho. induction table as [|[from to] rest IH]; simpl; [done|].
  solve_policy_safe. all: done.
Qed.

Lemma safe_first_redirect {S} (ap : Z → policy_m S Z) classes otherwise :
  (∀ k, policy_safe (ap k) action_ok) → policy_safe otherwise action_ok →
  policy_safe (first_redirect ap classes otherwise) action_ok.
Proof.
  intros Ha Ho. induction classes as [|k rest IH]; simpl; [done|].
  apply safe_bind_action; [done|]. intros r _. destruct (r =? _); [|done].
  by apply safe_ret.
Qed.
