(* ===== verification/PolicyProps.v ===== *)
(** * Properties of the policies of bpf/policies/

    Every policy is a verified program, and the two that exist to be refused
    by the verifier are not. *)

From S2P Require Import Prelude Abi PolicyLib PoliciesBasic PoliciesTable PoliciesFamily.
From S2P Require Import PolicyFacts.

(** ** Every policy passes the verifier's contract *)

Section verified_instances.

Lemma safe_spindle_rule_action c :
  policy_safe (SpindleStaging.spindle_rule_action c) action_ok.
Proof.
  unfold SpindleStaging.spindle_rule_action, SpindleStaging.spindle_count,
    SpindleStaging.spindle_hit. solve_policy_safe.
Qed.
Lemma safe_ast_view_action c :
  policy_safe (AgentSourceTask.ast_view_action c) action_ok.
Proof.
  unfold AgentSourceTask.ast_view_action, AgentSourceTask.ast_count,
    AgentSourceTask.ast_hit. solve_policy_safe.
Qed.
Hint Resolve safe_spindle_rule_action safe_ast_view_action : policy_safe.

Lemma safe_emit_redirect_fault mode :
  policy_safe (Rq3Faults.emit_redirect_fault mode) action_ok.
Proof. unfold Rq3Faults.emit_redirect_fault. solve_policy_safe. Qed.
Hint Resolve safe_emit_redirect_fault : policy_safe.

Lemma safe_build_epoch_rule k :
  policy_safe (BuildGraphView.apply_build_epoch_rule k) action_ok.
Proof.
  unfold BuildGraphView.apply_build_epoch_rule, BuildGraphView.build_epoch.
  solve_policy_safe.
Qed.
Lemma safe_dynamic_build_rules :
  policy_safe BuildGraphView.apply_dynamic_build_rules action_ok.
Proof.
  apply safe_first_redirect; [apply safe_build_epoch_rule|].
  unfold BuildGraphView.apply_build_rule. solve_policy_safe.
Qed.
Lemma safe_fixture_epoch_rule k :
  policy_safe (SandboxFixtureView.apply_fixture_epoch_rule k) action_ok.
Proof.
  unfold SandboxFixtureView.apply_fixture_epoch_rule, SandboxFixtureView.fixture_epoch.
  solve_policy_safe.
Qed.
Lemma safe_dynamic_fixture_rules :
  policy_safe SandboxFixtureView.apply_dynamic_fixture_rules action_ok.
Proof.
  apply safe_first_redirect; [apply safe_fixture_epoch_rule|].
  unfold SandboxFixtureView.apply_fixture_rule. solve_policy_safe.
Qed.
Lemma safe_checkpoint_rule k :
  policy_safe (CheckpointRestoreView.apply_checkpoint_rule k) action_ok.
Proof.
  unfold CheckpointRestoreView.apply_checkpoint_rule,
    CheckpointRestoreView.checkpoint_epoch. solve_policy_safe.
Qed.
Hint Resolve safe_dynamic_build_rules safe_dynamic_fixture_rules
  safe_checkpoint_rule : policy_safe.

Lemma safe_cache_lookup_parent_rule r :
  policy_safe (CacheLocalityView.cache_lookup_parent_rule r) action_ok.
Proof.
  unfold CacheLocalityView.cache_lookup_parent_rule.
  apply safe_bind_any; [apply safe_get_ctx|]. intros c.
  repeat (case_match; [by apply safe_ret|]).
  apply safe_bind_any; [apply safe_set_redirect_name_len|]. intros _.
  apply safe_bind_any; [|intros _; by apply safe_ret].
  apply safe_modify_ctx; [done|]. intros c' Hc.
  apply set_outputs_wf; [done|apply length_array_init].
Qed.
Hint Resolve safe_cache_lookup_parent_rule : policy_safe.

Lemma safe_cache_parent_rule :
  policy_safe CacheLocalityView.apply_cache_parent_rule action_ok.
Proof. unfold CacheLocalityView.apply_cache_parent_rule. solve_policy_safe. Qed.
Lemma safe_cache_epoch_rule :
  policy_safe CacheLocalityView.apply_cache_epoch_rule action_ok.
Proof. unfold CacheLocalityView.apply_cache_epoch_rule. solve_policy_safe. Qed.
Hint Resolve safe_cache_parent_rule safe_cache_epoch_rule : policy_safe.
Lemma safe_cache_rule : policy_safe CacheLocalityView.apply_cache_rule action_ok.
Proof. unfold CacheLocalityView.apply_cache_rule. solve_policy_safe. Qed.
Hint Resolve safe_cache_rule : policy_safe.

Lemma safe_cache_branch table :
  policy_safe (ret ← CacheLocalityView.apply_cache_rule;
    if negb (ret =? BPF_NAMEI_EXT_PASS) then mret ret else
    alias_chain table (mret BPF_NAMEI_EXT_PASS)) action_ok.
Proof.
  apply safe_bind_action; [apply safe_cache_rule|]. intros r Hr.
  case_match; [by apply safe_ret|]. apply safe_alias_chain. by apply safe_ret.
Qed.

Ltac solve_verified := apply safe_verified; solve_policy_safe.

#[export] Instance pass_only_verified : VerifiedProgram (W:=unit) PassOnly.pass_only_policy.
Proof. unfold PassOnly.pass_only_policy. solve_verified. Qed.
#[export] Instance hide_secret_verified : VerifiedProgram (W:=unit) HideSecret.hide_secret_policy.
Proof. unfold HideSecret.hide_secret_policy. solve_verified. Qed.
#[export] Instance table_redirect_verified :
  VerifiedProgram (W:=bpf_hash namei_ext_redirect_rule) TableRedirect.table_redirect_policy.
Proof. unfold TableRedirect.table_redirect_policy. solve_verified. Qed.
#[export] Instance select_portal_verified :
  VerifiedProgram (W:=unit) SelectPortal.select_portal_policy.
Proof. unfold SelectPortal.select_portal_policy. solve_verified. Qed.
#[export] Instance fxmark_select_verified :
  VerifiedProgram (W:=unit) SelectPortal.fxmark_select_policy.
Proof. unfold SelectPortal.fxmark_select_policy. solve_verified. Qed.
#[export] Instance redirect_alias_verified :
  VerifiedProgram (W:=unit) RedirectAlias.redirect_alias_policy.
Proof.
  unfold RedirectAlias.redirect_alias_policy, RedirectAlias.redirect_to_tool,
    RedirectAlias.redirect_to_tool_real. solve_verified.
Qed.
#[export] Instance agent_workspace_view_verified :
  VerifiedProgram (W:=bpf_array) AgentWorkspaceView.agent_workspace_view_policy.
Proof.
  unfold AgentWorkspaceView.agent_workspace_view_policy,
    AgentWorkspaceView.aw_count_event. solve_verified.
Qed.
#[export] Instance rq3_fault_injection_verified :
  VerifiedProgram (W:=bpf_array) Rq3Faults.rq3_fault_injection_policy.
Proof. unfold Rq3Faults.rq3_fault_injection_policy. solve_verified. Qed.

#[export] Instance checkpoint_restore_migration_verified :
  VerifiedProgram (W:=CheckpointRestoreMigration.cr_maps)
    CheckpointRestoreMigration.checkpoint_restore_migration_policy.
Proof.
  unfold CheckpointRestoreMigration.checkpoint_restore_migration_policy,
    CheckpointRestoreMigration.cr_count_event. solve_verified.
Qed.
#[export] Instance toolchain_environment_verified :
  VerifiedProgram (W:=ToolchainEnvironment.te_maps)
    ToolchainEnvironment.toolchain_environment_policy.
Proof.
  unfold ToolchainEnvironment.toolchain_environment_policy,
    ToolchainEnvironment.te_count, ToolchainEnvironment.te_hit. solve_verified.
Qed.
#[export] Instance service_config_rotation_verified :
  VerifiedProgram (W:=ServiceConfigRotation.scr_maps)
    ServiceConfigRotation.service_config_rotation_policy.
Proof.
  unfold ServiceConfigRotation.service_config_rotation_policy,
    ServiceConfigRotation.scr_count_event. solve_verified.
Qed.
#[export] Instance semantic_continuation_verified :
  VerifiedProgram (W:=SemanticContinuation.sc_maps)
    SemanticContinuation.semantic_continuation_policy.
Proof.
  unfold SemanticContinuation.semantic_continuation_policy,
    SemanticContinuation.sc_count, SemanticContinuation.sc_hit. solve_verified.
Qed.
#[export] Instance spindle_staging_verified :
  VerifiedProgram (W:=SpindleStaging.spindle_maps) SpindleStaging.spindle_staging_policy.
Proof.
  unfold SpindleStaging.spindle_staging_policy, SpindleStaging.spindle_count.
  solve_verified.
Qed.
#[export] Instance agent_workspace_source_task_verified :
  VerifiedProgram (W:=AgentSourceTask.ast_maps)
    AgentSourceTask.agent_workspace_source_task_policy.
Proof.
  unfold AgentSourceTask.agent_workspace_source_task_policy, AgentSourceTask.ast_count.
  solve_verified.
Qed.
#[export] Instance application_file_sharing_verified :
  VerifiedProgram (W:=ApplicationFileSharing.afs_maps)
    ApplicationFileSharing.application_file_sharing_policy.
Proof.
  unfold ApplicationFileSharing.application_file_sharing_policy,
    ApplicationFileSharing.afs_count_event. solve_verified.
Qed.
#[export] Instance configmap_publication_verified :
  VerifiedProgram (W:=ConfigMapPublication.configmap_maps)
    ConfigMapPublication.kubernetes_configmap_publication_policy.
Proof.
  unfold ConfigMapPublication.kubernetes_configmap_publication_policy,
    ConfigMapPublication.configmap_count_event. solve_verified.
Qed.
#[export] Instance build_action_sandboxing_verified :
  VerifiedProgram (W:=BuildActionSandboxing.bas_maps)
    BuildActionSandboxing.build_action_sandboxing_policy.
Proof.
  unfold BuildActionSandboxing.build_action_sandboxing_policy,
    BuildActionSandboxing.bas_count_event. solve_verified.
Qed.

#[export] Instance build_graph_view_verified :
  VerifiedProgram (W:=BuildGraphView.build_maps) BuildGraphView.build_graph_view_policy.
Proof.
  unfold BuildGraphView.build_graph_view_policy, BuildGraphView.build_lookup,
    BuildGraphView.build_readdir.
  apply safe_verified. apply safe_bind_any; [apply safe_get_ctx|]. intros c.
  case_match; [|case_match; [|by apply safe_ret]]; apply safe_alias_chain;
    solve_policy_safe.
Qed.
#[export] Instance sandbox_fixture_view_verified :
  VerifiedProgram (W:=SandboxFixtureView.fixture_maps)
    SandboxFixtureView.sandbox_fixture_view_policy.
Proof.
  unfold SandboxFixtureView.sandbox_fixture_view_policy,
    SandboxFixtureView.fixture_lookup, SandboxFixtureView.fixture_readdir.
  apply safe_verified. apply safe_bind_any; [apply safe_get_ctx|]. intros c.
  case_match; [|case_match; [|by apply safe_ret]]; apply safe_alias_chain;
    solve_policy_safe.
Qed.
#[export] Instance checkpoint_restore_view_verified :
  VerifiedProgram (W:=CheckpointRestoreView.checkpoint_maps)
    CheckpointRestoreView.checkpoint_restore_view_policy.
Proof.
  unfold CheckpointRestoreView.checkpoint_restore_view_policy,
    CheckpointRestoreView.checkpoint_lookup, CheckpointRestoreView.checkpoint_readdir.
  apply safe_verified. apply safe_bind_any; [apply safe_get_ctx|]. intros c.
  case_match; [|case_match; [|by apply safe_ret]]; apply safe_alias_chain.
  - apply safe_first_redirect; intros; apply safe_checkpoint_rule.
  - apply safe_checkpoint_rule.
Qed.
#[export] Instance cache_locality_view_verified :
  VerifiedProgram (W:=CacheLocalityView.cache_maps)
    CacheLocalityView.cache_locality_view_policy.
Proof.
  unfold CacheLocalityView.cache_locality_view_policy, CacheLocalityView.cache_lookup,
    CacheLocalityView.cache_readdir.
  apply safe_verified. apply safe_bind_any; [apply safe_get_ctx|]. intros c.
  case_match; [|case_match; [|by apply safe_ret]]; apply safe_cache_branch.
Qed.

End verified_instances.

(** C38: Every shipped policy satisfies the contract the verifier enforces: it
    returns one of the four actions, writes none of the context's input
    fields, and leaves the context's arrays in shape; the two programs
    written to be refused (an action out of range, a write to an input
    field) violate it. *)
Theorem policies_verified :
  (VerifiedProgram PassOnly.pass_only_policy (W:=unit) ∧
   VerifiedProgram HideSecret.hide_secret_policy ∧
   VerifiedProgram TableRedirect.table_redirect_policy ∧
   VerifiedProgram SelectPortal.select_portal_policy ∧
   VerifiedProgram SelectPortal.fxmark_select_policy ∧
   VerifiedProgram RedirectAlias.redirect_alias_policy ∧
   VerifiedProgram AgentWorkspaceView.agent_workspace_view_policy ∧
   VerifiedProgram Rq3Faults.rq3_fault_injection_policy) ∧
  (VerifiedProgram CheckpointRestoreMigration.checkpoint_restore_migration_policy ∧
   VerifiedProgram ToolchainEnvironment.toolchain_environment_policy ∧
   VerifiedProgram ServiceConfigRotation.service_config_rotation_policy ∧
   VerifiedProgram SemanticContinuation.semantic_continuation_policy ∧
   VerifiedProgram SpindleStaging.spindle_staging_policy ∧
   VerifiedProgram AgentSourceTask.agent_workspace_source_task_policy ∧
   VerifiedProgram ApplicationFileSharing.application_file_sharing_policy ∧
   VerifiedProgram ConfigMapPublication.kubernetes_configmap_publication_policy ∧
   VerifiedProgram BuildActionSandboxing.build_action_sandboxing_policy) ∧
  (VerifiedProgram BuildGraphView.build_graph_view_policy ∧
   VerifiedProgram SandboxFixtureView.sandbox_fixture_view_policy ∧
   VerifiedProgram CheckpointRestoreView.checkpoint_restore_view_policy ∧
   VerifiedProgram CacheLocalityView.cache_locality_view_policy) ∧
  ¬ VerifiedProgram Rq3Faults.rq3_invalid_action_policy ∧
  ¬ VerifiedProgram Rq3Faults.rq3_invalid_ctx_write_policy.
Proof.
  split_and!; try apply _.
  - intros H. by specialize (prog_retval (p:=Rq3Faults.rq3_invalid_action_policy) tt
      (mk_ctx 0 0 0 0 0 [] 0 0 [] 0 0 0 0)).
  - intros H. by specialize (prog_inputs (p:=Rq3Faults.rq3_invalid_ctx_write_policy) tt
      (mk_ctx 1 0 0 0 0 [] 0 0 [] 0 0 0 0)).
Qed.
