(* ===== verification/PolicyViews.v ===== *)
(** * The views the policies present (bpf/policies/)

    Lookup and enumeration agree on what is hidden; the table policies
    implement their decision tables, cgroup by cgroup; the alias tables of
    the four families resolve the names they list. *)

From S2P Require Import Prelude Abi PolicyLib PoliciesBasic PoliciesTable PoliciesFamily.
From S2P Require Import PolicyFacts.

(** ** The component two events are about

    The kernel calls a policy with the same component for a lookup and for an
    enumerated entry; event, flags and name hash differ. *)

Definition ctx_key (c : bpf_namei_ext_ctx) : namei_ext_component_key :=
  set_key_event 0 (namei_ext_build_component_key c).

Record same_component (c c' : bpf_namei_ext_ctx) : Prop := {
  same_len : ctx_name_len c = ctx_name_len c';
  same_name : ctx_name c = ctx_name c';
  same_cgroup : ctx_cgroup_id c = ctx_cgroup_id c';
  same_dev : ctx_parent_dev c = ctx_parent_dev c';
  same_ino : ctx_parent_ino c = ctx_parent_ino c'
}.

Lemma same_component_key c c' : same_component c c' → ctx_key c = ctx_key c'.
Proof.
  intros [Hl Hn Hg Hd Hi]. unfold ctx_key, set_key_event. simpl.
  by rewrite Hl, Hn, Hg, Hd, Hi.
Qed.
Lemma same_component_is c c' s : same_component c c' → namei_ext_is c s = namei_ext_is c' s.
Proof.
  intros [Hl Hn _ _ _]. unfold namei_ext_is, namei_ext_name_is. by rewrite Hl, Hn.
Qed.

Lemma is_length c s :
  namei_ext_is c s = true → ctx_name_len c = Z.of_nat (length (bytes_of_string s)).
Proof.
  unfold namei_ext_is, namei_ext_name_is.
  destruct (ctx_name_len c =? _) eqn:E; [|done]. by unfold_bools.
Qed.

Lemma is_lookup_not_readdir c : is_lookup c = true → is_readdir c = false.
Proof. unfold is_lookup, is_readdir. intros H. unfold_bools. by rewrite H. Qed.
Lemma is_readdir_not_lookup c : is_readdir c = true → is_lookup c = false.
Proof. unfold is_lookup, is_readdir. intros H. unfold_bools. by rewrite H. Qed.

(** Evaluate a policy: run its steps, splitting on the conditions that block
    them. *)
Ltac policy_simpl :=
  cbn [fst snd negb orb andb
       SpindleStaging.spindle_staging_rules AgentSourceTask.agent_source_task_views
       ApplicationFileSharing.sharing_scopes ApplicationFileSharing.sharing_grants
       BuildActionSandboxing.build_action_roots BuildActionSandboxing.build_action_views
       BuildActionSandboxing.build_action_declared_inputs].
Ltac run_policy :=
  unfold mret, policy_ret, mbind, policy_bind, get_ctx, get_maps, modify_ctx, modify_maps;
  repeat match goal with
    | |- context [set_key_event 0 (namei_ext_build_component_key ?c)] => fold (ctx_key c)
    end;
  policy_simpl.
Ltac policy_cases :=
  policy_simpl;
  repeat (match goal with
          | |- context [match ?x with _ => _ end] =>
              lazymatch x with
              | context [match _ with _ => _ end] => fail
              | _ => destruct x eqn:?
              end
          end; policy_simpl).

Definition hides {S} (p : policy_m S Z) (w : S) (c : bpf_namei_ext_ctx) : bool :=
  (p w c).1.1 =? BPF_NAMEI_EXT_HIDE.

(** The policy hides a component from lookups exactly when it hides it from
    enumerations. *)
Definition hides_coherently {S} (p : policy_m S Z) : Prop :=
  ∀ w c c', is_lookup c = true → is_readdir c' = true → same_component c c' →
    hides p w c = hides p w c'.

(** ** Decision tables

    A policy's answer: the action and the context; the counters are left out. *)

Definition answer {S} (r : Z * S * bpf_namei_ext_ctx) : Z * bpf_namei_ext_ctx := (r.1.1, r.2).
Definition pass (c : bpf_namei_ext_ctx) := (BPF_NAMEI_EXT_PASS, c).
Definition hide (c : bpf_namei_ext_ctx) := (BPF_NAMEI_EXT_HIDE, c).
Definition select (tid : Z) (c : bpf_namei_ext_ctx) :=
  (BPF_NAMEI_EXT_SELECT_TARGET, set_target_id tid c).

(** A view's entry: a target for lookups, a plain entry for enumerations. *)
Definition show_or (absent : bpf_namei_ext_ctx → Z * bpf_namei_ext_ctx) (v : option Z)
  (c : bpf_namei_ext_ctx) : Z * bpf_namei_ext_ctx :=
  match v with
  | None => absent c
  | Some tid => if tid =? 0 then hide c else if is_lookup c then select tid c else pass c
  end.

Lemma hides_answer {S} (p : policy_m S Z) w c :
  hides p w c = ((answer (p w c)).1 =? BPF_NAMEI_EXT_HIDE).
Proof. done. Qed.

Lemma hide_secret_answer w c :
  answer (HideSecret.hide_secret_policy w c) =
  if (is_lookup c || is_readdir c) && namei_ext_is c "secret" then hide c else pass c.
Proof. unfold HideSecret.hide_secret_policy, answer. run_policy. by destruct (_ && _). Qed.

Lemma agent_workspace_answer w c :
  answer (AgentWorkspaceView.agent_workspace_view_policy w c) =
  if is_lookup c && namei_ext_is c "ws" then select 1 c else
  if (is_lookup c || is_readdir c) && namei_ext_is c "deleted.txt" then hide c else pass c.
Proof.
  unfold AgentWorkspaceView.agent_workspace_view_policy, AgentWorkspaceView.aw_count_event,
    answer. run_policy.
  destruct (is_lookup c), (is_readdir c); policy_cases; done.
Qed.

Lemma spindle_answer w c :
  answer (SpindleStaging.spindle_staging_policy w c) =
  if is_lookup c || is_readdir c then
    match SpindleStaging.spindle_staging_rules w !! ctx_key c with
    | None => pass c
    | Some tid =>
        if tid =? 0 then hide c else
        if negb (is_lookup c) || (SpindleStaging.SPINDLE_TARGET_MAX <=? tid)
        then pass c else select tid c
    end
  else pass c.
Proof.
  unfold SpindleStaging.spindle_staging_policy, SpindleStaging.spindle_rule_action,
    SpindleStaging.spindle_count, SpindleStaging.spindle_hit, answer. run_policy.
  destruct (is_lookup c); [|destruct (is_readdir c)]; policy_cases; done.
Qed.

Lemma agent_source_task_answer w c :
  answer (AgentSourceTask.agent_workspace_source_task_policy w c) =
  if is_lookup c || is_readdir c then
    if negb (namei_ext_is c "ws") then pass c else
    match AgentSourceTask.agent_source_task_views w !! ctx_key c with
    | None => hide c
    | Some tid =>
        if tid =? 0 then hide c else if is_readdir c then pass c else select tid c
    end
  else pass c.
Proof.
  unfold AgentSourceTask.agent_workspace_source_task_policy, AgentSourceTask.ast_view_action,
    AgentSourceTask.ast_count, AgentSourceTask.ast_hit, answer. run_policy.
  destruct (is_lookup c), (is_readdir c); policy_cases; done.
Qed.

Definition afs_document (c : bpf_namei_ext_ctx) : bool :=
  namei_ext_is c "document" || namei_ext_is c "namei-fixed-doc-id-001".
Definition afs_scoped (w : ApplicationFileSharing.afs_maps) (c : bpf_namei_ext_ctx) : bool :=
  nonzero (ApplicationFileSharing.sharing_scopes w !! set_key_cgroup_id 0 (ctx_key c)).

Lemma sharing_answer w c :
  answer (ApplicationFileSharing.application_file_sharing_policy w c) =
  if afs_document c && afs_scoped w c
  then show_or hide (ApplicationFileSharing.sharing_grants w !! ctx_key c) c
  else pass c.
Proof.
  unfold ApplicationFileSharing.application_file_sharing_policy,
    ApplicationFileSharing.afs_count_event, answer, afs_document, afs_scoped, show_or.
  run_policy. destruct (namei_ext_is c "document"), (namei_ext_is c "namei-fixed-doc-id-001"),
    (is_lookup c), (is_readdir c); policy_cases; done.
Qed.

(** The views of a generation. *)
Definition generation_views (m : ConfigMapPublication.configmap_maps) (generation : Z) :=
  if negb (generation =? 0) then ConfigMapPublication.configmap_publication_v1_views m
  else ConfigMapPublication.configmap_publication_v0_views m.

Lemma configmap_answer w c :
  answer (ConfigMapPublication.kubernetes_configmap_publication_policy w c) =
  match ConfigMapPublication.configmap_publication_generations w !! ctx_cgroup_id c with
  | None => pass c
  | Some g => show_or pass (generation_views w g !! ctx_key c) c
  end.
Proof.
  unfold ConfigMapPublication.kubernetes_configmap_publication_policy,
    ConfigMapPublication.configmap_count_event, answer, show_or, generation_views.
  run_policy.
  destruct (ConfigMapPublication.configmap_publication_generations w !! _) as [g|]; [|done].
  destruct (is_lookup c), (is_readdir c), (negb (g =? 0)); policy_cases; done.
Qed.

Lemma build_action_answer w c :
  answer (BuildActionSandboxing.build_action_sandboxing_policy w c) =
  if nonzero (BuildActionSandboxing.build_action_roots w !!
                BuildActionSandboxing.bas_root_key (ctx_key c)) then
    if nonzero (BuildActionSandboxing.build_action_declared_inputs w !! ctx_key c)
    then pass c else hide c
  else
  match BuildActionSandboxing.build_action_views w !! ctx_key c with
  | Some tid => if negb (tid =? 0) && is_lookup c then select tid c else pass c
  | None => pass c
  end.
Proof.
  unfold BuildActionSandboxing.build_action_sandboxing_policy,
    BuildActionSandboxing.bas_count_event, answer.
  run_policy. destruct (is_lookup c), (is_readdir c); policy_cases; done.
Qed.

(** ** Properties of the views *)

Ltac solve_coherent answer_lemma :=
  intros w c c' Hl Hr Hs; rewrite !hides_answer, !answer_lemma;
  unfold afs_document, afs_scoped, show_or;
  rewrite ?(same_component_key c c' Hs), ?(same_cgroup c c' Hs),
    ?(same_component_is c c' _ Hs), ?Hl, ?Hr, ?(is_lookup_not_readdir c Hl),
    ?(is_readdir_not_lookup c' Hr);
  policy_cases; try done.


(** The root of an action: its cgroup and directory. *)
Definition root_of (cg dev ino : Z) : namei_ext_component_key :=
  BuildActionSandboxing.bas_root_key (mk_key 0 0 cg dev ino []).

(** Build actions are hermetic: in a directory registered as the root of a
    cgroup's action, every component, looked up or enumerated, is hidden
    unless it is declared as an input of this action in this directory, and a
    declared one is left to the file system; no entry of the root is ever
    redirected or selected elsewhere. *)
Theorem build_action_hermetic w cg dev ino c :
  nonzero (BuildActionSandboxing.build_action_roots w !! root_of cg dev ino) = true →
  ctx_cgroup_id c = cg → ctx_parent_dev c = dev → ctx_parent_ino c = ino →
  answer (BuildActionSandboxing.build_action_sandboxing_policy w c) =
  if nonzero (BuildActionSandboxing.build_action_declared_inputs w !! ctx_key c)
  then pass c else hide c.
Proof.
  intros Hr <- <- <-. rewrite build_action_answer.
  change (BuildActionSandboxing.bas_root_key (ctx_key c)) with
    (root_of (ctx_cgroup_id c) (ctx_parent_dev c) (ctx_parent_ino c)).
  by rewrite Hr.
Qed.

(** Documents are shared per application: in a shared directory a document
    is hidden from a cgroup exactly when it holds no grant on it, a lookup by
    a holder enters the target of its own grant, and what other cgroups hold
    makes no difference. *)
Theorem sharing_is_isolated w w' c :
  afs_document c = true → afs_scoped w c = true →
  ApplicationFileSharing.sharing_scopes w' = ApplicationFileSharing.sharing_scopes w →
  (∀ k, key_cgroup_id k = ctx_cgroup_id c →
     ApplicationFileSharing.sharing_grants w' !! k =
     ApplicationFileSharing.sharing_grants w !! k) →
  let policy := ApplicationFileSharing.application_file_sharing_policy in
  let grant := ApplicationFileSharing.sharing_grants w !! ctx_key c in
  hides policy w c = negb (nonzero grant) ∧
  (∀ tid, grant = Some tid → tid ≠ 0 → is_lookup c = true →
     answer (policy w c) = select tid c) ∧
  answer (policy w' c) = answer (policy w c).
Proof.
  intros Hd Hsc Hs Hg policy grant. unfold policy. rewrite hides_answer, !sharing_answer.
  assert (afs_scoped w' c = true) as -> by (unfold afs_scoped in *; by rewrite Hs).
  rewrite Hd, Hsc, (Hg (ctx_key c)) by done. fold grant. cbn [andb]. split_and!; [| |done].
  - unfold show_or. destruct grant as [tid|]; simpl; [|done].
    destruct (tid =? 0); [done|]. by destruct (is_lookup c).
  - intros tid -> Ht Hl. simpl. by rewrite (proj2 (Z.eqb_neq _ _)), Hl.
Qed.

(** Publishing: one update of the generation map. *)
Definition publish (cg generation : Z) (m : ConfigMapPublication.configmap_maps)
  : ConfigMapPublication.configmap_maps :=
  ConfigMapPublication.mk_configmap
    (ConfigMapPublication.configmap_publication_v0_views m)
    (ConfigMapPublication.configmap_publication_v1_views m)
    (<[cg := generation]> (ConfigMapPublication.configmap_publication_generations m))
    (ConfigMapPublication.configmap_publication_counters m).

(** A publication is atomic and local: the single map update that changes a
    cgroup's generation moves the answers of all its components, looked up
    and enumerated, to the new generation's views at once (never a mix of the
    two generations), and leaves every other cgroup's answers alone. *)
Theorem publication_is_atomic cg generation m c :
  answer (ConfigMapPublication.kubernetes_configmap_publication_policy
            (publish cg generation m) c) =
  if ctx_cgroup_id c =? cg
  then show_or pass (generation_views m generation !! ctx_key c) c
  else answer (ConfigMapPublication.kubernetes_configmap_publication_policy m c).
Proof.
  rewrite !configmap_answer. simpl.
  destruct (ctx_cgroup_id c =? cg) eqn:E; unfold_bools.
  - by rewrite E, lookup_insert_eq.
  - by rewrite lookup_insert_ne.
Qed.

(** ** Alias tables *)

(** The context is about this component. *)
Definition names (c : bpf_namei_ext_ctx) (s : String.string) : Prop :=
  ctx_name_len c = Z.of_nat (length (bytes_of_string s)) ∧
  ctx_component c = bytes_of_string s.

(** The first alias of a name. *)
Fixpoint alias_of (table : list (String.string * String.string)) (s : String.string)
  : option String.string :=
  match table with
  | [] => None
  | (from, to) :: rest =>
      if bool_decide (bytes_of_string s = bytes_of_string from) then Some to
      else alias_of rest s
  end.

Definition aliases_fit (table : list (String.string * String.string)) : Prop :=
  Forall (λ ft, (length (bytes_of_string ft.1) ≤ NAME_MAX_nat)%nat ∧
                (length (bytes_of_string ft.2) ≤ NAME_MAX_nat)%nat) table.

Lemma names_is c s lit :
  ctx_wf c → names c s → (length (bytes_of_string lit) ≤ NAME_MAX_nat)%nat →
  namei_ext_is c lit = bool_decide (bytes_of_string s = bytes_of_string lit).
Proof.
  intros Hwf [Hl Hc] Hf. apply eq_bool_prop_intro. rewrite !Is_true_true.
  rewrite namei_ext_is_spec, Hl, Hc, bool_decide_eq_true by done.
  split; [by intros [_ ?]|]. by intros ->.
Qed.

Lemma alias_chain_redirects {S} table (otherwise : policy_m S Z) w c s to :
  ctx_wf c → aliases_fit table → names c s → alias_of table s = Some to →
  let '(action, w', c') := alias_chain table otherwise w c in
  action = BPF_NAMEI_EXT_REDIRECT ∧ w' = w ∧ ctx_redirect c' = bytes_of_string to.
Proof.
  intros Hwf Hfit Hn. induction Hfit as [|[from t] rest [Hf Ht] _ IH]; simpl in *; [done|].
  unfold mbind, policy_bind, get_ctx. rewrite (names_is c s) by done.
  case_bool_decide; [|apply IH]. intros [= ->]. unfold redirect_to, namei_ext_redirect_literal.
  unfold mbind, policy_bind, modify_ctx, mret, policy_ret.
  split_and!; [done..|]. by apply set_redirect_spec.
Qed.

(** Looking up a name of the table opens its backing entry, and enumerating the
    backing entry shows the name, from maps that satisfy [ok]. *)
Definition resolves_what_it_lists {S} (p : policy_m S Z) (ok : S → Prop)
  (aliases : list (String.string * String.string)) : Prop :=
  Forall (λ '(name, backing), ∀ w c, ctx_wf c → ok w →
    let '(action, w', c') := p w c in
    (is_lookup c = true → names c name →
       action = BPF_NAMEI_EXT_REDIRECT ∧ w' = w ∧ ctx_redirect c' = bytes_of_string backing) ∧
    (is_readdir c = true → names c backing →
       action = BPF_NAMEI_EXT_REDIRECT ∧ w' = w ∧ ctx_redirect c' = bytes_of_string name))
    aliases.

(** The tables are each other's inverse. *)
Definition inverse_tables (aliases reverse : list (String.string * String.string)) : bool :=
  forallb (λ '(name, backing),
    bool_decide (alias_of aliases name = Some backing ∧ alias_of reverse backing = Some name))
    aliases.

Definition fits (table : list (String.string * String.string)) : bool :=
  forallb (λ '(a, b), (length (bytes_of_string a) <=? NAME_MAX_nat)%nat &&
                      (length (bytes_of_string b) <=? NAME_MAX_nat)%nat) table.

Lemma fits_spec table : fits table = true → aliases_fit table.
Proof.
  unfold fits, aliases_fit. rewrite forallb_forall, Forall_forall. intros H [a b] Hin.
  apply list_elem_of_In in Hin. specialize (H _ Hin). simpl in *.
  apply andb_true_iff in H as [?%Nat.leb_le ?%Nat.leb_le]. done.
Qed.

(** A policy that runs the table of the event's kind. *)
Lemma tables_resolve {S} (p : policy_m S Z) ok aliases reverse otherwise otherwise' :
  (∀ w c, ok w → is_lookup c = true → p w c = alias_chain aliases otherwise w c) →
  (∀ w c, ok w → is_readdir c = true → p w c = alias_chain reverse otherwise' w c) →
  fits aliases = true → fits reverse = true → inverse_tables aliases reverse = true →
  resolves_what_it_lists p ok aliases.
Proof.
  intros Hl Hr Ha%fits_spec Hb%fits_spec Hi. unfold inverse_tables in Hi.
  rewrite forallb_forall in Hi. apply Forall_forall. intros [name backing] Hin.
  apply list_elem_of_In in Hin. specialize (Hi _ Hin). simpl in Hi.
  apply bool_decide_eq_true in Hi as [H1 H2]. intros w c Hwf Hok.
  destruct (p w c) as [[action w'] c'] eqn:E. split; intros He Hn.
  - rewrite (Hl w c Hok He) in E. pose proof (alias_chain_redirects aliases otherwise w c
      name backing Hwf Ha Hn H1) as H. by rewrite E in H.
  - rewrite (Hr w c Hok He) in E. pose proof (alias_chain_redirects reverse otherwise' w c
      backing name Hwf Hb Hn H2) as H. by rewrite E in H.
Qed.

(** No rule of the cache policy applies. *)
Definition no_cache_rules (w : CacheLocalityView.cache_maps) : Prop :=
  CacheLocalityView.cache_rules w = ∅ ∧ CacheLocalityView.cache_epoch_rules w = ∅.

Lemma no_cache_rules_pass w c :
  no_cache_rules w → CacheLocalityView.apply_cache_rule w c = (BPF_NAMEI_EXT_PASS, w, c).
Proof.
  destruct w as [rules sessions epochs]. intros [Hr He]. simpl in Hr, He. subst.
  assert (CacheLocalityView.apply_cache_epoch_rule
      (CacheLocalityView.mk_cache ∅ sessions ∅) c =
    (BPF_NAMEI_EXT_PASS, CacheLocalityView.mk_cache ∅ sessions ∅, c)) as H.
  { unfold CacheLocalityView.apply_cache_epoch_rule. run_policy.
    cbn [CacheLocalityView.cache_epoch_sessions CacheLocalityView.cache_epoch_rules].
    destruct (sessions !! _) as [s|]; [|done].
    destruct (session_active s =? 0); [done|]. by rewrite lookup_empty. }
  unfold CacheLocalityView.apply_cache_rule, CacheLocalityView.apply_cache_parent_rule.
  run_policy. rewrite H.
  rewrite Z.eqb_refl. cbn [negb CacheLocalityView.cache_rules]. by rewrite !lookup_empty.
Qed.

