(* ===== verification/Kernel.v ===== *)
(** * Kernel objects shared by the components

    Paths and their references, component names, and the sums over finite maps
    that the reference and user counters are compared with.  A pointer is an
    integer, [NULL] is 0. *)

From S2P Require Import Prelude Abi.

Definition NULL : Z := 0.

(** ** Paths (struct path) *)

Record path := mk_path { p_mnt : Z; p_dentry : Z }.

#[export] Instance path_eq_dec : EqDecision path.
Proof. solve_decision. Defined.
#[export] Instance path_countable : Countable path.
Proof.
  refine (inj_countable' (λ p, (p_mnt p, p_dentry p)) (λ '(m, d), mk_path m d) _).
  by intros [].
Defined.

(** [path_equal] *)
Definition path_equal (a b : path) : bool :=
  (p_mnt a =? p_mnt b) && (p_dentry a =? p_dentry b).

Lemma path_equal_true a b : path_equal a b = true ↔ a = b.
Proof.
  unfold path_equal. destruct a, b; simpl.
  rewrite andb_true_iff, !Z.eqb_eq. split; [by intros [-> ->]|by intros [= -> ->]].
Qed.
Lemma path_equal_refl a : path_equal a a = true.
Proof. by apply path_equal_true. Qed.

Definition null_path : path := mk_path NULL NULL.

(** ** Names (struct qstr)

    [q_name] is the memory the name pointer points at, of which the first
    [q_len] bytes are the name; what follows them is readable too (the rest of
    the pathname, or of the buffer). *)

Record qstr := mk_qstr { q_hash : Z; q_len : Z; q_name : list Z }.

Definition q_bytes (q : qstr) : list Z := take (Z.to_nat (q_len q)) (q_name q).

(** ** Inodes: the device of the superblock, if any, and the identity. *)
Record inode := mk_inode { i_sdev : option Z; i_ino : Z; i_generation : Z }.

(** ** References held on paths

    [refs !! p] is the number of references on [p] taken by the code of the
    model; [path_get] and [path_put] move it by one. *)

Abbreviation refs_t := (gmap path Z).
Definition ref_count (r : refs_t) (p : path) : Z := default 0 (r !! p).

Definition path_get (p : path) (r : refs_t) : refs_t := <[p := ref_count r p + 1]> r.
Definition path_put (p : path) (r : refs_t) : refs_t := <[p := ref_count r p - 1]> r.

Lemma ref_count_get p q r :
  ref_count (path_get p r) q = ref_count r q + (if decide (q = p) then 1 else 0).
Proof.
  unfold path_get, ref_count. destruct (decide (q = p)) as [->|].
  - by rewrite lookup_insert_eq.
  - rewrite lookup_insert_ne by done. lia.
Qed.
Lemma ref_count_put p q r :
  ref_count (path_put p r) q = ref_count r q - (if decide (q = p) then 1 else 0).
Proof.
  unfold path_put, ref_count. destruct (decide (q = p)) as [->|].
  - by rewrite lookup_insert_eq.
  - rewrite lookup_insert_ne by done. lia.
Qed.

Definition path_get_all (ps : list path) (r : refs_t) : refs_t := foldl (flip path_get) r ps.
Definition path_put_all (ps : list path) (r : refs_t) : refs_t := foldl (flip path_put) r ps.

(** Occurrences of a path in a list of paths. *)
Definition occurrences (q : path) (ps : list path) : Z :=
  Z.of_nat (length (filter (λ p, p = q) ps)).

Lemma occurrences_nil q : occurrences q [] = 0.
Proof. done. Qed.
Lemma occurrences_cons q p ps :
  occurrences q (p :: ps) = (if decide (q = p) then 1 else 0) + occurrences q ps.
Proof.
  unfold occurrences. rewrite filter_cons. case_decide; subst.
  - rewrite decide_True by done. simpl. lia.
  - rewrite decide_False by congruence. lia.
Qed.
Lemma occurrences_app q ps ps' :
  occurrences q (ps ++ ps') = occurrences q ps + occurrences q ps'.
Proof. unfold occurrences. rewrite filter_app, length_app. lia. Qed.
Lemma occurrences_perm q ps ps' : ps ≡ₚ ps' → occurrences q ps = occurrences q ps'.
Proof. unfold occurrences. by intros ->. Qed.
#[export] Instance occurrences_proper q :
  Proper ((≡ₚ) ==> (=)) (occurrences q).
Proof. intros ???. by apply occurrences_perm. Qed.

Lemma occurrences_elem q ps : q ∈ ps → 1 ≤ occurrences q ps.
Proof.
  intros (l & r & ->)%list_elem_of_split. rewrite occurrences_app, occurrences_cons, decide_True by done.
  unfold occurrences. lia.
Qed.

Lemma ref_count_put_all ps q r :
  ref_count (path_put_all ps r) q = ref_count r q - occurrences q ps.
Proof.
  revert r. induction ps as [|p ps IH]; intros r; simpl.
  - rewrite occurrences_nil. lia.
  - rewrite IH, occurrences_cons. unfold flip. rewrite ref_count_put. lia.
Qed.
Lemma ref_count_get_all ps q r :
  ref_count (path_get_all ps r) q = ref_count r q + occurrences q ps.
Proof.
  revert r. induction ps as [|p ps IH]; intros r; simpl.
  - rewrite occurrences_nil. lia.
  - rewrite IH, occurrences_cons. unfold flip. rewrite ref_count_get. lia.
Qed.

#[export] Hint Rewrite ref_count_get ref_count_put ref_count_put_all
  ref_count_get_all occurrences_nil occurrences_cons occurrences_app : namei_rw.

(** ** Chained hash tables *)

Lemma concat_replicate_nil {A} n : concat (replicate n (@nil A)) = [].
Proof. induction n as [|n IH]; [done|]. exact IH. Qed.

Lemma concat_filter {A} (P : A → Prop) `{∀ x, Decision (P x)} (ll : list (list A)) :
  concat (filter P <$> ll) = filter P (concat ll).
Proof.
  induction ll as [|l ll IH]; [done|].
  rewrite fmap_cons. cbn [concat]. by rewrite IH, filter_app.
Qed.

Lemma concat_insert {A} (ll : list (list A)) b x :
  (b < length ll)%nat →
  ∃ l r, concat ll = l ++ (ll !!! b) ++ r ∧ concat (<[b := x]> ll) = l ++ x ++ r.
Proof.
  intros Hb. exists (concat (take b ll)), (concat (drop (S b) ll)).
  split.
  - rewrite <- (take_drop_middle ll b (ll !!! b)) at 1
      by (apply list_lookup_lookup_total_lt; done).
    by rewrite concat_app.
  - rewrite insert_take_drop by done. by rewrite concat_app.
Qed.

(** ** Sums over finite maps *)

Section map_sum.
Context `{Countable K} {A : Type} (f : A → Z).

Definition map_sum (m : gmap K A) : Z := map_fold (λ _ x acc, f x + acc) 0 m.

Lemma map_sum_empty : map_sum ∅ = 0.
Proof. apply map_fold_empty. Qed.

Lemma map_sum_insert_fresh i x m :
  m !! i = None → map_sum (<[i := x]> m) = f x + map_sum m.
Proof.
  intros Hi. unfold map_sum. rewrite map_fold_insert_L; [done| |done].
  intros; lia.
Qed.

Lemma map_sum_delete i x m :
  m !! i = Some x → map_sum m = f x + map_sum (delete i m).
Proof.
  intros Hi. rewrite <- (insert_delete_id m i x Hi) at 1.
  apply map_sum_insert_fresh, lookup_delete_eq.
Qed.

(** Replacing the value of a key moves the sum by the difference. *)
Lemma map_sum_insert i x m :
  map_sum (<[i := x]> m) = map_sum m + f x - default 0 (f <$> m !! i).
Proof.
  destruct (m !! i) as [y|] eqn:Hi; simpl.
  - rewrite (map_sum_delete i y m Hi).
    rewrite <- insert_delete_eq, map_sum_insert_fresh by apply lookup_delete_eq. lia.
  - rewrite map_sum_insert_fresh by done. lia.
Qed.

Lemma map_sum_nonneg m : (∀ i x, m !! i = Some x → 0 ≤ f x) → 0 ≤ map_sum m.
Proof.
  induction m as [|i x m Hi IH] using map_ind; intros Hf.
  - by rewrite map_sum_empty.
  - rewrite map_sum_insert_fresh by done.
    assert (0 ≤ f x) by (apply (Hf i), lookup_insert_eq).
    assert (0 ≤ map_sum m); [|lia].
    apply IH. intros j y Hj. apply (Hf j). rewrite lookup_insert_ne; congruence.
Qed.

Lemma map_sum_ge m i x :
  (∀ i x, m !! i = Some x → 0 ≤ f x) → m !! i = Some x → f x ≤ map_sum m.
Proof.
  intros Hf Hi. rewrite (map_sum_delete i x m Hi).
  assert (0 ≤ map_sum (delete i m)); [|lia].
  apply map_sum_nonneg. intros j y [? Hj]%lookup_delete_Some. eauto.
Qed.
End map_sum.
