(* ===== verification/Rcu.v ===== *)
(** * Hash tables of linked lists under RCU

    What the scope index and the target registry of fs/namei_ext.c share: a
    table of hlists that writers change one store at a time while readers walk
    its chains without a lock.  A node that was removed keeps its next
    pointer, so a reader can still be at it; it is freed after a grace period.
    The theory is over any type of nodes with a bucket for each. *)

From S2P Require Import Prelude Kernel.

Section tables.
Context {A : Type} `{!EqDecision A}.

(** ** Chains *)

(** The node after [n] in a chain. *)
Fixpoint next_in (chain : list A) (n : A) : option A :=
  match chain with
  | [] => None
  | x :: rest => if decide (x = n) then head rest else next_in rest n
  end.

(** The next pointer of a removed node, where the last removed comes first. *)
Fixpoint stale_next (stale : list (A * option A)) (n : A) : option A :=
  match stale with
  | [] => None
  | (x, o) :: rest => if decide (x = n) then o else stale_next rest n
  end.

Lemma next_in_split l n r : n ∉ l → next_in (l ++ n :: r) n = head r.
Proof.
  induction l as [|x l IH]; simpl.
  - intros _. by rewrite decide_True.
  - intros [Hx Hl]%not_elem_of_cons. rewrite decide_False by done. by apply IH.
Qed.

Lemma next_in_ne chain n n' : NoDup chain → next_in chain n = Some n' → n' ≠ n.
Proof.
  induction 1 as [|x rest Hx Hnd IH]; simpl; [done|]. case_decide as Hd; [|done].
  intros Hh ->. apply Hx. rewrite Hd. by apply head_Some_elem_of.
Qed.

Lemma next_in_elem chain n n' : next_in chain n = Some n' → n' ∈ chain.
Proof.
  induction chain as [|x rest IH]; simpl; [done|]. case_decide.
  - intros Hh. right. by apply head_Some_elem_of.
  - intros Hn. right. by apply IH.
Qed.

(** Past a deleted node. *)
Lemma next_in_filter chain x n :
  NoDup chain → n ≠ x →
  next_in (filter (.≠ x) chain) n =
  if decide (next_in chain n = Some x) then next_in chain x else next_in chain n.
Proof.
  intros Hnd Hn. induction Hnd as [|y rest Hy Hnd IH]; [by case_decide|].
  cbn [next_in]. destruct (decide (y = n)) as [->|Hyn].
  - rewrite filter_cons_True by done. cbn [next_in]. rewrite decide_True by done.
    rewrite (decide_False (P:=n = x)) by done.
    destruct rest as [|z r]; [by case_decide|]. cbn [head].
    apply NoDup_cons in Hnd as [Hz _]. destruct (decide (z = x)) as [->|Hzx].
    + rewrite decide_True by done. rewrite filter_cons_False by tauto.
      rewrite filter_all; [|by intros y Hy' ->]. cbn [next_in]. by rewrite decide_True.
    + rewrite decide_False by congruence. by rewrite filter_cons_True.
  - destruct (decide (y = x)) as [->|Hyx].
    + rewrite filter_cons_False by tauto. rewrite filter_all by by intros y Hy' ->.
      rewrite decide_False; [done|]. by intros ?%next_in_elem.
    + rewrite filter_cons_True by done. cbn [next_in]. by rewrite decide_False.
Qed.

(** Across a replaced node. *)
Definition swap (old new x : A) : A := if decide (x = old) then new else x.

Lemma swap_old old new : swap old new old = new.
Proof. unfold swap. by rewrite decide_True. Qed.
Lemma swap_ne old new x : x ≠ old → swap old new x = x.
Proof. intros Hx. unfold swap. by rewrite decide_False. Qed.

Lemma swap_not_in old new (l : list A) : old ∉ l → swap old new <$> l = l.
Proof.
  induction l as [|x l IH]; [done|]. intros [Hx Hl]%not_elem_of_cons.
  rewrite fmap_cons, swap_ne, IH by done. done.
Qed.

Lemma head_fmap {B C} (f : B → C) (l : list B) : head (f <$> l) = f <$> head l.
Proof. by destruct l. Qed.

Lemma next_in_swap chain old new n :
  new ∉ chain → n ≠ new → n ≠ old →
  next_in (swap old new <$> chain) n = swap old new <$> next_in chain n.
Proof.
  intros Hnew Hn Ho. induction chain as [|y rest IH]; [done|].
  apply not_elem_of_cons in Hnew as [Hy Hnew]. rewrite fmap_cons. cbn [next_in].
  assert (swap old new y = n ↔ y = n) as Hs.
  { unfold swap. case_decide; [|done]. subst. split; congruence. }
  destruct (decide (y = n)) as [->|Hyn].
  - rewrite decide_True by by apply Hs. apply head_fmap.
  - rewrite decide_False by by rewrite Hs. by apply IH.
Qed.

Lemma next_in_swap_new chain old new :
  NoDup chain → new ∉ chain → next_in (swap old new <$> chain) new = next_in chain old.
Proof.
  intros Hnd Hnew. induction Hnd as [|y rest Hy Hnd IH]; [done|].
  apply not_elem_of_cons in Hnew as [Hyn Hnew]. rewrite fmap_cons. cbn [next_in].
  destruct (decide (y = old)) as [->|Hyo].
  - rewrite (swap_old old new), decide_True by done.
    rewrite head_fmap. destruct rest as [|z r]; [done|].
    cbn. rewrite swap_ne; [done|]. intros ->. apply Hy. left.
  - rewrite (swap_ne old new), decide_False by done. by apply IH.
Qed.

Lemma stale_next_elem stale n n' : stale_next stale n = Some n' → (n, Some n') ∈ stale.
Proof.
  induction stale as [|[x o] rest IH]; simpl; [done|]. case_decide as Hd.
  - intros ->. rewrite Hd. left.
  - intros Hn. right. by apply IH.
Qed.

Lemma stale_next_first pre n o post :
  n ∉ pre.*1 → stale_next (pre ++ (n, o) :: post) n = o.
Proof.
  induction pre as [|[x o'] pre IH]; simpl; [by rewrite decide_True|].
  intros [Hx Hn]%not_elem_of_cons. rewrite decide_False by done. by apply IH.
Qed.

(** ** Tables *)

Record rcu_table := mk_table {
  rt_index : list (list A);
  rt_stale : list (A * option A);
  rt_freed : list A
}.

(** The nodes of the table, and those removed from it. *)
Definition linked (t : rcu_table) : list A := concat (rt_index t).
Definition unlinked (t : rcu_table) : list A := (rt_stale t).*1.

Context (buckets : nat) (bkt : A → nat) (bkt_lt : ∀ n, (bkt n < buckets)%nat).

Definition table_chain (t : rcu_table) (n : A) : list A := rt_index t !!! bkt n.

(** [hlist_next_rcu] *)
Definition table_next (t : rcu_table) (n : A) : option A :=
  if decide (n ∈ table_chain t n) then next_in (table_chain t n) n
  else stale_next (rt_stale t) n.

(** [hash_add_rcu], [hash_del_rcu], [hlist_replace_rcu] and [kfree] *)
Definition table_add (n : A) (t : rcu_table) : rcu_table :=
  mk_table (<[bkt n := n :: table_chain t n]> (rt_index t)) (rt_stale t) (rt_freed t).
Definition table_del (n : A) (t : rcu_table) : rcu_table :=
  mk_table (filter (.≠ n) <$> rt_index t)
    ((n, next_in (table_chain t n) n) :: rt_stale t) (rt_freed t).
Definition table_replace (old new : A) (t : rcu_table) : rcu_table :=
  mk_table ((λ chain : list A, swap old new <$> chain) <$> rt_index t)
    ((old, next_in (table_chain t old) old) :: rt_stale t) (rt_freed t).
Definition table_free (ns : list A) (t : rcu_table) : rcu_table :=
  mk_table (rt_index t) (rt_stale t) (ns ++ rt_freed t).

(** Where the next pointers of removed nodes lead. *)
Fixpoint stale_ok (live : list A) (stale : list (A * option A)) (newer : list A) : Prop :=
  match stale with
  | [] => True
  | (n, o) :: rest =>
      (∀ n', o = Some n' → bkt n' = bkt n ∧ (n' ∈ live ∨ n' ∈ newer)) ∧
      stale_ok live rest (n :: newer)
  end.

Record index_ok (index : list (list A)) : Prop := {
  index_length : length index = buckets;
  index_bucket b chain n : index !! b = Some chain → n ∈ chain → bkt n = b
}.

Record table_ok (t : rcu_table) : Prop := {
  tab_index : index_ok (rt_index t);
  tab_nodup : NoDup (linked t);
  tab_unlinked n : n ∈ unlinked t → n ∉ linked t;
  tab_freed n : n ∈ rt_freed t → n ∉ linked t;
  tab_stale : stale_ok (linked t) (rt_stale t) []
}.

(** *** Chains of a table *)

Lemma chain_lookup t n :
  index_ok (rt_index t) → rt_index t !! bkt n = Some (table_chain t n).
Proof. intros [Hl _]. apply list_lookup_lookup_total_lt. by rewrite Hl. Qed.

Lemma chain_linked t n : index_ok (rt_index t) → n ∈ table_chain t n ↔ n ∈ linked t.
Proof.
  intros Hi. pose proof (chain_lookup t n Hi) as Hc. split.
  - intros Hn. apply list_elem_of_In, in_concat. exists (table_chain t n).
    split; apply list_elem_of_In; [by eapply list_elem_of_lookup_2|done].
  - intros (chain & Hin & Hn)%list_elem_of_In%in_concat.
    apply list_elem_of_In, list_elem_of_lookup in Hin as [b Hb].
    apply list_elem_of_In in Hn.
    rewrite <- (index_bucket _ Hi b chain n) in Hb by done. congruence.
Qed.

Lemma chain_bucket t n n' :
  index_ok (rt_index t) → n' ∈ table_chain t n → bkt n' = bkt n ∧ n' ∈ linked t.
Proof.
  intros Hi Hn. pose proof (chain_lookup t n Hi) as Hc.
  assert (bkt n' = bkt n) as Hb by (by eapply index_bucket). split; [done|].
  apply chain_linked; [done|]. unfold table_chain. by rewrite Hb.
Qed.

Lemma chain_NoDup t n : index_ok (rt_index t) → NoDup (linked t) → NoDup (table_chain t n).
Proof.
  intros Hi Hnd. pose proof (chain_lookup t n Hi) as Hc. unfold linked in Hnd.
  rewrite <- (take_drop_middle _ _ _ Hc), concat_app in Hnd. cbn [concat] in Hnd.
  apply NoDup_app in Hnd as (_ & _ & Hnd). by apply NoDup_app in Hnd as (? & _ & _).
Qed.

Lemma stale_ok_app live pre post newer :
  stale_ok live (pre ++ post) newer → stale_ok live post (reverse (pre.*1) ++ newer).
Proof.
  revert newer. induction pre as [|[x o] pre IH]; intros newer; [done|].
  intros [_ Hr]. apply IH in Hr. rewrite fmap_cons, reverse_cons, <- (assoc_L (++)). exact Hr.
Qed.

(** An entry of the list: its next pointer leads to an entry before it, or
    into the table. *)
Lemma stale_ok_at live pre n n' post :
  stale_ok live (pre ++ (n, Some n') :: post) [] →
  bkt n' = bkt n ∧ (n' ∈ live ∨ n' ∈ pre.*1).
Proof.
  intros [Ho _]%stale_ok_app. destruct (Ho n' eq_refl) as [Hb [Hi|Hi]]; split; try done.
  - by left.
  - rewrite app_nil_r, elem_of_reverse in Hi. by right.
Qed.

Lemma stale_ok_entry live stale n n' :
  stale_ok live stale [] → (n, Some n') ∈ stale →
  bkt n' = bkt n ∧ (n' ∈ live ∨ n' ∈ stale.*1).
Proof.
  intros Hok (pre & post & ->)%list_elem_of_split. apply stale_ok_at in Hok as [? [?|?]];
    (split; [done|]); [by left|right]. rewrite fmap_app, elem_of_app. by left.
Qed.

Lemma stale_ok_mono live live' stale newer newer' :
  (∀ n, n ∈ live ∨ n ∈ newer → n ∈ live' ∨ n ∈ newer') →
  stale_ok live stale newer → stale_ok live' stale newer'.
Proof.
  revert newer newer'. induction stale as [|[n o] rest IH]; intros newer newer' Hi; simpl; [done|].
  intros [Ho Hr]. split.
  - intros n' Hn. destruct (Ho n' Hn). split; [done|]. by apply Hi.
  - eapply IH, Hr. intros x. rewrite !elem_of_cons. specialize (Hi x). tauto.
Qed.

(** *** Stores keep the table in shape *)

Lemma index_ok_add n t :
  index_ok (rt_index t) → index_ok (rt_index (table_add n t)).
Proof.
  intros Hi. pose proof Hi as [Hl Hb]. split; simpl; [by rewrite length_insert|].
  intros b chain n' [(<- & <- & _)|(_ & Hc)]%list_lookup_insert_Some; [|eauto].
  intros [->|Hn]%elem_of_cons; [done|]. by apply chain_bucket in Hn as [? _].
Qed.

Lemma linked_add n t :
  index_ok (rt_index t) → linked (table_add n t) ≡ₚ n :: linked t.
Proof.
  intros [Hl Hb]. unfold linked, table_add. cbn [rt_index].
  destruct (concat_insert (rt_index t) (bkt n) (n :: table_chain t n)) as (l & r & -> & ->).
  - by rewrite Hl.
  - unfold table_chain. simpl. by rewrite <- Permutation_middle.
Qed.

Lemma linked_del n t : linked (table_del n t) = filter (.≠ n) (linked t).
Proof. unfold linked, table_del. cbn. by rewrite concat_filter. Qed.

Lemma linked_del_elem n t x : x ∈ linked (table_del n t) ↔ x ∈ linked t ∧ x ≠ n.
Proof. rewrite linked_del, list_elem_of_filter. tauto. Qed.

Lemma linked_replace old new t : linked (table_replace old new t) = swap old new <$> linked t.
Proof. unfold linked, table_replace. cbn. generalize (rt_index t).
  induction l as [|c l IH]; [done|]. rewrite fmap_cons. cbn [concat]. by rewrite fmap_app, IH. Qed.

Lemma linked_replace_elem old new t x :
  old ∈ linked t → new ∉ linked t →
  x ∈ linked (table_replace old new t) ↔ x = new ∨ (x ∈ linked t ∧ x ≠ old).
Proof.
  intros Ho Hn. rewrite linked_replace, list_elem_of_fmap. unfold swap. split.
  - intros (y & -> & Hy). case_decide; [by left|by right].
  - intros [->|[Hx Hne]]; [exists old|exists x]; by case_decide.
Qed.

Lemma table_ok_add n t :
  n ∉ linked t → n ∉ unlinked t → n ∉ rt_freed t → table_ok t → table_ok (table_add n t).
Proof.
  intros Hi Hr Hf [H1 H2 H3 H4 H5]. pose proof (linked_add n t H1) as Hp. split.
  - by apply index_ok_add.
  - rewrite Hp. by constructor.
  - intros x Hx. rewrite Hp, not_elem_of_cons. split; [|by apply H3]. by intros ->.
  - intros x Hx. rewrite Hp, not_elem_of_cons. split; [|by apply H4]. by intros ->.
  - eapply stale_ok_mono, H5. intros x. rewrite Hp, elem_of_cons. tauto.
Qed.

Lemma index_ok_fmap (f : list A → list A) index :
  (∀ chain n, n ∈ f chain → ∃ n', n' ∈ chain ∧ bkt n' = bkt n) →
  index_ok index → index_ok (f <$> index).
Proof.
  intros Hf [Hl Hb]. split; [by rewrite length_fmap|].
  intros b chain n (chain' & -> & Hc)%list_lookup_fmap_Some (n' & Hn & <-)%Hf. eauto.
Qed.

(** The node removed last: its next pointer leads into the table. *)
Lemma stale_ok_remove n t live' :
  table_ok t → n ∈ linked t →
  (∀ x, x ∈ linked t → x ≠ n → x ∈ live') →
  stale_ok live' ((n, next_in (table_chain t n) n) :: rt_stale t) [].
Proof.
  intros [H1 H2 H3 H4 H5] Hn Hl. split.
  - intros n' Ho. pose proof (next_in_ne _ _ _ (chain_NoDup t n H1 H2) Ho).
    apply next_in_elem, chain_bucket in Ho as [? ?]; [|done]. split; [done|]. left. by apply Hl.
  - eapply stale_ok_mono, H5. intros x [Hx|Hx]; [|by apply not_elem_of_nil in Hx].
    destruct (decide (x = n)) as [->|]; [right; left|left; by apply Hl].
Qed.

Lemma table_ok_del n t : n ∈ linked t → table_ok t → table_ok (table_del n t).
Proof.
  intros Hn Ht. pose proof Ht as [H1 H2 H3 H4 H5]. split.
  - apply index_ok_fmap; [|done]. intros chain x [_ Hx]%list_elem_of_filter. by exists x.
  - rewrite linked_del. by apply NoDup_filter.
  - intros x [->|Hx]%elem_of_cons; rewrite linked_del_elem; [tauto|]. intros [? _]. by apply (H3 x).
  - intros x Hx. rewrite linked_del_elem. intros [? _]. by apply (H4 x).
  - apply stale_ok_remove; [done|done|]. intros x ??. by apply linked_del_elem.
Qed.

Lemma table_ok_replace old new t :
  old ∈ linked t → bkt new = bkt old →
  new ∉ linked t → new ∉ unlinked t → new ∉ rt_freed t →
  table_ok t → table_ok (table_replace old new t).
Proof.
  intros Ho Hb Hi Hr Hf Ht. pose proof Ht as [H1 H2 H3 H4 H5].
  assert (new ≠ old) as Hne by congruence. split.
  - apply index_ok_fmap; [|done]. intros chain x (y & -> & Hy)%list_elem_of_fmap.
    exists y. split; [done|]. unfold swap. by case_decide; subst.
  - rewrite linked_replace. apply NoDup_fmap_2_strong; [|done].
    intros x y Hx Hy. unfold swap. repeat case_decide; congruence.
  - intros x [->|Hx]%elem_of_cons; rewrite linked_replace_elem by done.
    + by intros [?|[_ ?]].
    + intros [->|[? _]]; [done|]. by apply (H3 x).
  - intros x Hx. rewrite linked_replace_elem by done. intros [->|[? _]]; [done|]. by apply (H4 x).
  - apply stale_ok_remove; [done|done|]. intros x ??. apply linked_replace_elem; tauto.
Qed.

Lemma table_ok_free ns t :
  (∀ n, n ∈ ns → n ∉ linked t) → table_ok t → table_ok (table_free ns t).
Proof.
  intros Hn [H1 H2 H3 H4 H5]. split; try done. intros n [?|?]%elem_of_app; [by apply Hn|by apply H4].
Qed.

(** *** Next pointers *)

Lemma table_next_elem t n n' :
  table_ok t → table_next t n = Some n' →
  (n' ∈ linked t ∧ bkt n' = bkt n) ∨ (n, Some n') ∈ rt_stale t.
Proof.
  intros Ht. unfold table_next. case_decide as Hc.
  - intros Ho%next_in_elem. apply chain_bucket in Ho as [??]; [by left|apply Ht].
  - intros Ho%stale_next_elem. by right.
Qed.

(** Where a next pointer can lead. *)
Lemma table_next_known t n n' :
  table_ok t → table_next t n = Some n' → n' ∈ linked t ∨ n' ∈ unlinked t.
Proof.
  intros Ht [[? _]|Hs]%table_next_elem; [by left| |done].
  by apply (stale_ok_entry _ _ _ _ (tab_stale t Ht)) in Hs as [_ ?].
Qed.

Lemma table_next_linked t n :
  table_ok t → n ∈ linked t → table_next t n = next_in (table_chain t n) n.
Proof.
  intros Ht Hn. unfold table_next. rewrite decide_True; [done|]. apply chain_linked; [|done].
  apply Ht.
Qed.

Lemma table_next_unlinked t n :
  table_ok t → n ∉ linked t → table_next t n = stale_next (rt_stale t) n.
Proof.
  intros Ht Hn. unfold table_next. rewrite decide_False; [done|].
  rewrite chain_linked; [done|]. apply Ht.
Qed.

Lemma table_next_add x t n :
  table_ok t → table_ok (table_add x t) → n ≠ x →
  table_next (table_add x t) n = table_next t n.
Proof.
  intros Ht Ht' Hx.
  assert (n ∈ linked (table_add x t) ↔ n ∈ linked t) as Hl.
  { rewrite linked_add, elem_of_cons by apply Ht. split; [by intros [?|?]|by right]. }
  destruct (decide (n ∈ linked t)) as [Hn|Hn].
  - rewrite !table_next_linked by (try done; by apply Hl).
    unfold table_chain at 1. cbn [table_add rt_index].
    destruct (decide (bkt n = bkt x)) as [Hb|Hb].
    + rewrite Hb, list_lookup_total_insert_eq by (rewrite (index_length _ (tab_index t Ht)); done).
      cbn [next_in]. rewrite decide_False by done. unfold table_chain. by rewrite Hb.
    + by rewrite list_lookup_total_insert_ne by done.
  - rewrite !table_next_unlinked by (try done; by rewrite Hl). done.
Qed.

Lemma table_chain_fmap (f : list A → list A) t stale freed n :
  table_ok t → table_chain (mk_table (f <$> rt_index t) stale freed) n = f (table_chain t n).
Proof.
  intros Ht. unfold table_chain. cbn [rt_index]. apply list_lookup_total_correct.
  rewrite list_lookup_fmap. by rewrite (chain_lookup t n (tab_index t Ht)).
Qed.

Lemma table_next_del x t n :
  table_ok t → x ∈ linked t →
  table_next (table_del x t) n =
  if decide (n ∈ linked t ∧ table_next t n = Some x) then table_next t x else table_next t n.
Proof.
  intros Ht Hx. pose proof (table_ok_del x t Hx Ht) as Ht'.
  pose proof (chain_NoDup t n (tab_index t Ht) (tab_nodup t Ht)) as Hnd.
  rewrite (table_next_linked t x) by done.
  destruct (decide (n = x)) as [->|Hn].
  { rewrite table_next_unlinked by (try done; rewrite linked_del_elem; tauto).
    simpl. rewrite decide_True by done. rewrite table_next_linked by done. by case_decide. }
  destruct (decide (n ∈ linked t)) as [Hl|Hl].
  - rewrite table_next_linked by (try done; by apply linked_del_elem).
    rewrite (table_next_linked t n) by done.
    unfold table_del. rewrite table_chain_fmap, next_in_filter by done.
    destruct (decide (next_in _ n = Some x)) as [Hnx|Hnx].
    + rewrite decide_True by done. apply next_in_elem, chain_bucket in Hnx as [Hb _]; [|apply Ht].
      unfold table_chain. by rewrite Hb.
    + by rewrite decide_False by tauto.
  - rewrite (decide_False (P:=n ∈ linked t ∧ _)) by tauto.
    rewrite !table_next_unlinked by (try done; rewrite linked_del_elem; tauto).
    simpl. by rewrite decide_False by done.
Qed.

Lemma table_next_replace old new t n :
  table_ok t → old ∈ linked t → bkt new = bkt old →
  new ∉ linked t → new ∉ unlinked t → new ∉ rt_freed t → n ≠ new →
  table_next (table_replace old new t) n =
  if decide (n ∈ linked t ∧ table_next t n = Some old) then Some new else table_next t n.
Proof.
  intros Ht Ho Hb Hi Hr Hf Hnew.
  pose proof (table_ok_replace old new t Ho Hb Hi Hr Hf Ht) as Ht'.
  pose proof (chain_NoDup t n (tab_index t Ht) (tab_nodup t Ht)) as Hnd.
  assert (new ≠ old) as Hne by congruence.
  destruct (decide (n = old)) as [->|Hn].
  { rewrite table_next_unlinked by (try done; rewrite linked_replace_elem by done; by intros [?|[_ ?]]).
    simpl. rewrite decide_True by done. rewrite table_next_linked by done.
    rewrite decide_False; [done|]. intros [_ ?%next_in_ne]; done. }
  destruct (decide (n ∈ linked t)) as [Hl|Hl].
  - rewrite table_next_linked by (try done; apply linked_replace_elem; tauto).
    rewrite (table_next_linked t n) by done.
    unfold table_replace. rewrite table_chain_fmap by done.
    assert (new ∉ table_chain t n) as Hc by (intros [_ ?]%chain_bucket; [done|apply Ht]).
    rewrite next_in_swap by done. destruct (next_in _ n) as [y|]; simpl.
    + destruct (decide (y = old)) as [->|Hy]; [by rewrite swap_old, decide_True|].
      rewrite swap_ne, decide_False by (done || (intros [_ Hy']; congruence)). done.
    + rewrite decide_False; [done|]. by intros [_ ?].
  - rewrite (decide_False (P:=n ∈ linked t ∧ _)) by tauto.
    rewrite !table_next_unlinked by (try done; rewrite linked_replace_elem by done; by intros [?|[? _]]).
    simpl. by rewrite decide_False by done.
Qed.

Lemma table_next_replace_new old new t :
  table_ok t → old ∈ linked t → bkt new = bkt old →
  new ∉ linked t → new ∉ unlinked t → new ∉ rt_freed t →
  table_next (table_replace old new t) new = table_next t old.
Proof.
  intros Ht Ho Hb Hi Hr Hf.
  pose proof (table_ok_replace old new t Ho Hb Hi Hr Hf Ht) as Ht'.
  rewrite table_next_linked, (table_next_linked t old)
    by (try done; apply linked_replace_elem; tauto).
  unfold table_replace. rewrite table_chain_fmap by done.
  assert (table_chain t new = table_chain t old) as -> by (unfold table_chain; by rewrite Hb).
  apply next_in_swap_new; [apply chain_NoDup; apply Ht|].
  intros [_ ?]%chain_bucket; [done|apply Ht].
Qed.

(** ** Readers

    A reader whose section began when the nodes [gone] had been removed: it
    is never at one of these, and cannot reach one. *)

Record reader_ok (gone : A → Prop) (t : rcu_table) (b : nat) (at_ : option A) : Prop := {
  gone_unlinked n : gone n → n ∈ unlinked t;
  gone_closed n n' : (n, Some n') ∈ rt_stale t → ¬ gone n → ¬ gone n';
  gone_freed n : n ∈ rt_freed t → n ∈ unlinked t → gone n;
  at_node n : at_ = Some n →
    ¬ gone n ∧ (n ∈ linked t ∨ n ∈ unlinked t) ∧ bkt n = b
}.

Lemma reader_ok_nowhere gone t b at_ : reader_ok gone t b at_ → reader_ok gone t b None.
Proof. by intros [? ? ? _]. Qed.

Lemma reader_ok_live gone t b at_ n :
  table_ok t → reader_ok gone t b at_ → n ∈ linked t → bkt n = b → reader_ok gone t b (Some n).
Proof.
  intros Ht [H1 H2 H3 H4] Hn Hb. split; try done. intros n' [= <-]. split_and!; [|by left|done].
  intros Hg%H1. by apply (tab_unlinked t Ht n).
Qed.

(** Entering a section. *)
Lemma reader_ok_enter t b : reader_ok (.∈ unlinked t) t b None.
Proof.
  split; try done. intros n n' Hs Hn. exfalso. apply Hn. apply list_elem_of_fmap.
  by exists (n, Some n').
Qed.

(** A load of the next pointer. *)
Lemma reader_ok_next gone t b n :
  table_ok t → reader_ok gone t b (Some n) → reader_ok gone t b (table_next t n).
Proof.
  intros Ht Hr. destruct (table_next t n) as [n'|] eqn:Hn; [|by eapply reader_ok_nowhere].
  pose proof Hr as [H1 H2 H3 H4]. destruct (H4 n eq_refl) as (Hng & Hl & Hb).
  apply table_next_elem in Hn as [[Hl' Hb']|Hs]; [by eapply reader_ok_live; eauto; congruence| |done].
  pose proof (stale_ok_entry _ _ _ _ (tab_stale t Ht) Hs) as [Hb' Hl'].
  split; try done. intros n2 [= <-]. split_and!; [by apply (H2 n)|done|congruence].
Qed.

(** Stores while the reader stays. *)
Lemma reader_ok_add gone t b at_ x :
  table_ok t → reader_ok gone t b at_ → reader_ok gone (table_add x t) b at_.
Proof.
  intros Ht [H1 H2 H3 H4]. split; try done. intros n Hn.
  destruct (H4 n Hn) as (? & Hl & ?). split_and!; try done.
  rewrite linked_add, elem_of_cons by apply Ht. destruct Hl; [left; by right|by right].
Qed.

(** A store that removes a linked node, and keeps or replaces the others. *)
Lemma reader_ok_remove gone t t' b at_ x :
  table_ok t → x ∈ linked t → rt_freed t' = rt_freed t →
  rt_stale t' = (x, next_in (table_chain t x) x) :: rt_stale t →
  (∀ n, n ∈ linked t → n ≠ x → n ∈ linked t') →
  reader_ok gone t b at_ → reader_ok gone t' b at_.
Proof.
  intros Ht Hx Hf Hs Hl [H1 H2 H3 H4]. split; unfold unlinked; rewrite ?Hf, ?Hs.
  - intros n Hn%H1. by right.
  - intros n n' [[= -> Ho]|Hin]%elem_of_cons; [|by apply (H2 n)].
    symmetry in Ho. apply next_in_elem, chain_bucket in Ho as [_ Hi]; [|apply Ht].
    intros _ Hg%H1. by apply (tab_unlinked t Ht n').
  - intros n Hn [->|Hin]%elem_of_cons; [|by apply H3]. by apply (tab_freed t Ht) in Hn.
  - intros n Hn. destruct (H4 n Hn) as (? & Hln & ?). split_and!; try done.
    rewrite fmap_cons, elem_of_cons. destruct (decide (n = x)) as [->|]; [by right; left|].
    destruct Hln; [left; by apply Hl|by right; right].
Qed.

Lemma reader_ok_del gone t b at_ x :
  table_ok t → x ∈ linked t → reader_ok gone t b at_ → reader_ok gone (table_del x t) b at_.
Proof.
  intros Ht Hx. apply (reader_ok_remove _ _ _ _ _ x); try done.
  intros n ??. by apply linked_del_elem.
Qed.

Lemma reader_ok_replace gone t b at_ old new :
  table_ok t → old ∈ linked t → new ∉ linked t →
  reader_ok gone t b at_ → reader_ok gone (table_replace old new t) b at_.
Proof.
  intros Ht Ho Hn. apply (reader_ok_remove _ _ _ _ _ old); try done.
  intros n ??. apply linked_replace_elem; tauto.
Qed.

Lemma reader_ok_free gone t b at_ ns :
  (∀ n, n ∈ ns → n ∈ unlinked t → gone n) →
  reader_ok gone t b at_ → reader_ok gone (table_free ns t) b at_.
Proof.
  intros Hns [H1 H2 H3 H4]. split; try done. intros n [?|?]%elem_of_app; [by apply Hns|by apply H3].
Qed.

(** ** Grace periods

    What an operation does after it has let go of its lock, for the nodes it
    removed.  [waits]: the grace period waits for the reader, which was in
    its section when the period started. *)

Context {P : Type} (nodes : P → list A).

Inductive finisher :=
  | FSync (p : P)                    (* before synchronize_rcu *)
  | FGrace (p : P) (waits : bool)    (* in it *)
  | FFree (p : P).                   (* after it *)

Definition payload (f : finisher) : P :=
  match f with FSync p | FGrace p _ | FFree p => p end.

(** The reader is in its section or not after a load; when it is not, no
    grace period waits for it any more. *)
Definition reader_left (inside : bool) (f : finisher) : finisher :=
  match f with FGrace p waits => FGrace p (waits && inside) | _ => f end.

(** Nodes whose grace period does not wait for the reader were removed before
    the reader's section began. *)
Definition finisher_ok (gone : A → Prop) (t : rcu_table) (f : finisher) : Prop :=
  match f with
  | FSync _ | FGrace _ true => True
  | FGrace p false | FFree p => ∀ n, n ∈ nodes p → n ∈ unlinked t → gone n
  end.

Definition finishing_nodes (fs : list finisher) : list A := fs ≫= λ f, nodes (payload f).

(** The table as it will be when every operation has finished. *)
Definition doomed (fs : list finisher) (t : rcu_table) : rcu_table :=
  table_free (finishing_nodes fs) t.

Lemma finishing_nodes_elem fs n :
  n ∈ finishing_nodes fs ↔ ∃ f, f ∈ fs ∧ n ∈ nodes (payload f).
Proof. unfold finishing_nodes. rewrite list_elem_of_bind. split; intros (f & ? & ?); by exists f. Qed.

Lemma reader_left_nodes b (fs : list finisher) :
  finishing_nodes (reader_left b <$> fs) = finishing_nodes fs.
Proof.
  induction fs as [|f fs IH]; [done|]. rewrite fmap_cons. unfold finishing_nodes in *.
  simpl. f_equal; [by destruct f|done].
Qed.

Lemma reader_left_true (fs : list finisher) : reader_left true <$> fs = fs.
Proof.
  induction fs as [|f fs IH]; [done|]. rewrite fmap_cons, IH. f_equal.
  destruct f; simpl; by rewrite ?andb_true_r.
Qed.

(** ** Safety of readers

    What holds of a table, the operations that finish, and a reader inside or
    outside its section, looking for something in bucket [b]. *)

Record rcu_safe (t : rcu_table) (fs : list finisher) (inside : bool) (b : nat)
  (at_ : option A) : Prop := {
  safe_doomed : table_ok (doomed fs t);
  safe_reader : inside = true →
    ∃ gone, reader_ok gone t b at_ ∧ Forall (finisher_ok gone t) fs
}.

Lemma table_ok_freed t t' :
  rt_index t' = rt_index t → rt_stale t' = rt_stale t →
  (∀ n, n ∈ rt_freed t' → n ∈ rt_freed t) → table_ok t → table_ok t'.
Proof.
  intros Hi Hs Hf [H1 H2 H3 H4 H5].
  split; unfold linked, unlinked in *; rewrite ?Hi, ?Hs; try done. intros n Hn%Hf. by apply H4.
Qed.

Lemma safe_table t fs inside b at_ : rcu_safe t fs inside b at_ → table_ok t.
Proof.
  intros [Ht _]. eapply table_ok_freed, Ht; try done. intros n Hn. apply elem_of_app. by right.
Qed.

(** The node a reader is at has not been freed. *)
Lemma safe_not_freed t fs b n : rcu_safe t fs true b (Some n) → n ∉ rt_freed t.
Proof.
  intros Hs Hf. pose proof (safe_table _ _ _ _ _ Hs) as Ht.
  destruct (safe_reader _ _ _ _ _ Hs eq_refl) as (gone & [H1 H2 H3 H4] & _).
  destruct (H4 n eq_refl) as (Hg & [Hl|Hl] & _); [by apply (tab_freed t Ht n)|by apply Hg, H3].
Qed.

Lemma finishing_not_linked fs t f n :
  table_ok (doomed fs t) → f ∈ fs → n ∈ nodes (payload f) → n ∉ linked t.
Proof.
  intros Ht Hf Hn. apply (tab_freed _ Ht). apply elem_of_app. left. apply finishing_nodes_elem.
  eauto.
Qed.

(** Stores of the operation that holds the lock: [t'] removes at most linked
    nodes. *)
Lemma finisher_ok_store gone fs t t' :
  table_ok (doomed fs t) → (∀ n, n ∈ unlinked t' → n ∈ unlinked t ∨ n ∈ linked t) →
  Forall (finisher_ok gone t) fs → Forall (finisher_ok gone t') fs.
Proof.
  intros Ht Hu Hfs. apply list.Forall_forall. intros f Hf.
  pose proof (proj1 (list.Forall_forall _ _) Hfs f Hf) as Hok.
  assert (∀ n, n ∈ nodes (payload f) → n ∈ unlinked t' → n ∈ unlinked t) as Hn.
  { intros n Hn [?|?]%Hu; [done|]. by apply (finishing_not_linked fs t f n) in Hn. }
  destruct f as [p|p [|]|p]; simpl in *; try done; intros n ? ?; by apply Hok, Hn.
Qed.

Lemma safe_add x t fs inside b at_ :
  x ∉ linked t → x ∉ unlinked t → x ∉ rt_freed (doomed fs t) →
  rcu_safe t fs inside b at_ → rcu_safe (table_add x t) fs inside b at_.
Proof.
  intros Hl Hu Hf Hs. split; [by apply (table_ok_add x (doomed fs t)), Hs|].
  intros Hin. destruct (safe_reader _ _ _ _ _ Hs Hin) as (gone & Hr & Hfs). exists gone.
  split; [|done]. apply reader_ok_add; [by eapply safe_table|done].
Qed.

Lemma safe_del x t fs inside b at_ :
  x ∈ linked t → rcu_safe t fs inside b at_ → rcu_safe (table_del x t) fs inside b at_.
Proof.
  intros Hl Hs. split; [by apply (table_ok_del x (doomed fs t)), Hs|].
  intros Hin. destruct (safe_reader _ _ _ _ _ Hs Hin) as (gone & Hr & Hfs). exists gone.
  split; [apply reader_ok_del; [by eapply safe_table|done..]|].
  eapply finisher_ok_store, Hfs; [apply Hs|]. intros n [->|?]%elem_of_cons; [by right|by left].
Qed.

Lemma safe_replace old new t fs inside b at_ :
  old ∈ linked t → bkt new = bkt old →
  new ∉ linked t → new ∉ unlinked t → new ∉ rt_freed (doomed fs t) →
  rcu_safe t fs inside b at_ → rcu_safe (table_replace old new t) fs inside b at_.
Proof.
  intros Ho Hb Hl Hu Hf Hs. split; [by apply (table_ok_replace old new (doomed fs t)), Hs|].
  intros Hin. destruct (safe_reader _ _ _ _ _ Hs Hin) as (gone & Hr & Hfs). exists gone.
  split; [apply reader_ok_replace; [by eapply safe_table|done..]|].
  eapply finisher_ok_store, Hfs; [apply Hs|]. intros n [->|?]%elem_of_cons; [by right|by left].
Qed.

(** Nodes that were never in the table. *)
Lemma safe_free_new ns t fs inside b at_ :
  (∀ n, n ∈ ns → (n ∉ linked t) ∧ n ∉ unlinked t) →
  rcu_safe t fs inside b at_ → rcu_safe (table_free ns t) fs inside b at_.
Proof.
  intros Hns Hs. split.
  - eapply table_ok_freed, (table_ok_free ns (doomed fs t)); try done; [|by intros n [? _]%Hns|apply Hs].
    intros n. simpl. rewrite !elem_of_app. tauto.
  - intros Hin. destruct (safe_reader _ _ _ _ _ Hs Hin) as (gone & Hr & Hfs). exists gone.
    split; [|done]. apply reader_ok_free; [|done]. by intros n [_ ?]%Hns ?.
Qed.

(** An operation lets go of its lock. *)
Lemma safe_unlock p t fs inside b at_ :
  (∀ n, n ∈ nodes p → n ∉ linked t) →
  rcu_safe t fs inside b at_ → rcu_safe t (FSync p :: fs) inside b at_.
Proof.
  intros Hp Hs. split.
  - eapply table_ok_freed, (table_ok_free (nodes p) (doomed fs t)); try done; [|apply Hs].
    intros n Hn. simpl in *. rewrite !elem_of_app in *. tauto.
  - intros Hin. destruct (safe_reader _ _ _ _ _ Hs Hin) as (gone & Hr & Hfs). exists gone.
    split; [done|]. by constructor.
Qed.

(** Its grace period starts; and ends, when it waits for no reader. *)
Lemma safe_move f f' t fs1 fs2 inside b at_ :
  payload f' = payload f →
  (∀ gone, inside = true → finisher_ok gone t f → finisher_ok gone t f') →
  rcu_safe t (fs1 ++ f :: fs2) inside b at_ → rcu_safe t (fs1 ++ f' :: fs2) inside b at_.
Proof.
  intros Hp Hok Hs.
  assert (finishing_nodes (fs1 ++ f' :: fs2) = finishing_nodes (fs1 ++ f :: fs2)) as He.
  { unfold finishing_nodes. by rewrite !bind_app, !bind_cons, Hp. }
  split; [unfold doomed; rewrite He; apply Hs|].
  intros Hin. destruct (safe_reader _ _ _ _ _ Hs Hin) as (gone & Hr & Hfs). exists gone.
  split; [done|]. apply Forall_app in Hfs as [? [??]%Forall_cons]. apply Forall_app.
  split; [done|]. constructor; [by apply Hok|done].
Qed.

Lemma safe_sync p t fs1 fs2 inside b at_ :
  rcu_safe t (fs1 ++ FSync p :: fs2) inside b at_ →
  rcu_safe t (fs1 ++ FGrace p inside :: fs2) inside b at_.
Proof. apply safe_move; [done|]. by intros gone ->. Qed.

Lemma safe_grace p t fs1 fs2 inside b at_ :
  rcu_safe t (fs1 ++ FGrace p false :: fs2) inside b at_ →
  rcu_safe t (fs1 ++ FFree p :: fs2) inside b at_.
Proof. by apply safe_move. Qed.

(** It frees [ns]; what is left to free is [ps]. *)
Lemma safe_free p ns ps t fs1 fs2 inside b at_ :
  (∀ n, n ∈ nodes p ↔ n ∈ ns ∨ n ∈ finishing_nodes (FFree <$> ps)) →
  rcu_safe t (fs1 ++ FFree p :: fs2) inside b at_ →
  rcu_safe (table_free ns t) (fs1 ++ (FFree <$> ps) ++ fs2) inside b at_.
Proof.
  intros Hp Hs. split.
  - eapply table_ok_freed, Hs; try done. intros n. unfold doomed. simpl.
    unfold finishing_nodes in *. rewrite !bind_app, bind_cons, !elem_of_app. simpl.
    rewrite Hp. tauto.
  - intros Hin. destruct (safe_reader _ _ _ _ _ Hs Hin) as (gone & Hr & Hfs). exists gone.
    apply Forall_app in Hfs as [Hf1 [Hf Hf2]%Forall_cons]. simpl in Hf. split.
    + apply reader_ok_free; [|done]. intros n Hn Hu. apply Hf; [|done]. apply Hp. by left.
    + rewrite !Forall_app. split_and!; [done| |done]. apply Forall_fmap, list.Forall_forall.
      intros q Hq n Hn Hu. apply Hf; [|done]. apply Hp. right. apply finishing_nodes_elem.
      exists (FFree q). split; [by apply list_elem_of_fmap_2|done].
Qed.

(** A load of the reader. *)
Lemma safe_load t fs inside inside' b at_ at' :
  (inside' = true → inside = true ∧
     (∀ gone, table_ok t → reader_ok gone t b at_ → reader_ok gone t b at') ∨
   at' = None) →
  rcu_safe t fs inside b at_ → rcu_safe t (reader_left inside' <$> fs) inside' b at'.
Proof.
  intros Hload Hs. split; [unfold doomed; rewrite reader_left_nodes; apply Hs|].
  intros ->. rewrite reader_left_true. destruct (Hload eq_refl) as [[-> Hl]| ->].
  - destruct (safe_reader _ _ _ _ _ Hs eq_refl) as (gone & Hr & Hfs). exists gone.
    split; [|done]. apply Hl; [by eapply safe_table|done].
  - exists (.∈ unlinked t). split; [apply reader_ok_enter|]. apply list.Forall_forall.
    by intros [p|p [|]|p] _; simpl.
Qed.

Lemma safe_leave t fs inside b at_ at' :
  rcu_safe t fs inside b at_ → rcu_safe t fs false b at'.
Proof. intros Hs. by split; [apply Hs|]. Qed.
End tables.
