(* ===== verification/Targets.v ===== *)
(** * The target registry (fs/namei_ext.c)

    Directories registered under a pair of a cgroup id and a target id, in a
    hash table of 256 chains.  The registry owns one reference on every
    registered path. *)

From S2P Require Import Prelude Abi Kernel.

Definition NAMEI_EXT_TARGET_HASH_BITS : nat := 8.
Definition target_buckets : nat := 2 ^ NAMEI_EXT_TARGET_HASH_BITS.
#[global] Arguments target_buckets : simpl never.

Record namei_ext_target := mk_target {
  tgt_cg_id : Z;
  tgt_target_id : Z;
  tgt_path : path
}.

Definition namei_ext_target_key (cgroup_id target_id : Z) : Z :=
  Z.lxor (Z.lxor cgroup_id (u64 (Z.shiftl target_id 32))) target_id.

(** The registry, and the references on paths. *)
Record targets_state := mk_targets {
  ts_table : list (list namei_ext_target);
  ts_refs : refs_t
}.

Definition empty_targets : targets_state :=
  mk_targets (replicate target_buckets []) ∅.

(** [target->cg_id == cg_id && target->target_id == target_id] *)
Definition target_is (cg tid : Z) (t : namei_ext_target) : bool :=
  (tgt_cg_id t =? cg) && (tgt_target_id t =? tid).

Fixpoint find_in_chain (cg tid : Z) (chain : list namei_ext_target)
  : option namei_ext_target :=
  match chain with
  | [] => None
  | t :: rest => if target_is cg tid t then Some t else find_in_chain cg tid rest
  end.

(** [hlist_replace_rcu] of the first match: the old node and the new chain. *)
Fixpoint replace_in_chain (cg tid : Z) (new : namei_ext_target)
  (chain : list namei_ext_target) : option (namei_ext_target * list namei_ext_target) :=
  match chain with
  | [] => None
  | t :: rest =>
      if target_is cg tid t then Some (t, new :: rest)
      else
        match replace_in_chain cg tid new rest with
        | Some (old, rest') => Some (old, t :: rest')
        | None => None
        end
  end.

(** Paths held by the registry. *)
Definition ts_held (st : targets_state) : list path := tgt_path <$> concat (ts_table st).

Section targets.
(** [hash_min(key, NAMEI_EXT_TARGET_HASH_BITS)] of linux/hash.h *)
Variable hash_min : Z → nat.

Definition target_bkt (cg tid : Z) : nat := hash_min (namei_ext_target_key cg tid).

Definition chain_of (st : targets_state) (b : nat) : list namei_ext_target :=
  ts_table st !!! b.

Definition namei_ext_register_target (alloc_ok dead : bool) (cg_id target_id : Z)
  (p : path) (st : targets_state) : Z * targets_state :=
  if (target_id =? 0) || (p_mnt p =? NULL) || (p_dentry p =? NULL)
  then (- EINVAL, st) else
  if negb alloc_ok then (- ENOMEM, st) else
  let new_target := mk_target cg_id target_id p in
  let b := target_bkt cg_id target_id in
  if dead then (- ENODEV, st) else
  match replace_in_chain cg_id target_id new_target (chain_of st b) with
  | Some (old_target, chain') =>
      (0, mk_targets (<[b := chain']> (ts_table st))
            (path_put (tgt_path old_target) (ts_refs st)))
  | None =>
      (0, mk_targets (<[b := new_target :: chain_of st b]> (ts_table st))
            (ts_refs st))
  end.

(** [hash_for_each_safe]: every chain in order; the nodes of the cgroup are
    unlinked and pushed on the head of [retired], whose paths are put after
    the grace period. *)
Definition retired_targets (cg : Z) (st : targets_state) : list namei_ext_target :=
  reverse (filter (λ t, tgt_cg_id t = cg) (concat (ts_table st))).

Definition namei_ext_clear_targets (cg : Z) (st : targets_state) : targets_state :=
  mk_targets (filter (λ t, tgt_cg_id t ≠ cg) <$> ts_table st)
    (path_put_all (tgt_path <$> retired_targets cg st) (ts_refs st)).

Definition namei_ext_find_target_rcu (cg tid : Z) (st : targets_state)
  : option namei_ext_target :=
  find_in_chain cg tid (chain_of st (target_bkt cg tid)).

Definition namei_ext_get_target (cg tid : Z) (st : targets_state)
  : Z * option path * targets_state :=
  if tid =? 0 then (- EINVAL, None, st) else
  match namei_ext_find_target_rcu cg tid st with
  | Some t => (0, Some (tgt_path t), mk_targets (ts_table st)
                                       (path_get (tgt_path t) (ts_refs st)))
  | None => (- ENOENT, None, st)
  end.

(** ** Chains *)

Lemma target_is_true cg tid t :
  target_is cg tid t = true ↔ tgt_cg_id t = cg ∧ tgt_target_id t = tid.
Proof. unfold target_is. by rewrite andb_true_iff, !Z.eqb_eq. Qed.

Lemma find_in_chain_Some cg tid chain t :
  find_in_chain cg tid chain = Some t →
  t ∈ chain ∧ tgt_cg_id t = cg ∧ tgt_target_id t = tid.
Proof.
  induction chain as [|u rest IH]; simpl; [done|]. case_match eqn:E; intros H.
  - simplify_eq. apply target_is_true in E. split; [left|done].
  - destruct (IH H). split; [by right|done].
Qed.

Lemma replace_in_chain_None cg tid new chain :
  replace_in_chain cg tid new chain = None → find_in_chain cg tid chain = None.
Proof.
  induction chain as [|u rest IH]; simpl; [done|].
  destruct (target_is cg tid u); [done|].
  destruct (replace_in_chain cg tid new rest) as [[]|]; auto; done.
Qed.

Lemma replace_in_chain_Some cg tid new chain old chain' :
  replace_in_chain cg tid new chain = Some (old, chain') →
  ∃ l r, chain = l ++ old :: r ∧ chain' = l ++ new :: r ∧
    find_in_chain cg tid chain = Some old ∧ find_in_chain cg tid l = None.
Proof.
  revert chain'. induction chain as [|u rest IH]; intros chain'; simpl; [done|].
  destruct (target_is cg tid u) eqn:E.
  - intros [= <- <-]. by exists [], rest.
  - destruct (replace_in_chain cg tid new rest) as [[o r']|] eqn:R; [|done].
    intros [= <- <-]. destruct (IH r' eq_refl) as (l & r & -> & -> & ? & ?).
    exists (u :: l), r. simpl. rewrite E. done.
Qed.

Lemma find_in_chain_app cg tid l r :
  find_in_chain cg tid (l ++ r) =
    match find_in_chain cg tid l with
    | Some t => Some t
    | None => find_in_chain cg tid r
    end.
Proof. induction l as [|u l IH]; simpl; [done|]. by destruct (target_is cg tid u). Qed.

Lemma find_in_chain_filter cg tid cg' chain :
  find_in_chain cg tid (filter (λ t, tgt_cg_id t ≠ cg') chain) =
    if decide (cg = cg') then None else find_in_chain cg tid chain.
Proof.
  induction chain as [|u rest IH]; [by case_decide|].
  rewrite filter_cons. destruct (decide (tgt_cg_id u ≠ cg')) as [Hu|Hu];
    cbn [find_in_chain]; rewrite IH.
  - destruct (target_is cg tid u) eqn:E; [|done].
    apply target_is_true in E as [??]. case_decide; congruence.
  - destruct (target_is cg tid u) eqn:E; [|done].
    apply target_is_true in E as [??]. case_decide; [done|].
    destruct Hu. congruence.
Qed.

(** Adding or replacing an entry changes what is found under its own ids only. *)
Lemma target_is_other cg tid cg' tid' p :
  (cg, tid) ≠ (cg', tid') → target_is cg tid (mk_target cg' tid' p) = false.
Proof.
  intros Hne. apply not_true_iff_false. rewrite target_is_true. intros [<- <-]. done.
Qed.

(** ** The registry as a finite map *)

Context (hash_min_lt : ∀ k, (hash_min k < target_buckets)%nat).

(** The table has its 256 chains, and every lookup finds what the map holds. *)
Record targets_repr (st : targets_state) (m : gmap (Z * Z) path) : Prop := {
  repr_len : length (ts_table st) = target_buckets;
  repr_find : ∀ cg tid,
    tgt_path <$> namei_ext_find_target_rcu cg tid st = m !! (cg, tid)
}.

Lemma empty_targets_repr : targets_repr empty_targets ∅.
Proof.
  split; [apply length_replicate|]. intros cg tid. rewrite lookup_empty.
  unfold namei_ext_find_target_rcu, chain_of. cbn [ts_table empty_targets].
  rewrite list_lookup_total_alt, lookup_replicate_2; [done|apply hash_min_lt].
Qed.

Lemma chain_of_insert st refs b b' chain :
  length (ts_table st) = target_buckets → (b < target_buckets)%nat →
  chain_of (mk_targets (<[b := chain]> (ts_table st)) refs) b' =
    if decide (b' = b) then chain else chain_of st b'.
Proof.
  intros Hlen Hb. unfold chain_of; simpl. case_decide; subst.
  - by rewrite list_lookup_total_insert_eq by lia.
  - by rewrite list_lookup_total_insert_ne.
Qed.

Lemma register_repr st m chain cg tid p refs :
  targets_repr st m →
  (∀ cg' tid', find_in_chain cg' tid' chain =
     if decide ((cg', tid') = (cg, tid)) then Some (mk_target cg tid p)
     else find_in_chain cg' tid' (chain_of st (target_bkt cg tid))) →
  targets_repr (mk_targets (<[target_bkt cg tid := chain]> (ts_table st)) refs)
    (<[(cg, tid) := p]> m).
Proof.
  intros [Hlen Hfind] Hchain. split; [by etrans; [apply length_insert|]|].
  intros cg' tid'. unfold namei_ext_find_target_rcu.
  rewrite chain_of_insert by (done || apply hash_min_lt).
  destruct (decide ((cg', tid') = (cg, tid))) as [[= -> ->]|Hne].
  - by rewrite decide_True, Hchain, decide_True, lookup_insert_eq.
  - rewrite lookup_insert_ne, <- Hfind by done.
    unfold namei_ext_find_target_rcu. case_decide as Hb; [|done].
    by rewrite Hchain, decide_False, Hb.
Qed.

(** Registration implements the insertion. *)
Lemma register_target_repr st m alloc_ok dead cg tid p :
  targets_repr st m →
  let '(ret, st') := namei_ext_register_target alloc_ok dead cg tid p st in
  targets_repr st' (if ret =? 0 then <[(cg, tid) := p]> m else m).
Proof.
  intros Hr. unfold namei_ext_register_target.
  destruct (_ || _); [done|]. destruct alloc_ok; [|done]. destruct dead; [done|]. cbn [negb].
  destruct (replace_in_chain _ _ _ _) as [[old chain']|] eqn:E; simpl.
  - apply replace_in_chain_Some in E as (l & r & Hl & -> & Hf & Hfl).
    apply (register_repr _ _ _ _ _ _ _ Hr). intros cg' tid'.
    apply find_in_chain_Some in Hf as (_ & Hc & Ht).
    rewrite Hl, !find_in_chain_app. simpl. case_decide as Hd; simplify_eq.
    + rewrite Hfl. by rewrite (proj2 (target_is_true _ _ _)).
    + rewrite target_is_other by done.
      destruct old as [oc ot op]; simpl in *; subst.
      by rewrite (target_is_other _ _ _ _ _ Hd).
  - apply replace_in_chain_None in E.
    apply (register_repr _ _ _ _ _ _ _ Hr). intros cg' tid'. simpl.
    case_decide as Hd; simplify_eq.
    + by rewrite (proj2 (target_is_true _ _ _)).
    + by rewrite target_is_other.
Qed.

Lemma clear_targets_repr st m cg :
  targets_repr st m →
  targets_repr (namei_ext_clear_targets cg st) (filter (λ kv, kv.1.1 ≠ cg) m).
Proof.
  intros [Hlen Hfind]. split; [by simpl; rewrite length_fmap|].
  intros cg' tid. unfold namei_ext_find_target_rcu, chain_of. simpl.
  destruct (lookup_lt_is_Some_2 (ts_table st) (target_bkt cg' tid)) as [chain Hc];
    [rewrite Hlen; apply hash_min_lt|].
  rewrite list_lookup_total_alt, list_lookup_fmap, Hc. cbn [fmap option_fmap option_map from_option id].
  rewrite find_in_chain_filter.
  specialize (Hfind cg' tid). unfold namei_ext_find_target_rcu, chain_of in Hfind.
  rewrite list_lookup_total_alt, Hc in Hfind. simpl in Hfind.
  case_decide; subst; simpl; symmetry.
  - apply map_lookup_filter_None. right. intros x _. simpl. tauto.
  - rewrite Hfind. destruct (m !! (cg', tid)) as [x|] eqn:Hx.
    + by apply map_lookup_filter_Some.
    + apply map_lookup_filter_None. by left.
Qed.

Lemma get_target_repr st m cg tid :
  targets_repr st m →
  let '(ret, out, st') := namei_ext_get_target cg tid st in
  targets_repr st' m ∧
  (ret, out) =
    (if tid =? 0 then (- EINVAL, None) else
     match m !! (cg, tid) with
     | Some p => (0, Some p)
     | None => (- ENOENT, None)
     end).
Proof.
  intros Hr. unfold namei_ext_get_target. destruct (tid =? 0) eqn:Ht; [done|].
  rewrite <- (repr_find _ _ Hr).
  destruct (namei_ext_find_target_rcu cg tid st) as [t|]; simpl; [|done].
  split; [|done]. by destruct Hr; split.
Qed.

(** ** References *)

(** The references that do not belong to the registry. *)
Definition foreign_refs (st : targets_state) (q : path) : Z :=
  ref_count (ts_refs st) q - occurrences q (ts_held st).

Lemma foreign_refs_chain st b chain refs q :
  length (ts_table st) = target_buckets → (b < target_buckets)%nat →
  foreign_refs (mk_targets (<[b := chain]> (ts_table st)) refs) q =
    ref_count refs q - occurrences q (ts_held st)
    + occurrences q (tgt_path <$> chain_of st b)
    - occurrences q (tgt_path <$> chain).
Proof.
  intros Hlen Hb. unfold foreign_refs, ts_held, chain_of. simpl.
  destruct (concat_insert (ts_table st) b chain) as (l & r & -> & ->); [by rewrite Hlen|].
  rewrite !fmap_app, !occurrences_app. lia.
Qed.

(** A successful registration takes over exactly one reference on the new
    path and gives back the replaced one; a failed one moves nothing. *)
Lemma register_target_refs st m alloc_ok dead cg tid p q :
  targets_repr st m →
  let '(ret, st') := namei_ext_register_target alloc_ok dead cg tid p st in
  foreign_refs st' q =
    foreign_refs st q - (if (ret =? 0) && bool_decide (q = p) then 1 else 0).
Proof.
  intros [Hlen _]. unfold namei_ext_register_target.
  destruct (_ || _); [simpl; lia|]. destruct alloc_ok; [|simpl; lia].
  destruct dead; [simpl; lia|]. cbn [negb].
  pose proof (hash_min_lt (namei_ext_target_key cg tid)) as Hb.
  fold (target_bkt cg tid) in Hb.
  destruct (replace_in_chain _ _ _ _) as [[old chain']|] eqn:E; simpl;
    rewrite foreign_refs_chain by done; unfold foreign_refs.
  - apply replace_in_chain_Some in E as (l & r & -> & -> & _).
    rewrite !fmap_app, !fmap_cons. simpl.
    rewrite !occurrences_app, !occurrences_cons, ref_count_put.
    repeat case_decide; repeat case_bool_decide; simplify_eq; lia.
  - rewrite fmap_cons, occurrences_cons. simpl.
    repeat case_decide; repeat case_bool_decide; simplify_eq; lia.
Qed.

Lemma clear_targets_refs st cg q :
  foreign_refs (namei_ext_clear_targets cg st) q = foreign_refs st q.
Proof.
  unfold foreign_refs, ts_held, namei_ext_clear_targets, retired_targets. simpl.
  rewrite ref_count_put_all, fmap_reverse, reverse_Permutation.
  replace (concat (filter (λ t, tgt_cg_id t ≠ cg) <$> ts_table st))
    with (filter (λ t, tgt_cg_id t ≠ cg) (concat (ts_table st))).
  - induction (concat (ts_table st)) as [|t l IH]; [unfold occurrences; simpl; lia|].
    rewrite !filter_cons. repeat case_decide; try tauto;
      rewrite ?fmap_cons, ?occurrences_cons; lia.
  - induction (ts_table st) as [|c l IH]; simpl; [done|].
    by rewrite filter_app, IH.
Qed.

Lemma get_target_refs st cg tid q :
  let '(ret, out, st') := namei_ext_get_target cg tid st in
  foreign_refs st' q =
    foreign_refs st q + (if bool_decide (out = Some q) then 1 else 0).
Proof.
  unfold namei_ext_get_target, foreign_refs, ts_held.
  destruct (tid =? 0); [simpl; lia|].
  destruct (namei_ext_find_target_rcu cg tid st) as [t|]; simpl; [|lia].
  rewrite ref_count_get.
  repeat case_decide; repeat case_bool_decide; simplify_eq; lia.
Qed.
End targets.
