(* ===== verification/TargetRcu.v ===== *)
(** * The target registry under RCU (fs/namei_ext.c)

    [Targets] runs each operation of the registry in one step.  Here
    registration and clearing are the stores they make under
    namei_ext_targets_lock followed by the grace period and the release of
    the old targets outside it, and [namei_ext_find_target_rcu] is the
    sequence of its loads.  A reader that found a target either takes a
    reference on its path ([namei_ext_get_target]) or uses the path without
    one until it leaves its section (the borrowed target of an RCU walk). *)

From S2P Require Import Prelude Abi Kernel Rcu Targets.

(** A target with its address: two registrations of one pair of ids are two
    nodes. *)
Record target_node := mk_tnode {
  tn_addr : Z;
  tn_target : namei_ext_target
}.

#[export] Instance namei_ext_target_eq_dec : EqDecision namei_ext_target.
Proof. solve_decision. Defined.
#[export] Instance target_node_eq_dec : EqDecision target_node.
Proof. solve_decision. Defined.

Definition node_key (n : target_node) : Z * Z :=
  (tgt_cg_id (tn_target n), tgt_target_id (tn_target n)).
Definition node_path (n : target_node) : path := tgt_path (tn_target n).

Fixpoint find_node (cg tid : Z) (chain : list target_node) : option target_node :=
  match chain with
  | [] => None
  | n :: rest => if target_is cg tid (tn_target n) then Some n else find_node cg tid rest
  end.

Record target_mem := mk_tmem {
  tm_table : rcu_table (A:=target_node);
  tm_refs : refs_t;
  tm_used : gset Z                      (* addresses allocated so far *)
}.

(** The registry of [Targets]. *)
Definition targets_of (m : target_mem) : targets_state :=
  mk_targets ((λ chain : list target_node, tn_target <$> chain) <$> rt_index (tm_table m))
    (tm_refs m).

(** The reader: one constructor per point between two loads. *)
Inductive target_reader :=
  | TIdle                               (* outside its section *)
  | THead                               (* before the load of the bucket's head *)
  | TNode (n : target_node)             (* at a node: its ids, its next *)
  | TFound (n : target_node)            (* with a target, still in the section *)
  | TMissing.                           (* the chain ended *)

Definition target_section (r : target_reader) : bool :=
  match r with THead | TNode _ | TFound _ => true | TIdle | TMissing => false end.

Definition goto_target (o : option target_node) : target_reader :=
  match o with Some n => TNode n | None => TMissing end.

Abbreviation target_finisher := (finisher (P:=list target_node)).

(** [tc_clearing]: the clear that holds the lock, its cgroup and the nodes it
    has put on its list so far.  [tc_owned]: references held outside the
    registry, by the writers about to register a path and by the readers that
    took one. *)
Record target_conf := mk_tconf {
  tc_mem : target_mem;
  tc_clearing : option (Z * list target_node);
  tc_finishing : list target_finisher;
  tc_owned : list path;
  tc_reader : target_reader
}.

Section rcu.
Variable hash_min : Z → nat.

Definition node_bkt (n : target_node) : nat :=
  target_bkt hash_min (tgt_cg_id (tn_target n)) (tgt_target_id (tn_target n)).

(** The store of [namei_ext_register_target], and the target it replaced. *)
Definition register_store (n : target_node) (t : rcu_table) : option target_node * rcu_table :=
  match find_node (node_key n).1 (node_key n).2 (table_chain node_bkt t n) with
  | Some old => (Some old, table_replace node_bkt old n t)
  | None => (None, table_add node_bkt n t)
  end.

(** Nothing was replaced, or nothing unlinked: there is no grace period. *)
Definition retire (ns : list target_node) (fs : list target_finisher) : list target_finisher :=
  match ns with [] => fs | _ => FSync ns :: fs end.

(** The node [namei_ext_clear_targets] unlinks next. *)
Definition next_of_cgroup (cg : Z) (t : rcu_table) : option target_node :=
  head (filter (λ n, tgt_cg_id (tn_target n) = cg) (linked t)).

(** [namei_ext_find_target_rcu], entered with a target id that is not 0. *)
Definition target_load (cg tid : Z) (m : target_mem) (r : target_reader) : target_reader :=
  match r with
  | TIdle => if tid =? 0 then TIdle else THead
  | THead => goto_target (head (rt_index (tm_table m) !!! target_bkt hash_min cg tid))
  | TNode n =>
      if target_is cg tid (tn_target n) then TFound n
      else goto_target (table_next node_bkt (tm_table m) n)
  | TFound n => TFound n
  | TMissing => TMissing
  end.

Inductive target_step (cg tid : Z) : target_conf → target_conf → Prop :=
  | t_path_get p t refs used cl fs own r :
      target_step cg tid (mk_tconf (mk_tmem t refs used) cl fs own r)
        (mk_tconf (mk_tmem t (path_get p refs) used) cl fs (p :: own) r)
  | t_path_put p t refs used cl fs own1 own2 r :
      target_step cg tid (mk_tconf (mk_tmem t refs used) cl fs (own1 ++ p :: own2) r)
        (mk_tconf (mk_tmem t (path_put p refs) used) cl fs (own1 ++ own2) r)
  | t_register a cg' tid' p old t t' refs used fs own1 own2 r :
      (* the reference on [p] passes from the caller to the registry *)
      a ∉ used → tid' ≠ 0 → p_mnt p ≠ NULL → p_dentry p ≠ NULL →
      register_store (mk_tnode a (mk_target cg' tid' p)) t = (old, t') →
      target_step cg tid (mk_tconf (mk_tmem t refs used) None fs (own1 ++ p :: own2) r)
        (mk_tconf (mk_tmem t' refs ({[a]} ∪ used)) None
           (retire (from_option (λ o, [o]) [] old) fs) (own1 ++ own2) r)
  | t_clear_lock cg' m fs own r :
      target_step cg tid (mk_tconf m None fs own r) (mk_tconf m (Some (cg', [])) fs own r)
  | t_clear_del cg' retired n t refs used fs own r :
      next_of_cgroup cg' t = Some n →
      target_step cg tid (mk_tconf (mk_tmem t refs used) (Some (cg', retired)) fs own r)
        (mk_tconf (mk_tmem (table_del node_bkt n t) refs used) (Some (cg', n :: retired))
           fs own r)
  | t_clear_unlock cg' retired t refs used fs own r :
      next_of_cgroup cg' t = None →
      target_step cg tid (mk_tconf (mk_tmem t refs used) (Some (cg', retired)) fs own r)
        (mk_tconf (mk_tmem t refs used) None
           (retire retired fs) own r)
  | t_sync ns m cl fs1 fs2 own r :
      target_step cg tid (mk_tconf m cl (fs1 ++ FSync ns :: fs2) own r)
        (mk_tconf m cl (fs1 ++ FGrace ns (target_section r) :: fs2) own r)
  | t_grace ns m cl fs1 fs2 own r :
      target_step cg tid (mk_tconf m cl (fs1 ++ FGrace ns false :: fs2) own r)
        (mk_tconf m cl (fs1 ++ FFree ns :: fs2) own r)
  | t_free n ns t refs used cl fs1 fs2 own r :
      (* path_put and kfree of the first target of the list *)
      target_step cg tid
        (mk_tconf (mk_tmem t refs used) cl (fs1 ++ FFree (n :: ns) :: fs2) own r)
        (mk_tconf (mk_tmem (table_free [n] t) (path_put (node_path n) refs) used) cl
           (fs1 ++ FFree ns :: fs2) own r)
  | t_load m cl fs own r :
      let r' := target_load cg tid m r in
      target_step cg tid (mk_tconf m cl fs own r)
        (mk_tconf m cl (reader_left (target_section r') <$> fs) own r')
  | t_get n t refs used cl fs own :
      (* [namei_ext_get_target]: path_get, rcu_read_unlock *)
      target_step cg tid (mk_tconf (mk_tmem t refs used) cl fs own (TFound n))
        (mk_tconf (mk_tmem t (path_get (node_path n) refs) used) cl
           (reader_left false <$> fs) (node_path n :: own) TIdle)
  | t_leave m cl fs own r :
      (* a borrowed target is given up, or there was none *)
      r = TMissing ∨ (∃ n, r = TFound n) →
      target_step cg tid (mk_tconf m cl fs own r)
        (mk_tconf m cl (reader_left false <$> fs) own TIdle).

Definition target_steps (cg tid : Z) : target_conf → target_conf → Prop := rtc (target_step cg tid).

Definition boot_targets : target_conf :=
  mk_tconf (mk_tmem (mk_table (replicate target_buckets []) [] []) ∅ ∅) None [] [] TIdle.
End rcu.
