(* ===== verification/TargetRcuProps.v ===== *)
(** * Properties of the target registry under RCU

    A target that a reader has found is neither freed nor without its
    reference until the reader leaves its section; and a lookup is
    linearizable although it takes no lock. *)

From S2P Require Import Prelude Abi Kernel Rcu Targets TargetRcu.

Section props.
Context (hash_min : Z → nat) (hash_min_lt : ∀ k, (hash_min k < target_buckets)%nat).
Context (cg tid : Z).

Abbreviation step := (target_step hash_min cg tid).
Abbreviation steps := (target_steps hash_min cg tid).
Abbreviation bkt := (node_bkt hash_min).
Abbreviation b := (target_bkt hash_min cg tid).
Abbreviation table c := (tm_table (tc_mem c)).
Abbreviation table_ok := (table_ok target_buckets bkt).
Abbreviation load := (target_load hash_min cg tid).

Lemma node_bkt_lt n : (bkt n < target_buckets)%nat.
Proof. apply hash_min_lt. Qed.

Definition wanted (n : target_node) : bool := target_is cg tid (tn_target n).

Lemma wanted_key n : wanted n = true ↔ node_key n = (cg, tid).
Proof. unfold wanted, node_key. rewrite target_is_true. split; [by intros [-> ->]|by intros [=]]. Qed.
Lemma wanted_bkt n : wanted n = true → bkt n = b.
Proof. intros [= H1 H2]%wanted_key. unfold node_bkt. by rewrite H1, H2. Qed.

Definition target_at (r : target_reader) : option target_node :=
  match r with TNode n | TFound n => Some n | _ => None end.

(** ** Stores *)

Lemma key_bkt n n' : node_key n = node_key n' → bkt n = bkt n'.
Proof. unfold node_key, node_bkt. by intros [= -> ->]. Qed.

Lemma find_node_Some cg' tid' chain n :
  find_node cg' tid' chain = Some n → n ∈ chain ∧ node_key n = (cg', tid').
Proof.
  induction chain as [|x rest IH]; simpl; [done|]. destruct (target_is _ _ _) eqn:E.
  - intros [= <-]. apply target_is_true in E as [<- <-]. split; [left|done].
  - intros [? ?]%IH. split; [by right|done].
Qed.

Lemma find_node_None cg' tid' chain n :
  find_node cg' tid' chain = None → n ∈ chain → node_key n ≠ (cg', tid').
Proof.
  induction chain as [|x rest IH]; simpl; [by intros _ ?%not_elem_of_nil|].
  destruct (target_is _ _ _) eqn:E; [done|]. intros Hf [->|Hn]%elem_of_cons; [|by apply IH].
  intros [= H1 H2]. by rewrite (proj2 (target_is_true _ _ _) (conj H1 H2)) in E.
Qed.

(** What registration does to a table. *)
Inductive registered (n : target_node) (t : rcu_table) : option target_node → rcu_table → Prop :=
  | registered_new :
      (∀ x, x ∈ linked t → node_key x ≠ node_key n) →
      registered n t None (table_add bkt n t)
  | registered_over old :
      old ∈ linked t → node_key old = node_key n →
      registered n t (Some old) (table_replace bkt old n t).

Lemma register_store_spec n t old t' :
  table_ok t → register_store hash_min n t = (old, t') → registered n t old t'.
Proof.
  intros Ht. unfold register_store.
  destruct (find_node _ _ _) as [o|] eqn:Hf; intros [= <- <-].
  - apply find_node_Some in Hf as [Ho Hk].
    apply (chain_bucket _ _ node_bkt_lt) in Ho as [_ Ho]; [|apply Ht]. by apply registered_over.
  - apply registered_new. intros x Hx Hk. apply (find_node_None _ _ _ x) in Hf; [done|].
    unfold table_chain. rewrite (key_bkt n x) by done.
    apply (chain_linked _ _ node_bkt_lt); [apply Ht|done].
Qed.

Lemma next_of_cgroup_Some cg' t n :
  next_of_cgroup cg' t = Some n → n ∈ linked t ∧ tgt_cg_id (tn_target n) = cg'.
Proof.
  unfold next_of_cgroup. intros Hn%head_Some_elem_of%list_elem_of_filter. tauto.
Qed.

(** ** The invariant *)

(** The nodes whose reference the registry still holds. *)
Definition held (c : target_conf) : list target_node :=
  linked (table c) ++ from_option snd [] (tc_clearing c) ++ finishing_nodes id (tc_finishing c).

Record target_inv (c : target_conf) : Prop := {
  ti_safe : rcu_safe target_buckets bkt id (table c) (tc_finishing c)
    (target_section (tc_reader c)) b (target_at (tc_reader c));
  ti_unique : NoDup (node_key <$> linked (table c));
  ti_used n : n ∈ linked (table c) ∨ n ∈ unlinked (table c) ∨
    n ∈ finishing_nodes id (tc_finishing c) ++ rt_freed (table c) → tn_addr n ∈ tm_used (tc_mem c);
  ti_clearing cg' retired n : tc_clearing c = Some (cg', retired) → n ∈ retired →
    n ∈ unlinked (table c);
  ti_refs p : ref_count (tm_refs (tc_mem c)) p =
    occurrences p (tc_owned c ++ (node_path <$> held c));
  ti_held n : n ∈ linked (table c) ∨ n ∈ unlinked (table c) →
    n ∈ rt_freed (table c) ∨ n ∈ held c;
  ti_found n : tc_reader c = TFound n → wanted n = true
}.

Lemma boot_target_inv : target_inv boot_targets.
Proof.
  assert (linked (table boot_targets) = []) as He by (cbn; apply concat_replicate_nil).
  split; rewrite ?He; try done.
  - split; [|done]. split; unfold doomed; cbn; try done.
    + split; [apply length_replicate|]. intros k chain n [-> _]%lookup_replicate_1.
      by intros ?%not_elem_of_nil.
    + unfold linked. cbn. rewrite concat_replicate_nil. constructor.
    + by intros n ?%not_elem_of_nil.
    + by intros n ?%not_elem_of_nil.
  - constructor.
  - cbn. intros n [?%not_elem_of_nil|[?%not_elem_of_nil|?%not_elem_of_nil]]; done.
Qed.

Lemma finishing_retire ns fs n :
  n ∈ finishing_nodes id (retire ns fs) ↔ n ∈ ns ∨ n ∈ finishing_nodes id fs.
Proof.
  unfold retire, finishing_nodes. destruct ns as [|x ns].
  - rewrite elem_of_nil. tauto.
  - rewrite bind_cons, elem_of_app. done.
Qed.

Lemma finishing_retire_perm ns fs :
  finishing_nodes id (retire ns fs) ≡ₚ ns ++ finishing_nodes id fs.
Proof. by destruct ns. Qed.

Lemma safe_retire ns t fs inside at_ :
  (∀ n, n ∈ ns → n ∉ linked t) →
  rcu_safe target_buckets bkt id t fs inside b at_ →
  rcu_safe target_buckets bkt id t (retire ns fs) inside b at_.
Proof. intros Hn Hs. destruct ns as [|x ns]; [done|]. by apply safe_unlock. Qed.

(** *** Registration *)

Section register.
Context (n : target_node) (t : rcu_table) (old : option target_node) (t' : rcu_table)
  (Ht : table_ok t) (Hreg : registered n t old t')
  (Hfresh : n ∉ linked t) (Hnew : n ∉ unlinked t).

Lemma registered_linked x :
  x ∈ linked t' ↔ x = n ∨ (x ∈ linked t ∧ ∀ o, old = Some o → x ≠ o).
Proof.
  destruct Hreg as [Hno|o Ho Hk].
  - rewrite (linked_add _ _ node_bkt_lt) by apply Ht. rewrite elem_of_cons.
    split; [intros [?|?]; [by left|by right]|intros [?|[? _]]; [by left|by right]].
  - rewrite linked_replace_elem by done.
    split; intros [?|[? Hne]]; [by left| |by left|]; right; (split; [done|]).
    + by intros ? [= <-].
    + by apply Hne.
Qed.

Lemma registered_unlinked x : x ∈ unlinked t' ↔ old = Some x ∨ x ∈ unlinked t.
Proof.
  destruct Hreg as [Hno|o Ho Hk].
  - split; [by right|by intros [?|?]].
  - unfold unlinked. simpl. rewrite elem_of_cons.
    split; intros [?|?]; [left; congruence|by right|left; congruence|by right].
Qed.

Lemma registered_freed : rt_freed t' = rt_freed t.
Proof. by destruct Hreg. Qed.

Lemma registered_perm : n :: linked t ≡ₚ from_option (λ o, [o]) [] old ++ linked t'.
Proof.
  destruct Hreg as [Hno|o Ho Hk]; simpl.
  - by rewrite (linked_add _ _ node_bkt_lt) by apply Ht.
  - rewrite linked_replace. pose proof (tab_nodup _ _ _ Ht) as Hnd.
    apply list_elem_of_split in Ho as (l & r & Hl). rewrite Hl in *.
    apply NoDup_app in Hnd as (_ & Hd & [Hr _]%NoDup_cons).
    rewrite fmap_app, fmap_cons, swap_old.
    rewrite !swap_not_in; [by rewrite !Permutation_middle, Permutation_swap|done|].
    intros Hin. apply (Hd o Hin). left.
Qed.

Lemma registered_unique :
  NoDup (node_key <$> linked t) → NoDup (node_key <$> linked t').
Proof.
  intros Hu. destruct Hreg as [Hno|o Ho Hk].
  - rewrite (linked_add _ _ node_bkt_lt) by apply Ht. rewrite fmap_cons. constructor; [|done].
    intros (x & Hx & Hin)%list_elem_of_fmap. by apply (Hno x).
  - rewrite linked_replace, <- list_fmap_compose.
    assert (node_key ∘ swap o n <$> linked t = node_key <$> linked t) as ->; [|done].
    apply list_fmap_ext. intros _ x _. simpl. unfold swap. case_decide; congruence.
Qed.

Lemma registered_safe fs inside at_ :
  n ∉ rt_freed (doomed id fs t) →
  rcu_safe target_buckets bkt id t fs inside b at_ →
  rcu_safe target_buckets bkt id t' (retire (from_option (λ o, [o]) [] old) fs) inside b at_.
Proof.
  intros Hf Hs. apply safe_retire.
  - intros x Hx. rewrite registered_linked. destruct old as [o|]; simpl in Hx;
      [|by apply not_elem_of_nil in Hx].
    apply list_elem_of_singleton in Hx as ->. inversion Hreg; subst.
    intros [->|[_ Hne]]; [done|]. by apply (Hne o).
  - destruct Hreg as [Hno|o Ho Hk].
    + by apply (safe_add _ _ node_bkt_lt).
    + apply (safe_replace _ _ node_bkt_lt); try done. by apply key_bkt.
Qed.
End register.

Lemma inv_table c : target_inv c → table_ok (table c).
Proof. intros Hi. by eapply safe_table, ti_safe. Qed.

(** An address never used before is the address of no node. *)
Lemma fresh_node c a t :
  target_inv c → a ∉ tm_used (tc_mem c) →
  (mk_tnode a t ∉ linked (table c)) ∧ (mk_tnode a t ∉ unlinked (table c)) ∧
  mk_tnode a t ∉ rt_freed (doomed id (tc_finishing c) (table c)).
Proof. intros Hi Ha. split_and!; intros Hn; apply Ha, (ti_used c Hi (mk_tnode a t)); tauto. Qed.

Lemma inv_register a cg' tid' p old t t' refs used fs own1 own2 r :
  a ∉ used → register_store hash_min (mk_tnode a (mk_target cg' tid' p)) t = (old, t') →
  target_inv (mk_tconf (mk_tmem t refs used) None fs (own1 ++ p :: own2) r) →
  target_inv (mk_tconf (mk_tmem t' refs ({[a]} ∪ used)) None
    (retire (from_option (λ o, [o]) [] old) fs) (own1 ++ own2) r).
Proof.
  intros Ha Hreg Hi. pose proof (inv_table _ Hi) as Ht. simpl in Ht.
  apply register_store_spec in Hreg; [|done]. set (n := mk_tnode a _) in *.
  destruct (fresh_node _ a (mk_target cg' tid' p) Hi Ha) as (Hl & Hu & Hf). fold n in Hl, Hu, Hf.
  simpl in *. destruct Hi as [Hs Huq Hus Hcl Hrefs Hheld Hfd]. simpl in *.
  pose proof (registered_perm n t old t' Ht Hreg) as Hperm.
  assert (∀ x, x ∈ from_option (λ o, [o]) [] old → x ∈ linked t) as Hold.
  { destruct Hreg; simpl; [by intros x ?%not_elem_of_nil|by intros x ->%list_elem_of_singleton]. }
  split; simpl.
  - by apply (registered_safe n t old t').
  - by apply (registered_unique n t old t').
  - intros x. rewrite (registered_freed n t old t' Hreg), elem_of_app, finishing_retire,
      (registered_unlinked n t old t' Hreg), (registered_linked n t old t' Ht Hreg Hl).
    assert (x ∈ linked t ∨ x ∈ unlinked t ∨ x ∈ finishing_nodes id fs ++ rt_freed t →
      tn_addr x ∈ {[a]} ∪ used) as Hx by (intros ?; apply elem_of_union; right; by apply Hus).
    rewrite elem_of_app in Hx.
    intros [[->|[? _]]|[[->|?]|[[?%Hold|?]|?]]]; try (apply Hx; tauto).
    + apply elem_of_union. left. by apply elem_of_singleton.
    + apply Hx. left. apply Hold. left.
  - done.
  - intros q. rewrite Hrefs. unfold held. simpl. rewrite finishing_retire_perm.
    assert (occurrences q (node_path <$> n :: linked t) =
      occurrences q (node_path <$> from_option (λ o, [o]) [] old ++ linked t')) as Ho
      by by rewrite Hperm.
    rewrite fmap_cons in Ho. rewrite !fmap_app in *. simpl in Ho.
    rewrite !occurrences_app in *. rewrite !occurrences_cons in *.
    change (node_path n) with p in Ho. lia.
  - intros x. rewrite (registered_freed n t old t' Hreg), (registered_unlinked n t old t' Hreg).
    unfold held in *. simpl in *. rewrite elem_of_app, finishing_retire.
    rewrite (registered_linked n t old t' Ht Hreg Hl).
    intros [[->|[Hx Hne]]|[->|Hx]].
    + right. left. by left.
    + right. left. by right.
    + right. right. left. left.
    + destruct (Hheld x) as [?|[?|?]%elem_of_app]; [by right|by left| |by right; right; right].
      by apply (tab_unlinked _ _ _ Ht) in Hx.
  - done.
Qed.

(** *** Clearing *)

Lemma inv_clear_lock cg' m fs own r :
  target_inv (mk_tconf m None fs own r) → target_inv (mk_tconf m (Some (cg', [])) fs own r).
Proof.
  intros [Hs Huq Hus Hcl Hrefs Hheld Hfd]. split; try done.
  simpl. by intros ? ? n [= <- <-] ?%not_elem_of_nil.
Qed.

Lemma linked_del_perm n (t : rcu_table) :
  table_ok t → n ∈ linked t → linked t ≡ₚ n :: linked (table_del bkt n t).
Proof.
  intros Ht Hn. pose proof (tab_nodup _ _ _ Ht) as Hnd. rewrite linked_del.
  apply NoDup_Permutation; [done| |].
  - constructor; [|by apply NoDup_filter]. rewrite list_elem_of_filter. tauto.
  - intros x. rewrite elem_of_cons, list_elem_of_filter. destruct (decide (x = n)) as [->|]; tauto.
Qed.

Lemma inv_clear_del cg' retired n t refs used fs own r :
  next_of_cgroup cg' t = Some n →
  target_inv (mk_tconf (mk_tmem t refs used) (Some (cg', retired)) fs own r) →
  target_inv (mk_tconf (mk_tmem (table_del bkt n t) refs used) (Some (cg', n :: retired)) fs own r).
Proof.
  intros [Hn _]%next_of_cgroup_Some Hi. pose proof (inv_table _ Hi) as Ht. simpl in Ht.
  destruct Hi as [Hs Huq Hus Hcl Hrefs Hheld Hfd]. simpl in *.
  pose proof (linked_del_perm n t Ht Hn) as Hperm.
  split; simpl; unfold held in *; simpl in *.
  - by apply (safe_del _ _ node_bkt_lt).
  - rewrite Hperm, fmap_cons in Huq. by apply NoDup_cons in Huq as [_ ?].
  - intros x. change (unlinked (table_del bkt n t)) with (n :: unlinked t).
    rewrite linked_del_elem, elem_of_cons. intros [[? _]|[[->|?]|?]]; apply Hus; tauto.
  - intros ? ? x [= <- <-] [->|Hx]%elem_of_cons; [left|right]. by apply (Hcl cg' retired).
  - intros q. rewrite Hrefs. apply occurrences_perm, Permutation_app_head, fmap_Permutation.
    rewrite Hperm. apply (Permutation_middle _ (retired ++ _)).
  - intros x. change (unlinked (table_del bkt n t)) with (n :: unlinked t).
    rewrite !elem_of_app, !linked_del_elem, !elem_of_cons, elem_of_app.
    setoid_rewrite elem_of_app in Hheld. setoid_rewrite elem_of_app in Hheld.
    destruct (decide (x = n)) as [->|Hx]; [tauto|]. specialize (Hheld x). tauto.
  - done.
Qed.

Lemma inv_clear_unlock cg' retired t refs used fs own r :
  target_inv (mk_tconf (mk_tmem t refs used) (Some (cg', retired)) fs own r) →
  target_inv (mk_tconf (mk_tmem t refs used) None (retire retired fs) own r).
Proof.
  intros Hi. pose proof (inv_table _ Hi) as Ht. simpl in Ht.
  destruct Hi as [Hs Huq Hus Hcl Hrefs Hheld Hfd]. simpl in *.
  split; simpl; unfold held in *; simpl in *; try done.
  - apply safe_retire; [|done]. intros n Hn. apply (tab_unlinked _ _ _ Ht). by eapply Hcl.
  - intros x. rewrite elem_of_app, finishing_retire. intros [?|[?|[[Hx|?]|?]]]; apply Hus.
    + by left.
    + by right; left.
    + right. left. by eapply Hcl.
    + right. right. apply elem_of_app. by left.
    + right. right. apply elem_of_app. by right.
  - intros q. rewrite Hrefs. apply occurrences_perm. by rewrite finishing_retire_perm.
  - intros x Hx. rewrite !elem_of_app, finishing_retire. specialize (Hheld x Hx).
    rewrite !elem_of_app in Hheld. tauto.
Qed.

(** *** Grace periods *)

Lemma finishing_move (f f' : target_finisher) fs1 fs2 :
  payload f' = payload f →
  finishing_nodes id (fs1 ++ f' :: fs2) = finishing_nodes id (fs1 ++ f :: fs2).
Proof. intros Hp. unfold finishing_nodes. by rewrite !bind_app, !bind_cons, Hp. Qed.

Lemma registry_move f f' m cl fs1 fs2 own r :
  payload f' = payload f →
  (∀ gone, target_section r = true → finisher_ok id gone (tm_table m) f →
     finisher_ok id gone (tm_table m) f') →
  target_inv (mk_tconf m cl (fs1 ++ f :: fs2) own r) →
  target_inv (mk_tconf m cl (fs1 ++ f' :: fs2) own r).
Proof.
  intros Hp Hok [Hs Huq Hus Hcl Hrefs Hheld Hfd]. unfold held in *. simpl in *.
  split; unfold held; simpl; rewrite ?(finishing_move f f') by done; try done.
  by eapply safe_move.
Qed.

Lemma finishing_free n ns (fs1 fs2 : list target_finisher) :
  finishing_nodes id (fs1 ++ FFree (n :: ns) :: fs2) ≡ₚ
  n :: finishing_nodes id (fs1 ++ FFree ns :: fs2).
Proof.
  unfold finishing_nodes. rewrite !bind_app, !bind_cons. simpl.
  by rewrite <- Permutation_middle.
Qed.

Lemma inv_free n ns t refs used cl fs1 fs2 own r :
  target_inv (mk_tconf (mk_tmem t refs used) cl (fs1 ++ FFree (n :: ns) :: fs2) own r) →
  target_inv (mk_tconf (mk_tmem (table_free [n] t) (path_put (node_path n) refs) used) cl
    (fs1 ++ FFree ns :: fs2) own r).
Proof.
  intros [Hs Huq Hus Hcl Hrefs Hheld Hfd]. unfold held in *. simpl in *.
  pose proof (finishing_free n ns fs1 fs2) as Hp.
  split; unfold held; simpl; try done.
  - apply (safe_free _ _ _ (n :: ns) [n] [ns]); [|done]. intros x.
    unfold finishing_nodes. simpl. rewrite app_nil_r, elem_of_cons, list_elem_of_singleton. done.
  - intros x Hx. apply Hus. rewrite Hp. rewrite elem_of_app, elem_of_cons in Hx. simpl.
    rewrite elem_of_cons, elem_of_app. tauto.
  - intros q. rewrite ref_count_put, Hrefs, Hp. rewrite !fmap_app, !fmap_cons.
    rewrite !occurrences_app, !occurrences_cons. 
    change (linked (table_free [n] t)) with (linked t). lia.
  - intros x Hx. destruct (Hheld x Hx) as [?|Hin]; [left; by right|].
    rewrite Hp, !elem_of_app, elem_of_cons in Hin. rewrite !elem_of_app, elem_of_cons. tauto.
Qed.

(** *** The reader *)

Lemma goto_target_at o : target_at (goto_target o) = o.
Proof. by destruct o. Qed.

Lemma target_load_ok gone m r :
  table_ok (tm_table m) → target_section r = true →
  reader_ok bkt gone (tm_table m) b (target_at r) →
  reader_ok bkt gone (tm_table m) b (target_at (load m r)).
Proof.
  intros Ht Hin Hr. destruct r as [| |x|x|]; simpl in *; try done.
  - rewrite goto_target_at. destruct (head _) as [n|] eqn:Hn; [|done].
    apply head_Some_elem_of in Hn.
    apply (chain_bucket _ _ node_bkt_lt (tm_table m) (mk_tnode 0 (mk_target cg tid (mk_path 0 0))))
      in Hn as [Hb Hl]; [|apply Ht]. by eapply reader_ok_live.
  - destruct (target_is _ _ _); [done|]. rewrite goto_target_at.
    by apply (reader_ok_next _ _ node_bkt_lt).
Qed.

Lemma reader_left_held inside (fs : list target_finisher) :
  finishing_nodes id (reader_left inside <$> fs) = finishing_nodes id fs.
Proof. apply reader_left_nodes. Qed.

Lemma inv_reader m cl fs own r r' :
  (target_section r' = true → target_section r = true ∧
     (∀ gone, table_ok (tm_table m) → reader_ok bkt gone (tm_table m) b (target_at r) →
        reader_ok bkt gone (tm_table m) b (target_at r')) ∨ target_at r' = None) →
  (∀ n, r' = TFound n → wanted n = true) →
  target_inv (mk_tconf m cl fs own r) →
  target_inv (mk_tconf m cl (reader_left (target_section r') <$> fs) own r').
Proof.
  intros Hload Hw [Hs Huq Hus Hcl Hrefs Hheld Hfd]. unfold held in *. simpl in *.
  split; unfold held; simpl; rewrite ?reader_left_held; try done.
  by eapply safe_load.
Qed.

Lemma inv_load m cl fs own r :
  target_inv (mk_tconf m cl fs own r) →
  target_inv (mk_tconf m cl (reader_left (target_section (load m r)) <$> fs) own (load m r)).
Proof.
  intros Hi. pose proof (ti_found _ Hi) as Hfd. simpl in Hfd. apply (inv_reader _ _ _ _ r); [| |done].
  - intros Hin. destruct (target_section r) eqn:Hr.
    + left. split; [done|]. intros gone Ht. by apply target_load_ok.
    + right. destruct r; simpl in *; try done. by destruct (tid =? 0).
  - intros n. destruct r as [| |x|x|]; simpl; try done.
    + by destruct (tid =? 0).
    + by destruct (head _).
    + destruct (target_is _ _ _) eqn:Hx; [by intros [= <-]|].
      by destruct (table_next _ _ _).
    + intros [= <-]. by apply Hfd.
Qed.

(** References move in and out of the owners' hands. *)
Lemma inv_owned m cl fs own own' refs' r :
  (∀ q, ref_count refs' q - ref_count (tm_refs m) q = occurrences q own' - occurrences q own) →
  target_inv (mk_tconf m cl fs own r) →
  target_inv (mk_tconf (mk_tmem (tm_table m) refs' (tm_used m)) cl fs own' r).
Proof.
  intros Hq [Hs Huq Hus Hcl Hrefs Hheld Hfd]. unfold held in *. simpl in *.
  split; unfold held; simpl; try done. intros q. specialize (Hq q). specialize (Hrefs q).
  rewrite !occurrences_app in *. lia.
Qed.

Lemma target_inv_step c c' : step c c' → target_inv c → target_inv c'.
Proof.
  destruct 1.
  - intros Hi. apply (inv_owned (mk_tmem t refs used) _ _ own (p :: own)); [|done]. intros q. simpl.
    rewrite ref_count_get, occurrences_cons. lia.
  - intros Hi. apply (inv_owned (mk_tmem t refs used) _ _ (own1 ++ p :: own2) (own1 ++ own2)); [|done].
    intros q. simpl. rewrite ref_count_put, !occurrences_app, occurrences_cons. lia.
  - by apply (inv_register a cg' tid' p).
  - apply inv_clear_lock.
  - by apply inv_clear_del.
  - apply inv_clear_unlock.
  - apply registry_move; [done|]. by intros gone ->.
  - by apply registry_move.
  - apply inv_free.
  - apply inv_load.
  - intros Hi. apply (inv_owned (mk_tmem t refs used) _ _ own (node_path n :: own)).
    + intros q. simpl. rewrite ref_count_get, occurrences_cons. lia.
    + by apply (inv_reader _ _ _ _ (TFound n) TIdle).
  - intros Hi. by apply (inv_reader _ _ _ _ r TIdle).
Qed.

Lemma target_inv_steps c c' : steps c c' → target_inv c → target_inv c'.
Proof. induction 1; [done|]. intros ?. by eapply IHrtc, target_inv_step. Qed.

Lemma target_reachable_inv c : steps boot_targets c → target_inv c.
Proof. intros Hs. eapply target_inv_steps, boot_target_inv. done. Qed.

(** C20: A target in use stays alive: in every interleaving of registrations
    and clears with a lookup, the node a reader is at has not been freed; and
    once it has found a target, for as long as it stays in its section, the
    path of the target has a reference, so that [namei_ext_get_target] never
    takes a reference on a path whose last one is gone, and an RCU walk can
    use the path it borrowed without taking one. *)
Theorem target_in_use_alive c :
  steps boot_targets c →
  (∀ n, tc_reader c = TNode n ∨ tc_reader c = TFound n → n ∉ rt_freed (table c)) ∧
  (∀ n, tc_reader c = TFound n →
     node_key n = (cg, tid) ∧ 1 ≤ ref_count (tm_refs (tc_mem c)) (node_path n)).
Proof.
  intros Hc. pose proof (target_reachable_inv c Hc) as Hi.
  assert (∀ n, tc_reader c = TNode n ∨ tc_reader c = TFound n → n ∉ rt_freed (table c)) as Hfree.
  { intros n Hr. pose proof (ti_safe c Hi) as Hs. eapply safe_not_freed.
    destruct Hr as [Hr|Hr]; rewrite Hr in Hs; exact Hs. }
  split; [done|]. intros n Hr. split; [by apply wanted_key, (ti_found c Hi)|].
  destruct (safe_reader _ _ _ _ _ _ _ _ (ti_safe c Hi)) as (gone & [_ _ _ Hat] & _);
    [by rewrite Hr|]. destruct (Hat n) as (_ & Hl & _); [by rewrite Hr|].
  destruct (ti_held c Hi n Hl) as [Hf|Hh]; [by apply Hfree in Hf; [|right]|].
  rewrite (ti_refs c Hi). apply occurrences_elem. rewrite elem_of_app. right.
  by apply list_elem_of_fmap_2.
Qed.

(** The references balance: at every instant, the references on a path
    are those of the registered targets, of the targets removed and not yet
    freed, and of the writers and readers outside; a replaced or cleared
    target's reference is dropped exactly once. *)
Theorem target_refs_balanced c p :
  steps boot_targets c →
  ref_count (tm_refs (tc_mem c)) p = occurrences p (tc_owned c ++ (node_path <$> held c)).
Proof. intros Hc. apply ti_refs. by apply target_reachable_inv. Qed.
End props.
