(* ===== verification/TargetLinear.v ===== *)
(** * Target lookups are linearizable

    [namei_ext_find_target_rcu] holds no lock and has no sequence count to
    detect changes.  It still answers as of one instant: a chain keeps leading
    to the wanted target while nodes around it are added, removed and
    replaced, unless that target was removed meanwhile. *)

From S2P Require Import Prelude Abi Kernel Rcu Targets TargetRcu TargetRcuProps.

Section linear.
Context (hash_min : Z → nat) (hash_min_lt : ∀ k, (hash_min k < target_buckets)%nat).
Context (cg tid : Z).

Abbreviation step := (target_step hash_min cg tid).
Abbreviation steps := (target_steps hash_min cg tid).
Abbreviation bkt := (node_bkt hash_min).
Abbreviation b := (target_bkt hash_min cg tid).
Abbreviation table c := (tm_table (tc_mem c)).
Abbreviation table_ok := (table_ok target_buckets bkt).
Abbreviation wanted := (wanted cg tid).
Abbreviation bkt_lt := (node_bkt_lt hash_min hash_min_lt).
Abbreviation target_inv := (target_inv hash_min cg tid).
Abbreviation next t n := (table_next bkt t n).

Definition absent (t : rcu_table (A:=target_node)) : Prop := ∀ n, n ∈ linked t → wanted n = false.
Definition unique (t : rcu_table (A:=target_node)) : Prop := NoDup (node_key <$> linked t).

(** The next pointers from a node reach the wanted target. *)
Inductive leads (t : rcu_table) : target_node → Prop :=
  | leads_here n : wanted n = true → leads t n
  | leads_next n n' : next t n = Some n' → leads t n' → leads t n.

Lemma leads_inv t n :
  leads t n → wanted n = false → ∃ n', next t n = Some n' ∧ leads t n'.
Proof. destruct 1 as [n Hn|n n' Hn Hl]; [congruence|eauto]. Qed.

(** ** From the head of the bucket *)

Lemma chain_leads t l x r :
  table_ok t → rt_index t !!! b = l ++ x :: r → (∃ n, n ∈ x :: r ∧ wanted n = true) → leads t x.
Proof.
  intros Ht. set (probe := mk_tnode 0 (mk_target cg tid (mk_path 0 0))).
  revert l x. induction r as [|y r IH]; intros l x Hc (n & Hn & Hw).
  { apply list_elem_of_singleton in Hn as ->. by apply leads_here. }
  destruct (wanted x) eqn:Hx; [by apply leads_here|]. apply (leads_next _ _ y).
  - assert (x ∈ table_chain bkt t probe) as Hin.
    { unfold table_chain. change (bkt probe) with b. rewrite Hc, elem_of_app. right. left. }
    apply (chain_bucket _ _ bkt_lt) in Hin as [Hb Hl]; [|apply Ht].
    rewrite (table_next_linked _ _ bkt_lt) by done. unfold table_chain. rewrite Hb.
    change (bkt probe) with b. rewrite Hc. apply (next_in_split l x (y :: r)).
    pose proof (chain_NoDup _ _ bkt_lt t probe (tab_index _ _ _ Ht) (tab_nodup _ _ _ Ht)) as Hnd.
    unfold table_chain in Hnd. change (bkt probe) with b in Hnd. rewrite Hc in Hnd.
    apply NoDup_app in Hnd as (_ & Hd & _). intros Hin. apply (Hd x Hin). left.
  - apply (IH (l ++ [x])); [by rewrite <- (assoc_L (++))|]. exists n. split; [|done].
    apply elem_of_cons in Hn as [->|?]; [congruence|done].
Qed.

Lemma head_leads t :
  table_ok t →
  match head (rt_index t !!! b) with Some x => leads t x ∨ absent t | None => absent t end.
Proof.
  intros Ht. set (probe := mk_tnode 0 (mk_target cg tid (mk_path 0 0))).
  assert (∀ n, n ∈ linked t → wanted n = true → n ∈ rt_index t !!! b) as Hin.
  { intros n Hn Hw. apply (chain_linked _ _ bkt_lt) in Hn; [|apply Ht].
    unfold table_chain in Hn. by rewrite (wanted_bkt hash_min cg tid n Hw) in Hn. }
  destruct (existsb wanted (rt_index t !!! b)) eqn:He.
  - apply existsb_exists in He as (n & Hn%list_elem_of_In & Hw).
    destruct (rt_index t !!! b) as [|x r] eqn:Hc; [by apply not_elem_of_nil in Hn|]. left.
    apply (chain_leads t [] x r Ht Hc). eauto.
  - assert (absent t) as Ha.
    { intros n Hn. destruct (wanted n) eqn:Hw; [|done]. rewrite <- He. symmetry.
      apply existsb_exists. exists n. split; [|done]. by apply list_elem_of_In, Hin. }
    destruct (head _); [by right|done].
Qed.

(** ** Stores *)

(** The ways a step changes the nodes of the table. *)
Inductive table_change (t : rcu_table) : rcu_table → Prop :=
  | change_none t' :
      rt_index t' = rt_index t → rt_stale t' = rt_stale t → table_change t t'
  | change_add x :
      x ∉ linked t → x ∉ unlinked t → x ∉ rt_freed t → table_change t (table_add bkt x t)
  | change_del x : x ∈ linked t → table_change t (table_del bkt x t)
  | change_replace old new :
      old ∈ linked t → node_key old = node_key new →
      new ∉ linked t → new ∉ unlinked t → new ∉ rt_freed t →
      table_change t (table_replace bkt old new t).

Lemma known_ne (t : rcu_table) (n x : target_node) :
  n ∈ linked t ∨ n ∈ unlinked t → x ∉ linked t → x ∉ unlinked t → n ≠ x.
Proof. intros [?|?] ?? ->; done. Qed.

Lemma leads_del t x n :
  table_ok t → x ∈ linked t → wanted x = false → leads t n → leads (table_del bkt x t) n.
Proof.
  intros Ht Hx Hw. induction 1 as [n Hn|n n' Hn _ IH]; [by apply leads_here|].
  pose proof (table_next_del _ _ bkt_lt x t n Ht Hx) as Hnext.
  case_decide as Hd; [|by apply (leads_next _ _ n'); [congruence|]].
  destruct Hd as [_ Hd]. assert (n' = x) as -> by congruence.
  destruct (leads_inv _ _ IH Hw) as (y & Hy & Hl).
  rewrite (table_next_del _ _ bkt_lt x t x Ht Hx) in Hy.
  assert (next t x = Some y) as Hxy by (by case_decide).
  apply (leads_next _ _ y); [congruence|done].
Qed.

Lemma leads_add t x n :
  table_ok t → x ∉ linked t → x ∉ unlinked t → x ∉ rt_freed t →
  n ∈ linked t ∨ n ∈ unlinked t → leads t n → leads (table_add bkt x t) n.
Proof.
  intros Ht Hl Hu Hf Hk Hn. pose proof (table_ok_add _ _ bkt_lt x t Hl Hu Hf Ht) as Ht'.
  revert Hk. induction Hn as [n Hn|n n' Hn _ IH]; intros Hk; [by apply leads_here|].
  apply (leads_next _ _ n').
  - rewrite (table_next_add _ _ bkt_lt) by (try done; by apply (known_ne t)). done.
  - by apply IH, (table_next_known _ _ bkt_lt t n).
Qed.

Lemma leads_replace t old new n :
  table_ok t → old ∈ linked t → node_key old = node_key new →
  new ∉ linked t → new ∉ unlinked t → new ∉ rt_freed t →
  n ∈ linked t ∨ n ∈ unlinked t → leads t n → leads (table_replace bkt old new t) n.
Proof.
  intros Ht Ho Hk Hl Hu Hf Hn Hleads.
  assert (bkt new = bkt old) as Hb by (by apply key_bkt).
  pose proof (λ n, table_next_replace _ _ bkt_lt old new t n Ht Ho Hb Hl Hu Hf) as Hnext.
  pose proof (table_next_replace_new _ _ bkt_lt old new t Ht Ho Hb Hl Hu Hf) as Hnew.
  revert Hn. induction Hleads as [n Hw|n n' Hn _ IH]; intros Hkn; [by apply leads_here|].
  specialize (IH (table_next_known _ _ bkt_lt t n n' Ht Hn)).
  pose proof (Hnext n (known_ne t n new Hkn Hl Hu)) as Hnn.
  case_decide as Hd; [|by apply (leads_next _ _ n'); [congruence|]].
  destruct Hd as [_ Hd]. assert (n' = old) as -> by congruence.
  apply (leads_next _ _ new); [done|].
  destruct (wanted old) eqn:Hw.
  { apply leads_here, wanted_key. rewrite <- Hk. by apply wanted_key. }
  destruct (leads_inv _ _ IH Hw) as (y & Hy & Hly). apply (leads_next _ _ y); [|done].
  rewrite Hnew. rewrite (Hnext old) in Hy by congruence. case_decide as Hd'; [|done].
  destruct Hd' as [_ Hself]. rewrite (table_next_linked _ _ bkt_lt) in Hself by done.
  apply next_in_ne in Hself; [done|]. apply (chain_NoDup _ _ bkt_lt); apply Ht.
Qed.

Lemma unique_key t n n' :
  unique t → n ∈ linked t → n' ∈ linked t → node_key n = node_key n' → n = n'.
Proof.
  unfold unique. intros Hu Hn Hn' Hk. apply list_elem_of_lookup in Hn as [i Hi], Hn' as [j Hj].
  assert (i = j) as ->; [|congruence].
  eapply (NoDup_lookup _ i j (node_key n)); [done|..]; rewrite list_lookup_fmap;
    [by rewrite Hi|by rewrite Hj, Hk].
Qed.

Lemma leads_change t t' n :
  table_ok t → unique t → table_change t t' → n ∈ linked t ∨ n ∈ unlinked t → leads t n →
  leads t' n ∨ absent t'.
Proof.
  intros Ht Hu Hc Hk Hn. destruct Hc as [t' Hi Hs|x Hl Hx Hf|x Hx|old new Ho Hkey Hl Hx Hf].
  - left. assert (∀ n, next t' n = next t n) as Hnext.
    { intros m. unfold table_next, table_chain. by rewrite Hi, Hs. }
    clear Hk. induction Hn as [n Hn|n n' Hn _ IH]; [by apply leads_here|].
    apply (leads_next _ _ n'); [by rewrite Hnext|done].
  - left. by apply leads_add.
  - destruct (wanted x) eqn:Hw; [|left; by apply leads_del]. right.
    intros y [Hy Hne]%linked_del_elem. destruct (wanted y) eqn:Hwy; [|done].
    destruct Hne. apply wanted_key in Hw, Hwy. eapply unique_key; [done..|congruence].
  - left. by apply leads_replace.
Qed.

Lemma change_known t t' n :
  table_ok t → table_change t t' → n ∈ linked t ∨ n ∈ unlinked t → n ∈ linked t' ∨ n ∈ unlinked t'.
Proof.
  intros Ht Hc. destruct Hc as [t' Hi Hs|x Hl Hx Hf|x Hx|old new Ho Hkey Hl Hx Hf].
  - unfold linked, unlinked. by rewrite Hi, Hs.
  - rewrite (linked_add _ _ bkt_lt), elem_of_cons by apply Ht. intros [?|?]; [left; by right|by right].
  - rewrite linked_del_elem. change (unlinked (table_del bkt x t)) with (x :: unlinked t).
    rewrite elem_of_cons. destruct (decide (n = x)); tauto.
  - rewrite linked_replace_elem by done.
    change (unlinked (table_replace bkt old new t)) with (old :: unlinked t).
    rewrite elem_of_cons. destruct (decide (n = old)); tauto.
Qed.

(** A node removed by a step was in the table, and its next pointer stays
    what it was. *)
Lemma change_stale t t' n o :
  table_ok t → table_change t t' → (n, o) ∈ rt_stale t' →
  (n, o) ∈ rt_stale t ∨ (n ∈ linked t ∧ ∀ n', o = Some n' → n' ∈ linked t).
Proof.
  intros Ht Hc.
  assert (∀ x, (n, o) ∈ (x, next_in (table_chain bkt t x) x) :: rt_stale t → x ∈ linked t →
    (n, o) ∈ rt_stale t ∨ (n ∈ linked t ∧ ∀ n', o = Some n' → n' ∈ linked t)) as Hrem.
  { intros x [[= -> ->]|?]%elem_of_cons Hx; [right|by left]. split; [done|].
    intros n' Hn'%next_in_elem. apply (chain_bucket _ _ bkt_lt) in Hn' as [_ ?]; [done|apply Ht]. }
  destruct Hc as [t' Hi Hs|x Hl Hx Hf|x Hx|old new Ho Hkey Hl Hx Hf].
  - rewrite Hs. by left.
  - by left.
  - intros Hin. by apply (Hrem x).
  - intros Hin. by apply (Hrem old).
Qed.

(** ** Histories *)

Definition seen (c0 c : target_conf) (Q : rcu_table → Prop) : Prop :=
  ∃ c', steps c0 c' ∧ steps c' c ∧ Q (table c').

Lemma seen_here c0 c (Q : rcu_table → Prop) : steps c0 c → Q (table c) → seen c0 c Q.
Proof. intros Hs HQ. exists c. split_and!; [done|done|done]. Qed.

Lemma seen_after c0 c c' Q : step c c' → seen c0 c Q → seen c0 c' Q.
Proof. intros Hs (c1 & H0 & H1 & HQ). exists c1. split_and!; [done|by eapply rtc_r|done]. Qed.

(** What is known since [c0], where the reader was outside its section. *)
Record history (c0 c : target_conf) : Prop := {
  hi_next n n' : (n, Some n') ∈ rt_stale (table c) →
    n ∉ unlinked (table c0) → n' ∉ unlinked (table c0);
  hi_removed n : n ∈ unlinked (table c) → n ∈ unlinked (table c0) ∨ seen c0 c (λ t, n ∈ linked t);
  hi_old n : n ∈ unlinked (table c0) → n ∈ unlinked (table c);
  hi_at n : target_at (tc_reader c) = Some n →
    (n ∉ unlinked (table c0)) ∧ (n ∈ linked (table c) ∨ n ∈ unlinked (table c));
  hi_leads n : tc_reader c = TNode n → leads (table c) n ∨ seen c0 c absent;
  hi_missing : tc_reader c = TMissing → seen c0 c absent
}.

Lemma history_start c : tc_reader c = TIdle → history c c.
Proof.
  intros Hr. split; rewrite ?Hr; try done; [|by left].
  intros n n' Hs Hn. exfalso. apply Hn. apply list_elem_of_fmap. by exists (n, Some n').
Qed.

(** A step of the writers: the reader stays where it is, or is done. *)
Lemma history_change c0 c c' :
  target_inv c → steps c0 c → step c c' → table_change (table c) (table c') →
  (tc_reader c' = tc_reader c ∨ tc_reader c' = TIdle) → history c0 c → history c0 c'.
Proof.
  intros Hi Hs H Hc Hr [H1 H2 H3 H4 H5 H6].
  pose proof (inv_table _ _ _ _ Hi) as Ht. pose proof (ti_unique _ _ _ _ Hi) as Hu.
  split.
  - intros n n' Hst Hn. destruct (change_stale _ _ _ _ Ht Hc Hst) as [?|[_ Hl]]; [by apply (H1 n)|].
    intros Hn'%H3. apply (tab_unlinked _ _ _ Ht n' Hn'). by apply Hl.
  - intros n (o & Hin)%list_elem_of_fmap. destruct Hin as [-> Hin]. destruct o as [n o]. simpl.
    destruct (change_stale _ _ _ _ Ht Hc Hin) as [Hst|[Hl _]].
    + destruct (H2 n) as [?|?]; [apply list_elem_of_fmap; by exists (n, o)|by left|right].
      by eapply seen_after.
    + right. eapply seen_after; [done|]. by apply seen_here.
  - intros n Hn%H3. destruct Hc as [t' Hix Hst|x Hl Hx Hf|x Hx|old new Ho Hkey Hl Hx Hf].
    + unfold unlinked in *. by rewrite Hst.
    + done.
    + by right.
    + by right.
  - intros n Hn. destruct Hr as [Hr|Hr]; rewrite Hr in Hn; [|done].
    destruct (H4 n Hn) as [? Hk]. split; [done|]. by eapply change_known.
  - intros n Hn. destruct Hr as [Hr|Hr]; rewrite Hr in Hn; [|done].
    destruct (H5 n Hn) as [Hl|Ha]; [|right; by eapply seen_after].
    destruct (H4 n) as [_ Hk]; [by rewrite Hn|].
    destruct (leads_change _ _ n Ht Hu Hc Hk Hl) as [?|?]; [by left|right].
    apply seen_here; [by eapply rtc_r|done].
  - intros Hn. destruct Hr as [Hr|Hr]; rewrite Hr in Hn; [|done]. eapply seen_after; eauto.
Qed.

(** A load. *)
Lemma history_load c0 m cl fs own r fs' :
  let c := mk_tconf m cl fs own r in
  let c' := mk_tconf m cl fs' own (target_load hash_min cg tid m r) in
  target_inv c → steps c0 c → step c c' → history c0 c → history c0 c'.
Proof.
  intros c c' Hi Hs H [H1 H2 H3 H4 H5 H6]. pose proof (inv_table _ _ _ _ Hi) as Ht.
  assert (∀ Q, seen c0 c Q → seen c0 c' Q) as Hseen by (intros Q; by apply seen_after).
  assert (absent (tm_table m) → seen c0 c' absent) as Hnow.
  { intros Ha. apply Hseen. by apply seen_here. }
  pose proof (head_leads (tm_table m) Ht) as Hhead.
  simpl in *. split; simpl.
  - done.
  - intros n Hn. destruct (H2 n Hn); [by left|right; by apply Hseen].
  - done.
  - intros n. destruct r as [| |x|x|]; simpl in *; [by destruct (tid =? 0)| | |by apply H4|done].
    + rewrite goto_target_at. intros Hn%head_Some_elem_of.
      apply (chain_bucket _ _ bkt_lt (tm_table m) (mk_tnode 0 (mk_target cg tid (mk_path 0 0))))
        in Hn as [_ Hl]; [|apply Ht]. split; [|by left].
      intros Hn%H3. by apply (tab_unlinked _ _ _ Ht n).
    + destruct (H4 x eq_refl) as [Hx Hkx]. destruct (target_is _ _ _); [by intros [= <-]|].
      rewrite goto_target_at. intros Hn. split; [|by apply (table_next_known _ _ bkt_lt (tm_table m) x)].
      apply (table_next_elem _ _ bkt_lt) in Hn as [[Hl _]|Hst]; [| |done]; [|by apply (H1 x)].
      intros Hn%H3. by apply (tab_unlinked _ _ _ Ht n).
  - intros n. destruct r as [| |x|x|]; simpl in *; [by destruct (tid =? 0)| | |done|done].
    + destruct (head _) as [y|]; simpl; [|done]. intros [= <-].
      destruct Hhead; [by left|right; by apply Hnow].
    + destruct (target_is _ _ _) eqn:Hx; [done|]. destruct (table_next _ _ _) as [y|] eqn:Hn; [|done].
      simpl. intros [= <-]. destruct (H5 x eq_refl) as [Hl|Ha]; [left|right; by apply Hseen].
      destruct (leads_inv _ _ Hl Hx) as (y' & Hy & Hly). by simplify_eq.
  - destruct r as [| |x|x|]; simpl in *; [by destruct (tid =? 0)| | |done|].
    + destruct (head _) as [y|]; simpl; [done|]. intros _. by apply Hnow.
    + destruct (target_is _ _ _) eqn:Hx; [done|]. destruct (table_next _ _ _) as [y|] eqn:Hn; [done|].
      intros _. destruct (H5 x eq_refl) as [Hl|Ha]; [|by apply Hseen].
      destruct (leads_inv _ _ Hl Hx) as (y' & Hy & _). by simplify_eq.
    + intros _. by apply Hseen, H6.
Qed.

Lemma history_step c0 c c' :
  target_inv c → steps c0 c → step c c' → history c0 c → history c0 c'.
Proof.
  intros Hi Hs H Hh. pose proof (inv_table _ _ _ _ Hi) as Ht. pose proof H as Hstep.
  destruct H as [| |a cg' tid' p old t t' refs used fs own1 own2 r Ha Hz Hm Hd Hreg| |
    cg' retired n t refs used fs own r Hn| | | | | | |]; simpl in *;
    try (eapply history_change; [exact Hi|exact Hs|exact Hstep| | |exact Hh];
         [by apply change_none|by (left + right)]).
  - eapply history_change; [exact Hi|exact Hs|exact Hstep| |by left|exact Hh]. simpl.
    apply (register_store_spec _ hash_min_lt) in Hreg; [|done].
    destruct (fresh_node _ _ _ _ a (mk_target cg' tid' p) Hi Ha) as (Hl & Hu & Hf).
    simpl in *. assert (mk_tnode a (mk_target cg' tid' p) ∉ rt_freed t) as Hf'
      by (intros ?; apply Hf, elem_of_app; by right).
    destruct Hreg; [by apply change_add|by apply change_replace].
  - eapply history_change; [exact Hi|exact Hs|exact Hstep| |by left|exact Hh].
    apply change_del. by apply next_of_cgroup_Some in Hn as [? _].
  - by eapply history_load.
Qed.

Lemma history_steps c0 c :
  target_inv c0 → tc_reader c0 = TIdle → steps c0 c → history c0 c.
Proof.
  intros Hi0 Hr Hs.
  assert (∀ c1 c2, steps c1 c2 → steps c0 c1 → history c0 c1 → history c0 c2) as Hgen.
  { intros c1 c2. induction 1 as [|c1 c1' c2 H _ IH]; [done|]. intros Hs1 Hh.
    apply IH; [by eapply rtc_r|]. apply (history_step c0 c1); try done.
    by apply (target_inv_steps hash_min hash_min_lt cg tid c0). }
  apply (Hgen c0 c Hs); [done|]. by apply history_start.
Qed.

(** ** The registry of the sequential model *)

Abbreviation find c := (namei_ext_find_target_rcu hash_min cg tid (targets_of (tc_mem c))).

Lemma find_fmap chain :
  find_in_chain cg tid (tn_target <$> chain) = tn_target <$> find_node cg tid chain.
Proof. induction chain as [|x r IH]; [done|]. rewrite fmap_cons. simpl. by case_match. Qed.

Lemma find_eq c :
  table_ok (table c) → find c = tn_target <$> find_node cg tid (rt_index (table c) !!! b).
Proof.
  intros Ht. unfold namei_ext_find_target_rcu, chain_of. cbn [targets_of ts_table].
  rewrite <- find_fmap. f_equal. apply list_lookup_total_correct. rewrite list_lookup_fmap.
  rewrite list_lookup_lookup_total_lt; [done|].
  rewrite (index_length _ _ _ (tab_index _ _ _ Ht)). apply hash_min_lt.
Qed.

Lemma find_linked c n :
  target_inv c → n ∈ linked (table c) → wanted n = true → find c = Some (tn_target n).
Proof.
  intros Hi Hn Hw. pose proof (inv_table _ _ _ _ Hi) as Ht. rewrite find_eq by done.
  pose proof Hn as Hc. apply (chain_linked _ _ bkt_lt) in Hc; [|apply Ht].
  unfold table_chain in Hc. rewrite (wanted_bkt _ _ _ _ Hw) in Hc. apply wanted_key in Hw.
  destruct (find_node _ _ _) as [y|] eqn:Hf.
  - apply find_node_Some in Hf as [Hy Hk]. simpl. f_equal. f_equal.
    apply (unique_key (table c)); [by apply (ti_unique hash_min cg tid)| |done|congruence].
    apply (chain_bucket _ _ bkt_lt (table c) (mk_tnode 0 (mk_target cg tid (mk_path 0 0)))) in Hy
      as [_ ?]; [done|apply Ht].
  - by apply (find_node_None _ _ _ n) in Hf.
Qed.

Lemma find_absent c : target_inv c → absent (table c) → find c = None.
Proof.
  intros Hi Ha. pose proof (inv_table _ _ _ _ Hi) as Ht. rewrite find_eq by done.
  destruct (find_node _ _ _) as [y|] eqn:Hf; [|done]. apply find_node_Some in Hf as [Hy Hk].
  apply (chain_bucket _ _ bkt_lt (table c) (mk_tnode 0 (mk_target cg tid (mk_path 0 0)))) in Hy
    as [_ Hl]; [|apply Ht]. apply Ha in Hl. apply wanted_key in Hk. congruence.
Qed.

(** C19: Target lookups are linearizable: a lookup that runs while targets are
    registered, replaced and cleared returns the target that the sequential
    lookup finds in the registry of an instant during it, and finds none only
    if at some instant during it none is registered; although it may walk
    nodes removed long since it began. *)
Theorem target_lookup_linearizable c0 c1 :
  steps boot_targets c0 → tc_reader c0 = TIdle → steps c0 c1 →
  (∀ n, tc_reader c1 = TFound n →
     ∃ c, steps c0 c ∧ steps c c1 ∧
       namei_ext_find_target_rcu hash_min cg tid (targets_of (tc_mem c)) = Some (tn_target n)) ∧
  (tc_reader c1 = TMissing →
     ∃ c, steps c0 c ∧ steps c c1 ∧
       namei_ext_find_target_rcu hash_min cg tid (targets_of (tc_mem c)) = None).
Proof.
  intros Hb Hr Hs. pose proof (target_reachable_inv hash_min hash_min_lt cg tid c0 Hb) as Hi0.
  pose proof (λ c, target_inv_steps hash_min hash_min_lt cg tid c0 c) as Hinv.
  pose proof (history_steps c0 c1 Hi0 Hr Hs) as Hh.
  assert (∀ Q, seen c0 c1 Q → ∃ c, steps c0 c ∧ steps c c1 ∧ target_inv c ∧ Q (table c)) as Hseen.
  { intros Q (c & H0 & H1 & HQ). exists c. split_and!; try done. by apply Hinv. }
  split.
  - intros n Hn. destruct (hi_at _ _ Hh n) as [Hold Hk]; [by rewrite Hn|].
    assert (wanted n = true) as Hw by by apply (ti_found _ _ _ _ (Hinv _ Hs Hi0)).
    assert (seen c0 c1 (λ t, n ∈ linked t)) as Hl.
    { destruct Hk as [Hk|Hk]; [by apply seen_here|]. by destruct (hi_removed _ _ Hh n Hk). }
    apply Hseen in Hl as (c & ? & ? & Hic & Hl). exists c. split_and!; try done.
    by apply find_linked.
  - intros Hn. destruct (Hseen _ (hi_missing _ _ Hh Hn)) as (c & ? & ? & Hic & Ha).
    exists c. split_and!; try done. by apply find_absent.
Qed.
End linear.
