(* ===== verification/TargetRefine.v ===== *)
(** * The stores of the registry refine its operations

    Registration and clearing store by store, their grace period and the
    release of the old targets included, have the effect of
    [namei_ext_register_target] and [namei_ext_clear_targets]. *)

From S2P Require Import Prelude Abi Kernel Rcu Targets TargetRcu TargetRcuProps.

Section refine.
Context (hash_min : Z → nat) (hash_min_lt : ∀ k, (hash_min k < target_buckets)%nat).

Abbreviation bkt := (node_bkt hash_min).
Abbreviation table_ok := (table_ok target_buckets bkt).
Abbreviation bkt_lt := (node_bkt_lt hash_min hash_min_lt).

Definition index_targets (t : rcu_table (A:=target_node)) : list (list namei_ext_target) :=
  (λ chain : list target_node, tn_target <$> chain) <$> rt_index t.

(** ** Registration *)

Lemma replace_found cg tid (new old : target_node) chain :
  NoDup chain → find_node cg tid chain = Some old →
  replace_in_chain cg tid (tn_target new) (tn_target <$> chain) =
    Some (tn_target old, tn_target <$> (swap old new <$> chain)).
Proof.
  intros Hnd. induction Hnd as [|x r Hx Hnd IH]; [done|]. rewrite !fmap_cons. simpl.
  destruct (target_is cg tid (tn_target x)) eqn:E.
  - intros [= ->]. rewrite swap_old. f_equal. f_equal. f_equal. f_equal.
    by rewrite swap_not_in.
  - intros Hf. rewrite (IH Hf), swap_ne; [done|]. intros ->.
    apply find_node_Some in Hf as [? _]. done.
Qed.

Lemma replace_missing cg tid (new : namei_ext_target) chain :
  find_node cg tid chain = None → replace_in_chain cg tid new (tn_target <$> chain) = None.
Proof.
  induction chain as [|x r IH]; [done|]. rewrite fmap_cons. simpl.
  destruct (target_is _ _ _); [done|]. intros Hf. by rewrite IH.
Qed.

Lemma index_targets_chain t n :
  table_ok t → index_targets t !!! bkt n = tn_target <$> table_chain bkt t n.
Proof.
  intros Ht. apply list_lookup_total_correct. unfold index_targets.
  by rewrite list_lookup_fmap, (chain_lookup _ _ bkt_lt t n (tab_index _ _ _ Ht)).
Qed.

Lemma index_targets_replace old new t :
  table_ok t → old ∈ linked t →
  index_targets (table_replace bkt old new t) =
  <[bkt old := tn_target <$> (swap old new <$> table_chain bkt t old)]> (index_targets t).
Proof.
  intros Ht Ho. unfold index_targets. simpl.
  pose proof (tab_index _ _ _ Ht) as Hi.
  apply list_eq. intros i. rewrite !list_lookup_fmap.
  destruct (decide (i = bkt old)) as [->|Hne].
  - rewrite (chain_lookup _ _ bkt_lt t old Hi). simpl. symmetry. apply list_lookup_insert_eq.
    rewrite length_fmap, (index_length _ _ _ Hi). apply bkt_lt.
  - rewrite list_lookup_insert_ne, list_lookup_fmap by done.
    destruct (rt_index t !! i) as [chain|] eqn:Hc; [|done]. simpl. f_equal. f_equal.
    apply swap_not_in. by intros ?%(index_bucket _ _ _ Hi _ _ _ Hc).
Qed.

Lemma register_refines m a cg tid p old t' :
  table_ok (tm_table m) → tid ≠ 0 → p_mnt p ≠ NULL → p_dentry p ≠ NULL →
  register_store hash_min (mk_tnode a (mk_target cg tid p)) (tm_table m) = (old, t') →
  namei_ext_register_target hash_min true false cg tid p (targets_of m) =
  (0, targets_of (mk_tmem t'
        (from_option (λ o, path_put (node_path o) (tm_refs m)) (tm_refs m) old) (tm_used m))).
Proof.
  intros Ht Hz Hm Hd Hreg. unfold namei_ext_register_target.
  rewrite !(proj2 (Z.eqb_neq _ _)) by done. simpl.
  set (n := mk_tnode a (mk_target cg tid p)) in *.
  change (target_bkt hash_min cg tid) with (bkt n).
  unfold chain_of. change (ts_table (targets_of m)) with (index_targets (tm_table m)).
  rewrite index_targets_chain by done. unfold register_store in Hreg. simpl in Hreg.
  destruct (find_node cg tid _) as [o|] eqn:Hf; injection Hreg as <- <-; simpl.
  - pose proof (chain_NoDup _ _ bkt_lt (tm_table m) n (tab_index _ _ _ Ht) (tab_nodup _ _ _ Ht)) as Hnd.
    rewrite (replace_found cg tid n o) by done.
    apply find_node_Some in Hf as [Ho Hk].
    apply (chain_bucket _ _ bkt_lt) in Ho as [Hb Ho]; [|apply Ht]. f_equal. unfold targets_of. simpl.
    f_equal. symmetry. etrans; [by apply index_targets_replace|]. unfold table_chain. by rewrite Hb.
  - change (mk_target cg tid p) with (tn_target n). rewrite replace_missing by done.
    f_equal. unfold targets_of. simpl. f_equal. symmetry.
    exact (list_fmap_insert (λ chain : list target_node, tn_target <$> chain)
      (rt_index (tm_table m)) (bkt n) (n :: table_chain bkt (tm_table m) n)).
Qed.

(** ** Clearing *)

(** The loop of [namei_ext_clear_targets]; [fuel] bounds the nodes it unlinks. *)
Fixpoint clear_run (fuel : nat) (cg : Z) (t : rcu_table) (retired : list target_node)
  : option (rcu_table * list target_node) :=
  match next_of_cgroup cg t with
  | None => Some (t, retired)
  | Some n =>
      match fuel with
      | O => None
      | S fuel => clear_run fuel cg (table_del bkt n t) (n :: retired)
      end
  end.

Abbreviation of_cgroup cg := (λ n, tgt_cg_id (tn_target n) = cg).

Abbreviation not_of_cgroup cg := (λ n, tgt_cg_id (tn_target n) ≠ cg).

Lemma filter_index_none cg (index : list (list target_node)) :
  filter (of_cgroup cg) (concat index) = [] → filter (not_of_cgroup cg) <$> index = index.
Proof.
  induction index as [|c index IH]; [done|]. cbn [concat]. rewrite filter_app.
  intros [Hc Hi]%app_eq_nil. rewrite fmap_cons, (IH Hi). f_equal. apply filter_all.
  intros n Hn Hcg. by apply (filter_nil_not_elem_of (of_cgroup cg) c n Hc).
Qed.

Lemma filter_del cg n ns t :
  table_ok t → filter (of_cgroup cg) (linked t) = n :: ns →
  n ∈ linked t ∧ tgt_cg_id (tn_target n) = cg ∧
  filter (of_cgroup cg) (linked (table_del bkt n t)) = ns ∧
  filter (not_of_cgroup cg) <$> rt_index (table_del bkt n t) =
    filter (not_of_cgroup cg) <$> rt_index t.
Proof.
  intros Ht Hf.
  assert (n ∈ filter (of_cgroup cg) (linked t)) as [Hcg Hn]%list_elem_of_filter
    by (rewrite Hf; left).
  split_and!; [done|done| |].
  - rewrite linked_del, list_filter_filter.
    rewrite (list_filter_iff _ (λ x, x ≠ n ∧ tgt_cg_id (tn_target x) = cg)) by tauto.
    rewrite <- list_filter_filter, Hf, filter_cons_False by tauto. apply filter_all.
    pose proof (NoDup_filter (of_cgroup cg) _ (tab_nodup _ _ _ Ht)) as Hnd. rewrite Hf in Hnd.
    apply NoDup_cons in Hnd as [Hns _]. by intros x Hx ->.
  - simpl. rewrite <- list_fmap_compose. apply list_fmap_ext. intros _ chain _. simpl.
    rewrite list_filter_filter. apply list_filter_iff. intros x. split; [by intros [? _]|].
    intros Hx. split; [done|]. by intros ->.
Qed.

Lemma clear_run_spec cg fuel t retired :
  table_ok t → (length (filter (of_cgroup cg) (linked t)) ≤ fuel)%nat →
  ∃ t', clear_run fuel cg t retired = Some (t', reverse (filter (of_cgroup cg) (linked t)) ++ retired) ∧
    rt_index t' = filter (not_of_cgroup cg) <$> rt_index t.
Proof.
  revert t retired. induction fuel as [|fuel IH]; intros t retired Ht Hlen;
    destruct (filter (of_cgroup cg) (linked t)) as [|n ns] eqn:Hf; simpl in Hlen; try lia;
    cbn [clear_run]; unfold next_of_cgroup at 1; rewrite Hf; cbn [head].
  - exists t. split; [done|]. symmetry. by apply filter_index_none.
  - exists t. split; [done|]. symmetry. by apply filter_index_none.
  - destruct (filter_del cg n ns t Ht Hf) as (Hn & _ & Hns & Hi).
    destruct (IH (table_del bkt n t) (n :: retired)) as (t' & Hr & Hi').
    + by apply (table_ok_del _ _ bkt_lt).
    + rewrite Hns. lia.
    + exists t'. rewrite Hr, Hns, Hi', Hi, reverse_cons, <- (assoc_L (++)). done.
Qed.

Lemma concat_targets t : concat (index_targets t) = tn_target <$> linked t.
Proof.
  unfold index_targets, linked. generalize (rt_index t).
  induction l as [|c l IH]; [done|]. rewrite fmap_cons. cbn [concat]. by rewrite fmap_app, IH.
Qed.

Lemma filter_fmap_target (P : namei_ext_target → Prop) `{∀ x, Decision (P x)}
  (l : list target_node) :
  filter P (tn_target <$> l) = tn_target <$> filter (λ n, P (tn_target n)) l.
Proof.
  induction l as [|x l IH]; [done|]. rewrite fmap_cons, !filter_cons.
  case_decide; by rewrite ?fmap_cons, IH.
Qed.

Lemma clear_refines m cg :
  table_ok (tm_table m) →
  ∃ t' retired,
    clear_run (length (linked (tm_table m))) cg (tm_table m) [] = Some (t', retired) ∧
    namei_ext_clear_targets cg (targets_of m) =
      targets_of (mk_tmem t' (path_put_all (node_path <$> retired) (tm_refs m)) (tm_used m)).
Proof.
  intros Ht. destruct (clear_run_spec cg (length (linked (tm_table m))) (tm_table m) [] Ht)
    as (t' & Hr & Hi); [apply length_filter|].
  exists t', (reverse (filter (of_cgroup cg) (linked (tm_table m))) ++ []).
  split; [done|]. rewrite app_nil_r. unfold namei_ext_clear_targets, targets_of at 1. cbn [ts_table].
  unfold targets_of at 3. cbn [tm_table tm_refs]. f_equal.
  - rewrite Hi, <- !list_fmap_compose. apply list_fmap_ext. intros _ chain _. simpl.
    apply filter_fmap_target.
  - unfold retired_targets. change (ts_table (targets_of m)) with (index_targets (tm_table m)).
    rewrite concat_targets, filter_fmap_target, !fmap_reverse, <- list_fmap_compose. done.
Qed.

(** C33: The stores refine the operations: in every reachable state,
    registering a target by one store and releasing the replaced one after
    the grace period is the sequential registration; and the loop that
    unlinks the targets of a cgroup one by one ends, and with the release of
    the targets it put on its list is the sequential clear. *)
Theorem registry_stores_refine cg0 tid0 c :
  target_steps hash_min cg0 tid0 boot_targets c →
  (∀ a cg tid p old t', tid ≠ 0 → p_mnt p ≠ NULL → p_dentry p ≠ NULL →
     register_store hash_min (mk_tnode a (mk_target cg tid p)) (tm_table (tc_mem c)) = (old, t') →
     namei_ext_register_target hash_min true false cg tid p (targets_of (tc_mem c)) =
     (0, targets_of (mk_tmem t'
           (from_option (λ o, path_put (node_path o) (tm_refs (tc_mem c)))
              (tm_refs (tc_mem c)) old) (tm_used (tc_mem c))))) ∧
  (∀ cg, ∃ t' retired,
     clear_run (length (linked (tm_table (tc_mem c)))) cg (tm_table (tc_mem c)) [] =
       Some (t', retired) ∧
     namei_ext_clear_targets cg (targets_of (tc_mem c)) =
       targets_of (mk_tmem t' (path_put_all (node_path <$> retired) (tm_refs (tc_mem c)))
                     (tm_used (tc_mem c)))).
Proof.
  intros Hc. apply target_reachable_inv, inv_table in Hc; [|done]. split.
  - intros a cg tid p old t'. by apply register_refines.
  - intros cg. by apply clear_refines.
Qed.
End refine.
