(* ===== verification/Scopes.v ===== *)
(** * Policy scopes (fs/namei_ext.c)

    Each cgroup has a scope: every directory ([NULL]), or a set of at most
    eight directories.  The directories of all sets are indexed by a global
    hash table, and two saturating counters say whether any policy is global
    and whether any set is non-empty: the prefilter of the path walk. *)

From S2P Require Import Prelude Abi Kernel.

Definition NAMEI_EXT_SCOPE_HASH_BITS : nat := 8.
Definition scope_buckets : nat := 2 ^ NAMEI_EXT_SCOPE_HASH_BITS.
#[global] Arguments scope_buckets : simpl never.
Definition NAMEI_EXT_MAX_POLICY_PARENTS : Z := 8.

(** A scope set is allocated once and never changed: its address identifies
    it, [ss_entries] are the paths of [entries[0 .. nr - 1]]. *)
Record namei_ext_scope_set := mk_scope_set { ss_addr : Z; ss_entries : list path }.

Definition ss_nr (s : namei_ext_scope_set) : Z := Z.of_nat (length (ss_entries s)).

(** The address of the static [namei_ext_scope_tombstone]. *)
Definition TOMBSTONE_ADDR : Z := 1.
Definition namei_ext_scope_tombstone : namei_ext_scope_set := mk_scope_set TOMBSTONE_ADDR [].

(** The index node embedded in [entries[i]] of the set at [sn_addr]. *)
Record namei_ext_scope := mk_scope { sn_addr : Z; sn_idx : nat; sn_path : path }.

#[export] Instance namei_ext_scope_eq_dec : EqDecision namei_ext_scope.
Proof. solve_decision. Defined.

(** [cgrp->bpf.namei_ext_scopes] and [cgrp->bpf.namei_ext_scope_active] *)
Record cgroup_scope := mk_cgroup_scope {
  cs_scopes : option namei_ext_scope_set;
  cs_active : bool
}.
Definition initial_cgroup_scope : cgroup_scope := mk_cgroup_scope None false.

Record scopes_state := mk_scopes {
  sc_index : list (list namei_ext_scope);
  sc_global_users : Z;
  sc_exact_users : Z;
  sc_seq : Z;
  sc_cgroups : gmap Z cgroup_scope;
  sc_refs : refs_t
}.

Definition initial_scopes : scopes_state :=
  mk_scopes (replicate scope_buckets []) 0 0 0 ∅ ∅.

Definition cgroup_scope_of (st : scopes_state) (cg : Z) : cgroup_scope :=
  default initial_cgroup_scope (sc_cgroups st !! cg).

Definition set_index (i : list (list namei_ext_scope)) (st : scopes_state) : scopes_state :=
  mk_scopes i (sc_global_users st) (sc_exact_users st) (sc_seq st) (sc_cgroups st) (sc_refs st).
Definition set_global_users (v : Z) (st : scopes_state) : scopes_state :=
  mk_scopes (sc_index st) v (sc_exact_users st) (sc_seq st) (sc_cgroups st) (sc_refs st).
Definition set_exact_users (v : Z) (st : scopes_state) : scopes_state :=
  mk_scopes (sc_index st) (sc_global_users st) v (sc_seq st) (sc_cgroups st) (sc_refs st).
Definition set_cgroup (cg : Z) (c : cgroup_scope) (st : scopes_state) : scopes_state :=
  mk_scopes (sc_index st) (sc_global_users st) (sc_exact_users st) (sc_seq st)
    (<[cg := c]> (sc_cgroups st)) (sc_refs st).
Definition set_refs (r : refs_t) (st : scopes_state) : scopes_state :=
  mk_scopes (sc_index st) (sc_global_users st) (sc_exact_users st) (sc_seq st)
    (sc_cgroups st) r.

(** [write_seqcount_begin] and [write_seqcount_end] *)
Definition seq_step (st : scopes_state) : scopes_state :=
  mk_scopes (sc_index st) (sc_global_users st) (sc_exact_users st) (u32 (sc_seq st + 1))
    (sc_cgroups st) (sc_refs st).

(** The nodes of a set. *)
Definition scope_nodes (s : namei_ext_scope_set) : list namei_ext_scope :=
  imap (λ i p, mk_scope (ss_addr s) i p) (ss_entries s).

Section scopes.
(** [hash_min(key, NAMEI_EXT_SCOPE_HASH_BITS)] of linux/hash.h *)
Variable hash_min : Z → nat.

Definition namei_ext_scope_key (p : path) : Z := Z.lxor (p_dentry p) (p_mnt p).
Definition scope_bkt (p : path) : nat := hash_min (namei_ext_scope_key p).

(** [hash_add_rcu] and [hash_del_rcu] *)
Definition index_add (idx : list (list namei_ext_scope)) (n : namei_ext_scope) :=
  let b := scope_bkt (sn_path n) in <[b := n :: (idx !!! b)]> idx.
Definition index_del (idx : list (list namei_ext_scope)) (n : namei_ext_scope) :=
  filter (λ n', n' ≠ n) <$> idx.

Definition namei_ext_scope_index_add_locked (scopes : namei_ext_scope_set)
  (st : scopes_state) : scopes_state :=
  let st := set_index (foldl index_add (sc_index st) (scope_nodes scopes)) st in
  if UINT_MAX - ss_nr scopes <? sc_exact_users st then set_exact_users UINT_MAX st
  else if negb (sc_exact_users st =? UINT_MAX)
  then set_exact_users (sc_exact_users st + ss_nr scopes) st
  else st.

Definition namei_ext_scope_index_del_locked (scopes : namei_ext_scope_set)
  (st : scopes_state) : scopes_state :=
  let st := set_index (foldl index_del (sc_index st) (scope_nodes scopes)) st in
  if sc_exact_users st =? UINT_MAX then st
  else if sc_exact_users st <? ss_nr scopes then set_exact_users UINT_MAX st
  else set_exact_users (sc_exact_users st - ss_nr scopes) st.

Definition namei_ext_global_scope_get_locked (st : scopes_state) : scopes_state :=
  if sc_global_users st =? UINT_MAX then st
  else set_global_users (sc_global_users st + 1) st.

Definition namei_ext_global_scope_put_locked (st : scopes_state) : scopes_state :=
  if sc_global_users st =? UINT_MAX then st
  else if sc_global_users st =? 0 then set_global_users UINT_MAX st
  else set_global_users (sc_global_users st - 1) st.

Definition namei_ext_free_scopes (scopes : option namei_ext_scope_set)
  (st : scopes_state) : scopes_state :=
  match scopes with
  | None => st
  | Some s =>
      if ss_addr s =? TOMBSTONE_ADDR then st
      else set_refs (path_put_all (ss_entries s) (sc_refs st)) st
  end.

(** [alloc] is what the allocator returns, [None] for NULL. *)
Definition namei_ext_alloc_scopes (alloc : option Z) (nr : Z) : option Z :=
  if NAMEI_EXT_MAX_POLICY_PARENTS <? nr then None else alloc.

(** After the grace period. *)
Definition namei_ext_finish_scope_replace (old : option namei_ext_scope_set)
  (st : scopes_state) : scopes_state :=
  match old with
  | None => st
  | Some _ => namei_ext_free_scopes old st
  end.

Definition namei_ext_scope_replace_locked (cg : Z)
  (new_scopes : option namei_ext_scope_set) (st : scopes_state)
  : option namei_ext_scope_set * scopes_state :=
  let st := seq_step st in
  let c := cgroup_scope_of st cg in
  let old_scopes := cs_scopes c in
  let st :=
    match new_scopes with
    | Some s => namei_ext_scope_index_add_locked s st
    | None => if cs_active c then namei_ext_global_scope_get_locked st else st
    end in
  let st := set_cgroup cg (mk_cgroup_scope new_scopes (cs_active c)) st in
  let st :=
    match old_scopes with
    | Some s => namei_ext_scope_index_del_locked s st
    | None => if cs_active c then namei_ext_global_scope_put_locked st else st
    end in
  (old_scopes, seq_step st).

Definition namei_ext_scope_exact (alloc : option Z) (dead : bool) (cg : Z) (p : path)
  (st : scopes_state) : Z * scopes_state :=
  match namei_ext_alloc_scopes alloc 1 with
  | None => (- ENOMEM, st)
  | Some a =>
      let new_scopes := mk_scope_set a [p] in
      let st := set_refs (path_get p (sc_refs st)) st in
      if dead then (- ENODEV, namei_ext_free_scopes (Some new_scopes) st) else
      let '(old, st) := namei_ext_scope_replace_locked cg (Some new_scopes) st in
      (0, namei_ext_finish_scope_replace old st)
  end.

Definition namei_ext_scope_add (alloc : option Z) (dead : bool) (cg : Z) (p : path)
  (st : scopes_state) : Z * scopes_state :=
  if dead then (- ENODEV, st) else
  match cs_scopes (cgroup_scope_of st cg) with
  | None => (- EINVAL, st)
  | Some old =>
      if existsb (λ q, path_equal q p) (ss_entries old) then (0, st) else
      if ss_nr old =? NAMEI_EXT_MAX_POLICY_PARENTS then (- E2BIG, st) else
      match namei_ext_alloc_scopes alloc (ss_nr old + 1) with
      | None => (- ENOMEM, st)
      | Some a =>
          let new_scopes := mk_scope_set a (ss_entries old ++ [p]) in
          let st := set_refs (path_get_all (ss_entries old) (sc_refs st)) st in
          let st := set_refs (path_get p (sc_refs st)) st in
          let '(old, st) := namei_ext_scope_replace_locked cg (Some new_scopes) st in
          (0, namei_ext_finish_scope_replace old st)
      end
  end.

Definition namei_ext_scope_empty (alloc : option Z) (dead : bool) (cg : Z)
  (st : scopes_state) : Z * scopes_state :=
  match namei_ext_alloc_scopes alloc 0 with
  | None => (- ENOMEM, st)
  | Some a =>
      let new_scopes := mk_scope_set a [] in
      if dead then (- ENODEV, namei_ext_free_scopes (Some new_scopes) st) else
      let '(old, st) := namei_ext_scope_replace_locked cg (Some new_scopes) st in
      (0, namei_ext_finish_scope_replace old st)
  end.

Definition namei_ext_scope_global (dead : bool) (cg : Z) (st : scopes_state)
  : Z * scopes_state :=
  if dead then (- ENODEV, st) else
  let '(old, st) := namei_ext_scope_replace_locked cg None st in
  (0, namei_ext_finish_scope_replace old st).

(** Outside a write section the sequence count is even and does not change
    while the function runs: both retry tests fail. *)
Definition namei_ext_parent_maybe_managed (st : scopes_state) (parent : path) : bool :=
  if (sc_global_users st =? 0) && (sc_exact_users st =? 0) then false else
  if negb (sc_global_users st =? 0) then true else
  existsb (λ n, path_equal (sn_path n) parent) (sc_index st !!! scope_bkt parent).

Definition namei_ext_policy_parent_matches (st : scopes_state) (cg : Z) (parent : path)
  : bool :=
  match cs_scopes (cgroup_scope_of st cg) with
  | None => true
  | Some s => existsb (λ q, path_equal q parent) (ss_entries s)
  end.

Definition namei_ext_cgroup_set_scope_active (cg : Z) (active : bool)
  (st : scopes_state) : scopes_state :=
  let c := cgroup_scope_of st cg in
  if Bool.eqb (cs_active c) active then st else
  let st := seq_step st in
  let st :=
    match cs_scopes c with
    | None => if active then namei_ext_global_scope_get_locked st
              else namei_ext_global_scope_put_locked st
    | Some _ => st
    end in
  seq_step (set_cgroup cg (mk_cgroup_scope (cs_scopes c) active) st).

(** The scope part of [namei_ext_cgroup_release]; the caller then clears the
    cgroup's targets. *)
Definition namei_ext_cgroup_release_scopes (cg : Z) (st : scopes_state) : scopes_state :=
  let '(old, st) :=
    namei_ext_scope_replace_locked cg (Some namei_ext_scope_tombstone) st in
  let c := cgroup_scope_of st cg in
  let st := set_cgroup cg (mk_cgroup_scope (cs_scopes c) false) st in
  namei_ext_finish_scope_replace old st.

(** ** Sequences of operations *)

Inductive scope_op :=
  | OpExact (alloc : option Z) (dead : bool) (cg : Z) (p : path)
  | OpAdd (alloc : option Z) (dead : bool) (cg : Z) (p : path)
  | OpEmpty (alloc : option Z) (dead : bool) (cg : Z)
  | OpGlobal (dead : bool) (cg : Z)
  | OpSetActive (cg : Z) (active : bool)
  | OpRelease (cg : Z).

Definition scope_step (op : scope_op) (st : scopes_state) : Z * scopes_state :=
  match op with
  | OpExact alloc dead cg p => namei_ext_scope_exact alloc dead cg p st
  | OpAdd alloc dead cg p => namei_ext_scope_add alloc dead cg p st
  | OpEmpty alloc dead cg => namei_ext_scope_empty alloc dead cg st
  | OpGlobal dead cg => namei_ext_scope_global dead cg st
  | OpSetActive cg active => (0, namei_ext_cgroup_set_scope_active cg active st)
  | OpRelease cg => (0, namei_ext_cgroup_release_scopes cg st)
  end.

(** The cgroup an operation works on. *)
Definition op_cgroup (op : scope_op) : Z :=
  match op with
  | OpExact _ _ cg _ | OpAdd _ _ cg _ | OpEmpty _ _ cg | OpGlobal _ cg
  | OpSetActive cg _ | OpRelease cg => cg
  end.

(** The addresses the allocator returns are not in use. *)
Definition op_alloc (op : scope_op) : option Z :=
  match op with
  | OpExact alloc _ _ _ | OpAdd alloc _ _ _ | OpEmpty alloc _ _ => alloc
  | _ => None
  end.
End scopes.
