(* ===== verification/ScopeFacts.v ===== *)
(** * Invariant of the policy scopes

    The index holds exactly the nodes of the live scope sets, the two counters
    are the number of indexed directories and of active global policies until
    they saturate, and the sets own their references. *)

From S2P Require Import Prelude Abi Kernel Rcu Scopes.

(** ** Nodes of the live sets *)

Definition cgroup_nodes (c : cgroup_scope) : list namei_ext_scope :=
  match cs_scopes c with Some s => scope_nodes s | None => [] end.
Definition live_nodes (m : gmap Z cgroup_scope) : list namei_ext_scope :=
  map_to_list m ≫= (λ kv, cgroup_nodes kv.2).

(** 1 for an active policy without a scope set. *)
Definition is_global (c : cgroup_scope) : Z :=
  match cs_scopes c with None => if cs_active c then 1 else 0 | Some _ => 0 end.

Lemma is_global_range c : 0 ≤ is_global c ≤ 1.
Proof. unfold is_global. repeat case_match; lia. Qed.

Lemma live_nodes_delete m cg :
  live_nodes m ≡ₚ
    cgroup_nodes (default initial_cgroup_scope (m !! cg)) ++ live_nodes (delete cg m).
Proof.
  destruct (m !! cg) as [c|] eqn:E; simpl.
  - unfold live_nodes at 1. rewrite <- (insert_delete_id m cg c E) at 1.
    by rewrite map_to_list_insert by apply lookup_delete_eq.
  - by rewrite delete_id.
Qed.
Lemma live_nodes_insert m cg c :
  live_nodes (<[cg := c]> m) ≡ₚ cgroup_nodes c ++ live_nodes (delete cg m).
Proof.
  rewrite (live_nodes_delete _ cg), lookup_insert_eq, delete_insert_eq. done.
Qed.

Lemma elem_of_scope_nodes s n :
  n ∈ scope_nodes s ↔
  sn_addr n = ss_addr s ∧ ss_entries s !! sn_idx n = Some (sn_path n).
Proof.
  unfold scope_nodes. rewrite list_elem_of_lookup. setoid_rewrite list_lookup_imap_Some.
  split.
  - intros (i & p & Hp & ->). done.
  - intros [Ha Hp]. exists (sn_idx n), (sn_path n). split; [done|].
    destruct n; simpl in *. by subst.
Qed.
Lemma scope_nodes_NoDup s : NoDup (scope_nodes s).
Proof.
  apply NoDup_alt. intros i j n. unfold scope_nodes. rewrite !list_lookup_imap.
  destruct (ss_entries s !! i) as [p|]; [|done].
  destruct (ss_entries s !! j) as [q|]; [|done]. simpl. congruence.
Qed.
Lemma length_scope_nodes s : Z.of_nat (length (scope_nodes s)) = ss_nr s.
Proof. unfold scope_nodes, ss_nr. by rewrite length_imap. Qed.

(** ** Counters that saturate *)

(** [v] counts [n] objects, or has stuck at its maximum. *)
Definition saturating (v n : Z) : Prop :=
  v = UINT_MAX ∨ (v = n ∧ n < UINT_MAX).

Lemma saturating_zero v n : saturating v n → v = 0 → n = 0.
Proof. unfold saturating, UINT_MAX. lia. Qed.

Section facts.
Context (hash_min : Z → nat) (hash_min_lt : ∀ k, (hash_min k < scope_buckets)%nat).

Abbreviation index_add := (index_add hash_min).
Abbreviation replace_locked := (namei_ext_scope_replace_locked hash_min).

(** ** The index *)

Abbreviation bkt := (λ n, scope_bkt hash_min (sn_path n)).
Abbreviation index_wf := (index_ok scope_buckets bkt).

Lemma bkt_lt n : (bkt n < scope_buckets)%nat.
Proof. apply hash_min_lt. Qed.

(** The index as an RCU table. *)
Definition index_table (idx : list (list namei_ext_scope)) : rcu_table := mk_table idx [] [].

Lemma index_add_wf idx n : index_wf idx → index_wf (index_add idx n).
Proof. apply (index_ok_add _ _ bkt_lt n (index_table idx)). Qed.
Lemma index_add_perm idx n :
  index_wf idx → concat (index_add idx n) ≡ₚ n :: concat idx.
Proof. apply (linked_add _ _ bkt_lt n (index_table idx)). Qed.

Lemma index_add_all ns idx :
  index_wf idx →
  index_wf (foldl index_add idx ns) ∧
  concat (foldl index_add idx ns) ≡ₚ ns ++ concat idx.
Proof.
  revert idx. induction ns as [|n ns IH]; intros idx Hi; simpl; [done|].
  destruct (IH (index_add idx n)) as [Hw Hp]; [by apply index_add_wf|].
  split; [done|]. rewrite Hp, index_add_perm by done. by rewrite <- Permutation_middle.
Qed.

Lemma index_del_wf idx n : index_wf idx → index_wf (index_del idx n).
Proof. apply index_ok_fmap. intros chain x [_ Hx]%list_elem_of_filter. by exists x. Qed.

Lemma index_del_all ns idx :
  index_wf idx →
  index_wf (foldl index_del idx ns) ∧
  concat (foldl index_del idx ns) = filter (λ n, n ∉ ns) (concat idx).
Proof.
  revert idx. induction ns as [|n ns IH]; intros idx Hi; simpl.
  - split; [done|]. symmetry. apply filter_all. intros n _. apply not_elem_of_nil.
  - destruct (IH (index_del idx n)) as [Hw ->]; [by apply index_del_wf|].
    split; [done|]. unfold index_del. rewrite concat_filter, list_filter_filter.
    apply list_filter_iff. intros n'. rewrite not_elem_of_cons. tauto.
Qed.

Lemma filter_remove_block {A} `{EqDecision A} (l r : list A) :
  NoDup (l ++ r) → filter (λ x, x ∉ l) (l ++ r) = r.
Proof.
  intros (_ & Hd & _)%NoDup_app. rewrite filter_app.
  rewrite filter_none, filter_all; [done| |].
  - intros x Hx Hl. by apply (Hd x).
  - intros x Hx Hn. by destruct Hn.
Qed.

(** ** The invariant *)

Record scopes_inv (st : scopes_state) : Prop := {
  inv_seq : Z.even (sc_seq st) = true;
  inv_seq_width : in_width 32 (sc_seq st);
  inv_index : index_wf (sc_index st);
  inv_nodes : concat (sc_index st) ≡ₚ live_nodes (sc_cgroups st);
  inv_nodup : NoDup (concat (sc_index st));
  inv_exact : saturating (sc_exact_users st) (Z.of_nat (length (concat (sc_index st))));
  inv_global : saturating (sc_global_users st) (map_sum is_global (sc_cgroups st));
  inv_set : ∀ cg s, cs_scopes (cgroup_scope_of st cg) = Some s →
    ss_nr s ≤ NAMEI_EXT_MAX_POLICY_PARENTS ∧
    (ss_addr s = TOMBSTONE_ADDR → ss_entries s = [])
}.

Lemma map_sum_global_nonneg (m : gmap Z cgroup_scope) : 0 ≤ map_sum is_global m.
Proof. apply map_sum_nonneg. intros i c _. apply is_global_range. Qed.

Lemma initial_scopes_inv : scopes_inv initial_scopes.
Proof.
  assert (concat (sc_index initial_scopes) = []) as He.
  { apply concat_replicate_nil. }
  split; rewrite ?He; try done.
  - split; [apply length_replicate|]. intros b chain n [-> _]%lookup_replicate_1.
    by intros ?%not_elem_of_nil.
  - constructor.
  - right. done.
  - right. done.
Qed.

(** An address no live set occupies. *)
Definition fresh_addr (st : scopes_state) (a : Z) : Prop :=
  a ≠ TOMBSTONE_ADDR ∧ ∀ n, n ∈ concat (sc_index st) → sn_addr n ≠ a.

Definition set_ok (st : scopes_state) (s : namei_ext_scope_set) : Prop :=
  ss_nr s ≤ NAMEI_EXT_MAX_POLICY_PARENTS ∧
  (ss_addr s = TOMBSTONE_ADDR → ss_entries s = []) ∧
  (∀ n, n ∈ scope_nodes s → n ∉ concat (sc_index st)).

Lemma fresh_set_ok st a ps :
  fresh_addr st a → Z.of_nat (length ps) ≤ NAMEI_EXT_MAX_POLICY_PARENTS →
  set_ok st (mk_scope_set a ps).
Proof.
  intros [Ht Hf] Hl. split_and!; [done|done|].
  intros n [Ha _]%elem_of_scope_nodes Hn. by apply (Hf n).
Qed.
Lemma tombstone_ok st : set_ok st namei_ext_scope_tombstone.
Proof. split_and!; [done|done|]. by intros n ?%not_elem_of_nil. Qed.

(** *** The counters *)

Lemma exact_add v n k :
  0 ≤ n → 0 ≤ k ≤ NAMEI_EXT_MAX_POLICY_PARENTS → saturating v n →
  saturating (if UINT_MAX - k <? v then UINT_MAX
              else if negb (v =? UINT_MAX) then v + k else v) (k + n).
Proof.
  unfold saturating, UINT_MAX, NAMEI_EXT_MAX_POLICY_PARENTS. intros.
  repeat case_match; unfold_bools; lia.
Qed.
Lemma exact_del v n k :
  0 ≤ n → 0 ≤ k → saturating v (k + n) →
  saturating (if v =? UINT_MAX then v else if v <? k then UINT_MAX else v - k) n.
Proof.
  unfold saturating, UINT_MAX. intros. repeat case_match; unfold_bools; lia.
Qed.

(** *** The write section *)

Definition exact_after_add (s : namei_ext_scope_set) (v : Z) : Z :=
  if UINT_MAX - ss_nr s <? v then UINT_MAX
  else if negb (v =? UINT_MAX) then v + ss_nr s else v.
Definition exact_after_del (s : namei_ext_scope_set) (v : Z) : Z :=
  if v =? UINT_MAX then v else if v <? ss_nr s then UINT_MAX else v - ss_nr s.
Definition global_after_get (v : Z) : Z := if v =? UINT_MAX then v else v + 1.
Definition global_after_put (v : Z) : Z :=
  if v =? UINT_MAX then v else if v =? 0 then UINT_MAX else v - 1.

Lemma index_add_locked_eq s st :
  namei_ext_scope_index_add_locked hash_min s st =
    mk_scopes (foldl index_add (sc_index st) (scope_nodes s)) (sc_global_users st)
      (exact_after_add s (sc_exact_users st)) (sc_seq st) (sc_cgroups st) (sc_refs st).
Proof.
  unfold namei_ext_scope_index_add_locked, exact_after_add, set_index, set_exact_users.
  simpl. repeat case_match; done.
Qed.
Lemma index_del_locked_eq s st :
  namei_ext_scope_index_del_locked s st =
    mk_scopes (foldl index_del (sc_index st) (scope_nodes s)) (sc_global_users st)
      (exact_after_del s (sc_exact_users st)) (sc_seq st) (sc_cgroups st) (sc_refs st).
Proof.
  unfold namei_ext_scope_index_del_locked, exact_after_del, set_index, set_exact_users.
  simpl. repeat case_match; done.
Qed.
Lemma global_get_locked_eq st :
  namei_ext_global_scope_get_locked st =
    set_global_users (global_after_get (sc_global_users st)) st.
Proof.
  unfold namei_ext_global_scope_get_locked, global_after_get. case_match; [|done].
  by destruct st.
Qed.
Lemma global_put_locked_eq st :
  namei_ext_global_scope_put_locked st =
    set_global_users (global_after_put (sc_global_users st)) st.
Proof.
  unfold namei_ext_global_scope_put_locked, global_after_put. repeat case_match; try done.
  by destruct st.
Qed.

(** The whole write section: what every field becomes. *)
Definition replaced_index (old new : option namei_ext_scope_set) idx :=
  let idx := match new with Some s => foldl index_add idx (scope_nodes s) | None => idx end in
  match old with Some s => foldl index_del idx (scope_nodes s) | None => idx end.
Definition replaced_exact (old new : option namei_ext_scope_set) v :=
  let v := match new with Some s => exact_after_add s v | None => v end in
  match old with Some s => exact_after_del s v | None => v end.
Definition replaced_global (old new : option namei_ext_scope_set) (active : bool) v :=
  let v := match new with None => if active then global_after_get v else v | _ => v end in
  match old with None => if active then global_after_put v else v | _ => v end.

Lemma replace_locked_eq cg new st :
  let c := cgroup_scope_of st cg in
  replace_locked cg new st =
    (cs_scopes c,
     mk_scopes (replaced_index (cs_scopes c) new (sc_index st))
       (replaced_global (cs_scopes c) new (cs_active c) (sc_global_users st))
       (replaced_exact (cs_scopes c) new (sc_exact_users st))
       (u32 (u32 (sc_seq st + 1) + 1))
       (<[cg := mk_cgroup_scope new (cs_active c)]> (sc_cgroups st)) (sc_refs st)).
Proof.
  simpl. unfold namei_ext_scope_replace_locked, replaced_index, replaced_exact,
    replaced_global, cgroup_scope_of. simpl.
  destruct new as [s|], (cs_scopes (default initial_cgroup_scope (sc_cgroups st !! cg)))
    as [o|], (cs_active (default initial_cgroup_scope (sc_cgroups st !! cg))); simpl;
    rewrite ?index_add_locked_eq, ?global_get_locked_eq, ?index_del_locked_eq,
      ?global_put_locked_eq; done.
Qed.

Lemma seq_even_step v :
  in_width 32 v → Z.even v = true →
  in_width 32 (u32 (u32 (v + 1) + 1)) ∧ Z.even (u32 (u32 (v + 1) + 1)) = true.
Proof.
  intros Hw He. split; [by apply wrap_in_width|].
  unfold u32, wrap. rewrite Zplus_mod_idemp_l.
  apply Z.even_spec in He as [k ->].
  replace (2 * k + 1 + 1) with (2 * (k + 1)) by lia.
  apply Z.even_spec. exists ((k + 1) mod 2 ^ 31).
  change (2 ^ 32) with (2 * 2 ^ 31). apply Z.mul_mod_distr_l; lia.
Qed.

Definition set_nodes (o : option namei_ext_scope_set) : list namei_ext_scope :=
  match o with Some s => scope_nodes s | None => [] end.

Lemma replaced_index_spec old new idx R :
  index_wf idx → NoDup (concat idx) → concat idx ≡ₚ set_nodes old ++ R →
  (∀ n, n ∈ set_nodes new → n ∉ concat idx) →
  index_wf (replaced_index old new idx) ∧
  concat (replaced_index old new idx) ≡ₚ set_nodes new ++ R ∧
  NoDup (concat (replaced_index old new idx)).
Proof.
  intros Hw Hnd Hp Hfresh.
  assert (replaced_index old new idx =
    foldl index_del (foldl index_add idx (set_nodes new)) (set_nodes old)) as ->
    by (by destruct old, new).
  destruct (index_add_all (set_nodes new) idx Hw) as [Hw1 Hp1].
  destruct (index_del_all (set_nodes old) _ Hw1) as [Hw2 Hc2].
  split; [done|]. rewrite Hc2.
  assert (NoDup (set_nodes new ++ concat idx)) as Hnd1.
  { apply NoDup_app. split_and!; [|done|done].
    destruct new; [apply scope_nodes_NoDup|constructor]. }
  assert (concat (foldl index_add idx (set_nodes new)) ≡ₚ
    set_nodes old ++ (set_nodes new ++ R)) as Hp2.
  { rewrite Hp1, Hp, !(assoc_L (++)), (Permutation_app_comm (set_nodes new)). done. }
  assert (NoDup (set_nodes old ++ (set_nodes new ++ R))) as Hnd2.
  { rewrite <- Hp2, Hp1. done. }
  assert (filter (λ n, n ∉ set_nodes old)
    (concat (foldl index_add idx (set_nodes new))) ≡ₚ set_nodes new ++ R) as Hp3.
  { rewrite Hp2. by rewrite filter_remove_block. }
  split; [done|]. rewrite Hp3. by apply NoDup_app in Hnd2 as (_ & _ & ?).
Qed.

Lemma length_set_nodes o :
  Z.of_nat (length (set_nodes o)) = match o with Some s => ss_nr s | None => 0 end.
Proof. destruct o; [apply length_scope_nodes|done]. Qed.

Lemma replaced_exact_spec old new v n :
  0 ≤ n →
  (match new with Some s => ss_nr s | None => 0 end) ≤ NAMEI_EXT_MAX_POLICY_PARENTS →
  saturating v (Z.of_nat (length (set_nodes old)) + n) →
  saturating (replaced_exact old new v) (Z.of_nat (length (set_nodes new)) + n).
Proof.
  intros Hn Hk Hs. unfold replaced_exact.
  assert (saturating (match new with Some s => exact_after_add s v | None => v end)
    (Z.of_nat (length (set_nodes new)) + (Z.of_nat (length (set_nodes old)) + n))) as Ha.
  { rewrite length_set_nodes. destruct new as [s|]; [|done].
    apply exact_add; [lia| |done]. unfold ss_nr in *. lia. }
  revert Ha. generalize (match new with Some s => exact_after_add s v | None => v end).
  intros w Hw. destruct old as [s|]; [|done].
  apply exact_del; [lia|unfold ss_nr; lia|].
  simpl in Hw. rewrite length_scope_nodes in Hw. eapply eq_ind; [done|lia].
Qed.

Lemma replaced_global_spec old new active v n :
  is_global (mk_cgroup_scope old active) ≤ n →
  saturating v n →
  saturating (replaced_global old new active v)
    (n + is_global (mk_cgroup_scope new active) - is_global (mk_cgroup_scope old active)).
Proof.
  unfold replaced_global, is_global, saturating, global_after_get, global_after_put,
    UINT_MAX; simpl.
  destruct old, new, active; intros; repeat case_match; unfold_bools; lia.
Qed.

Lemma cgroup_scope_of_insert m cg c cg' i g e q r :
  cgroup_scope_of (mk_scopes i g e q (<[cg := c]> m) r) cg' =
    if decide (cg' = cg) then c else default initial_cgroup_scope (m !! cg').
Proof.
  unfold cgroup_scope_of. simpl. case_decide as Hd; [subst|].
  - by rewrite lookup_insert_eq.
  - by rewrite lookup_insert_ne.
Qed.

Lemma sum_global_lookup (m : gmap Z cgroup_scope) cg :
  is_global (default initial_cgroup_scope (m !! cg)) = default 0 (is_global <$> m !! cg).
Proof. by destruct (m !! cg). Qed.

Lemma sum_global_ge (m : gmap Z cgroup_scope) cg :
  is_global (default initial_cgroup_scope (m !! cg)) ≤ map_sum is_global m.
Proof.
  destruct (m !! cg) as [c|] eqn:E; simpl.
  - eapply map_sum_ge, E. intros i x _. apply is_global_range.
  - apply map_sum_global_nonneg.
Qed.

(** The write section keeps the invariant. *)
Lemma replace_locked_inv cg new st :
  scopes_inv st → (∀ s, new = Some s → set_ok st s) →
  scopes_inv (replace_locked cg new st).2.
Proof.
  intros [Hseq Hsw Hidx Hnodes Hnd Hexact Hglobal Hset] Hok.
  rewrite replace_locked_eq. simpl.
  set (c := cgroup_scope_of st cg) in *.
  set (R := live_nodes (delete cg (sc_cgroups st))).
  assert (concat (sc_index st) ≡ₚ set_nodes (cs_scopes c) ++ R) as HR.
  { rewrite Hnodes. apply live_nodes_delete. }
  destruct (replaced_index_spec (cs_scopes c) new _ R Hidx Hnd HR) as (Hw & Hp & Hn).
  { destruct new as [s|]; [apply (Hok s eq_refl)|]. by intros ? ?%not_elem_of_nil. }
  destruct (seq_even_step _ Hsw Hseq). split; simpl; try done.
  - rewrite Hp. symmetry. apply live_nodes_insert.
  - rewrite Hp, length_app, Nat2Z.inj_add. apply replaced_exact_spec; [lia| |].
    + destruct new as [s|]; [apply (Hok s eq_refl)|done].
    + revert Hexact. by rewrite HR, length_app, Nat2Z.inj_add.
  - rewrite map_sum_insert, <- sum_global_lookup.
    pose proof (sum_global_ge (sc_cgroups st) cg) as Hge.
    change (default initial_cgroup_scope (sc_cgroups st !! cg)) with c in *.
    assert (is_global c = is_global (mk_cgroup_scope (cs_scopes c) (cs_active c)))
      as Hc by (by destruct c).
    rewrite Hc in *. by apply replaced_global_spec.
  - intros cg' s. rewrite cgroup_scope_of_insert. case_decide; simpl.
    + intros ->. destruct (Hok s eq_refl) as (? & ? & ?). done.
    + apply (Hset cg').
Qed.

Lemma set_refs_inv r st : scopes_inv st → scopes_inv (set_refs r st).
Proof. by intros []. Qed.
Lemma free_scopes_eq o st :
  namei_ext_free_scopes o st =
    set_refs (match o with
              | Some s => if ss_addr s =? TOMBSTONE_ADDR then sc_refs st
                          else path_put_all (ss_entries s) (sc_refs st)
              | None => sc_refs st end) st.
Proof. destruct st, o as [s|]; simpl; [|done]. by destruct (_ =? _). Qed.
Lemma finish_replace_eq o st :
  namei_ext_finish_scope_replace o st = namei_ext_free_scopes o st.
Proof. by destruct o. Qed.
Lemma free_scopes_inv o st : scopes_inv st → scopes_inv (namei_ext_free_scopes o st).
Proof. rewrite free_scopes_eq. apply set_refs_inv. Qed.
Lemma set_refs_ok r st s : set_ok st s → set_ok (set_refs r st) s.
Proof. done. Qed.

(** ** Every operation keeps the invariant *)

Definition op_ok (op : scope_op) (st : scopes_state) : Prop :=
  ∀ a, op_alloc op = Some a → fresh_addr st a.

Lemma alloc_scopes_Some alloc nr a :
  namei_ext_alloc_scopes alloc nr = Some a →
  alloc = Some a ∧ nr ≤ NAMEI_EXT_MAX_POLICY_PARENTS.
Proof. unfold namei_ext_alloc_scopes. case_match; unfold_bools; [done|]. by split. Qed.

(** Replace the scope of a cgroup and free the old set. *)
Definition replace_and_free (cg : Z) (new : option namei_ext_scope_set) st :=
  let '(old, st) := replace_locked cg new st in namei_ext_finish_scope_replace old st.

Lemma replace_and_free_inv cg new st :
  scopes_inv st → (∀ s, new = Some s → set_ok st s) →
  scopes_inv (replace_and_free cg new st).
Proof.
  intros Hi Hok. pose proof (replace_locked_inv cg new st Hi Hok) as H.
  unfold replace_and_free. destruct (replace_locked cg new st) as [old st'].
  rewrite finish_replace_eq. by apply free_scopes_inv.
Qed.

Lemma op_ok_fresh op st a ps :
  op_ok op st → op_alloc op = Some a →
  Z.of_nat (length ps) ≤ NAMEI_EXT_MAX_POLICY_PARENTS →
  ∀ s, Some (mk_scope_set a ps) = Some s → set_ok st s.
Proof. intros Hok Ha Hl s [= <-]. apply fresh_set_ok; auto. Qed.

Lemma set_active_eq cg active st :
  let c := cgroup_scope_of st cg in
  namei_ext_cgroup_set_scope_active cg active st =
    if Bool.eqb (cs_active c) active then st else
    mk_scopes (sc_index st)
      (match cs_scopes c with
       | None => if active then global_after_get (sc_global_users st)
                 else global_after_put (sc_global_users st)
       | Some _ => sc_global_users st end)
      (sc_exact_users st) (u32 (u32 (sc_seq st + 1) + 1))
      (<[cg := mk_cgroup_scope (cs_scopes c) active]> (sc_cgroups st)) (sc_refs st).
Proof.
  simpl. unfold namei_ext_cgroup_set_scope_active.
  destruct (Bool.eqb _ _); [done|].
  destruct (cs_scopes (cgroup_scope_of st cg)); [done|].
  destruct active; rewrite ?global_get_locked_eq, ?global_put_locked_eq; done.
Qed.

Lemma set_active_inv cg active st :
  scopes_inv st → scopes_inv (namei_ext_cgroup_set_scope_active cg active st).
Proof.
  intros Hi. rewrite set_active_eq. simpl.
  set (c := cgroup_scope_of st cg) in *.
  destruct (Bool.eqb (cs_active c) active) eqn:Ha; [done|].
  destruct Hi as [Hseq Hsw Hidx Hnodes Hnd Hexact Hglobal Hset].
  destruct (seq_even_step _ Hsw Hseq). split; simpl; try done.
  - rewrite Hnodes, live_nodes_insert, (live_nodes_delete _ cg). done.
  - rewrite map_sum_insert, <- sum_global_lookup.
    change (default initial_cgroup_scope (sc_cgroups st !! cg)) with c.
    pose proof (sum_global_ge (sc_cgroups st) cg) as Hge.
    change (default initial_cgroup_scope (sc_cgroups st !! cg)) with c in Hge.
    revert Hge Hglobal. unfold saturating, is_global, global_after_get,
      global_after_put, UINT_MAX. simpl.
    destruct (cs_scopes c), (cs_active c), active; try done; intros;
      repeat case_match; unfold_bools; lia.
  - intros cg' s. rewrite cgroup_scope_of_insert. case_decide; [subst|apply (Hset cg')].
    apply (Hset cg).
Qed.

Lemma deactivate_inv cg st s :
  scopes_inv st → cs_scopes (cgroup_scope_of st cg) = Some s →
  scopes_inv (set_cgroup cg (mk_cgroup_scope (Some s) false) st).
Proof.
  intros [Hseq Hsw Hidx Hnodes Hnd Hexact Hglobal Hset] Hs. split; simpl; try done.
  - rewrite Hnodes, live_nodes_insert, (live_nodes_delete _ cg).
    unfold cgroup_nodes. unfold cgroup_scope_of in Hs. rewrite Hs. done.
  - rewrite map_sum_insert, <- sum_global_lookup. unfold cgroup_scope_of in Hs.
    unfold is_global at 2 3. rewrite Hs. simpl. by rewrite Z.add_0_r, Z.sub_0_r.
  - intros cg' s'. unfold set_cgroup. rewrite cgroup_scope_of_insert.
    case_decide; [subst|apply (Hset cg')]. intros [= <-]. by apply (Hset cg).
Qed.

Lemma release_scopes_eq cg st :
  namei_ext_cgroup_release_scopes hash_min cg st =
    namei_ext_finish_scope_replace (cs_scopes (cgroup_scope_of st cg))
      (set_cgroup cg (mk_cgroup_scope (Some namei_ext_scope_tombstone) false)
        (replace_locked cg (Some namei_ext_scope_tombstone) st).2).
Proof.
  unfold namei_ext_cgroup_release_scopes. rewrite replace_locked_eq. simpl.
  by rewrite cgroup_scope_of_insert, decide_True.
Qed.

Lemma release_scopes_inv cg st :
  scopes_inv st → scopes_inv (namei_ext_cgroup_release_scopes hash_min cg st).
Proof.
  intros Hi. rewrite release_scopes_eq, finish_replace_eq.
  apply free_scopes_inv, deactivate_inv.
  - apply replace_locked_inv; [done|]. intros s [= <-]. apply tombstone_ok.
  - rewrite replace_locked_eq. simpl. by rewrite cgroup_scope_of_insert, decide_True.
Qed.

(** The operations in terms of [replace_and_free]. *)
Lemma scope_step_eq op st :
  scope_step hash_min op st =
    match op with
    | OpExact alloc dead cg p =>
        match namei_ext_alloc_scopes alloc 1 with
        | None => (- ENOMEM, st)
        | Some a =>
            let st := set_refs (path_get p (sc_refs st)) st in
            if dead then (- ENODEV, namei_ext_free_scopes (Some (mk_scope_set a [p])) st)
            else (0, replace_and_free cg (Some (mk_scope_set a [p])) st)
        end
    | OpAdd alloc dead cg p =>
        if dead then (- ENODEV, st) else
        match cs_scopes (cgroup_scope_of st cg) with
        | None => (- EINVAL, st)
        | Some old =>
            if existsb (λ q, path_equal q p) (ss_entries old) then (0, st) else
            if ss_nr old =? NAMEI_EXT_MAX_POLICY_PARENTS then (- E2BIG, st) else
            match namei_ext_alloc_scopes alloc (ss_nr old + 1) with
            | None => (- ENOMEM, st)
            | Some a =>
                (0, replace_and_free cg (Some (mk_scope_set a (ss_entries old ++ [p])))
                      (set_refs (path_get p (path_get_all (ss_entries old) (sc_refs st))) st))
            end
        end
    | OpEmpty alloc dead cg =>
        match namei_ext_alloc_scopes alloc 0 with
        | None => (- ENOMEM, st)
        | Some a =>
            if dead then (- ENODEV, namei_ext_free_scopes (Some (mk_scope_set a [])) st)
            else (0, replace_and_free cg (Some (mk_scope_set a [])) st)
        end
    | OpGlobal dead cg =>
        if dead then (- ENODEV, st) else (0, replace_and_free cg None st)
    | OpSetActive cg active => (0, namei_ext_cgroup_set_scope_active cg active st)
    | OpRelease cg => (0, namei_ext_cgroup_release_scopes hash_min cg st)
    end.
Proof.
  unfold replace_and_free. destruct op; simpl; try done;
    unfold namei_ext_scope_exact, namei_ext_scope_add, namei_ext_scope_empty,
      namei_ext_scope_global; repeat case_match; simplify_eq; done.
Qed.

Lemma scope_step_inv op st :
  scopes_inv st → op_ok op st → scopes_inv (scope_step hash_min op st).2.
Proof.
  intros Hi Hok. rewrite scope_step_eq.
  destruct op as [alloc dead cg p|alloc dead cg p|alloc dead cg|dead cg|cg act|cg].
  - destruct (namei_ext_alloc_scopes alloc 1) as [a|] eqn:Ha; [|done].
    apply alloc_scopes_Some in Ha as [-> ?]. destruct dead; cbn [snd].
    + by apply free_scopes_inv, set_refs_inv.
    + apply replace_and_free_inv; [by apply set_refs_inv|].
      by apply (op_ok_fresh _ _ _ _ Hok).
  - destruct dead; [done|]. destruct (cs_scopes _) as [old|]; [|done].
    destruct (existsb _ _); [done|]. destruct (_ =? _); [done|].
    destruct (namei_ext_alloc_scopes alloc _) as [a|] eqn:Ha; [|done].
    apply alloc_scopes_Some in Ha as [-> ?].
    apply replace_and_free_inv; [by apply set_refs_inv|].
    apply (op_ok_fresh _ _ _ _ Hok); [done|].
    rewrite length_app. unfold ss_nr in *. simpl. lia.
  - destruct (namei_ext_alloc_scopes alloc 0) as [a|] eqn:Ha; [|done].
    apply alloc_scopes_Some in Ha as [-> ?]. destruct dead; cbn [snd].
    + by apply free_scopes_inv.
    + apply replace_and_free_inv; [done|]. by apply (op_ok_fresh _ _ _ _ Hok).
  - destruct dead; [done|]. by apply replace_and_free_inv.
  - by apply set_active_inv.
  - by apply release_scopes_inv.
Qed.

(** ** The scopes as an abstract view *)

Definition scope_view (st : scopes_state) (cg : Z) : option (list path) * bool :=
  (ss_entries <$> cs_scopes (cgroup_scope_of st cg), cs_active (cgroup_scope_of st cg)).

Lemma scope_view_set_refs r st cg : scope_view (set_refs r st) cg = scope_view st cg.
Proof. done. Qed.
Lemma scope_view_free o st cg :
  scope_view (namei_ext_free_scopes o st) cg = scope_view st cg.
Proof. by rewrite free_scopes_eq. Qed.

Lemma scope_view_replace cg new st cg' :
  scope_view (replace_and_free cg new st) cg' =
    if decide (cg' = cg) then (ss_entries <$> new, (scope_view st cg).2)
    else scope_view st cg'.
Proof.
  unfold replace_and_free. rewrite replace_locked_eq. cbn beta iota zeta.
  rewrite finish_replace_eq, scope_view_free. unfold scope_view.
  rewrite cgroup_scope_of_insert. by case_decide.
Qed.

(** ** References *)

Definition foreign_scope_refs (st : scopes_state) (q : path) : Z :=
  ref_count (sc_refs st) q - occurrences q (sn_path <$> concat (sc_index st)).

Lemma scope_nodes_paths s : sn_path <$> scope_nodes s = ss_entries s.
Proof.
  unfold scope_nodes. rewrite fmap_imap. apply list_eq. intros i.
  rewrite list_lookup_imap. by destruct (ss_entries s !! i).
Qed.

Definition entries_of (o : option namei_ext_scope_set) : list path :=
  match o with Some s => ss_entries s | None => [] end.
Lemma set_nodes_paths o : sn_path <$> set_nodes o = entries_of o.
Proof. destruct o; [apply scope_nodes_paths|done]. Qed.

Lemma replace_and_free_refs cg new st q :
  scopes_inv st → (∀ s, new = Some s → set_ok st s) →
  foreign_scope_refs (replace_and_free cg new st) q =
    foreign_scope_refs st q - occurrences q (entries_of new).
Proof.
  intros [Hseq Hsw Hidx Hnodes Hnd Hexact Hglobal Hset] Hok.
  unfold replace_and_free. rewrite replace_locked_eq. cbn beta iota zeta.
  rewrite finish_replace_eq, free_scopes_eq.
  set (c := cgroup_scope_of st cg) in *.
  set (R := live_nodes (delete cg (sc_cgroups st))).
  assert (concat (sc_index st) ≡ₚ set_nodes (cs_scopes c) ++ R) as HR.
  { rewrite Hnodes. apply live_nodes_delete. }
  destruct (replaced_index_spec (cs_scopes c) new _ R Hidx Hnd HR) as (_ & Hp & _).
  { destruct new as [s|]; [apply (Hok s eq_refl)|]. by intros ? ?%not_elem_of_nil. }
  unfold foreign_scope_refs. simpl. rewrite Hp, HR, !fmap_app, !occurrences_app,
    !set_nodes_paths.
  destruct (cs_scopes c) as [s|] eqn:Hs; simpl.
  - destruct (ss_addr s =? TOMBSTONE_ADDR) eqn:Ht; unfold_bools.
    + destruct (Hset cg s Hs) as [_ ->]; [|done]. rewrite occurrences_nil. lia.
    + rewrite ref_count_put_all. lia.
  - rewrite occurrences_nil. lia.
Qed.
End facts.
