(* ===== verification/ScopeProps.v ===== *)
(** * Properties of the policy scopes

    For every sequence of operations of fs/namei_ext.c on the scopes: the
    prefilter never hides a directory an active policy manages, the operations
    implement their abstract specification, and references are balanced. *)

From S2P Require Import Prelude Abi Kernel Rcu Scopes ScopeFacts.

Section reachability.
Context (hash_min : Z → nat) (hash_min_lt : ∀ k, (hash_min k < scope_buckets)%nat).

(** States reached from boot by any sequence of operations whose allocations
    return unused addresses. *)
Inductive scope_reachable : scopes_state → Prop :=
  | reach_boot : scope_reachable initial_scopes
  | reach_op op st :
      scope_reachable st → op_ok op st →
      scope_reachable (scope_step hash_min op st).2.

Lemma scope_reachable_inv st : scope_reachable st → scopes_inv hash_min st.
Proof.
  induction 1; [apply initial_scopes_inv|]. by apply scope_step_inv.
Qed.

Lemma chain_elem idx n :
  index_ok scope_buckets (λ n, scope_bkt hash_min (sn_path n)) idx →
  n ∈ idx !!! scope_bkt hash_min (sn_path n) ↔ n ∈ concat idx.
Proof. apply (chain_linked _ _ (bkt_lt hash_min hash_min_lt) (index_table idx)). Qed.

Lemma live_nodes_elem m p :
  (∃ n, n ∈ live_nodes m ∧ sn_path n = p) ↔
  ∃ cg c s, m !! cg = Some c ∧ cs_scopes c = Some s ∧ p ∈ ss_entries s.
Proof.
  unfold live_nodes, cgroup_nodes. split.
  - intros (n & Hn & Hp). apply list_elem_of_bind in Hn as ([cg c] & Hn & Hm).
    apply elem_of_map_to_list in Hm. simpl in Hn.
    destruct (cs_scopes c) as [s|] eqn:Hs; [|by apply not_elem_of_nil in Hn].
    apply elem_of_scope_nodes in Hn as [_ Hn].
    exists cg, c, s. split_and!; [done|done|]. subst p.
    apply list_elem_of_lookup. eauto.
  - intros (cg & c & s & Hm & Hs & Hp). apply list_elem_of_lookup in Hp as [i Hp].
    exists (mk_scope (ss_addr s) i p). split; [|done].
    apply list_elem_of_bind. exists (cg, c). simpl. rewrite Hs.
    split; [by apply elem_of_scope_nodes|by apply elem_of_map_to_list].
Qed.

(** What the prefilter computes. *)
Lemma prefilter_iff st p :
  scopes_inv hash_min st →
  namei_ext_parent_maybe_managed hash_min st p = true ↔
  sc_global_users st ≠ 0 ∨
  ∃ cg c s, sc_cgroups st !! cg = Some c ∧ cs_scopes c = Some s ∧ p ∈ ss_entries s.
Proof.
  intros [Hseq Hsw Hidx Hnodes Hnd Hexact Hglobal Hset].
  rewrite <- live_nodes_elem. unfold namei_ext_parent_maybe_managed.
  destruct (sc_global_users st =? 0) eqn:Hg; unfold_bools; simpl; [|tauto].
  destruct (sc_exact_users st =? 0) eqn:He; unfold_bools.
  - pose proof (saturating_zero _ _ Hexact He) as Hz.
    split; [done|]. intros [?|(n & Hn & _)]; [done|].
    rewrite <- Hnodes in Hn. destruct (concat (sc_index st)); [|simpl in Hz; lia].
    by apply not_elem_of_nil in Hn.
  - rewrite existsb_exists. setoid_rewrite path_equal_true. split.
    + intros (n & Hn & <-). right. exists n. split; [|done].
      rewrite <- Hnodes. apply list_elem_of_In in Hn. by apply chain_elem.
    + intros [?|(n & Hn & <-)]; [done|]. exists n. split; [|done].
      apply list_elem_of_In. rewrite <- Hnodes in Hn. by apply chain_elem.
Qed.

Lemma policy_matches_iff st cg p :
  namei_ext_policy_parent_matches st cg p = true ↔
  match cs_scopes (cgroup_scope_of st cg) with
  | None => True
  | Some s => p ∈ ss_entries s
  end.
Proof.
  unfold namei_ext_policy_parent_matches. destruct (cs_scopes _) as [s|]; [|done].
  rewrite existsb_exists. setoid_rewrite path_equal_true. split.
  - intros (q & Hq & ->). by apply list_elem_of_In.
  - intros Hp. exists p. by rewrite <- list_elem_of_In.
Qed.

Lemma scope_of_Some st cg s :
  cs_scopes (cgroup_scope_of st cg) = Some s →
  ∃ c, sc_cgroups st !! cg = Some c ∧ cs_scopes c = Some s.
Proof.
  unfold cgroup_scope_of. destruct (sc_cgroups st !! cg) as [c|]; simpl; [eauto|done].
Qed.

(** A matching active policy passes the prefilter, by the invariant alone. *)
Lemma inv_prefilter_complete st cg p :
  scopes_inv hash_min st →
  cs_active (cgroup_scope_of st cg) = true →
  namei_ext_policy_parent_matches st cg p = true →
  namei_ext_parent_maybe_managed hash_min st p = true.
Proof.
  intros Hi Ha Hm. apply prefilter_iff; [done|].
  rewrite policy_matches_iff in Hm.
  destruct (cs_scopes (cgroup_scope_of st cg)) as [s|] eqn:Hs.
  - right. apply scope_of_Some in Hs as (c & Hc & Hs). eauto 10.
  - left. intros Hz. pose proof (saturating_zero _ _ (inv_global _ _ Hi) Hz).
    pose proof (sum_global_ge (sc_cgroups st) cg) as Hge.
    fold (cgroup_scope_of st cg) in Hge. unfold is_global in Hge at 1.
    rewrite Hs, Ha in Hge. lia.
Qed.

(** C16: In every reachable state, whatever operations led there, a directory
    that the scope of some active policy matches passes the prefilter: the
    path walk never skips a policy that would have been run. *)
Theorem prefilter_no_false_negative st cg p :
  scope_reachable st →
  cs_active (cgroup_scope_of st cg) = true →
  namei_ext_policy_parent_matches st cg p = true →
  namei_ext_parent_maybe_managed hash_min st p = true.
Proof. intros Hr. apply inv_prefilter_complete. by apply scope_reachable_inv. Qed.

(** The prefilter is as sharp as its data allow: it accepts a directory
    exactly when some policy is active without a scope (or the counter has
    saturated) or the directory belongs to some cgroup's scope set; and with
    no scope set and no active global policy anywhere it rejects everything. *)
Theorem prefilter_exact st p :
  scope_reachable st →
  (namei_ext_parent_maybe_managed hash_min st p = true ↔
   sc_global_users st ≠ 0 ∨ ∃ cg s, cs_scopes (cgroup_scope_of st cg) = Some s ∧
     p ∈ ss_entries s) ∧
  (sc_global_users st ≠ UINT_MAX →
   sc_global_users st = map_sum is_global (sc_cgroups st)).
Proof.
  intros Hr. apply scope_reachable_inv in Hr as Hi. split.
  - rewrite prefilter_iff by done. split; (intros [?|H]; [by left|right]).
    + destruct H as (cg & c & s & Hc & Hs & Hp). exists cg, s.
      unfold cgroup_scope_of. by rewrite Hc.
    + destruct H as (cg & s & Hs & Hp). apply scope_of_Some in Hs as (c & Hc & Hs).
      eauto 10.
  - intros Hu. destruct (inv_global _ _ Hi) as [?|[? _]]; done.
Qed.

(** ** The abstract specification *)

(** A cgroup has either every directory or a list of at most eight, and an
    activity flag. *)
Definition scope_spec : Type := Z → option (list path) * bool.

Definition spec_set (cg : Z) (v : option (list path) * bool) (sp : scope_spec) : scope_spec :=
  λ cg', if decide (cg' = cg) then v else sp cg'.

Definition spec_step (op : scope_op) (sp : scope_spec) : Z * scope_spec :=
  match op with
  | OpExact alloc dead cg p =>
      if bool_decide (alloc = None) then (- ENOMEM, sp) else
      if dead then (- ENODEV, sp) else (0, spec_set cg (Some [p], (sp cg).2) sp)
  | OpAdd alloc dead cg p =>
      if dead then (- ENODEV, sp) else
      match (sp cg).1 with
      | None => (- EINVAL, sp)
      | Some ps =>
          if bool_decide (p ∈ ps) then (0, sp) else
          if bool_decide (length ps = 8%nat) then (- E2BIG, sp) else
          if bool_decide (alloc = None) then (- ENOMEM, sp) else
          (0, spec_set cg (Some (ps ++ [p]), (sp cg).2) sp)
      end
  | OpEmpty alloc dead cg =>
      if bool_decide (alloc = None) then (- ENOMEM, sp) else
      if dead then (- ENODEV, sp) else (0, spec_set cg (Some [], (sp cg).2) sp)
  | OpGlobal dead cg =>
      if dead then (- ENODEV, sp) else (0, spec_set cg (None, (sp cg).2) sp)
  | OpSetActive cg active => (0, spec_set cg ((sp cg).1, active) sp)
  | OpRelease cg => (0, spec_set cg (Some [], false) sp)
  end.

Lemma view_set_active cg active st cg' :
  scope_view (namei_ext_cgroup_set_scope_active cg active st) cg' =
    spec_set cg ((scope_view st cg).1, active) (scope_view st) cg'.
Proof.
  rewrite set_active_eq. unfold spec_set. simpl.
  destruct (Bool.eqb _ _) eqn:E.
  - apply eqb_prop in E. case_decide; [|done]. by subst.
  - unfold scope_view. rewrite cgroup_scope_of_insert. by case_decide.
Qed.

Lemma view_release cg st cg' :
  scope_view (namei_ext_cgroup_release_scopes hash_min cg st) cg' =
    spec_set cg (Some [], false) (scope_view st) cg'.
Proof.
  rewrite release_scopes_eq, finish_replace_eq, scope_view_free, replace_locked_eq.
  unfold spec_set, set_cgroup, scope_view. simpl.
  rewrite cgroup_scope_of_insert. case_decide; [done|].
  rewrite lookup_insert_ne by done. done.
Qed.

Lemma scope_step_other op st cg :
  cg ≠ op_cgroup op → scope_view (scope_step hash_min op st).2 cg = scope_view st cg.
Proof.
  intros Hne. rewrite scope_step_eq.
  destruct op; cbn [op_cgroup] in Hne; repeat case_match; cbn [snd];
    rewrite ?scope_view_free, ?scope_view_replace, ?scope_view_set_refs, ?view_set_active,
      ?view_release; unfold spec_set; rewrite ?decide_False by done; done.
Qed.

Lemma alloc_scopes_eq alloc nr :
  nr ≤ NAMEI_EXT_MAX_POLICY_PARENTS → namei_ext_alloc_scopes alloc nr = alloc.
Proof. intros. unfold namei_ext_alloc_scopes. by rewrite (proj2 (Z.ltb_ge _ _)). Qed.

(** C30: Refinement. The scope operations, with their hash index, counters and
    copied sets, return the error codes of the abstract specification and
    transform what every cgroup sees exactly as it does; a set never grows
    beyond eight directories and an insertion is idempotent. *)
Theorem scope_ops_refine_spec op st :
  scope_reachable st →
  let '(ret, st') := scope_step hash_min op st in
  let '(ret', sp') := spec_step op (scope_view st) in
  ret = ret' ∧ ∀ cg, scope_view st' cg = sp' cg.
Proof.
  intros Hr. apply scope_reachable_inv in Hr as Hi. rewrite scope_step_eq.
  destruct op as [alloc dead cg p|alloc dead cg p|alloc dead cg|dead cg|cg act|cg]; simpl.
  - rewrite alloc_scopes_eq by done. destruct alloc as [a|]; [|done].
    rewrite bool_decide_false by done. destruct dead; split; try done; intros cg'.
    + by case_match.
    + by rewrite scope_view_replace, scope_view_set_refs.
  - destruct dead; [done|]. destruct (cs_scopes _) as [s|] eqn:Hs; [|done]. simpl.
    pose proof (inv_set _ _ Hi cg s Hs) as [Hsz _].
    replace (existsb (λ q, path_equal q p) (ss_entries s))
      with (bool_decide (p ∈ ss_entries s)).
    2:{ apply eq_bool_prop_intro. rewrite bool_decide_spec, Is_true_true, existsb_exists.
        setoid_rewrite path_equal_true. setoid_rewrite <- list_elem_of_In.
        split; [eauto|]. by intros (q & ? & <-). }
    destruct (bool_decide (p ∈ _)); [done|].
    unfold ss_nr, NAMEI_EXT_MAX_POLICY_PARENTS in *.
    destruct (Z.of_nat (length (ss_entries s)) =? 8) eqn:E; unfold_bools.
    { by rewrite bool_decide_true by lia. }
    rewrite bool_decide_false by lia.
    rewrite alloc_scopes_eq by (unfold NAMEI_EXT_MAX_POLICY_PARENTS; lia).
    destruct alloc as [a|]; [|done]. simpl. split; [done|]. intros cg'.
    by rewrite scope_view_replace.
  - rewrite alloc_scopes_eq by done. destruct alloc as [a|]; [|done].
    rewrite bool_decide_false by done. destruct dead; split; try done; intros cg'.
    + by case_match.
    + by rewrite scope_view_replace.
  - destruct dead; [done|]. split; [done|]. intros cg'. by rewrite scope_view_replace.
  - split; [done|]. apply view_set_active.
  - split; [done|]. apply view_release.
Qed.

(** Every operation on the scopes, successful or failing at any point, keeps
    the references on every path balanced: a path has one reference per live
    scope set that lists it besides those the rest of the kernel holds. *)
Theorem scope_refs_balanced op st q :
  scope_reachable st → op_ok op st →
  foreign_scope_refs (scope_step hash_min op st).2 q = foreign_scope_refs st q.
Proof.
  intros Hr Hok. apply scope_reachable_inv in Hr as Hi. rewrite scope_step_eq.
  destruct op as [alloc dead cg p|alloc dead cg p|alloc dead cg|dead cg|cg act|cg].
  - rewrite alloc_scopes_eq by done. destruct alloc as [a|]; [|done].
    destruct (Hok a eq_refl) as [Ha _]. destruct dead; cbn [snd].
    + unfold foreign_scope_refs. simpl. rewrite (proj2 (Z.eqb_neq _ _) Ha). simpl.
      unfold path_put_all. simpl. unfold flip. rewrite ref_count_put, ref_count_get. lia.
    + rewrite replace_and_free_refs;
        [|done|by apply set_refs_inv|by apply (op_ok_fresh _ _ _ _ Hok)].
      unfold foreign_scope_refs. simpl. rewrite ref_count_get, occurrences_cons,
        occurrences_nil. lia.
  - destruct dead; [done|]. destruct (cs_scopes _) as [old|]; [|done].
    destruct (existsb _ _); [done|]. destruct (_ =? _); [done|].
    destruct (namei_ext_alloc_scopes alloc _) as [a|] eqn:Ha; [|done].
    apply alloc_scopes_Some in Ha as [-> ?]. cbn [snd].
    rewrite replace_and_free_refs; [|done|by apply set_refs_inv|].
    2:{ apply (op_ok_fresh _ _ _ _ Hok); [done|].
        rewrite length_app. unfold ss_nr in *. simpl. lia. }
    unfold foreign_scope_refs. simpl.
    rewrite ref_count_get, ref_count_get_all, occurrences_app, occurrences_cons,
      occurrences_nil. lia.
  - rewrite alloc_scopes_eq by done. destruct alloc as [a|]; [|done].
    destruct dead; cbn [snd].
    + rewrite free_scopes_eq. unfold foreign_scope_refs. simpl. by case_match.
    + rewrite replace_and_free_refs; [|done|done|by apply (op_ok_fresh _ _ _ _ Hok)].
      simpl. rewrite occurrences_nil. lia.
  - destruct dead; [done|]. cbn [snd]. rewrite replace_and_free_refs by done.
    simpl. rewrite occurrences_nil. lia.
  - cbn [snd]. rewrite set_active_eq. simpl. by destruct (Bool.eqb _ _).
  - cbn [snd]. rewrite release_scopes_eq.
    pose proof (replace_and_free_refs hash_min hash_min_lt cg
      (Some namei_ext_scope_tombstone) st q Hi) as H.
    rewrite <- H in * || idtac.
    unfold replace_and_free in H. rewrite replace_locked_eq in H |- *.
    simpl in *. rewrite finish_replace_eq, free_scopes_eq in H |- *.
    unfold foreign_scope_refs in *. simpl in *.
    rewrite H by (intros s [= <-]; apply tombstone_ok). rewrite occurrences_nil. lia.
Qed.
End reachability.
