(* ===== verification/ScopeRcu.v ===== *)
(** * Scope updates store by store, and the lockless reader (fs/namei_ext.c)

    [Scopes] runs each operation in one step.  Here the operations are the
    sequences of stores their C text performs, and the prefilter is the
    sequence of loads of [namei_ext_parent_maybe_managed], so that one can run
    between the steps of the other.  Writers exclude each other while they
    hold namei_ext_scopes_lock; they have let go of it when they wait for
    their grace period and free the old set, so any number of operations can
    be there while the next one runs.  Readers do not write, so one reader
    stands for all. *)

From S2P Require Import Prelude Abi Kernel Rcu Scopes.

(** ** Stores *)

Inductive scope_instr :=
  | ISeq                                      (* write_seqcount_begin, write_seqcount_end *)
  | IAdd (n : namei_ext_scope)                (* hash_add_rcu *)
  | IExactAdd (nr : Z)                        (* namei_ext_exact_scope_users, growing *)
  | IDel (n : namei_ext_scope)                (* hash_del_rcu *)
  | IExactDel (nr : Z)                        (* namei_ext_exact_scope_users, shrinking *)
  | IGlobalGet                                (* namei_ext_global_scope_get_locked *)
  | IGlobalPut                                (* namei_ext_global_scope_put_locked *)
  | IAssign (cg : Z) (new : option namei_ext_scope_set)
                                              (* rcu_assign_pointer(cgrp->bpf.namei_ext_scopes) *)
  | IActive (cg : Z) (active : bool)          (* cgrp->bpf.namei_ext_scope_active *)
  | IPathGet (ps : list path)                 (* path_get, outside the write section *)
  | ISync                                     (* synchronize_rcu: the grace period starts *)
  | IGrace                                    (* and has ended *)
  | IFree (s : namei_ext_scope_set).          (* namei_ext_free_scopes *)

Abbreviation scope_finisher := (finisher (P:=namei_ext_scope_set)).

Section rcu.
Variable hash_min : Z → nat.

Definition exec_instr (i : scope_instr) (st : scopes_state) : scopes_state :=
  match i with
  | ISeq => seq_step st
  | IAdd n => set_index (index_add hash_min (sc_index st) n) st
  | IExactAdd nr =>
      if UINT_MAX - nr <? sc_exact_users st then set_exact_users UINT_MAX st
      else if negb (sc_exact_users st =? UINT_MAX)
      then set_exact_users (sc_exact_users st + nr) st else st
  | IDel n => set_index (index_del (sc_index st) n) st
  | IExactDel nr =>
      if sc_exact_users st =? UINT_MAX then st
      else if sc_exact_users st <? nr then set_exact_users UINT_MAX st
      else set_exact_users (sc_exact_users st - nr) st
  | IGlobalGet => namei_ext_global_scope_get_locked st
  | IGlobalPut => namei_ext_global_scope_put_locked st
  | IAssign cg new => set_cgroup cg (mk_cgroup_scope new (cs_active (cgroup_scope_of st cg))) st
  | IActive cg active => set_cgroup cg (mk_cgroup_scope (cs_scopes (cgroup_scope_of st cg)) active) st
  | IPathGet ps => set_refs (path_get_all ps (sc_refs st)) st
  | ISync | IGrace => st
  | IFree s => namei_ext_free_scopes (Some s) st
  end.

Definition exec_all (code : list scope_instr) (st : scopes_state) : scopes_state :=
  foldl (λ st i, exec_instr i st) st code.

(** [namei_ext_scope_replace_locked] *)
Definition replace_instrs (cg : Z) (new : option namei_ext_scope_set) (st : scopes_state)
  : list scope_instr :=
  let c := cgroup_scope_of st cg in
  [ISeq] ++
  match new with
  | Some s => (IAdd <$> scope_nodes s) ++ [IExactAdd (ss_nr s)]
  | None => if cs_active c then [IGlobalGet] else []
  end ++
  [IAssign cg new] ++
  match cs_scopes c with
  | Some s => (IDel <$> scope_nodes s) ++ [IExactDel (ss_nr s)]
  | None => if cs_active c then [IGlobalPut] else []
  end ++
  [ISeq].

(** [namei_ext_finish_scope_replace] *)
Definition finish_instrs (old : option namei_ext_scope_set) : list scope_instr :=
  match old with Some s => [ISync; IGrace; IFree s] | None => [] end.

Definition replace_and_finish (cg : Z) (new : option namei_ext_scope_set) (st : scopes_state)
  : list scope_instr :=
  replace_instrs cg new st ++ finish_instrs (cs_scopes (cgroup_scope_of st cg)).

(** *** The stores of each operation, when it takes the lock in [st] *)

Definition exact_instrs (alloc : option Z) (dead : bool) (cg : Z) (p : path)
  (st : scopes_state) : list scope_instr :=
  match namei_ext_alloc_scopes alloc 1 with
  | None => []
  | Some a =>
      let new_scopes := mk_scope_set a [p] in
      IPathGet [p] ::
      if dead then [IFree new_scopes] else replace_and_finish cg (Some new_scopes) st
  end.

Definition add_instrs (alloc : option Z) (dead : bool) (cg : Z) (p : path)
  (st : scopes_state) : list scope_instr :=
  if dead then [] else
  match cs_scopes (cgroup_scope_of st cg) with
  | None => []
  | Some old =>
      if existsb (λ q, path_equal q p) (ss_entries old) then [] else
      if ss_nr old =? NAMEI_EXT_MAX_POLICY_PARENTS then [] else
      match namei_ext_alloc_scopes alloc (ss_nr old + 1) with
      | None => []
      | Some a =>
          [IPathGet (ss_entries old); IPathGet [p]] ++
          replace_and_finish cg (Some (mk_scope_set a (ss_entries old ++ [p]))) st
      end
  end.

Definition empty_instrs (alloc : option Z) (dead : bool) (cg : Z) (st : scopes_state)
  : list scope_instr :=
  match namei_ext_alloc_scopes alloc 0 with
  | None => []
  | Some a =>
      if dead then [IFree (mk_scope_set a [])]
      else replace_and_finish cg (Some (mk_scope_set a [])) st
  end.

Definition global_instrs (dead : bool) (cg : Z) (st : scopes_state) : list scope_instr :=
  if dead then [] else replace_and_finish cg None st.

Definition set_active_instrs (cg : Z) (active : bool) (st : scopes_state)
  : list scope_instr :=
  let c := cgroup_scope_of st cg in
  if Bool.eqb (cs_active c) active then [] else
  [ISeq] ++
  match cs_scopes c with
  | None => [if active then IGlobalGet else IGlobalPut]
  | Some _ => []
  end ++
  [IActive cg active; ISeq].

Definition release_instrs (cg : Z) (st : scopes_state) : list scope_instr :=
  replace_instrs cg (Some namei_ext_scope_tombstone) st ++ [IActive cg false] ++
  finish_instrs (cs_scopes (cgroup_scope_of st cg)).

Definition op_instrs (op : scope_op) (st : scopes_state) : list scope_instr :=
  match op with
  | OpExact alloc dead cg p => exact_instrs alloc dead cg p st
  | OpAdd alloc dead cg p => add_instrs alloc dead cg p st
  | OpEmpty alloc dead cg => empty_instrs alloc dead cg st
  | OpGlobal dead cg => global_instrs dead cg st
  | OpSetActive cg active => set_active_instrs cg active st
  | OpRelease cg => release_instrs cg st
  end.

(** ** The shared memory

    A node removed from the index keeps its [next] pointer: [rm_stale] lists
    the removed nodes with it, the last removed first.  [rm_freed] are the
    nodes whose set was freed, [rm_used] the addresses allocated so far: the
    model never uses one twice, so that a node is one object for ever. *)

Record rcu_mem := mk_rmem {
  rm_scopes : scopes_state;
  rm_stale : list (namei_ext_scope * option namei_ext_scope);
  rm_freed : list namei_ext_scope;
  rm_used : gset Z
}.

Definition chain_at (st : scopes_state) (p : path) : list namei_ext_scope :=
  sc_index st !!! scope_bkt hash_min p.

(** The index as a table of linked lists. *)
Definition rm_table (m : rcu_mem) : rcu_table :=
  mk_table (sc_index (rm_scopes m)) (rm_stale m) (rm_freed m).

(** [hlist_next_rcu(&n->node)] *)
Definition node_next (m : rcu_mem) (n : namei_ext_scope) : option namei_ext_scope :=
  table_next (λ x, scope_bkt hash_min (sn_path x)) (rm_table m) n.

Definition exec_mem (i : scope_instr) (m : rcu_mem) : rcu_mem :=
  mk_rmem (exec_instr i (rm_scopes m))
    (match i with
     | IDel n => (n, next_in (chain_at (rm_scopes m) (sn_path n)) n) :: rm_stale m
     | _ => rm_stale m
     end)
    (match i with IFree s => scope_nodes s ++ rm_freed m | _ => rm_freed m end)
    (rm_used m).

(** ** The reader

    One constructor per point between two loads of
    [namei_ext_parent_maybe_managed]; [LBegin] is the head of the loop, after
    rcu_read_lock. *)

Inductive reader :=
  | RBegin                                    (* before the first read_seqcount_begin *)
  | RGlobal (seq : Z)                         (* before the load of global_scope_users *)
  | RExact (seq : Z)                          (* before the load of exact_scope_users *)
  | RRetry (seq : Z)                          (* before read_seqcount_retry *)
  | LBegin
  | LGlobal (seq : Z)
  | LHead (seq : Z)                           (* before the load of the bucket's head *)
  | LNode (seq : Z) (n : namei_ext_scope)     (* at a node: its path, its next *)
  | LRetry (seq : Z) (found : bool)
  | RDone (found : bool).

(** Between rcu_read_lock and rcu_read_unlock. *)
Definition in_section (r : reader) : bool :=
  match r with
  | LBegin | LGlobal _ | LHead _ | LNode _ _ | LRetry _ _ => true
  | _ => false
  end.

Definition goto_node (seq : Z) (o : option namei_ext_scope) : reader :=
  match o with Some n => LNode seq n | None => LRetry seq false end.

(** The next load of a reader that asks about [parent];
    [read_seqcount_begin] spins while the count is odd. *)
Definition reader_step (parent : path) (m : rcu_mem) (r : reader) : reader :=
  let st := rm_scopes m in
  match r with
  | RBegin => if Z.odd (sc_seq st) then RBegin else RGlobal (sc_seq st)
  | RGlobal seq => if sc_global_users st =? 0 then RExact seq else LBegin
  | RExact seq => if sc_exact_users st =? 0 then RRetry seq else LBegin
  | RRetry seq => if sc_seq st =? seq then RDone false else LBegin
  | LBegin => if Z.odd (sc_seq st) then LBegin else LGlobal (sc_seq st)
  | LGlobal seq => if negb (sc_global_users st =? 0) then LRetry seq true else LHead seq
  | LHead seq => goto_node seq (head (chain_at st parent))
  | LNode seq n =>
      if path_equal (sn_path n) parent then LRetry seq true
      else goto_node seq (node_next m n)
  | LRetry seq found => if sc_seq st =? seq then RDone found else LBegin
  | RDone found => RDone found
  end.

(** ** Interleavings

    What an operation does after it has let go of the lock,
    [namei_ext_finish_scope_replace], is a [finisher] of its old set. *)

(** [rc_code] are the stores left to the operation that holds the lock.
    [rc_ticks] counts the steps of the sequence count since boot, without
    wrapping. *)
Record rcu_conf := mk_conf {
  rc_mem : rcu_mem;
  rc_code : list scope_instr;
  rc_finishing : list scope_finisher;
  rc_reader : reader;
  rc_ticks : Z
}.

Definition start_mem (op : scope_op) (m : rcu_mem) : rcu_mem :=
  mk_rmem (rm_scopes m) (rm_stale m) (rm_freed m)
    (match op_alloc op with Some a => {[a]} ∪ rm_used m | None => rm_used m end).

(** The allocation of an operation returns an address never used before. *)
Definition fresh_op (op : scope_op) (m : rcu_mem) : Prop :=
  ∀ a, op_alloc op = Some a → a ∉ rm_used m.

Inductive rcu_step (parent : path) : rcu_conf → rcu_conf → Prop :=
  | step_start op m fs r t :
      fresh_op op m →
      rcu_step parent (mk_conf m [] fs r t)
        (mk_conf (start_mem op m) (op_instrs op (rm_scopes m)) fs r t)
  | step_store i code m fs r t :
      i ≠ ISync →
      rcu_step parent (mk_conf m (i :: code) fs r t)
        (mk_conf (exec_mem i m) code fs r (match i with ISeq => t + 1 | _ => t end))
  | step_unlock s m fs r t :
      rcu_step parent (mk_conf m (finish_instrs (Some s)) fs r t)
        (mk_conf m [] (FSync s :: fs) r t)
  | step_sync s code m fs1 fs2 r t :
      rcu_step parent (mk_conf m code (fs1 ++ FSync s :: fs2) r t)
        (mk_conf m code (fs1 ++ FGrace s (in_section r) :: fs2) r t)
  | step_grace s code m fs1 fs2 r t :
      rcu_step parent (mk_conf m code (fs1 ++ FGrace s false :: fs2) r t)
        (mk_conf m code (fs1 ++ FFree s :: fs2) r t)
  | step_free s code m fs1 fs2 r t :
      rcu_step parent (mk_conf m code (fs1 ++ FFree s :: fs2) r t)
        (mk_conf (exec_mem (IFree s) m) code (fs1 ++ fs2) r t)
  | step_reader code m fs r t :
      let r' := reader_step parent m r in
      rcu_step parent (mk_conf m code fs r t)
        (mk_conf m code (reader_left (in_section r') <$> fs) r' t)
  | step_call code m fs found t :
      rcu_step parent (mk_conf m code fs (RDone found) t) (mk_conf m code fs RBegin t).

Definition rcu_steps (parent : path) : rcu_conf → rcu_conf → Prop := rtc (rcu_step parent).

Definition boot_mem : rcu_mem := mk_rmem initial_scopes [] [] {[TOMBSTONE_ADDR]}.
Definition boot_conf : rcu_conf := mk_conf boot_mem [] [] RBegin 0.
End rcu.
