(* ===== verification/ScopeRcuFacts.v ===== *)
(** * Facts about scope updates store by store

    The stores of an operation add up to the operation, and between write
    sections the scopes satisfy their invariant. *)

From S2P Require Import Prelude Abi Kernel Scopes ScopeFacts ScopeProps ScopeRcu.

Section props.
Context (hash_min : Z → nat) (hash_min_lt : ∀ k, (hash_min k < scope_buckets)%nat).

Abbreviation exec_instr := (exec_instr hash_min).
Abbreviation exec_all := (exec_all hash_min).
Abbreviation exec_mem := (exec_mem hash_min).
Abbreviation replace_locked := (namei_ext_scope_replace_locked hash_min).
Abbreviation maybe_managed := (namei_ext_parent_maybe_managed hash_min).

(** ** The stores add up *)

Lemma exec_all_app a b st : exec_all (a ++ b) st = exec_all b (exec_all a st).
Proof. apply foldl_app. Qed.

Lemma exec_adds ns st :
  exec_all (IAdd <$> ns) st = set_index (foldl (index_add hash_min) (sc_index st) ns) st.
Proof.
  revert st. induction ns as [|n ns IH]; intros st; [by destruct st|].
  change (exec_all (IAdd <$> ns) (exec_instr (IAdd n) st) =
          set_index (foldl (index_add hash_min) (sc_index st) (n :: ns)) st).
  by rewrite IH.
Qed.
Lemma exec_dels ns st :
  exec_all (IDel <$> ns) st = set_index (foldl index_del (sc_index st) ns) st.
Proof.
  revert st. induction ns as [|n ns IH]; intros st; [by destruct st|].
  change (exec_all (IDel <$> ns) (exec_instr (IDel n) st) =
          set_index (foldl index_del (sc_index st) (n :: ns)) st).
  by rewrite IH.
Qed.

Lemma exec_index_add s st :
  exec_all ((IAdd <$> scope_nodes s) ++ [IExactAdd (ss_nr s)]) st =
  namei_ext_scope_index_add_locked hash_min s st.
Proof. by rewrite exec_all_app, exec_adds. Qed.
Lemma exec_index_del s st :
  exec_all ((IDel <$> scope_nodes s) ++ [IExactDel (ss_nr s)]) st =
  namei_ext_scope_index_del_locked s st.
Proof. by rewrite exec_all_app, exec_dels. Qed.

Lemma exec_replace cg new st :
  exec_all (replace_instrs cg new st) st = (replace_locked cg new st).2.
Proof.
  unfold replace_instrs, namei_ext_scope_replace_locked. rewrite !exec_all_app. simpl.
  change (cgroup_scope_of (seq_step st) cg) with (cgroup_scope_of st cg).
  set (c := cgroup_scope_of st cg).
  assert (∀ (st1 st2 : scopes_state) x,
    cs_active (cgroup_scope_of st1 cg) = cs_active c → st1 = st2 →
    exec_all (match cs_scopes c with
              | Some s => (IDel <$> scope_nodes s) ++ [IExactDel (ss_nr s)]
              | None => if cs_active c then [IGlobalPut] else []
              end) (exec_instr (IAssign cg x) st1) =
    match cs_scopes c with
    | Some s => namei_ext_scope_index_del_locked s
                  (set_cgroup cg (mk_cgroup_scope x (cs_active c)) st2)
    | None => if cs_active c
              then namei_ext_global_scope_put_locked
                     (set_cgroup cg (mk_cgroup_scope x (cs_active c)) st2)
              else set_cgroup cg (mk_cgroup_scope x (cs_active c)) st2
    end) as H.
  { intros st1 st2 x Ha <-. simpl. rewrite Ha.
    destruct (cs_scopes c); [apply exec_index_del|]. by destruct (cs_active c). }
  f_equal. apply H.
  - destruct new as [s|]; [|destruct (cs_active c) eqn:E].
    + rewrite exec_index_add, index_add_locked_eq. done.
    + simpl. rewrite global_get_locked_eq. done.
    + done.
  - destruct new as [s|]; [apply exec_index_add|]. by destruct (cs_active c).
Qed.

Lemma exec_finish o st : exec_all (finish_instrs o) st = namei_ext_finish_scope_replace o st.
Proof. by destruct o. Qed.

Lemma exec_replace_and_finish cg new st :
  exec_all (replace_and_finish cg new st) st = replace_and_free hash_min cg new st.
Proof.
  unfold replace_and_finish, replace_and_free. rewrite exec_all_app, exec_replace, exec_finish.
  by rewrite replace_locked_eq.
Qed.

(** References taken before the section change neither its stores nor its
    effect on the rest. *)
Lemma exec_after_gets pss cg new st :
  exec_all ((IPathGet <$> pss) ++ replace_and_finish cg new st) st =
  replace_and_free hash_min cg new
    (foldl (λ st ps, set_refs (path_get_all ps (sc_refs st)) st) st pss).
Proof.
  rewrite exec_all_app.
  assert (∀ st', sc_cgroups st' = sc_cgroups st →
    replace_and_finish cg new st = replace_and_finish cg new st') as H.
  { intros st' Hc. unfold replace_and_finish, replace_instrs, cgroup_scope_of. by rewrite Hc. }
  assert (∀ st', sc_cgroups st' = sc_cgroups st →
    exec_all (replace_and_finish cg new st) (exec_all (IPathGet <$> pss) st') =
    replace_and_free hash_min cg new
      (foldl (λ st ps, set_refs (path_get_all ps (sc_refs st)) st) st' pss)) as Hi;
    [|by apply Hi].
  induction pss as [|ps pss IH]; intros st' Hc.
  - change (exec_all (replace_and_finish cg new st) st' =
            replace_and_free hash_min cg new st').
    rewrite (H st') by done. apply exec_replace_and_finish.
  - by apply (IH (set_refs (path_get_all ps (sc_refs st')) st')).
Qed.

Lemma exec_op op st :
  exec_all (op_instrs op st) st = (scope_step hash_min op st).2.
Proof.
  rewrite scope_step_eq.
  destruct op as [alloc dead cg p|alloc dead cg p|alloc dead cg|dead cg|cg act|cg];
    cbn [op_instrs]; unfold exact_instrs, add_instrs, empty_instrs, global_instrs,
    set_active_instrs, release_instrs; cbv zeta.
  - destruct (namei_ext_alloc_scopes alloc 1) as [a|]; [|done].
    destruct dead; [done|]. exact (exec_after_gets [[p]] cg _ st).
  - destruct dead; [done|]. destruct (cs_scopes _) as [old|]; [|done].
    destruct (existsb _ _); [done|]. destruct (_ =? _); [done|].
    destruct (namei_ext_alloc_scopes alloc _) as [a|]; [|done].
    exact (exec_after_gets [ss_entries old; [p]] cg _ st).
  - destruct (namei_ext_alloc_scopes alloc 0) as [a|]; [|done].
    destruct dead; [done|]. apply exec_replace_and_finish.
  - destruct dead; [done|]. apply exec_replace_and_finish.
  - simpl. unfold namei_ext_cgroup_set_scope_active.
    destruct (Bool.eqb _ act); [done|].
    destruct (cs_scopes (cgroup_scope_of st cg)) as [s|] eqn:Hs; simpl.
    + by rewrite <- Hs.
    + destruct act; simpl; rewrite ?global_get_locked_eq, ?global_put_locked_eq;
        unfold cgroup_scope_of in *; simpl; by rewrite Hs.
  - rewrite !exec_all_app, exec_replace, exec_finish. cbn [snd].
    rewrite release_scopes_eq, replace_locked_eq. simpl.
    unfold cgroup_scope_of at 2. simpl. by rewrite lookup_insert_eq.
Qed.

(** ** Write sections

    Along the stores of an operation, whenever the sequence count is even the
    scopes satisfy their invariant, and what the reader loads only changes
    while it is odd. *)

Definition section_only (i : scope_instr) : bool :=
  match i with
  | IAdd _ | IExactAdd _ | IDel _ | IExactDel _ | IGlobalGet | IGlobalPut | IAssign _ _ => true
  | IActive _ active => active
  | _ => false
  end.

Definition flip (i : scope_instr) (even : bool) : bool :=
  match i with ISeq => negb even | _ => even end.

Fixpoint disciplined (even : bool) (st : scopes_state) (code : list scope_instr) : Prop :=
  (even = true → scopes_inv hash_min st) ∧
  match code with
  | [] => even = true
  | i :: rest =>
      (even = true → section_only i = false) ∧ disciplined (flip i even) (exec_instr i st) rest
  end.

(** What the reader loads, the sequence count apart. *)
Definition core (st : scopes_state) := (sc_index st, sc_global_users st, sc_exact_users st).

Lemma quiet_core i st :
  section_only i = false → core (exec_instr i st) = core st.
Proof.
  destruct i as [| | | | | | | |cg act| | | |s]; try done. unfold exec_instr, ScopeRcu.exec_instr.
  intros _. by rewrite free_scopes_eq.
Qed.

Lemma exec_seq i st :
  sc_seq (exec_instr i st) = match i with ISeq => u32 (sc_seq st + 1) | _ => sc_seq st end.
Proof.
  destruct i; simpl; try done; repeat case_match; try done;
    rewrite ?global_get_locked_eq, ?global_put_locked_eq; done.
Qed.

(** The references play no part in it. *)
Lemma exec_set_refs i r st :
  ∃ r', exec_instr i (set_refs r st) = set_refs r' (exec_instr i st).
Proof.
  destruct i; unfold exec_instr, ScopeRcu.exec_instr; rewrite ?free_scopes_eq,
    ?global_get_locked_eq, ?global_put_locked_eq; cbn; repeat case_match; eexists; reflexivity.
Qed.

Lemma disciplined_set_refs r even st code :
  disciplined even st code → disciplined even (set_refs r st) code.
Proof.
  revert r even st. induction code as [|i code IH]; intros r even st [Hi Hr];
    (split; [intros He; by apply set_refs_inv, Hi|]); [done|].
  destruct Hr as [Hq Hr]. split; [done|].
  destruct (exec_set_refs i r st) as [r' ->]. by apply IH.
Qed.

Lemma disciplined_quiet i st rest :
  i ≠ ISeq → section_only i = false → scopes_inv hash_min st →
  disciplined true (exec_instr i st) rest → disciplined true st (i :: rest).
Proof. intros Hi Hq Hs Hr. split_and!; [done|done|]. by destruct i. Qed.

Lemma disciplined_body body st rest :
  ISeq ∉ body → disciplined true (exec_all (body ++ [ISeq]) st) rest →
  disciplined false st (body ++ ISeq :: rest).
Proof.
  revert st. induction body as [|i body IH]; intros st Hb Hr; simpl; split_and!; try done.
  apply not_elem_of_cons in Hb as [Hi Hb].
  replace (flip i false) with false by (by destruct i). by apply IH.
Qed.

(** A whole section. *)
Lemma disciplined_section body st rest :
  ISeq ∉ body → scopes_inv hash_min st →
  disciplined true (exec_all (ISeq :: body ++ [ISeq]) st) rest →
  disciplined true st (ISeq :: body ++ ISeq :: rest).
Proof. intros Hb Hs Hr. split_and!; [done|done|]. by apply disciplined_body. Qed.

Definition replace_body (cg : Z) (new : option namei_ext_scope_set) (st : scopes_state)
  : list scope_instr :=
  let c := cgroup_scope_of st cg in
  match new with
  | Some s => (IAdd <$> scope_nodes s) ++ [IExactAdd (ss_nr s)]
  | None => if cs_active c then [IGlobalGet] else []
  end ++ IAssign cg new ::
  match cs_scopes c with
  | Some s => (IDel <$> scope_nodes s) ++ [IExactDel (ss_nr s)]
  | None => if cs_active c then [IGlobalPut] else []
  end.

Lemma replace_instrs_eq cg new st :
  replace_instrs cg new st = ISeq :: replace_body cg new st ++ [ISeq].
Proof. unfold replace_instrs, replace_body. simpl. by rewrite <- (assoc_L (++)). Qed.

Lemma replace_body_section cg new st i :
  i ∈ replace_body cg new st → section_only i = true.
Proof.
  assert (∀ s, i ∈ (IAdd <$> scope_nodes s) ++ [IExactAdd (ss_nr s)] → section_only i = true).
  { intros s [(x & -> & _)%list_elem_of_fmap| ->%list_elem_of_singleton]%elem_of_app; done. }
  assert (∀ s, i ∈ (IDel <$> scope_nodes s) ++ [IExactDel (ss_nr s)] → section_only i = true).
  { intros s [(x & -> & _)%list_elem_of_fmap| ->%list_elem_of_singleton]%elem_of_app; done. }
  assert (∀ (b : bool) j, i ∈ (if b then [j] else []) → i = j) as Hif.
  { intros [] j; [by intros ?%list_elem_of_singleton|by intros ?%not_elem_of_nil]. }
  unfold replace_body. rewrite elem_of_app, elem_of_cons.
  intros [Hi|[->|Hi]]; [|done|].
  - destruct new; [eauto|]. by apply Hif in Hi as ->.
  - destruct (cs_scopes _); [eauto|]. by apply Hif in Hi as ->.
Qed.

Lemma replace_body_no_seq cg new st : ISeq ∉ replace_body cg new st.
Proof. by intros ?%replace_body_section. Qed.

Lemma disciplined_replace cg new st rest :
  scopes_inv hash_min st → disciplined true (replace_locked cg new st).2 rest →
  disciplined true st (replace_instrs cg new st ++ rest).
Proof.
  intros Hs. rewrite <- exec_replace, replace_instrs_eq. intros Hr.
  simpl. rewrite <- (assoc_L (++)). simpl.
  apply disciplined_section; [apply replace_body_no_seq|done|done].
Qed.

Lemma free_inv s st :
  scopes_inv hash_min st → scopes_inv hash_min (exec_instr (IFree s) st).
Proof. apply free_scopes_inv. Qed.

Lemma disciplined_finish o st : scopes_inv hash_min st → disciplined true st (finish_instrs o).
Proof.
  intros Hs. destruct o as [s|]; [|by split].
  do 3 (apply disciplined_quiet; [done|done|by try apply free_inv|]).
  split; [intros _|done]. by apply free_inv.
Qed.

Lemma disciplined_replace_and_finish cg new st st' :
  sc_cgroups st' = sc_cgroups st → scopes_inv hash_min st' →
  (∀ s, new = Some s → set_ok st' s) →
  disciplined true st' (replace_and_finish cg new st).
Proof.
  intros Hc Hs Hok.
  assert (replace_and_finish cg new st = replace_and_finish cg new st') as ->
    by (unfold replace_and_finish, replace_instrs, cgroup_scope_of; by rewrite Hc).
  apply disciplined_replace; [done|]. apply disciplined_finish, replace_locked_inv; done.
Qed.

Lemma op_disciplined op st :
  scopes_inv hash_min st → op_ok op st → disciplined true st (op_instrs op st).
Proof.
  intros Hs Hok.
  assert (disciplined true st []) as Hnil by by split.
  destruct op as [alloc dead cg p|alloc dead cg p|alloc dead cg|dead cg|cg act|cg];
    cbn [op_instrs]; unfold exact_instrs, add_instrs, empty_instrs, global_instrs,
    set_active_instrs, release_instrs; cbv zeta.
  - destruct (namei_ext_alloc_scopes alloc 1) as [a|] eqn:Ha; [|done].
    apply alloc_scopes_Some in Ha as [-> ?].
    apply disciplined_quiet; [done|done|done|].
    destruct dead.
    + apply disciplined_quiet; [done|done|by apply set_refs_inv|].
      split; [intros _|done]. by apply free_inv, set_refs_inv.
    + apply disciplined_replace_and_finish; [done|by apply set_refs_inv|].
      by apply (op_ok_fresh (OpExact (Some a) false cg p) st).
  - destruct dead; [done|].
    destruct (cs_scopes _) as [old|] eqn:Hold; [|done]. destruct (existsb _ _); [done|].
    destruct (_ =? _); [done|].
    destruct (namei_ext_alloc_scopes alloc _) as [a|] eqn:Ha; [|done].
    apply alloc_scopes_Some in Ha as [-> Hn].
    do 2 (apply disciplined_quiet; [done|done|by repeat apply set_refs_inv|]).
    apply disciplined_replace_and_finish; [done|by repeat apply set_refs_inv|].
    apply (op_ok_fresh (OpAdd (Some a) false cg p) st); [done|done|].
    rewrite length_app. simpl. unfold ss_nr in Hn. lia.
  - destruct (namei_ext_alloc_scopes alloc 0) as [a|] eqn:Ha; [|done].
    apply alloc_scopes_Some in Ha as [-> ?].
    destruct dead.
    + apply disciplined_quiet; [done..|]. split; [intros _|done]. by apply free_inv.
    + apply disciplined_replace_and_finish; [done|done|].
      by apply (op_ok_fresh (OpEmpty (Some a) false cg) st).
  - destruct dead; [done|]. by apply disciplined_replace_and_finish.
  - pose proof (exec_op (OpSetActive cg act) st) as He.
    pose proof (set_active_inv hash_min cg act st Hs) as Hi.
    cbn [op_instrs] in He. unfold set_active_instrs in He. cbv zeta in He.
    destruct (Bool.eqb _ act); [done|].
    set (body := (match cs_scopes (cgroup_scope_of st cg) with
      | Some _ => [] | None => [if act then IGlobalGet else IGlobalPut] end ++
      [IActive cg act])).
    replace ([ISeq] ++ _) with (ISeq :: body ++ [ISeq]) in * by
      (unfold body; simpl; by rewrite <- (assoc_L (++))).
    apply (disciplined_section body st []); [|done|].
    + unfold body. rewrite not_elem_of_app, list_elem_of_singleton. split; [|done].
      destruct (cs_scopes _); [apply not_elem_of_nil|]. rewrite list_elem_of_singleton.
      by destruct act.
    + rewrite He. split; [by intros _|done].
  - apply disciplined_replace; [done|].
    pose proof (replace_locked_inv hash_min hash_min_lt cg (Some namei_ext_scope_tombstone)
      st Hs) as Hi.
    specialize (Hi ltac:(by intros s [= <-]; apply tombstone_ok)).
    assert (cs_scopes (cgroup_scope_of (replace_locked cg (Some namei_ext_scope_tombstone) st).2
      cg) = Some namei_ext_scope_tombstone) as Ht.
    { rewrite replace_locked_eq. simpl. by rewrite cgroup_scope_of_insert, decide_True. }
    revert Hi Ht. generalize (replace_locked cg (Some namei_ext_scope_tombstone) st).2.
    intros st' Hi Ht. apply disciplined_quiet; [done|done|done|]. apply disciplined_finish.
    simpl. rewrite Ht. by apply deactivate_inv.
Qed.
End props.
