(* ===== verification/ScopeGrace.v ===== *)
(** * The index as a linked list under RCU

    Along the stores of an operation, a node is added once, removed while it
    is in the index, and freed after a grace period that started when it was
    out of the index.  The next pointer of a removed node leads to a node of
    the same bucket that is in the index or was removed later. *)

From S2P Require Import Prelude Abi Kernel Rcu Scopes ScopeFacts ScopeProps ScopeRcu.
From S2P Require Import ScopeRcuFacts.

Section grace.
Context (hash_min : Z → nat) (hash_min_lt : ∀ k, (hash_min k < scope_buckets)%nat).

Abbreviation exec_instr := (exec_instr hash_min).
Abbreviation exec_mem := (exec_mem hash_min).
Abbreviation bkt := (λ n, scope_bkt hash_min (sn_path n)).
Abbreviation bkt_lt := (bkt_lt hash_min hash_min_lt).

(** The nodes of the index, and those removed from it. *)
Definition indexed (m : rcu_mem) : list namei_ext_scope := linked (rm_table m).
Definition removed (m : rcu_mem) : list namei_ext_scope := unlinked (rm_table m).

Record mem_ok (m : rcu_mem) : Prop := {
  mem_table : table_ok scope_buckets bkt (rm_table m);
  mem_used : ∀ n, n ∈ indexed m ∨ n ∈ removed m ∨ n ∈ rm_freed m → sn_addr n ∈ rm_used m;
  mem_tombstone : TOMBSTONE_ADDR ∈ rm_used m
}.

Lemma mem_removed m n : mem_ok m → n ∈ removed m → n ∉ indexed m.
Proof. intros Hm. apply (tab_unlinked _ _ _ (mem_table m Hm)). Qed.
Lemma mem_freed m n : mem_ok m → n ∈ rm_freed m → n ∉ indexed m.
Proof. intros Hm. apply (tab_freed _ _ _ (mem_table m Hm)). Qed.

(** The chain of a directory, whether or not some node has its path. *)
Lemma chain_bkt m p n :
  mem_ok m → n ∈ chain_at hash_min (rm_scopes m) p →
  bkt n = scope_bkt hash_min p ∧ n ∈ indexed m.
Proof.
  intros Hm. apply (chain_bucket _ _ bkt_lt (rm_table m) (mk_scope 0 0 p)), Hm.
Qed.

Lemma chain_indexed m n :
  mem_ok m → n ∈ chain_at hash_min (rm_scopes m) (sn_path n) ↔ n ∈ indexed m.
Proof. intros Hm. apply (chain_linked _ _ bkt_lt (rm_table m) n), Hm. Qed.

Lemma chain_nodup m p : mem_ok m → NoDup (chain_at hash_min (rm_scopes m) p).
Proof.
  intros Hm. apply (chain_NoDup _ _ bkt_lt (rm_table m) (mk_scope 0 0 p)); apply Hm.
Qed.

(** ** One store *)

Definition no_index_change (i : scope_instr) : bool :=
  match i with IAdd _ | IDel _ | IFree _ => false | _ => true end.

Lemma no_index_change_eq i m :
  no_index_change i = true → rm_table (exec_mem i m) = rm_table m.
Proof.
  unfold rm_table. destruct i; cbn; try done; intros _; repeat case_match; try done;
    rewrite ?global_get_locked_eq, ?global_put_locked_eq; done.
Qed.

(** The stores on the table. *)
Lemma table_exec_add n m : rm_table (exec_mem (IAdd n) m) = table_add bkt n (rm_table m).
Proof. done. Qed.
Lemma table_exec_del n m : rm_table (exec_mem (IDel n) m) = table_del bkt n (rm_table m).
Proof. done. Qed.
Lemma table_exec_free s m :
  rm_table (exec_mem (IFree s) m) = table_free (scope_nodes s) (rm_table m).
Proof. unfold rm_table, table_free. cbn -[namei_ext_free_scopes]. by rewrite free_scopes_eq. Qed.

Lemma mem_ok_ext m m' :
  rt_index (rm_table m') = rt_index (rm_table m) → rm_stale m' = rm_stale m →
  (∀ n, n ∈ rm_freed m' → n ∈ rm_freed m) → rm_used m ⊆ rm_used m' → mem_ok m → mem_ok m'.
Proof.
  intros Hi Hs Hf Hu [H1 H2 H3]. split.
  - by eapply table_ok_freed, H1.
  - unfold indexed, removed, linked, unlinked in *. rewrite Hi. cbn [rm_table rt_stale] in *.
    rewrite Hs. intros n [?|[?|Hn%Hf]]; apply Hu, H2; tauto.
  - by apply Hu.
Qed.

Lemma mem_ok_same i m : no_index_change i = true → mem_ok m → mem_ok (exec_mem i m).
Proof.
  intros Hn. apply mem_ok_ext; [by rewrite no_index_change_eq|by destruct i..].
Qed.

Lemma indexed_add m n : mem_ok m → indexed (exec_mem (IAdd n) m) ≡ₚ n :: indexed m.
Proof. intros Hm. apply (linked_add _ _ bkt_lt n (rm_table m)), Hm. Qed.

Lemma mem_ok_add n m :
  n ∉ indexed m → n ∉ removed m → n ∉ rm_freed m → sn_addr n ∈ rm_used m →
  mem_ok m → mem_ok (exec_mem (IAdd n) m).
Proof.
  intros Hi Hr Hf Hu Hm. split; [by apply (table_ok_add _ _ bkt_lt n (rm_table m)), Hm| |apply Hm].
  intros x. rewrite indexed_add, elem_of_cons by done.
  change (removed (exec_mem (IAdd n) m)) with (removed m).
  intros [[-> | ?]|?]; [done|apply Hm; tauto..].
Qed.

Lemma indexed_del m n x :
  x ∈ indexed (exec_mem (IDel n) m) ↔ x ∈ indexed m ∧ x ≠ n.
Proof. apply (linked_del_elem bkt n (rm_table m)). Qed.

Lemma mem_ok_del n m : n ∈ indexed m → mem_ok m → mem_ok (exec_mem (IDel n) m).
Proof.
  intros Hn Hm. split; [by apply (table_ok_del _ _ bkt_lt n (rm_table m)), Hm| |apply Hm].
  intros x. rewrite indexed_del. change (removed (exec_mem (IDel n) m)) with (n :: removed m).
  rewrite elem_of_cons. intros [[? _]|[[-> |?]|?]]; apply Hm; tauto.
Qed.

Lemma mem_ok_free s m :
  (∀ n, n ∈ scope_nodes s → (n ∉ indexed m) ∧ sn_addr n ∈ rm_used m) →
  mem_ok m → mem_ok (exec_mem (IFree s) m).
Proof.
  intros Hs Hm. pose proof (table_exec_free s m) as Ht. split; [| |apply Hm].
  - rewrite Ht. apply table_ok_free; [|apply Hm]. by intros n [? _]%Hs.
  - intros n. unfold indexed, removed. rewrite Ht. cbn [exec_mem ScopeRcu.exec_mem rm_freed].
    rewrite elem_of_app. intros [?|[?|[[_ ?]%Hs|?]]]; [apply Hm; by left| |done|].
    + apply Hm. by right; left.
    + apply Hm. by right; right.
Qed.

(** Memories with the same nodes; the references may differ. *)
Definition mem_eqv (m m' : rcu_mem) : Prop :=
  sc_index (rm_scopes m) = sc_index (rm_scopes m') ∧ rm_stale m = rm_stale m' ∧
  (∀ n, n ∈ rm_freed m ↔ n ∈ rm_freed m') ∧ rm_used m = rm_used m'.

#[export] Instance mem_eqv_equivalence : Equivalence mem_eqv.
Proof.
  split.
  - by intros m.
  - intros m m' (H1 & H2 & H3 & H4). by split_and!.
  - intros m m' m'' (H1 & H2 & H3 & H4) (K1 & K2 & K3 & K4).
    split_and!; [by etrans..| |by etrans]. intros n. by rewrite H3.
Qed.

#[export] Instance mem_ok_proper : Proper (mem_eqv ==> impl) mem_ok.
Proof.
  intros m m' (H1 & H2 & H3 & H4) Hm. apply (mem_ok_ext m); try done; [|by rewrite H4].
  intros n. apply H3.
Qed.

#[export] Instance exec_mem_proper i : Proper (mem_eqv ==> mem_eqv) (exec_mem i).
Proof.
  intros m m' (H1 & H2 & H3 & H4). split_and!; try done.
  - destruct i; cbn; try done; rewrite ?H1; try done; repeat case_match; try done;
      rewrite ?global_get_locked_eq, ?global_put_locked_eq, ?free_scopes_eq; done.
  - destruct i; cbn; unfold chain_at; rewrite ?H1, ?H2; done.
  - intros n. destruct i; cbn; rewrite ?elem_of_app, ?H3; done.
Qed.

(** ** The stores to come

    [graceful m code]: running [code] from [m] adds and removes each node
    once, frees only nodes never added, and hands over to its grace period a
    set out of the index. *)

Fixpoint graceful (m : rcu_mem) (code : list scope_instr) : Prop :=
  match code with
  | [] => True
  | i :: rest =>
      match i with
      | IAdd n => (n ∉ indexed m) ∧ (n ∉ removed m) ∧ (n ∉ rm_freed m) ∧ sn_addr n ∈ rm_used m
      | IDel n => n ∈ indexed m
      | IFree s => ∀ n, n ∈ scope_nodes s →
          (n ∉ indexed m) ∧ (n ∉ removed m) ∧ sn_addr n ∈ rm_used m
      | ISync => ∃ s, rest = [IGrace; IFree s] ∧ ∀ n, n ∈ scope_nodes s →
          (n ∉ indexed m) ∧ sn_addr n ∈ rm_used m
      | IGrace => False
      | _ => True
      end ∧
      match i with ISync => True | _ => graceful (exec_mem i m) rest end
  end.
#[local] Arguments graceful : simpl never.

#[export] Instance graceful_proper : Proper (mem_eqv ==> eq ==> impl) graceful.
Proof.
  intros m m' Hm code _ <-. revert m m' Hm.
  induction code as [|i code IH]; intros m m' Hm; [done|]. intros [Hi Hr].
  pose proof (exec_mem_proper i m m' Hm) as He. split.
  - destruct Hm as (H1 & H2 & H3 & H4).
    destruct i; try done; unfold indexed, removed, linked, unlinked, rm_table in *;
      cbn [rt_index rt_stale] in *; rewrite <- ?H1, <- ?H2, <- ?H4;
      rewrite <- ?H3; done.
  - destruct i; try done; by eapply IH.
Qed.

Lemma graceful_mem_ok m i rest :
  graceful m (i :: rest) → mem_ok m → i ≠ ISync → mem_ok (exec_mem i m).
Proof.
  intros [Hi _] Hm Hs. destruct i; try (by apply mem_ok_same).
  - destruct Hi as (? & ? & ? & ?). by apply mem_ok_add.
  - by apply mem_ok_del.
  - apply mem_ok_free; [|done]. intros n Hn. by destruct (Hi n Hn) as (? & _ & ?).
Qed.

(** *** Runs of stores *)

(** [m'] has the index, the removed and the freed nodes of [m]. *)
Definition same_nodes (m m' : rcu_mem) : Prop :=
  indexed m' = indexed m ∧ removed m' = removed m ∧ rm_freed m' = rm_freed m ∧
  rm_used m' = rm_used m.

Lemma graceful_plain i m rest :
  no_index_change i = true → i ≠ ISync → i ≠ IGrace → mem_ok m →
  (∀ m', mem_ok m' → same_nodes m m' → graceful m' rest) →
  graceful m (i :: rest).
Proof.
  intros Hn Hs Hg Hm Hk.
  assert (graceful (exec_mem i m) rest) as Hr.
  { apply Hk; [by apply mem_ok_same|]. split_and!; [| |by destruct i..].
    all: unfold indexed, removed; by rewrite no_index_change_eq. }
  by destruct i.
Qed.

Lemma graceful_adds ns m rest :
  NoDup ns → mem_ok m →
  (∀ n, n ∈ ns →
     (n ∉ indexed m) ∧ (n ∉ removed m) ∧ (n ∉ rm_freed m) ∧ sn_addr n ∈ rm_used m) →
  (∀ m', mem_ok m' → indexed m' ≡ₚ ns ++ indexed m → removed m' = removed m →
     rm_freed m' = rm_freed m → rm_used m' = rm_used m → graceful m' rest) →
  graceful m ((IAdd <$> ns) ++ rest).
Proof.
  intros Hnd. revert m. induction Hnd as [|n ns Hn Hnd IH]; intros m Hm Hf Hk; simpl.
  { by apply Hk. }
  destruct (Hf n) as (Hi & Hr & Hd & Hu); [left|].
  pose proof (indexed_add m n Hm) as Hp. split; [done|]. apply IH.
  - by apply mem_ok_add.
  - intros x Hx. destruct (Hf x) as (? & ? & ? & ?); [by right|].
    split_and!; try done. rewrite Hp, not_elem_of_cons. split; [by intros -> |done].
  - intros m' Hm' Hp' Hr' Hd' Hu'. apply Hk; try done.
    rewrite Hp', Hp. simpl. by rewrite Permutation_middle.
Qed.

Lemma graceful_dels ns m rest :
  NoDup ns → mem_ok m → (∀ n, n ∈ ns → n ∈ indexed m) →
  (∀ m', mem_ok m' → (∀ x, x ∈ indexed m' ↔ x ∈ indexed m ∧ x ∉ ns) →
     rm_used m' = rm_used m → graceful m' rest) →
  graceful m ((IDel <$> ns) ++ rest).
Proof.
  intros Hnd. revert m. induction Hnd as [|n ns Hn Hnd IH]; intros m Hm Hf Hk; simpl.
  { apply Hk; [done| |done]. intros x. split; [|tauto]. intros ?. split; [done|].
    apply not_elem_of_nil. }
  split; [by apply Hf; left|]. apply IH.
  - apply mem_ok_del; [|done]. by apply Hf; left.
  - intros x Hx. rewrite indexed_del. split; [by apply Hf; right|]. by intros ->.
  - intros m' Hm' Hp' Hu'. apply Hk; [done| |done].
    intros x. rewrite Hp', indexed_del, not_elem_of_cons. tauto.
Qed.

Lemma graceful_finish o m :
  mem_ok m →
  (∀ s n, o = Some s → n ∈ scope_nodes s → (n ∉ indexed m) ∧ sn_addr n ∈ rm_used m) →
  graceful m (finish_instrs o).
Proof.
  intros Hm Ho. destruct o as [s|]; [|done].
  split; [|done]. exists s. split; [done|]. intros n Hn. by destruct (Ho s n eq_refl Hn).
Qed.

(** Nodes of a set that was just allocated. *)
Definition fresh_nodes (new : option namei_ext_scope_set) (m : rcu_mem) : Prop :=
  ∀ s n, new = Some s → n ∈ scope_nodes s →
    (n ∉ indexed m) ∧ (n ∉ removed m) ∧ (n ∉ rm_freed m) ∧ sn_addr n ∈ rm_used m.

Lemma graceful_replace cg new st m rest :
  mem_ok m → fresh_nodes new m →
  (∀ s n, cs_scopes (cgroup_scope_of st cg) = Some s → n ∈ scope_nodes s → n ∈ indexed m) →
  (∀ m', mem_ok m' →
     (∀ s n, cs_scopes (cgroup_scope_of st cg) = Some s → n ∈ scope_nodes s →
        (n ∉ indexed m') ∧ sn_addr n ∈ rm_used m') →
     graceful m' rest) →
  graceful m (replace_instrs cg new st ++ rest).
Proof.
  intros Hm Hnew Hold Hk. rewrite replace_instrs_eq. unfold replace_body.
  simpl. rewrite <- !(assoc_L (++)). simpl.
  apply graceful_plain; [done..|]. intros m1 Hm1 (Hi1 & Hr1 & Hd1 & Hu1).
  (* the second half: assignment, removal, end of the section *)
  assert (∀ m2, mem_ok m2 → (∀ x, x ∈ indexed m → x ∈ indexed m2) →
    rm_used m2 = rm_used m →
    graceful m2 (IAssign cg new ::
      match cs_scopes (cgroup_scope_of st cg) with
      | Some s => (IDel <$> scope_nodes s) ++ [IExactDel (ss_nr s)]
      | None => if cs_active (cgroup_scope_of st cg) then [IGlobalPut] else []
      end ++ ISeq :: rest)) as Hhalf.
  { intros m2 Hm2 Hi2 Hu2.
    apply graceful_plain; [done..|]. intros m3 Hm3 (Hi3 & _ & _ & Hu3).
    destruct (cs_scopes (cgroup_scope_of st cg)) as [s|] eqn:Hs.
    - rewrite <- (assoc_L (++)). apply graceful_dels; [apply scope_nodes_NoDup|done| |].
      + intros n Hn. rewrite Hi3. by apply Hi2, (Hold s).
      + intros m4 Hm4 Hi4 Hu4. simpl.
        apply graceful_plain; [done..|]. intros m5 Hm5 (Hi5 & _ & _ & Hu5).
        apply graceful_plain; [done..|]. intros m6 Hm6 (Hi6 & _ & _ & Hu6).
        apply Hk; [done|]. intros s' n [= <-] Hn. rewrite Hi6, Hi5, Hi4, Hu6, Hu5, Hu4, Hu3, Hu2.
        split; [tauto|]. apply (mem_used m Hm). left. by apply (Hold s).
    - assert (∀ m4, mem_ok m4 → graceful m4 (ISeq :: rest)) as Hend.
      { intros m4 Hm4. apply graceful_plain; [done..|]. intros m5 Hm5 _. by apply Hk. }
      destruct (cs_active _); [|by apply Hend].
      apply graceful_plain; [done..|]. intros m4 Hm4 _. by apply Hend. }
  destruct new as [s|].
  - rewrite <- (assoc_L (++)). apply graceful_adds; [apply scope_nodes_NoDup|done| |].
    + intros n Hn. rewrite Hi1, Hr1, Hd1, Hu1. by apply (Hnew s).
    + intros m2 Hm2 Hi2 _ _ Hu2. simpl.
      apply graceful_plain; [done..|]. intros m3 Hm3 (Hi3 & _ & _ & Hu3).
      apply Hhalf; [done| |congruence]. intros x Hx. rewrite Hi3, Hi2, Hi1, elem_of_app. by right.
  - destruct (cs_active _).
    + apply graceful_plain; [done..|]. intros m2 Hm2 (Hi2 & _ & _ & Hu2).
      apply Hhalf; [done| |congruence]. intros x Hx. by rewrite Hi2, Hi1.
    + apply Hhalf; [done| |done]. intros x Hx. by rewrite Hi1.
Qed.

(** *** Operations *)

Lemma live_indexed m cg s n :
  scopes_inv hash_min (rm_scopes m) →
  cs_scopes (cgroup_scope_of (rm_scopes m) cg) = Some s → n ∈ scope_nodes s → n ∈ indexed m.
Proof.
  intros Hi Hs Hn. unfold indexed, linked. cbn [rm_table rt_index].
  rewrite (inv_nodes _ _ Hi).
  apply scope_of_Some in Hs as (c & Hc & Hs).
  apply list_elem_of_bind. exists (cg, c). unfold cgroup_nodes. simpl. rewrite Hs.
  split; [done|]. by apply elem_of_map_to_list.
Qed.

Lemma start_mem_ok op m : mem_ok m → mem_ok (start_mem op m).
Proof.
  apply mem_ok_ext; try done. unfold start_mem. simpl.
  destruct (op_alloc op); [apply union_subseteq_r|done].
Qed.

Lemma start_fresh op m a ps :
  mem_ok m → fresh_op op m → op_alloc op = Some a →
  fresh_nodes (Some (mk_scope_set a ps)) (start_mem op m).
Proof.
  intros Hm Hf Ha s n [= <-] [Hn _]%elem_of_scope_nodes. simpl in Hn.
  specialize (Hf a Ha). rewrite <- Hn in Hf.
  change (indexed (start_mem op m)) with (indexed m).
  change (removed (start_mem op m)) with (removed m).
  cbn [start_mem rm_freed rm_used]. rewrite Ha.
  split_and!; [intros Hx; apply Hf, (mem_used m Hm); tauto..|]. rewrite Hn. apply elem_of_union. left. by apply elem_of_singleton.
Qed.

Lemma tombstone_fresh m : fresh_nodes (Some namei_ext_scope_tombstone) m.
Proof. by intros s n [= <-] ?%not_elem_of_nil. Qed.

Lemma graceful_gets pss m rest :
  mem_ok m →
  (∀ m', mem_ok m' → same_nodes m m' → graceful m' rest) →
  graceful m ((IPathGet <$> pss) ++ rest).
Proof.
  revert m. induction pss as [|ps pss IH]; intros m Hm Hk; simpl; [by apply Hk|].
  apply graceful_plain; [done..|]. intros m1 Hm1 (Hi & Hr & Hd & Hu).
  apply IH; [done|]. intros m2 Hm2 (Hi' & Hr' & Hd' & Hu'). apply Hk; [done|].
  split_and!; congruence.
Qed.

Lemma fresh_nodes_same new m m' : same_nodes m m' → fresh_nodes new m → fresh_nodes new m'.
Proof. intros (Hi & Hr & Hd & Hu) Hf s n Hs Hn. rewrite Hi, Hr, Hd, Hu. by apply (Hf s). Qed.

Lemma graceful_replace_and_finish pss cg new m0 m :
  scopes_inv hash_min (rm_scopes m0) → indexed m = indexed m0 → mem_ok m →
  fresh_nodes new m →
  graceful m
    ((IPathGet <$> pss) ++ replace_and_finish cg new (rm_scopes m0)).
Proof.
  intros Hi Hix Hm Hnew. apply graceful_gets; [done|]. intros m' Hm' Hsame.
  pose proof Hsame as (Hix' & _).
  apply graceful_replace; [done|by apply (fresh_nodes_same new m)| |].
  - intros s n Hs Hn. rewrite Hix', Hix. by apply (live_indexed m0 cg s).
  - intros m2 Hm2 Ho. by apply graceful_finish.
Qed.

Lemma graceful_free_new s m :
  mem_ok m → fresh_nodes (Some s) m → graceful m [IFree s].
Proof.
  intros Hm Hf. split; [|done]. intros n Hn.
  by destruct (Hf s n eq_refl Hn) as (? & ? & _ & ?).
Qed.

Lemma op_graceful op m :
  mem_ok m → scopes_inv hash_min (rm_scopes m) → fresh_op op m →
  graceful (start_mem op m) (op_instrs op (rm_scopes m)).
Proof.
  intros Hm Hi Hf. pose proof (start_mem_ok op m Hm) as Hs.
  destruct op as [alloc dead cg p|alloc dead cg p|alloc dead cg|dead cg|cg act|cg];
    cbn [op_instrs]; unfold exact_instrs, add_instrs, empty_instrs, global_instrs,
    set_active_instrs, release_instrs; cbv zeta.
  - destruct (namei_ext_alloc_scopes alloc 1) as [a|] eqn:Ha; [|done].
    apply alloc_scopes_Some in Ha as [-> _].
    pose proof (start_fresh _ m a [p] Hm Hf eq_refl) as Hn. destruct dead.
    + apply (graceful_gets [[p]] _ [_]); [done|]. intros m' Hm' Hsame.
      apply graceful_free_new; [done|]. by eapply fresh_nodes_same.
    + by apply (graceful_replace_and_finish [[p]]).
  - destruct dead; [done|]. destruct (cs_scopes _) as [old|]; [|done].
    destruct (existsb _ _); [done|]. destruct (_ =? _); [done|].
    destruct (namei_ext_alloc_scopes alloc _) as [a|] eqn:Ha; [|done].
    apply alloc_scopes_Some in Ha as [-> _].
    apply (graceful_replace_and_finish [ss_entries old; [p]]); try done.
    by apply start_fresh.
  - destruct (namei_ext_alloc_scopes alloc 0) as [a|] eqn:Ha; [|done].
    apply alloc_scopes_Some in Ha as [-> _].
    pose proof (start_fresh _ m a [] Hm Hf eq_refl) as Hn. destruct dead.
    + by apply graceful_free_new.
    + by apply (graceful_replace_and_finish []).
  - destruct dead; [done|]. by apply (graceful_replace_and_finish []).
  - destruct (Bool.eqb _ act); [done|]. simpl.
    apply graceful_plain; [done..|]. intros m1 Hm1 _.
    assert (∀ m2, mem_ok m2 → graceful m2 [IActive cg act; ISeq]) as Hend.
    { intros m2 Hm2. do 2 (apply graceful_plain; [done..|]; intros ? ? _). done. }
    destruct (cs_scopes _); [by apply Hend|].
    apply graceful_plain; [by destruct act..|done|]. intros m2 Hm2 _. by apply Hend.
  - apply graceful_replace; [done|apply tombstone_fresh| |].
    + intros s n Hsc Hn. by apply (live_indexed m cg s).
    + intros m' Hm' Ho. apply graceful_plain; [done..|].
      intros m2 Hm2 (Hi2 & _ & _ & Hu2). apply graceful_finish; [done|].
      intros s n Hsc Hn. rewrite Hi2, Hu2. by apply (Ho s).
Qed.

Lemma boot_mem_ok : mem_ok boot_mem.
Proof.
  pose proof (initial_scopes_inv hash_min) as Hi.
  assert (linked (rm_table boot_mem) = []) as He by apply concat_replicate_nil.
  split; [split; rewrite ?He; try done; try (by intros n ?%not_elem_of_nil)| |done].
  - apply Hi.
  - constructor.
  - unfold indexed. rewrite He.
    intros n [?%not_elem_of_nil|[?%not_elem_of_nil|?%not_elem_of_nil]]; done.
Qed.
End grace.
