(* ===== verification/ScopeRcuProps.v ===== *)
(** * Properties of scope updates store by store

    The stores of an operation add up to the operation; the invariant of their
    interleaving with a reader; the reader touches no freed node. *)

From S2P Require Import Prelude Abi Kernel Rcu Scopes ScopeFacts ScopeProps ScopeRcu.
From S2P Require Import ScopeRcuFacts ScopeGrace.

Section props.
Context (hash_min : Z → nat) (hash_min_lt : ∀ k, (hash_min k < scope_buckets)%nat).

Abbreviation maybe_managed := (namei_ext_parent_maybe_managed hash_min).
Abbreviation bkt := (λ n, scope_bkt hash_min (sn_path n)).


Section parent.
Context (parent : path).

Abbreviation step := (rcu_step hash_min parent).
Abbreviation steps := (rcu_steps hash_min parent).
Abbreviation scopes_of c := (rm_scopes (rc_mem c)).

(** ** The invariant of the interleaving *)

(** The node the reader is about to read. *)
Definition reader_at (r : reader) : option namei_ext_scope :=
  match r with LNode _ n => Some n | _ => None end.

(** The memory as it will be once every operation has finished. *)
Definition doomed_mem (m : rcu_mem) (fs : list scope_finisher) : rcu_mem :=
  mk_rmem (rm_scopes m) (rm_stale m) (finishing_nodes scope_nodes fs ++ rm_freed m) (rm_used m).

Record rcu_inv (c : rcu_conf) : Prop := {
  rc_seq : sc_seq (scopes_of c) = u32 (rc_ticks c);
  rc_disciplined : disciplined hash_min (Z.even (rc_ticks c)) (scopes_of c) (rc_code c);
  rc_doomed_ok : mem_ok hash_min (doomed_mem (rc_mem c) (rc_finishing c));
  rc_graceful : graceful hash_min (doomed_mem (rc_mem c) (rc_finishing c)) (rc_code c);
  rc_safe : rcu_safe scope_buckets bkt scope_nodes (rm_table (rc_mem c)) (rc_finishing c)
    (in_section (rc_reader c)) (scope_bkt hash_min parent) (reader_at (rc_reader c))
}.

Lemma boot_rcu_inv : rcu_inv boot_conf.
Proof.
  split; try done; [|by apply boot_mem_ok|split; [by apply (boot_mem_ok hash_min)|done]].
  split; [|done]. intros _. apply initial_scopes_inv.
Qed.

Lemma rc_mem_ok c : rcu_inv c → mem_ok hash_min (rc_mem c).
Proof.
  intros Hi. eapply mem_ok_ext, (rc_doomed_ok c Hi); try done. intros n Hn. apply elem_of_app.
  by right.
Qed.

Lemma doomed_eqv m fs fs' :
  (∀ n, n ∈ finishing_nodes scope_nodes fs ↔ n ∈ finishing_nodes scope_nodes fs') →
  mem_eqv (doomed_mem m fs) (doomed_mem m fs').
Proof. intros Hn. split_and!; try done. intros n. simpl. by rewrite !elem_of_app, Hn. Qed.

Lemma doomed_exec i m fs :
  mem_eqv (doomed_mem (exec_mem hash_min i m) fs) (exec_mem hash_min i (doomed_mem m fs)).
Proof.
  split_and!; try done. intros n. destruct i; try done. simpl. rewrite !elem_of_app. tauto.
Qed.

(** *** Stores *)

Lemma safe_store i code m fs inside b at_ :
  graceful hash_min (doomed_mem m fs) (i :: code) → i ≠ ISync →
  rcu_safe scope_buckets bkt scope_nodes (rm_table m) fs inside b at_ →
  rcu_safe scope_buckets bkt scope_nodes (rm_table (exec_mem hash_min i m)) fs inside b at_.
Proof.
  intros [Hg _] Hi Hs. destruct (no_index_change i) eqn:Hn.
  { by rewrite no_index_change_eq. }
  destruct i as [|x| |x| | | | | | | | |s]; try done.
  - destruct Hg as (? & ? & ? & _). rewrite table_exec_add.
    by apply (safe_add _ _ (bkt_lt hash_min hash_min_lt)).
  - rewrite table_exec_del. by apply (safe_del _ _ (bkt_lt hash_min hash_min_lt)).
  - rewrite table_exec_free. apply safe_free_new; [|done].
    intros n Hx. by destruct (Hg n Hx) as (? & ? & _).
Qed.

Lemma rcu_inv_store i code m fs r t :
  i ≠ ISync → rcu_inv (mk_conf m (i :: code) fs r t) →
  rcu_inv (mk_conf (exec_mem hash_min i m) code fs r (match i with ISeq => t + 1 | _ => t end)).
Proof.
  intros Hi [Hseq Hd Hm Hg Hs]. simpl in *. destruct Hd as (Hinv & Hq & Hd). split; simpl.
  - rewrite exec_seq. destruct i; try done. rewrite Hseq. unfold u32, wrap.
    by rewrite Zplus_mod_idemp_l.
  - destruct i; try done. rewrite Z.add_1_r, Z.even_succ, <- Z.negb_even. exact Hd.
  - rewrite doomed_exec. by eapply graceful_mem_ok.
  - rewrite doomed_exec. destruct Hg as [_ Hg]. by destruct i.
  - by eapply safe_store.
Qed.

(** *** Finishing operations *)

Lemma rcu_inv_unlock s m fs r t :
  rcu_inv (mk_conf m (finish_instrs (Some s)) fs r t) → rcu_inv (mk_conf m [] (FSync s :: fs) r t).
Proof.
  intros [Hseq Hd Hm Hg Hs]. simpl in *. destruct Hg as [(s' & [= <-] & Hn) _].
  split; simpl; [done| | |done|].
  - destruct Hd as (Hinv & _ & _ & _ & _ & _ & _ & He). by split.
  - apply (mem_ok_free _ _ _ Hn) in Hm. eapply mem_ok_ext, Hm; try done.
    + cbn -[namei_ext_free_scopes]. by rewrite free_scopes_eq.
    + intros n Hin. simpl in *. rewrite !elem_of_app in *. tauto.
  - apply safe_unlock; [|done]. by intros n [? _]%Hn.
Qed.

(** A finisher that only moves on. *)
Lemma rcu_inv_move f f' code m fs1 fs2 r t :
  payload f' = payload f →
  (∀ gone, in_section r = true → finisher_ok scope_nodes gone (rm_table m) f →
     finisher_ok scope_nodes gone (rm_table m) f') →
  rcu_inv (mk_conf m code (fs1 ++ f :: fs2) r t) →
  rcu_inv (mk_conf m code (fs1 ++ f' :: fs2) r t).
Proof.
  intros Hp Hok [Hseq Hd Hm Hg Hs]. simpl in *.
  assert (mem_eqv (doomed_mem m (fs1 ++ f :: fs2)) (doomed_mem m (fs1 ++ f' :: fs2))) as Hm'.
  { apply doomed_eqv. intros n. unfold finishing_nodes. by rewrite !bind_app, !bind_cons, Hp. }
  split; simpl; [done|done|by rewrite <- Hm'|by rewrite <- Hm'|]. by eapply safe_move.
Qed.

Lemma rcu_inv_free s code m fs1 fs2 r t :
  rcu_inv (mk_conf m code (fs1 ++ FFree s :: fs2) r t) →
  rcu_inv (mk_conf (exec_mem hash_min (IFree s) m) code (fs1 ++ fs2) r t).
Proof.
  intros [Hseq Hd Hm Hg Hs]. simpl in *.
  assert (mem_eqv (doomed_mem m (fs1 ++ FFree s :: fs2))
    (doomed_mem (exec_mem hash_min (IFree s) m) (fs1 ++ fs2))) as Hm'.
  { split_and!; try done; [cbn -[namei_ext_free_scopes]; by rewrite free_scopes_eq|].
    intros n. simpl. unfold finishing_nodes.
    rewrite !bind_app, bind_cons, !elem_of_app. simpl. tauto. }
  split; cbn -[namei_ext_free_scopes].
  - by rewrite free_scopes_eq.
  - rewrite free_scopes_eq. by apply disciplined_set_refs.
  - by rewrite <- Hm'.
  - by rewrite <- Hm'.
  - rewrite table_exec_free. apply (safe_free _ _ _ s _ []); [|done].
    intros n. split; [by left|]. by intros [?|?%not_elem_of_nil].
Qed.

(** *** Loads *)

Lemma goto_node_at seq o : reader_at (goto_node seq o) = o.
Proof. by destruct o. Qed.

Lemma in_section_goto seq o : in_section (goto_node seq o) = true.
Proof. by destruct o. Qed.

(** A load inside the section keeps the reader at a sound position. *)
Lemma reader_load_ok gone m r :
  table_ok scope_buckets bkt (rm_table m) → in_section r = true →
  reader_ok bkt gone (rm_table m) (scope_bkt hash_min parent) (reader_at r) →
  reader_ok bkt gone (rm_table m) (scope_bkt hash_min parent)
    (reader_at (reader_step hash_min parent m r)).
Proof.
  intros Ht Hin Hr. pose proof (reader_ok_nowhere _ _ _ _ _ Hr) as Hno.
  destruct r as [|s|s|s| |s|s|s x|s b|b]; simpl in *; try done.
  - by destruct (Z.odd _).
  - by destruct (negb _).
  - rewrite goto_node_at. destruct (head _) as [n|] eqn:Hn; [|done].
    apply head_Some_elem_of in Hn.
    apply (chain_bucket _ _ (bkt_lt hash_min hash_min_lt) (rm_table m) (mk_scope 0 0 parent))
      in Hn as [Hb Hl]; [|apply Ht].
    by eapply reader_ok_live.
  - destruct (path_equal _ _); [done|]. rewrite goto_node_at. by apply (reader_ok_next _ _ (bkt_lt hash_min hash_min_lt)).
  - by destruct (_ =? _).
Qed.

Lemma rcu_inv_load code m fs r t :
  rcu_inv (mk_conf m code fs r t) →
  rcu_inv (mk_conf m code (reader_left (in_section (reader_step hash_min parent m r)) <$> fs)
             (reader_step hash_min parent m r) t).
Proof.
  intros [Hseq Hd Hm Hg Hs]. simpl in *.
  split; simpl; [done|done|unfold doomed_mem; by rewrite reader_left_nodes..|].
  eapply safe_load, Hs. intros Hin'. destruct (in_section r) eqn:Hin.
  - left. split; [done|]. intros gone Ht. by apply reader_load_ok.
  - right. destruct r; simpl in *; try done; repeat case_match; done.
Qed.

Lemma rcu_inv_start op m fs r t :
  fresh_op op m → rcu_inv (mk_conf m [] fs r t) →
  rcu_inv (mk_conf (start_mem op m) (op_instrs op (rm_scopes m)) fs r t).
Proof.
  intros Hf [Hseq [Hinv He] Hm _ Hs]. simpl in *. rewrite He in *. specialize (Hinv eq_refl).
  split; simpl; [done| | | |done].
  - rewrite He. apply op_disciplined; [done..|]. intros a Ha. split.
    + intros ->. apply (Hf _ Ha), (mem_tombstone _ _ Hm).
    + intros n Hn <-. apply (Hf _ Ha), (mem_used _ _ Hm). by left.
  - by apply (start_mem_ok hash_min op (doomed_mem m fs)).
  - by apply (op_graceful hash_min hash_min_lt op (doomed_mem m fs)).
Qed.

Lemma rcu_inv_step c c' : step c c' → rcu_inv c → rcu_inv c'.
Proof.
  destruct 1.
  - by apply rcu_inv_start.
  - by apply rcu_inv_store.
  - apply rcu_inv_unlock.
  - apply rcu_inv_move; [done|]. intros gone ->. done.
  - by apply rcu_inv_move.
  - apply rcu_inv_free.
  - apply rcu_inv_load.
  - intros [Hseq Hd Hm Hg Hs]. by split.
Qed.

Lemma rcu_inv_steps c c' : steps c c' → rcu_inv c → rcu_inv c'.
Proof. induction 1; [done|]. intros ?. by eapply IHrtc, rcu_inv_step. Qed.

Lemma rcu_reachable_inv c : steps boot_conf c → rcu_inv c.
Proof. intros Hs. eapply rcu_inv_steps, boot_rcu_inv. done. Qed.

(** What a reader at a node knows of it. *)
Lemma rc_at_node c seq n :
  rcu_inv c → rc_reader c = LNode seq n →
  (n ∈ indexed (rc_mem c) ∨ n ∈ removed (rc_mem c)) ∧ bkt n = scope_bkt hash_min parent.
Proof.
  intros Hi Hr. pose proof (safe_reader _ _ _ _ _ _ _ _ (rc_safe c Hi)) as Hs. rewrite Hr in Hs.
  destruct (Hs eq_refl) as (gone & [_ _ _ Hat] & _). by destruct (Hat n eq_refl) as (_ & ? & ?).
Qed.

(** C18: No use after free: in every interleaving of scope operations with a
    reader, operations that wait for their grace period while others run
    included, and with grace periods that wait only for readers in their
    section when the period starts, the node whose path and next pointer the
    reader is about to read has not been freed, although nodes are removed
    and their sets freed while readers walk the chain. *)
Theorem reader_never_at_freed_node c seq n :
  steps boot_conf c → rc_reader c = LNode seq n → n ∉ rm_freed (rc_mem c).
Proof.
  intros Hc Hr. pose proof (rc_safe c (rcu_reachable_inv c Hc)) as Hs. rewrite Hr in Hs.
  by eapply safe_not_freed in Hs.
Qed.
End parent.
End props.
