(* ===== verification/ScopeLinear.v ===== *)
(** * The lockless prefilter is linearizable

    [namei_ext_parent_maybe_managed] takes no lock.  Whatever scope
    operations run between its loads, its answer is the one the prefilter
    gives on the scopes of some instant during the call at which no writer
    was in its section. *)

From S2P Require Import Prelude Abi Kernel Rcu Scopes ScopeFacts ScopeProps ScopeRcu.
From S2P Require Import ScopeRcuFacts ScopeGrace ScopeRcuProps.

Section linear.
Context (hash_min : Z → nat) (hash_min_lt : ∀ k, (hash_min k < scope_buckets)%nat).
Context (parent : path).

Abbreviation step := (rcu_step hash_min parent).
Abbreviation steps := (rcu_steps hash_min parent).
Abbreviation scopes_of c := (rm_scopes (rc_mem c)).
Abbreviation maybe_managed := (namei_ext_parent_maybe_managed hash_min).
Abbreviation rcu_inv := (rcu_inv hash_min parent).
Abbreviation inv_steps := (rcu_inv_steps hash_min hash_min_lt parent).

(** ** Time *)

Lemma step_ticks c c' : step c c' → rc_ticks c ≤ rc_ticks c'.
Proof. destruct 1 as [|i code m fs r t Hi| | | | | |]; simpl; try lia. destruct i; lia. Qed.
Lemma steps_ticks c c' : steps c c' → rc_ticks c ≤ rc_ticks c'.
Proof. induction 1 as [|c c1 c' Hs _ IH]; [lia|]. apply step_ticks in Hs. lia. Qed.

(** What the reader loads changes only while the count is odd. *)
Lemma step_core c c' :
  rcu_inv c → step c c' → Z.even (rc_ticks c) = true → rc_ticks c' = rc_ticks c →
  core (scopes_of c') = core (scopes_of c).
Proof.
  intros Hi Hs He. destruct Hs as [|i code m fs r t Hn| | | |s code m fs1 fs2 r t| |];
    simpl in *; try done; intros Ht.
  - destruct (rc_disciplined _ _ _ Hi) as [_ [Hq _]]. simpl in *. apply quiet_core, Hq, He.
  - by apply (quiet_core hash_min (IFree s)).
Qed.

(** A prefilter run on the same data gives the same answer. *)
Lemma core_maybe_managed st st' :
  core st = core st' → maybe_managed st parent = maybe_managed st' parent.
Proof. unfold core, namei_ext_parent_maybe_managed. by intros [= -> -> ->]. Qed.

(** ** What the reader has seen *)

(** Since it loaded the sequence count [s], and as long as the count has not
    moved, the scopes are those of an instant outside any write section, and
    [Q] holds of them. *)
Definition seen (c0 c : rcu_conf) (s : Z) (Q : scopes_state → Prop) : Prop :=
  ∃ c', steps c0 c' ∧ steps c' c ∧ Z.even (rc_ticks c') = true ∧ s = u32 (rc_ticks c') ∧
    (rc_ticks c = rc_ticks c' →
     core (scopes_of c) = core (scopes_of c') ∧ Q (scopes_of c)).

Definition answered (c0 c : rcu_conf) (found : bool) : Prop :=
  ∃ c', steps c0 c' ∧ steps c' c ∧ Z.even (rc_ticks c') = true ∧
    maybe_managed (scopes_of c') parent = found.

Definition no_global (st : scopes_state) : Prop := sc_global_users st = 0.
Definition no_users (st : scopes_state) : Prop := no_global st ∧ sc_exact_users st = 0.

(** The nodes before [n] in the chain have other paths. *)
Definition walked_to (n : namei_ext_scope) (st : scopes_state) : Prop :=
  no_global st ∧ ∃ l r, chain_at hash_min st parent = l ++ n :: r ∧
    existsb (λ x, path_equal (sn_path x) parent) l = false.

Definition knows (c0 c : rcu_conf) (r : reader) : Prop :=
  match r with
  | RBegin | LBegin => True
  | RGlobal s | LGlobal s => seen c0 c s (λ _, True)
  | RExact s | LHead s => seen c0 c s no_global
  | RRetry s => seen c0 c s no_users
  | LNode s n => seen c0 c s (walked_to n)
  | LRetry s found => seen c0 c s (λ st, maybe_managed st parent = found)
  | RDone found => rc_ticks c - rc_ticks c0 < 2 ^ 32 → answered c0 c found
  end.

(** The facts are about the loaded data only. *)
Definition of_core (Q : scopes_state → Prop) : Prop :=
  ∀ st st', core st = core st' → Q st → Q st'.
Lemma of_core_true : of_core (λ _, True).
Proof. done. Qed.
Lemma of_core_no_global : of_core no_global.
Proof. unfold of_core, no_global, core. by intros st st' [= _ -> _]. Qed.
Lemma of_core_no_users : of_core no_users.
Proof. unfold of_core, no_users, no_global, core. by intros st st' [= _ -> ->]. Qed.
Lemma of_core_walked n : of_core (walked_to n).
Proof.
  unfold of_core, walked_to, no_global, chain_at, core. by intros st st' [= -> -> _].
Qed.
Lemma of_core_managed found : of_core (λ st, maybe_managed st parent = found).
Proof. intros st st' Hc <-. symmetry. by apply core_maybe_managed. Qed.
#[local] Hint Resolve of_core_true of_core_no_global of_core_no_users of_core_walked
  of_core_managed : core.

Lemma seen_step c0 c1 c2 s Q :
  rcu_inv c1 → step c1 c2 → of_core Q → seen c0 c1 s Q → seen c0 c2 s Q.
Proof.
  intros Hi Hs HQ (c' & H0 & H1 & He & Hu & Hsame). exists c'. split_and!; try done.
  - by eapply rtc_r.
  - intros Ht. pose proof (steps_ticks _ _ H1). pose proof (step_ticks _ _ Hs).
    assert (rc_ticks c1 = rc_ticks c') as Ht1 by lia.
    destruct (Hsame Ht1) as [Hc HQ1].
    assert (core (scopes_of c2) = core (scopes_of c1)) as Hc2.
    { apply step_core; [done|done|congruence|lia]. }
    split; [by rewrite Hc2|]. by eapply HQ.
Qed.

Lemma knows_step c0 c1 c2 r :
  rcu_inv c1 → step c1 c2 → knows c0 c1 r → knows c0 c2 r.
Proof.
  intros Hi Hs. destruct r; simpl; try done; try (by apply seen_step; eauto).
  intros Hk Ht. pose proof (step_ticks _ _ Hs).
  destruct Hk as (c' & ? & ? & ? & ?); [lia|]. exists c'. split_and!; try done. by eapply rtc_r.
Qed.

(** A new count, loaded outside a write section. *)
Lemma seen_begin c0 c :
  rcu_inv c → steps c0 c → Z.odd (sc_seq (scopes_of c)) = false →
  seen c0 c (sc_seq (scopes_of c)) (λ _, True).
Proof.
  intros Hi Hs Ho. exists c. split_and!; try done; [|by apply (rc_seq _ _ _ Hi)].
  rewrite (rc_seq _ _ _ Hi) in Ho. unfold u32 in Ho. rewrite wrap_odd in Ho by done.
  by rewrite <- Z.negb_odd, Ho.
Qed.

(** A load adds what it shows, in a state where the invariant holds. *)
Lemma seen_load c0 c s (Q Q' : scopes_state → Prop) :
  rcu_inv c → seen c0 c s Q →
  (Q (scopes_of c) → scopes_inv hash_min (scopes_of c) → Q' (scopes_of c)) →
  seen c0 c s Q'.
Proof.
  intros Hi (c' & H0 & H1 & He & Hu & Hsame) HQ. exists c'. split_and!; try done.
  intros Ht. destruct (Hsame Ht) as [Hc Hq]. split; [done|]. apply HQ; [done|].
  pose proof (rc_disciplined _ _ _ Hi) as Hd. destruct (rc_code c); apply Hd; congruence.
Qed.

(** The retry test: the count has not moved. *)
Lemma seen_retry c0 c Q found :
  rcu_inv c → seen c0 c (sc_seq (scopes_of c)) Q →
  (∀ st, scopes_inv hash_min st → Q st → maybe_managed st parent = found) →
  rc_ticks c - rc_ticks c0 < 2 ^ 32 → answered c0 c found.
Proof.
  intros Hi Hq HQ Ht.
  apply (seen_load _ _ _ _ (λ st, maybe_managed st parent = found)) in Hq as
    (c' & H0 & H1 & He & Hu & Hsame); [|done|intros; by apply HQ].
  exists c'. split_and!; try done.
  apply steps_ticks in H0, H1. rewrite (rc_seq _ _ _ Hi) in Hu.
  assert (rc_ticks c = rc_ticks c') as Heq by (apply (wrap_close 32 _ _ ltac:(done)) in Hu; lia).
  destruct (Hsame Heq) as [Hc <-]. symmetry. by apply core_maybe_managed.
Qed.

(** ** What the loads show *)

Lemma no_users_unmanaged st : no_users st → maybe_managed st parent = false.
Proof.
  unfold no_users, no_global, namei_ext_parent_maybe_managed. by intros [-> ->].
Qed.

Lemma global_managed st : sc_global_users st ≠ 0 → maybe_managed st parent = true.
Proof. intros Hg. unfold namei_ext_parent_maybe_managed. by rewrite (proj2 (Z.eqb_neq _ 0) Hg). Qed.

(** Outside a write section the chain decides, whatever the counter of exact
    scopes says. *)
Lemma chain_managed c :
  rcu_inv c → scopes_inv hash_min (scopes_of c) → no_global (scopes_of c) →
  maybe_managed (scopes_of c) parent =
  existsb (λ n, path_equal (sn_path n) parent) (chain_at hash_min (scopes_of c) parent).
Proof.
  intros Hc Hi Hg. unfold namei_ext_parent_maybe_managed. rewrite Hg. simpl.
  destruct (sc_exact_users (scopes_of c) =? 0) eqn:He; [|done]. unfold_bools.
  pose proof (saturating_zero _ _ (inv_exact _ _ Hi) He) as Hz.
  symmetry. apply existsb_none. intros n Hn.
  apply chain_bkt in Hn as [_ Hn]; [|done|apply (rc_mem_ok hash_min parent _ Hc)]. unfold indexed, linked in Hn.
  simpl in Hn. destruct (concat _); [by apply not_elem_of_nil in Hn|simpl in Hz; lia].
Qed.

Lemma walked_next m l n r :
  mem_ok hash_min m → chain_at hash_min (rm_scopes m) parent = l ++ n :: r →
  node_next hash_min m n = head r.
Proof.
  intros Hm Hc. assert (n ∈ chain_at hash_min (rm_scopes m) parent) as Hn.
  { rewrite Hc. apply elem_of_app. right. left. }
  apply (chain_bkt hash_min hash_min_lt) in Hn as [Hb Hl]; [|done].
  unfold node_next. rewrite (table_next_linked _ _ (bkt_lt hash_min hash_min_lt)) by (done || apply Hm).
  assert (table_chain (λ x, scope_bkt hash_min (sn_path x)) (rm_table m) n =
    chain_at hash_min (rm_scopes m) parent) as -> by (unfold table_chain; by rewrite Hb).
  rewrite Hc. apply next_in_split.
  pose proof (chain_nodup hash_min hash_min_lt m parent Hm) as Hnd. rewrite Hc in Hnd.
  apply NoDup_app in Hnd as (_ & Hd & _). intros Hin. apply (Hd n Hin). left.
Qed.

(** ** Every load *)

Lemma knows_load c0 c :
  rcu_inv c → steps c0 c → knows c0 c (rc_reader c) →
  knows c0 c (reader_step hash_min parent (rc_mem c) (rc_reader c)).
Proof.
  intros Hi Hs. pose proof (seen_begin c0 c Hi Hs) as Hbegin.
  destruct (rc_reader c) as [|s|s|s| |s|s|s x|s b|b]; simpl; try done.
  - intros _. destruct (Z.odd _); [done|by apply Hbegin].
  - destruct (_ =? _) eqn:Hg; [|done]. unfold_bools. intros Hk.
    by apply (seen_load _ _ _ _ _ Hi Hk).
  - destruct (_ =? _) eqn:Hg; [|done]. unfold_bools. intros Hk.
    by apply (seen_load _ _ _ _ _ Hi Hk).
  - destruct (_ =? _) eqn:Hg; [|done]. unfold_bools. subst s. intros Hk Ht.
    apply (seen_retry c0 c no_users false Hi Hk); [|done].
    intros st _. apply no_users_unmanaged.
  - intros _. destruct (Z.odd _); [done|by apply Hbegin].
  - intros Hk. destruct (_ =? _) eqn:Hg; unfold_bools; apply (seen_load _ _ _ _ _ Hi Hk); simpl.
    + done.
    + intros _ _. by apply global_managed.
  - intros Hk. destruct (chain_at hash_min (scopes_of c) parent) as [|x chain] eqn:Hc; simpl;
      apply (seen_load _ _ _ _ _ Hi Hk); intros Hg Hsi.
    + by rewrite chain_managed, Hc.
    + split; [done|]. by exists [], chain.
  - intros Hk. destruct (path_equal (sn_path x) parent) eqn:Hp.
    + apply (seen_load _ _ _ _ _ Hi Hk). intros (Hg & l & r & Hc & Hl) Hsi.
      rewrite chain_managed, Hc, existsb_app by done. simpl. by rewrite Hp, orb_true_r.
    + destruct (node_next hash_min (rc_mem c) x) as [y|] eqn:Hn; simpl;
        apply (seen_load _ _ _ _ _ Hi Hk); intros (Hg & l & r & Hc & Hl) Hsi;
        rewrite (walked_next _ l x r) in Hn by (try done; by apply (rc_mem_ok hash_min parent _ Hi));
        destruct r as [|y' r]; try done.
      * injection Hn as ->. split; [done|]. exists (l ++ [x]), r.
        rewrite <- (assoc_L (++)). split; [done|]. rewrite existsb_app, Hl. simpl. by rewrite Hp.
      * rewrite chain_managed, Hc, existsb_app by done. simpl. by rewrite Hl, Hp.
  - destruct (_ =? _) eqn:Hg; [|done]. unfold_bools. subst s. intros Hk Ht.
    by apply (seen_retry c0 c _ b Hi Hk).
Qed.

(** The reader always knows what its position says. *)
Lemma knows_next c0 c c' :
  rcu_inv c → steps c0 c → step c c' → knows c0 c (rc_reader c) → knows c0 c' (rc_reader c').
Proof.
  intros Hi Hs H Hk. pose proof (λ r, knows_step c0 c c' r Hi H) as Hstep.
  pose proof (knows_load c0 c Hi Hs Hk) as Hl.
  destruct H; simpl in *; eauto.
Qed.

Lemma knows_steps c0 c :
  rcu_inv c0 → rc_reader c0 = RBegin → steps c0 c → knows c0 c (rc_reader c).
Proof.
  intros Hi0 Hb Hs.
  assert (∀ c1 c2, steps c1 c2 → steps c0 c1 → knows c0 c1 (rc_reader c1) →
    knows c0 c2 (rc_reader c2)) as Hgen.
  { intros c1 c2. induction 1 as [|c1 c1' c2 H _ IH]; [done|]. intros Hs1 Hk.
    apply IH; [by eapply rtc_r|]. apply (knows_next c0 c1); try done. by apply (inv_steps c0). }
  apply (Hgen c0 c Hs); [done|]. by rewrite Hb.
Qed.

(** ** Theorems *)

(** C17: The prefilter is linearizable: in every interleaving of its loads with
    the stores of any sequence of scope operations, the answer it returns is
    the answer it gives, run alone, on the scopes of an instant during the
    call outside any write section; provided the 32-bit sequence count does
    not go through a whole turn during the call. *)
Theorem reader_linearizable c0 c1 found :
  steps boot_conf c0 → rc_reader c0 = RBegin →
  steps c0 c1 → rc_reader c1 = RDone found → rc_ticks c1 - rc_ticks c0 < 2 ^ 32 →
  ∃ c, steps c0 c ∧ steps c c1 ∧ Z.even (rc_ticks c) = true ∧
    namei_ext_parent_maybe_managed hash_min (scopes_of c) parent = found.
Proof.
  intros Hb H0 Hs H1 Ht.
  pose proof (knows_steps c0 c1 (rcu_reachable_inv _ hash_min_lt _ _ Hb) H0 Hs) as Hk.
  rewrite H1 in Hk. by apply Hk.
Qed.

(** No false negative under concurrency: when the prefilter rejects a
    directory while operations replace scopes and switch policies, there was
    an instant during the call, outside any write section, at which no active
    policy covered the directory; so a call during which some active policy
    always does, perhaps not always the same one, is never answered no. *)
Theorem reader_no_false_negative c0 c1 :
  steps boot_conf c0 → rc_reader c0 = RBegin →
  steps c0 c1 → rc_reader c1 = RDone false → rc_ticks c1 - rc_ticks c0 < 2 ^ 32 →
  ∃ c, steps c0 c ∧ steps c c1 ∧ Z.even (rc_ticks c) = true ∧
    ∀ cg, cs_active (cgroup_scope_of (scopes_of c) cg) = true →
      namei_ext_policy_parent_matches (scopes_of c) cg parent = false.
Proof.
  intros Hb H0 Hs H1 Ht.
  pose proof (rcu_reachable_inv _ hash_min_lt _ _ Hb) as Hi.
  pose proof (knows_steps c0 c1 Hi H0 Hs) as Hk. rewrite H1 in Hk.
  destruct (Hk Ht) as (c & Hc0 & Hc1 & He & Hm). exists c. split_and!; try done.
  intros cg Ha. apply not_true_is_false. intros Hp.
  rewrite (inv_prefilter_complete hash_min hash_min_lt _ cg) in Hm; try done.
  pose proof (rc_disciplined _ _ _ (inv_steps _ _ Hc0 Hi)) as Hd.
  destruct (rc_code c); by apply Hd.
Qed.
End linear.
