(* ===== verification/ScopeLive.v ===== *)
(** * The lockless prefilter returns, and scope operations finish

    Between write sections the reader needs a bounded number of loads, even
    when it walks nodes already removed from the index; and operations that
    wait for a grace period and a reader never block each other. *)

From S2P Require Import Prelude Abi Kernel Rcu Scopes ScopeFacts ScopeProps ScopeRcu.
From S2P Require Import ScopeRcuFacts ScopeGrace ScopeRcuProps ScopeLinear.

Section live.
Context (hash_min : Z → nat) (hash_min_lt : ∀ k, (hash_min k < scope_buckets)%nat).
Context (parent : path).

Abbreviation step := (rcu_step hash_min parent).
Abbreviation steps := (rcu_steps hash_min parent).
Abbreviation scopes_of c := (rm_scopes (rc_mem c)).
Abbreviation rcu_inv := (rcu_inv hash_min parent).
Abbreviation load := (reader_step hash_min parent).
Abbreviation bkt p := (scope_bkt hash_min p).

(** ** The reader alone *)

(** At most [k] loads lead from [r] to [r']. *)
Definition within (m : rcu_mem) (k : nat) (r r' : reader) : Prop :=
  ∃ j, (j ≤ k)%nat ∧ Nat.iter j (load m) r = r'.

Lemma within_refl m r : within m 0 r r.
Proof. by exists 0%nat. Qed.

Lemma within_load m k r r' : within m k (load m r) r' → within m (S k) r r'.
Proof. intros (j & Hj & <-). exists (S j). split; [lia|]. by rewrite Nat.iter_succ_r. Qed.

Lemma within_trans m k1 k2 r1 r2 r3 :
  within m k1 r1 r2 → within m k2 r2 r3 → within m (k1 + k2) r1 r3.
Proof.
  intros (j1 & Hj1 & <-) (j2 & Hj2 & <-). exists (j2 + j1)%nat.
  split; [lia|]. apply Nat.iter_add.
Qed.

Lemma within_le m k k' r r' : (k ≤ k')%nat → within m k r r' → within m k' r r'.
Proof. intros Hk (j & Hj & <-). exists j. split; [lia|done]. Qed.

Definition chain_len (m : rcu_mem) : nat := length (chain_at hash_min (rm_scopes m) parent).
Definition stale_len (m : rcu_mem) : nat := length (rm_stale m).

(** From a node of the chain. *)
Lemma walk_chain m seq l n r :
  mem_ok hash_min m → chain_at hash_min (rm_scopes m) parent = l ++ n :: r →
  ∃ found, within m (S (length r)) (LNode seq n) (LRetry seq found).
Proof.
  intros Hm. revert l n. induction r as [|x r IH]; intros l n Hc.
  all: pose proof (walked_next hash_min hash_min_lt parent m l n _ Hm Hc) as Hn.
  all: destruct (path_equal (sn_path n) parent) eqn:Hp.
  all: try (exists true; apply within_load; simpl; rewrite Hp;
            apply (within_le _ 0); [lia|apply within_refl]).
  - exists false. apply within_load. simpl. rewrite Hp, Hn. apply within_refl.
  - destruct (IH (l ++ [n]) x) as [found Hw]; [by rewrite <- (assoc_L (++))|].
    exists found. apply within_load. simpl. by rewrite Hp, Hn.
Qed.

Lemma walk_indexed m seq n :
  mem_ok hash_min m → n ∈ indexed m → bkt (sn_path n) = bkt parent →
  ∃ found, within m (chain_len m) (LNode seq n) (LRetry seq found).
Proof.
  intros Hm Hi Hb. apply (chain_indexed hash_min hash_min_lt) in Hi; [|done].
  unfold chain_at in Hi. rewrite Hb in Hi. apply list_elem_of_split in Hi as (l & r & Hc).
  destruct (walk_chain m seq l n r Hm Hc) as [found Hw]. exists found.
  eapply within_le, Hw. unfold chain_len, chain_at. rewrite Hc, length_app. simpl. lia.
Qed.

(** From a removed node: its successors are nodes removed later, or nodes of
    the chain. *)
Lemma walk_stale m seq newer n :
  mem_ok hash_min m → bkt (sn_path n) = bkt parent →
  n ∈ newer.*1 → newer `prefix_of` rm_stale m →
  ∃ found, within m (length newer + chain_len m) (LNode seq n) (LRetry seq found).
Proof.
  intros Hm.
  (* the entries not newer than the last of [newer] *)
  revert n. induction newer as [|[x o] newer IH] using rev_ind.
  { intros n _ ?%not_elem_of_nil. done. }
  intros n Hb Hn Hpre. rewrite length_app. simpl.
  assert (newer `prefix_of` rm_stale m) as Hpre' by (etrans; [by apply prefix_app_r|done]).
  destruct (decide (n ∈ newer.*1)) as [Hold|Hnew].
  { destruct (IH n Hb Hold Hpre') as [found Hw]. exists found. eapply within_le, Hw. lia. }
  rewrite fmap_app, elem_of_app in Hn. simpl in Hn. rewrite list_elem_of_singleton in Hn.
  destruct Hn as [?| ->]; [done|].
  destruct Hpre as [rest Hst]. rewrite <- (assoc_L (++)) in Hst. simpl in Hst.
  assert (node_next hash_min m x = o) as Hnext.
  { unfold node_next. rewrite (table_next_unlinked _ _ (bkt_lt hash_min hash_min_lt));
      [|apply Hm|].
    - cbn [rm_table rt_stale]. rewrite Hst. by apply stale_next_first.
    - apply (mem_removed hash_min m x Hm). unfold removed, unlinked. cbn [rm_table rt_stale].
      rewrite Hst, fmap_app, elem_of_app. right. left. }
  destruct (path_equal (sn_path x) parent) eqn:Hp.
  { exists true. apply (within_le _ 1); [lia|]. apply within_load. simpl. rewrite Hp.
    apply within_refl. }
  assert (∃ found, within m (length newer + chain_len m) (goto_node seq o) (LRetry seq found))
    as [found Hw].
  2: { exists found. replace (length newer + 1 + chain_len m)%nat with
      (S (length newer + chain_len m)) by lia. apply within_load. simpl. by rewrite Hp, Hnext. }
  destruct o as [y|]; simpl.
  2: { exists false. apply (within_le _ 0); [lia|apply within_refl]. }
  pose proof (tab_stale _ _ _ (mem_table _ _ Hm)) as Hok. cbn [rm_table rt_stale] in Hok.
  rewrite Hst in Hok.
  apply stale_ok_at in Hok as [Hby [Hy|Hy]].
  - destruct (walk_indexed m seq y Hm Hy) as [found Hw]; [congruence|].
    exists found. eapply within_le, Hw. lia.
  - apply IH; [congruence|done|done].
Qed.

(** ** A whole call *)

Definition quiet_seq (m : rcu_mem) : Prop := Z.odd (sc_seq (rm_scopes m)) = false.

(** At most [k] loads lead from [r] to an answer. *)
Definition returns (m : rcu_mem) (k : nat) (r : reader) : Prop :=
  ∃ found, within m k r (RDone found).

Lemma returns_done m k found : returns m k (RDone found).
Proof. exists found. apply (within_le _ 0); [lia|apply within_refl]. Qed.

Lemma returns_load m k r : returns m k (load m r) → returns m (S k) r.
Proof. intros [found Hw]. exists found. by apply within_load. Qed.

Lemma returns_after m k1 k2 k r r' :
  within m k1 r r' → returns m k2 r' → (k1 + k2 ≤ k)%nat → returns m k r.
Proof.
  intros H1 [found H2] Hk. exists found. eapply within_le; [exact Hk|].
  by eapply within_trans.
Qed.

Lemma returns_le m k k' r : (k ≤ k')%nat → returns m k r → returns m k' r.
Proof. intros Hk [found Hw]. exists found. by eapply within_le. Qed.

(** A walk of the chain, then the retry test. *)
Lemma returns_walk m k seq :
  mem_ok hash_min m → (∀ found, returns m k (LRetry seq found)) →
  returns m (chain_len m + S k) (LHead seq).
Proof.
  intros Hm Hr. rewrite Nat.add_succ_r. apply returns_load. simpl.
  unfold chain_len. destruct (chain_at hash_min (rm_scopes m) parent) as [|n r] eqn:Hc.
  - apply Hr.
  - destruct (walk_chain m seq [] n r Hm Hc) as [found Hw].
    eapply returns_after; [exact Hw|apply Hr|done].
Qed.

Lemma returns_round m k seq :
  mem_ok hash_min m → (∀ found, returns m k (LRetry seq found)) →
  returns m (chain_len m + S (S k)) (LGlobal seq).
Proof.
  intros Hm Hr. rewrite Nat.add_succ_r. apply returns_load. simpl.
  destruct (sc_global_users (rm_scopes m) =? 0); simpl.
  - by apply returns_walk.
  - eapply returns_le, Hr. lia.
Qed.

(** A round of the loop with the current count is the last one. *)
Lemma returns_begin m :
  mem_ok hash_min m → quiet_seq m → returns m (chain_len m + 4) LBegin.
Proof.
  intros Hm Hq. rewrite Nat.add_succ_r. apply returns_load. simpl. rewrite Hq.
  apply returns_round; [done|]. intros found. apply returns_load. simpl. rewrite Z.eqb_refl.
  apply returns_done.
Qed.

(** A test that fails starts one more round. *)
Lemma returns_retry m seq found :
  mem_ok hash_min m → quiet_seq m → returns m (chain_len m + 5) (LRetry seq found).
Proof.
  intros Hm Hq. rewrite Nat.add_succ_r. apply returns_load. simpl.
  destruct (_ =? _); [apply returns_done|by apply returns_begin].
Qed.

Definition call_bound (m : rcu_mem) : nat := 2 * chain_len m + stale_len m + 8.

(** The node the reader is at leads to the end of the chain. *)
Lemma node_returns c seq n :
  rcu_inv c → quiet_seq (rc_mem c) → rc_reader c = LNode seq n →
  returns (rc_mem c) (call_bound (rc_mem c)) (rc_reader c).
Proof.
  intros Hi Hq Hr. pose proof (rc_mem_ok hash_min parent _ Hi) as Hm. unfold call_bound.
  destruct (rc_at_node hash_min parent c seq n Hi Hr) as [Hn Hb]. rewrite Hr.
  destruct Hn as [Hn|Hn].
  - destruct (walk_indexed _ seq n Hm Hn Hb) as [found Hw].
    eapply returns_after; [exact Hw|by apply returns_retry|lia].
  - destruct (walk_stale _ seq (rm_stale (rc_mem c)) n Hm Hb Hn) as [found Hw]; [done|].
    eapply returns_after; [exact Hw|by apply returns_retry|unfold stale_len; lia].
Qed.

(** From any position the reader can be in. *)
Lemma reader_returns c :
  rcu_inv c → Z.even (rc_ticks c) = true →
  returns (rc_mem c) (call_bound (rc_mem c)) (rc_reader c).
Proof.
  intros Hi He. pose proof (rc_mem_ok hash_min parent _ Hi) as Hm.
  assert (quiet_seq (rc_mem c)) as Hq.
  { unfold quiet_seq. rewrite (rc_seq _ _ _ Hi). unfold u32. rewrite wrap_odd by done.
    by rewrite <- Z.negb_even, He. }
  pose proof (node_returns c) as Hnode. revert Hnode.
  generalize (rc_reader c). intros r Hnode. set (m := rc_mem c) in *.
  pose proof (returns_begin m Hm Hq) as Hb.
  assert (∀ s, returns m (chain_len m + 5) (RRetry s)) as HR.
  { intros s. rewrite Nat.add_succ_r. apply returns_load. simpl.
    destruct (_ =? _); [apply returns_done|done]. }
  assert (∀ s, returns m (chain_len m + 6) (RExact s)) as HE.
  { intros s. rewrite Nat.add_succ_r. apply returns_load. simpl.
    destruct (_ =? _); [apply HR|]. eapply returns_le, Hb. lia. }
  assert (∀ s, returns m (chain_len m + 7) (RGlobal s)) as HG.
  { intros s. rewrite Nat.add_succ_r. apply returns_load. simpl.
    destruct (_ =? _); [apply HE|]. eapply returns_le, Hb. lia. }
  destruct r as [|s|s|s| |s|s|s x|s b|b].
  - apply (returns_le _ (S (chain_len m + 7))); [unfold call_bound; lia|].
    apply returns_load. simpl. by rewrite Hq.
  - eapply returns_le, HG. unfold call_bound. lia.
  - eapply returns_le, HE. unfold call_bound. lia.
  - eapply returns_le, HR. unfold call_bound. lia.
  - eapply returns_le, Hb. unfold call_bound. lia.
  - eapply returns_le, (returns_round _ (chain_len m + 5)); [unfold call_bound; lia|done|].
    intros f. by apply returns_retry.
  - eapply returns_le, (returns_walk _ (chain_len m + 5)); [unfold call_bound; lia|done|].
    intros f. by apply returns_retry.
  - by eapply Hnode.
  - eapply returns_le, returns_retry; [unfold call_bound; lia|done|done].
  - apply returns_done.
Qed.

(** What is left for the finishing operations to do. *)
Definition finisher_work (f : scope_finisher) : nat :=
  match f with FSync _ => 3 | FGrace _ _ => 2 | FFree _ => 1 end.
Definition finishing_work (fs : list scope_finisher) : nat := sum_list (finisher_work <$> fs).

Lemma finishing_work_cons f fs :
  finishing_work (f :: fs) = (finisher_work f + finishing_work fs)%nat.
Proof. done. Qed.

Lemma reader_left_work b (fs : list scope_finisher) :
  finishing_work (reader_left b <$> fs) = finishing_work fs.
Proof.
  induction fs as [|f fs IH]; [done|]. rewrite fmap_cons, !finishing_work_cons, IH.
  by destruct f.
Qed.

(** Loads are steps. *)
Lemma iter_steps c k :
  ∃ fs, steps c (mk_conf (rc_mem c) (rc_code c) fs
                  (Nat.iter k (load (rc_mem c)) (rc_reader c)) (rc_ticks c)) ∧
    finishing_work fs = finishing_work (rc_finishing c).
Proof.
  destruct c as [m code fs r t]. simpl. induction k as [|k (fs' & Hs & Hw)]; [by exists fs|].
  eexists. split; [eapply rtc_r; [exact Hs|apply step_reader]|]. by rewrite reader_left_work.
Qed.

Lemma steps_core c c' :
  rcu_inv c → steps c c' → Z.even (rc_ticks c) = true → rc_ticks c' = rc_ticks c →
  core (scopes_of c') = core (scopes_of c).
Proof.
  intros Hi Hs. revert Hi. induction Hs as [|c c1 c' H Hs IH]; intros Hi He Ht; [done|].
  pose proof (step_ticks _ _ _ _ H). pose proof (steps_ticks _ _ _ _ Hs).
  assert (rc_ticks c1 = rc_ticks c) as Ht1 by lia.
  rewrite IH; [|by apply (rcu_inv_step hash_min hash_min_lt parent c)|congruence|lia].
  by apply (step_core hash_min parent).
Qed.

(** Run alone, a call is the prefilter of [Scopes]. *)
Lemma alone_answer c k found :
  rcu_inv c → Z.even (rc_ticks c) = true → rc_reader c = RBegin →
  Nat.iter k (load (rc_mem c)) (rc_reader c) = RDone found →
  found = namei_ext_parent_maybe_managed hash_min (scopes_of c) parent.
Proof.
  intros Hi He Hb Hk. destruct (iter_steps c k) as (fs & Hs & _). rewrite Hk in Hs.
  pose proof (knows_steps hash_min hash_min_lt parent c _ Hi Hb Hs) as Hn.
  destruct Hn as (c' & H0 & H1 & _ & <-); [simpl; lia|].
  apply (core_maybe_managed hash_min parent), steps_core; [done..|].
  apply steps_ticks in H0, H1. simpl in *. lia.
Qed.

(** C32: The prefilter returns: whenever no writer is in its section, a reader
    at any point of a call, even at a node since removed from the index,
    reaches its answer in a number of loads bounded by the nodes of its
    bucket and the removed nodes; and a whole call made then answers what the
    prefilter of the sequential model answers. *)
Theorem reader_returns_bounded c :
  steps boot_conf c → Z.even (rc_ticks c) = true →
  ∃ k found,
    (k ≤ 2 * length (chain_at hash_min (scopes_of c) parent) +
         length (rm_stale (rc_mem c)) + 8)%nat ∧
    Nat.iter k (reader_step hash_min parent (rc_mem c)) (rc_reader c) = RDone found ∧
    (rc_reader c = RBegin →
     found = namei_ext_parent_maybe_managed hash_min (scopes_of c) parent).
Proof.
  intros Hb He. pose proof (rcu_reachable_inv _ hash_min_lt _ _ Hb) as Hi.
  destruct (reader_returns c Hi He) as (found & k & Hk & Hr). exists k, found.
  split_and!; [exact Hk|exact Hr|]. intros Hrb. by eapply alone_answer.
Qed.

(** ** No deadlock *)

Definition waits_for_none (f : scope_finisher) : Prop :=
  match f with FGrace _ waits => waits = false | _ => True end.

Lemma reader_drains c :
  rcu_inv c → Z.even (rc_ticks c) = true →
  ∃ fs found, steps c (mk_conf (rc_mem c) (rc_code c) fs (RDone found) (rc_ticks c)) ∧
    finishing_work fs = finishing_work (rc_finishing c) ∧ Forall waits_for_none fs.
Proof.
  intros Hi He. destruct (reader_returns c Hi He) as (found & k & _ & Hr).
  destruct (iter_steps c k) as (fs & Hs & Hw). rewrite Hr in *.
  exists (reader_left false <$> fs), found. split_and!.
  - eapply rtc_r; [exact Hs|]. apply step_reader.
  - by rewrite reader_left_work.
  - apply Forall_fmap, list.Forall_true. intros [s|s w|s]; [done| |done]. apply andb_false_r.
Qed.

(** Once the lock is free, the finishing operations finish one by one. *)
Lemma finishing_drains n : ∀ c,
  rcu_inv c → rc_code c = [] → finishing_work (rc_finishing c) = n →
  ∃ c' found, steps c c' ∧ rc_code c' = [] ∧ rc_finishing c' = [] ∧ rc_reader c' = RDone found.
Proof.
  induction n as [n IH] using lt_wf_ind. intros c0 Hi0 Hc0 Hn.
  assert (∀ c c', steps c0 c → step c c' → rc_code c' = [] →
    (finishing_work (rc_finishing c') < n)%nat →
    ∃ c' found, steps c0 c' ∧ rc_code c' = [] ∧ rc_finishing c' = [] ∧ rc_reader c' = RDone found)
    as Hnext.
  { intros c c' Hs H Hc Hw. assert (steps c0 c') as Hs' by (by eapply rtc_r).
    destruct (IH _ Hw c' (rcu_inv_steps hash_min hash_min_lt parent _ _ Hs' Hi0) Hc eq_refl)
      as (c2 & found & ? & ?). exists c2, found. split; [by etrans|done]. }
  assert (Z.even (rc_ticks c0) = true) as He.
  { pose proof (rc_disciplined _ _ _ Hi0) as Hd. rewrite Hc0 in Hd. by destruct Hd. }
  destruct (reader_drains c0 Hi0 He) as (fs & found & Hs & Hw & Hfs). rewrite Hc0 in Hs.
  destruct fs as [|f fs]; [by do 2 eexists|]. rewrite <- Hn, <- Hw in *.
  apply Forall_cons in Hfs as [Hf _]. destruct f as [s|s w|s]; simpl in Hf; [|subst w|].
  - eapply Hnext; [exact Hs|apply (step_sync _ _ s _ _ [])|done|apply Nat.lt_succ_diag_r].
  - eapply Hnext; [exact Hs|apply (step_grace _ _ s _ _ [])|done|apply Nat.lt_succ_diag_r].
  - eapply Hnext; [exact Hs|apply (step_free _ _ s _ _ [])|done|apply Nat.lt_succ_diag_r].
Qed.

(** The operation that holds the lock waits for nobody. *)
Lemma code_drains code : ∀ c,
  rcu_inv c → rc_code c = code → ∃ c', steps c c' ∧ rc_code c' = [].
Proof.
  induction code as [|i code IH]; intros c Hi Hc; [by exists c|].
  destruct c as [m code' fs r t]. simpl in Hc. subst code'.
  assert (i = ISync ∨ i ≠ ISync) as [->|Hn] by (destruct i; (by left) || by right).
  - destruct (rc_graceful _ _ _ Hi) as [(s & Hs & _) _]. subst code.
    eexists. split; [eapply rtc_once, step_unlock|done].
  - pose proof (step_store hash_min parent i code m fs r t Hn) as H.
    destruct (IH _ (rcu_inv_step hash_min hash_min_lt parent _ _ H Hi) eq_refl) as (c' & Hs & ?).
    exists c'. split; [by eapply rtc_l|done].
Qed.

(** C31: Nothing blocks for ever: from every state that scope operations and
    readers can reach, whatever point each is at, there is a run in which the
    operation that holds the lock lets go of it, every operation that waits
    for a grace period gets it and frees its old set, and the reader returns.
    In particular synchronize_rcu never waits for a reader that waits for the
    sequence count to become even. *)
Theorem scope_updates_never_deadlock c :
  steps boot_conf c →
  ∃ c' found, steps c c' ∧ rc_code c' = [] ∧ rc_finishing c' = [] ∧ rc_reader c' = RDone found.
Proof.
  intros Hb. pose proof (rcu_reachable_inv _ hash_min_lt _ _ Hb) as Hi.
  destruct (code_drains _ c Hi eq_refl) as (c1 & H1 & Hc1).
  destruct (finishing_drains _ c1 (rcu_inv_steps hash_min hash_min_lt parent _ _ H1 Hi) Hc1 eq_refl)
    as (c2 & found & H2 & Hfin). exists c2, found. split; [by etrans|done].
Qed.
End live.
