(* ===== verification/ScopeApi.v ===== *)
(** * The interface between policy scopes and their clients

    What kernel/bpf/cgroup.c and fs/namei.c rely on from fs/namei_ext.c: the
    activity of a cgroup's policy can be set, a directory can be matched
    against a cgroup's scope, and the prefilter never rejects a directory an
    active policy matches. *)

From S2P Require Import Prelude Abi Kernel.

Class PolicyScopes (S : Type) := {
  ps_set_active : Z → bool → S → S;
  ps_release : Z → S → S;
  ps_active : S → Z → bool;
  ps_matches : S → Z → path → bool;
  ps_maybe_managed : S → path → bool
}.

Class PolicyScopesLaws (S : Type) `{PolicyScopes S} (inv : S → Prop) : Prop := {
  set_active_keeps cg b s : inv s → inv (ps_set_active cg b s);
  set_active_sets cg b s cg' :
    ps_active (ps_set_active cg b s) cg' = if decide (cg' = cg) then b else ps_active s cg';
  set_active_matches cg b s cg' p :
    ps_matches (ps_set_active cg b s) cg' p = ps_matches s cg' p;
  release_keeps cg s : inv s → inv (ps_release cg s);
  release_inactive cg s cg' :
    ps_active (ps_release cg s) cg' = if decide (cg' = cg) then false else ps_active s cg';
  prefilter_complete s cg p :
    inv s → ps_active s cg = true → ps_matches s cg p = true → ps_maybe_managed s p = true
}.
