(* ===== verification/ScopeSystem.v ===== *)
(** * The policy scopes implement the interface their clients use

    The scopes of fs/namei_ext.c, with their hash index and counters, are an
    instance of [PolicyScopes]: what kernel/bpf/cgroup.c and the path walk are
    verified against holds of the actual prefilter. *)

From S2P Require Import Prelude Abi Kernel Scopes ScopeFacts ScopeProps ScopeApi.

Section scopes_instance.
Context (hash_min : Z → nat) (hash_min_lt : ∀ k, (hash_min k < scope_buckets)%nat).

#[export] Instance scopes_policy : PolicyScopes scopes_state := {|
  ps_set_active := namei_ext_cgroup_set_scope_active;
  ps_release := namei_ext_cgroup_release_scopes hash_min;
  ps_active st cg := cs_active (cgroup_scope_of st cg);
  ps_matches := namei_ext_policy_parent_matches;
  ps_maybe_managed := namei_ext_parent_maybe_managed hash_min
|}.

(** Matching and activity depend only on what the specification shows. *)
Lemma view_active st cg : ps_active st cg = (scope_view st cg).2.
Proof. done. Qed.
Lemma view_matches st st' cg p :
  (scope_view st cg).1 = (scope_view st' cg).1 → ps_matches st cg p = ps_matches st' cg p.
Proof.
  simpl. unfold namei_ext_policy_parent_matches.
  destruct (cs_scopes (cgroup_scope_of st cg)), (cs_scopes (cgroup_scope_of st' cg));
    simpl; congruence.
Qed.

#[export] Instance scopes_policy_laws : PolicyScopesLaws scopes_state (scopes_inv hash_min).
Proof.
  split.
  - intros cg b st Hi. by apply (scope_step_inv hash_min hash_min_lt (OpSetActive cg b)).
  - intros cg b st cg'. rewrite !view_active. simpl ps_set_active.
    rewrite view_set_active. unfold spec_set. by case_decide.
  - intros cg b st cg' p. apply view_matches. simpl ps_set_active.
    rewrite view_set_active. unfold spec_set. by case_decide; subst.
  - intros cg st Hi. by apply (scope_step_inv hash_min hash_min_lt (OpRelease cg)).
  - intros cg st cg'. rewrite !view_active. simpl ps_release.
    rewrite view_release. unfold spec_set. by case_decide.
  - intros st cg p. by apply inv_prefilter_complete.
Qed.
End scopes_instance.
