(* ===== verification/Cgroups.v ===== *)
(** * Attachments and dispatch (kernel/bpf/cgroup.c)

    The programs attached to each cgroup, the effective program arrays and
    policy owners derived from them, and the dispatcher that runs a policy for
    a component.  The attach type is CGROUP_NAMEI_EXT throughout. *)

From S2P Require Import Prelude Abi Kernel ScopeApi.

(** ** Flags (include/uapi/linux/bpf.h) *)

Definition BPF_F_ALLOW_OVERRIDE : Z := 1.
Definition BPF_F_ALLOW_MULTI : Z := 2.
Definition BPF_F_REPLACE : Z := 4.
Definition BPF_F_BEFORE : Z := 8.
Definition BPF_F_AFTER : Z := 16.
Definition BPF_F_ID : Z := 32.
Definition BPF_F_PREORDER : Z := 64.
Definition BPF_F_LINK : Z := 8192.

(** [flags & f], as a condition *)
Definition has (flags f : Z) : bool := negb (Z.land flags f =? 0).

Definition BPF_CGROUP_MAX_PROGS : Z := 64.

(** ** State *)

(** struct bpf_prog_list *)
Record bpf_prog_list := mk_pl { pl_prog : Z; pl_link : Z; pl_flags : Z }.

#[export] Instance bpf_prog_list_inhabited : Inhabited bpf_prog_list :=
  populate (mk_pl NULL NULL 0).

(** The fields of struct cgroup and struct cgroup_bpf that namei_ext uses.
    An effective array is [None] for NULL and [Some []] for
    [bpf_empty_prog_array]; the terminating NULL item is left out. *)
Record cgroup := mk_cgroup {
  cg_parent : Z;
  cg_level : nat;
  cg_progs : list bpf_prog_list;
  cg_flags : Z;
  cg_effective : option (list Z);
  cg_inactive : option (list Z);
  cg_owner : Z;
  cg_revision : Z;
  cg_ref_zero : bool
}.

Definition set_progs (v : list bpf_prog_list) (c : cgroup) : cgroup :=
  mk_cgroup (cg_parent c) (cg_level c) v (cg_flags c) (cg_effective c)
    (cg_inactive c) (cg_owner c) (cg_revision c) (cg_ref_zero c).
Definition set_flags (v : Z) (c : cgroup) : cgroup :=
  mk_cgroup (cg_parent c) (cg_level c) (cg_progs c) v (cg_effective c)
    (cg_inactive c) (cg_owner c) (cg_revision c) (cg_ref_zero c).
Definition set_effective (v : option (list Z)) (c : cgroup) : cgroup :=
  mk_cgroup (cg_parent c) (cg_level c) (cg_progs c) (cg_flags c) v
    (cg_inactive c) (cg_owner c) (cg_revision c) (cg_ref_zero c).
Definition set_inactive (v : option (list Z)) (c : cgroup) : cgroup :=
  mk_cgroup (cg_parent c) (cg_level c) (cg_progs c) (cg_flags c) (cg_effective c)
    v (cg_owner c) (cg_revision c) (cg_ref_zero c).
Definition set_owner (v : Z) (c : cgroup) : cgroup :=
  mk_cgroup (cg_parent c) (cg_level c) (cg_progs c) (cg_flags c) (cg_effective c)
    (cg_inactive c) v (cg_revision c) (cg_ref_zero c).
Definition bump_revision (c : cgroup) : cgroup :=
  mk_cgroup (cg_parent c) (cg_level c) (cg_progs c) (cg_flags c) (cg_effective c)
    (cg_inactive c) (cg_owner c) (u64 (cg_revision c + 1)) (cg_ref_zero c).

(** [gs_links] maps a link to its program; [gs_enabled] is the count behind
    [cgroup_bpf_enabled_key]. *)
Record cgroups_state (S : Type) := mk_cgroups {
  gs_cgroups : gmap Z cgroup;
  gs_links : gmap Z Z;
  gs_scopes : S;
  gs_enabled : Z
}.
Arguments mk_cgroups {S} _ _ _ _.
Arguments gs_cgroups {S} _.
Arguments gs_links {S} _.
Arguments gs_scopes {S} _.
Arguments gs_enabled {S} _.

Definition no_cgroup : cgroup := mk_cgroup NULL 0 [] 0 None None NULL 0 true.

Section cgroups.
Context {S : Type} `{PolicyScopes S}.

Definition cgroup_of (st : cgroups_state S) (cg : Z) : cgroup :=
  default no_cgroup (gs_cgroups st !! cg).
Definition upd_cgroup (cg : Z) (f : cgroup → cgroup) (st : cgroups_state S)
  : cgroups_state S :=
  mk_cgroups (<[cg := f (cgroup_of st cg)]> (gs_cgroups st)) (gs_links st)
    (gs_scopes st) (gs_enabled st).
Definition upd_scopes (f : S → S) (st : cgroups_state S) : cgroups_state S :=
  mk_cgroups (gs_cgroups st) (gs_links st) (f (gs_scopes st)) (gs_enabled st).
Definition upd_enabled (d : Z) (st : cgroups_state S) : cgroups_state S :=
  mk_cgroups (gs_cgroups st) (gs_links st) (gs_scopes st) (gs_enabled st + d).

(** [for (p = cgrp; p; p = cgroup_parent(p))]: the cgroups visited, the
    nesting level bounding their number. *)
Fixpoint walk_parents (fuel : nat) (st : cgroups_state S) (p : Z) : list Z :=
  match fuel with
  | O => []
  | Datatypes.S fuel' =>
      if p =? NULL then [] else
      p :: walk_parents fuel' st (cg_parent (cgroup_of st p))
  end.
Definition cgroup_path (st : cgroups_state S) (cg : Z) : list Z :=
  walk_parents (Datatypes.S (cg_level (cgroup_of st cg))) st cg.

(** *** Program lists *)

Definition prog_list_prog (st : cgroups_state S) (pl : bpf_prog_list) : Z :=
  if negb (pl_prog pl =? NULL) then pl_prog pl else
  if negb (pl_link pl =? NULL) then default NULL (gs_links st !! pl_link pl) else
  NULL.

(** The entries that have a program. *)
Definition with_prog (st : cgroups_state S) (progs : list bpf_prog_list)
  : list bpf_prog_list := filter (λ pl, prog_list_prog st pl ≠ NULL) progs.

(** The count, and the number of preorder entries added to
    [*preorder_cnt]. *)
Definition prog_list_length (st : cgroups_state S) (progs : list bpf_prog_list)
  : nat * nat :=
  foldl (λ '(cnt, pre) pl,
    if prog_list_prog st pl =? NULL then (cnt, pre) else
    (Datatypes.S cnt, if has (pl_flags pl) BPF_F_PREORDER then Datatypes.S pre else pre))
    (0%nat, 0%nat) progs.

(** The loop over the proper ancestors of [cgrp]. *)
Fixpoint hierarchy_loop (st : cgroups_state S) (ancestors : list Z) : bool :=
  match ancestors with
  | [] => true
  | p :: rest =>
      let c := cgroup_of st p in
      if has (cg_flags c) BPF_F_ALLOW_MULTI then true else
      if bool_decide ((prog_list_length st (cg_progs c)).1 = 1%nat)
      then has (cg_flags c) BPF_F_ALLOW_OVERRIDE
      else hierarchy_loop st rest
  end.
Definition hierarchy_allows_attach (st : cgroups_state S) (cg : Z) : bool :=
  hierarchy_loop st (tail (cgroup_path st cg)).

(** *** Effective programs *)

(** The first loop: count, and count the preorder entries. *)
Fixpoint count_effective (st : cgroups_state S) (chain : list Z) (cnt pre : nat)
  : nat * nat :=
  match chain with
  | [] => (cnt, pre)
  | p :: rest =>
      let c := cgroup_of st p in
      if bool_decide (cnt = 0%nat) || has (cg_flags c) BPF_F_ALLOW_MULTI then
        let '(n, k) := prog_list_length st (cg_progs c) in
        count_effective st rest (cnt + n) (pre + k)
      else count_effective st rest cnt pre
  end.

(** The array being filled, and the cursors. *)
Record fill := mk_fill { f_items : list Z; f_cnt : nat; f_fstart : Z; f_bstart : Z }.

Definition store (items : list Z) (i : Z) (v : Z) : list Z := <[Z.to_nat i := v]> items.

Definition place (st : cgroups_state S) (f : fill) (pl : bpf_prog_list) : fill :=
  if prog_list_prog st pl =? NULL then f else
  if has (pl_flags pl) BPF_F_PREORDER then
    mk_fill (store (f_items f) (f_bstart f) (prog_list_prog st pl))
      (Datatypes.S (f_cnt f)) (f_fstart f) (f_bstart f - 1)
  else
    mk_fill (store (f_items f) (f_fstart f) (prog_list_prog st pl))
      (Datatypes.S (f_cnt f)) (f_fstart f + 1) (f_bstart f).

(** [for (i, j; i < j; i++, j--) swap(items[i], items[j])] *)
Fixpoint swap_loop (fuel : nat) (i j : Z) (items : list Z) : list Z :=
  match fuel with
  | O => items
  | Datatypes.S fuel' =>
      if i <? j then
        let a := items !!! Z.to_nat i in
        let b := items !!! Z.to_nat j in
        swap_loop fuel' (i + 1) (j - 1) (store (store items i b) j a)
      else items
  end.

Definition fill_level (st : cgroups_state S) (c : cgroup) (f : fill) : fill :=
  if negb (bool_decide (f_cnt f = 0%nat)) && negb (has (cg_flags c) BPF_F_ALLOW_MULTI)
  then f else
  let init_bstart := f_bstart f in
  let f' := foldl (place st) f (cg_progs c) in
  mk_fill (swap_loop (length (f_items f')) (f_bstart f' + 1) init_bstart (f_items f'))
    (f_cnt f') (f_fstart f') (f_bstart f').

Definition fill_levels (st : cgroups_state S) (chain : list Z) (f : fill) : fill :=
  foldl (λ f p, fill_level st (cgroup_of st p) f) f chain.

(** The new array, or [None] for -ENOMEM. *)
Definition compute_effective_progs (alloc_ok : bool) (st : cgroups_state S) (cg : Z)
  : option (list Z) :=
  let chain := cgroup_path st cg in
  let '(cnt, preorder_cnt) := count_effective st chain 0 0 in
  if negb alloc_ok then None else
  Some (f_items (fill_levels st chain
    (mk_fill (replicate cnt NULL) 0 (Z.of_nat preorder_cnt) (Z.of_nat preorder_cnt - 1)))).

(** The nearest cgroup of the chain with a program. *)
Fixpoint find_owner (st : cgroups_state S) (chain : list Z) : Z :=
  match chain with
  | [] => NULL
  | p :: rest =>
      if negb (bool_decide ((prog_list_length st (cg_progs (cgroup_of st p))).1 = 0%nat))
      then p else find_owner st rest
  end.

Definition activate_effective_progs (cg : Z) (array : option (list Z))
  (st : cgroups_state S) : cgroups_state S :=
  let st := upd_cgroup cg (set_effective array) st in
  let owner := find_owner st (cgroup_path st cg) in
  let st := if owner =? cg then upd_scopes (ps_set_active cg true) st else st in
  let st := upd_cgroup cg (set_owner owner) st in
  if negb (owner =? cg) then upd_scopes (ps_set_active cg false) st else st.

(** The two passes of [update_effective_progs] over the descendants, in the
    order of [css_for_each_descendant_pre]; [alloc d] says whether the array
    of [d] can be allocated. *)
Fixpoint compute_all (alloc : Z → bool) (descs : list Z) (st : cgroups_state S)
  : bool * cgroups_state S :=
  match descs with
  | [] => (true, st)
  | d :: rest =>
      if cg_ref_zero (cgroup_of st d) then compute_all alloc rest st else
      match compute_effective_progs (alloc d) st d with
      | None => (false, st)
      | Some array => compute_all alloc rest (upd_cgroup d (set_inactive (Some array)) st)
      end
  end.

Definition activate_one (st : cgroups_state S) (d : Z) : cgroups_state S :=
  if cg_ref_zero (cgroup_of st d) then upd_cgroup d (set_inactive None) st else
  upd_cgroup d (set_inactive None)
    (activate_effective_progs d (cg_inactive (cgroup_of st d)) st).

Definition update_effective_progs (alloc : Z → bool) (descs : list Z)
  (st : cgroups_state S) : Z * cgroups_state S :=
  let '(ok, st) := compute_all alloc descs st in
  if ok then (0, foldl activate_one st descs)
  else (- ENOMEM, foldl (λ st d, upd_cgroup d (set_inactive None) st) st descs).

(** *** Attaching *)

(** A position in a program list: an entry, NULL, or ERR_PTR. *)
Inductive entry := Found (i : nat) | Nothing | Err (e : Z).

Definition find_index {A} (f : A → bool) (l : list A) : option nat :=
  fst <$> list_find (λ x, f x = true) l.

Definition find_attach_entry (progs : list bpf_prog_list) (prog link replace_prog : Z)
  (allow_multi : bool) : entry :=
  if negb allow_multi then
    match progs with [] => Nothing | _ :: _ => Found 0 end
  else if existsb (λ pl,
      (negb (prog =? NULL) && (pl_prog pl =? prog) && negb (prog =? replace_prog)) ||
      (negb (link =? NULL) && (pl_link pl =? link))) progs
  then Err (- EINVAL)
  else if negb (replace_prog =? NULL) then
    match find_index (λ pl, pl_prog pl =? replace_prog) progs with
    | Some i => Found i
    | None => Err (- ENOENT)
    end
  else Nothing.

(** [bpf_link_by_id], [bpf_link_get_from_fd], [bpf_prog_by_id] and
    [bpf_prog_get]: an error or a pointer. *)
Variables (bpf_link_by_id bpf_link_get_from_fd bpf_prog_by_id bpf_prog_get : Z → Z + Z).

Definition bpf_get_anchor_link (flags id_or_fd : Z) : Z + Z :=
  if has flags BPF_F_ID then bpf_link_by_id id_or_fd else
  if negb (id_or_fd =? 0) then bpf_link_get_from_fd id_or_fd else
  inl (- EINVAL).

Definition bpf_get_anchor_prog (flags id_or_fd : Z) : Z + Z :=
  if has flags BPF_F_ID then bpf_prog_by_id id_or_fd else
  if negb (id_or_fd =? 0) then bpf_prog_get id_or_fd else
  inl (- EINVAL).

(** The anchor entry: the one holding [anchor_prog] or [anchor_link]. *)
Definition find_anchor (progs : list bpf_prog_list) (anchor_prog anchor_link : Z)
  (preorder : bool) : entry :=
  if (anchor_prog =? NULL) && (anchor_link =? NULL) then Err (- ENOENT) else
  match list_find (λ pl,
      ((negb (anchor_prog =? NULL) && (anchor_prog =? pl_prog pl)) ||
       (negb (anchor_link =? NULL) && (anchor_link =? pl_link pl))) = true) progs with
  | Some (i, pl) =>
      if negb (Bool.eqb (has (pl_flags pl) BPF_F_PREORDER) preorder)
      then Err (- EINVAL) else Found i
  | None => Err (- ENOENT)
  end.

Definition get_prog_list (progs : list bpf_prog_list) (prog link flags id_or_fd : Z)
  : entry :=
  let is_link := has flags BPF_F_LINK in
  let is_id := has flags BPF_F_ID in
  let preorder := has flags BPF_F_PREORDER in
  let is_before := has flags BPF_F_BEFORE in
  let is_after := has flags BPF_F_AFTER in
  let relative := is_link || is_id || negb (id_or_fd =? 0) in
  if relative && Bool.eqb is_before is_after then Err (- EINVAL) else
  if relative && ((is_link && (link =? NULL)) || (negb is_link && (prog =? NULL)))
  then Err (- EINVAL) else
  if negb relative && bool_decide (progs ≠ []) && is_before && is_after
  then Err (- EINVAL) else
  if is_link then
    match bpf_get_anchor_link flags id_or_fd with
    | inl e => Err e
    | inr anchor_link => find_anchor progs NULL anchor_link preorder
    end
  else if is_id || negb (id_or_fd =? 0) then
    match bpf_get_anchor_prog flags id_or_fd with
    | inl e => Err e
    | inr anchor_prog => find_anchor progs anchor_prog NULL preorder
    end
  else
    match progs with
    | [] => Nothing
    | _ :: rest => if is_before then Found 0 else Found (length rest)
    end.

(** The program list after the insertion, or the error, and the position of
    the new entry. *)
Definition insert_pl_to_hlist (pl : bpf_prog_list) (progs : list bpf_prog_list)
  (prog link flags id_or_fd : Z) : Z + (nat * list bpf_prog_list) :=
  match get_prog_list progs prog link flags id_or_fd with
  | Err e => inl e
  | Nothing => inr (0%nat, pl :: progs)
  | Found i =>
      let j := if has flags BPF_F_BEFORE then i else Datatypes.S i in
      inr (j, take j progs ++ pl :: drop j progs)
  end.

(** The resources of one attachment: cgroup storages, the list entry, and
    the effective array of each descendant. *)
Record allocs := mk_allocs {
  storages_ok : bool; entry_ok : bool; array_ok : Z → bool }.

Definition cgroup_bpf_attach_args_ok (prog link replace_prog flags : Z) : bool :=
  negb ((has flags BPF_F_ALLOW_OVERRIDE && has flags BPF_F_ALLOW_MULTI) ||
        (has flags BPF_F_REPLACE && negb (has flags BPF_F_ALLOW_MULTI))) &&
  negb (has flags BPF_F_REPLACE && has flags (BPF_F_BEFORE + BPF_F_AFTER)) &&
  negb (negb (link =? NULL) && (negb (prog =? NULL) || negb (replace_prog =? NULL))) &&
  Bool.eqb (negb (replace_prog =? NULL)) (has flags BPF_F_REPLACE).

(** Entry [i] of the list, with [old_prog], becomes the new attachment and
    the descendants are updated; a failure undoes the change. *)
Definition attach_entry (al : allocs) (descs : list Z) (cg : Z)
  (progs : list bpf_prog_list) (i : nat) (old_prog prog link flags : Z)
  (st : cgroups_state S) : Z * cgroups_state S :=
  let saved_flags := Z.land flags (Z.lor BPF_F_ALLOW_OVERRIDE BPF_F_ALLOW_MULTI) in
  let pl := mk_pl prog link flags in
  let st := upd_cgroup cg (set_progs (<[i := pl]> progs)) st in
  let st := upd_cgroup cg (set_flags saved_flags) st in
  let '(err, st) := update_effective_progs (array_ok al) descs st in
  if negb (err =? 0) then
    if negb (old_prog =? NULL) then
      (err, upd_cgroup cg (set_progs (<[i := mk_pl old_prog NULL flags]> progs)) st)
    else (err, upd_cgroup cg (set_progs (delete i progs)) st)
  else
    let st := upd_cgroup cg bump_revision st in
    if negb (old_prog =? NULL) then (0, st) else (0, upd_enabled 1 st).

Definition cgroup_bpf_attach (al : allocs) (descs : list Z) (cg : Z)
  (prog replace_prog link flags id_or_fd revision : Z) (st : cgroups_state S)
  : Z * cgroups_state S :=
  let c := cgroup_of st cg in
  let saved_flags := Z.land flags (Z.lor BPF_F_ALLOW_OVERRIDE BPF_F_ALLOW_MULTI) in
  if negb (cgroup_bpf_attach_args_ok prog link replace_prog flags) then (- EINVAL, st) else
  if negb (revision =? 0) && negb (revision =? cg_revision c) then (- ESTALE, st) else
  let progs := cg_progs c in
  if negb (hierarchy_allows_attach st cg) then (- EPERM, st) else
  if bool_decide (progs ≠ []) && negb (cg_flags c =? saved_flags) then (- EPERM, st) else
  if BPF_CGROUP_MAX_PROGS <=? Z.of_nat (prog_list_length st progs).1 then (- E2BIG, st) else
  match find_attach_entry progs prog link replace_prog (has flags BPF_F_ALLOW_MULTI) with
  | Err e => (e, st)
  | Found i =>
      if negb (storages_ok al) then (- ENOMEM, st) else
      let old_prog := match progs !! i with Some pl => pl_prog pl | None => NULL end in
      attach_entry al descs cg progs i old_prog prog link flags st
  | Nothing =>
      if negb (storages_ok al) then (- ENOMEM, st) else
      if negb (entry_ok al) then (- ENOMEM, st) else
      match insert_pl_to_hlist (mk_pl NULL NULL 0) progs prog link flags id_or_fd with
      | inl e => (e, st)
      | inr (i, progs') => attach_entry al descs cg progs' i NULL prog link flags st
      end
  end.

(** *** Detaching *)

Definition find_detach_entry (progs : list bpf_prog_list) (prog link : Z)
  (allow_multi : bool) : entry :=
  if negb allow_multi then
    match progs with [] => Err (- ENOENT) | _ :: _ => Found 0 end
  else if (prog =? NULL) && (link =? NULL) then Err (- EINVAL) else
  match find_index (λ pl, (pl_prog pl =? prog) && (pl_link pl =? link)) progs with
  | Some i => Found i
  | None => Err (- ENOENT)
  end.

(** [bpf_prog_array_delete_safe_at] of kernel/bpf/core.c *)
Variable bpf_prog_array_delete_safe_at : list Z → nat → list Z.

(** The position of the entry in one level: [inl] the entry, [inr] the
    position after the level. *)
Fixpoint purge_level (st : cgroups_state S) (match_pl : bpf_prog_list → bool)
  (progs : list bpf_prog_list) (pos : nat) : nat + nat :=
  match progs with
  | [] => inr pos
  | pl :: rest =>
      if prog_list_prog st pl =? NULL then purge_level st match_pl rest pos else
      if match_pl pl then inl pos
      else purge_level st match_pl rest (Datatypes.S pos)
  end.

Fixpoint purge_position (st : cgroups_state S) (match_pl : bpf_prog_list → bool)
  (chain : list Z) (pos : nat) : option nat :=
  match chain with
  | [] => None
  | p :: rest =>
      let c := cgroup_of st p in
      if negb (bool_decide (pos = 0%nat)) && negb (has (cg_flags c) BPF_F_ALLOW_MULTI)
      then purge_position st match_pl rest pos else
      match purge_level st match_pl (cg_progs c) pos with
      | inl pos => Some pos
      | inr pos => purge_position st match_pl rest pos
      end
  end.

Definition purge_one (prog link : Z) (st : cgroups_state S) (d : Z) : cgroups_state S :=
  if cg_ref_zero (cgroup_of st d) then st else
  match purge_position st (λ pl, (pl_prog pl =? prog) && (pl_link pl =? link))
          (cgroup_path st d) 0 with
  | None => st
  | Some pos =>
      upd_cgroup d (set_effective
        ((λ items, bpf_prog_array_delete_safe_at items pos) <$>
           cg_effective (cgroup_of st d))) st
  end.

Definition purge_effective_progs (descs : list Z) (prog link : Z) (st : cgroups_state S)
  : cgroups_state S := foldl (purge_one prog link) st descs.

Definition cgroup_bpf_detach (al : allocs) (descs : list Z) (cg prog link revision : Z)
  (st : cgroups_state S) : Z * cgroups_state S :=
  let c := cgroup_of st cg in
  if negb (revision =? 0) && negb (revision =? cg_revision c) then (- ESTALE, st) else
  if negb (prog =? NULL) && negb (link =? NULL) then (- EINVAL, st) else
  match find_detach_entry (cg_progs c) prog link (has (cg_flags c) BPF_F_ALLOW_MULTI) with
  | Err e => (e, st)
  | Nothing => (- ENOENT, st)
  | Found i =>
      let pl := cg_progs c !!! i in
      let old_prog := pl_prog pl in
      let st := upd_cgroup cg (set_progs (<[i := mk_pl NULL NULL (pl_flags pl)]> (cg_progs c))) st in
      let '(err, st) := update_effective_progs (array_ok al) descs st in
      let st :=
        if negb (err =? 0) then
          purge_effective_progs descs old_prog link
            (upd_cgroup cg (set_progs (<[i := mk_pl old_prog link (pl_flags pl)]> (cg_progs c))) st)
        else st in
      let st := upd_cgroup cg (set_progs (delete i (cg_progs c))) st in
      let st := upd_cgroup cg bump_revision st in
      let st :=
        match cg_progs (cgroup_of st cg) with
        | [] => upd_cgroup cg (set_flags 0) st
        | _ :: _ => st
        end in
      (0, upd_enabled (-1) st)
  end.
End cgroups.
