(* ===== verification/EffectiveFacts.v ===== *)
(** * The effective array is what its specification says

    [compute_effective_progs] counts, allocates and fills an array in place,
    with two cursors and a reversal per level.  Its result is the preorder
    programs from the root down, then the other programs from the cgroup up,
    of the levels that contribute. *)

From S2P Require Import Prelude Abi Kernel ScopeApi Cgroups.

Section effective.
Context {S : Type} `{PolicyScopes S}.
Implicit Types st : cgroups_state S.

(** ** Reference definition *)

(** The levels that contribute: all up to the first with a program, and
    beyond it those that allow several programs. *)
Fixpoint effective_levels st (started : bool) (chain : list Z) : list (list bpf_prog_list) :=
  match chain with
  | [] => []
  | p :: rest =>
      let c := cgroup_of st p in
      if started && negb (has (cg_flags c) BPF_F_ALLOW_MULTI)
      then effective_levels st started rest
      else
        let pls := with_prog st (cg_progs c) in
        pls :: effective_levels st (started || bool_decide (pls ≠ [])) rest
  end.

Definition is_preorder (pl : bpf_prog_list) : bool := has (pl_flags pl) BPF_F_PREORDER.
Definition preorder_progs st (pls : list bpf_prog_list) : list Z :=
  prog_list_prog st <$> filter (λ pl, is_preorder pl = true) pls.
Definition postorder_progs st (pls : list bpf_prog_list) : list Z :=
  prog_list_prog st <$> filter (λ pl, is_preorder pl = false) pls.

Definition effective_spec st (cg : Z) : list Z :=
  let levels := effective_levels st false (cgroup_path st cg) in
  concat (reverse (preorder_progs st <$> levels)) ++
  concat (postorder_progs st <$> levels).

(** ** The reversal loop *)

Lemma store_middle l x r v : store (l ++ x :: r) (Z.of_nat (length l)) v = l ++ v :: r.
Proof.
  unfold store. rewrite Nat2Z.id. rewrite insert_app_r_alt by lia.
  by rewrite Nat.sub_diag.
Qed.
Lemma lookup_middle (l r : list Z) x : (l ++ x :: r) !!! Z.to_nat (Z.of_nat (length l)) = x.
Proof.
  rewrite Nat2Z.id, lookup_total_app_r by lia. by rewrite Nat.sub_diag.
Qed.

Lemma swap_loop_spec fuel l seg r :
  (length seg ≤ fuel)%nat →
  swap_loop fuel (Z.of_nat (length l)) (Z.of_nat (length l) + Z.of_nat (length seg) - 1)
    (l ++ seg ++ r) = l ++ reverse seg ++ r.
Proof.
  revert l seg r. induction fuel as [|fuel IH]; intros l seg r Hf; simpl.
  { by destruct seg; [|simpl in Hf; lia]. }
  destruct seg as [|a seg]; [case_match; unfold_bools; [simpl in *; lia|done]|].
  destruct seg as [|b seg _] using rev_ind.
  { simpl. case_match; unfold_bools; [lia|done]. }
  rewrite length_cons, length_app in *. cbn [length] in *.
  rewrite (proj2 (Z.ltb_lt _ _)) by lia.
  replace (l ++ (a :: seg ++ [b]) ++ r) with ((l ++ a :: seg) ++ b :: r)
    by (by simpl; rewrite <- !app_assoc).
  replace (Z.of_nat (length l) + Z.of_nat (Datatypes.S (length seg + 1)) - 1)
    with (Z.of_nat (length (l ++ a :: seg)))
    by (rewrite length_app; simpl; lia).
  rewrite lookup_middle. rewrite <- (app_assoc l), <- app_comm_cons, lookup_middle.
  rewrite store_middle.
  replace (l ++ b :: seg ++ b :: r) with ((l ++ b :: seg) ++ b :: r)
    by (by rewrite <- app_assoc).
  replace (Z.of_nat (length (l ++ a :: seg))) with (Z.of_nat (length (l ++ b :: seg)))
    by (rewrite !length_app; done).
  rewrite store_middle.
  replace ((l ++ b :: seg) ++ a :: r) with ((l ++ [b]) ++ seg ++ a :: r)
    by (by rewrite <- !app_assoc).
  replace (Z.of_nat (length l) + 1) with (Z.of_nat (length (l ++ [b])))
    by (rewrite length_app; simpl; lia).
  replace (Z.of_nat (length (l ++ b :: seg)) - 1)
    with (Z.of_nat (length (l ++ [b])) + Z.of_nat (length seg) - 1)
    by (rewrite !length_app; simpl; lia).
  rewrite IH by lia.
  rewrite reverse_cons, reverse_app. simpl. by rewrite <- !app_assoc.
Qed.

(** ** Counting *)

Definition count_pre (pls : list bpf_prog_list) : nat :=
  length (filter (λ pl, is_preorder pl = true) pls).

Lemma prog_list_length_acc st progs cnt pre :
  foldl (λ '(cnt, pre) pl,
    if prog_list_prog st pl =? NULL then (cnt, pre) else
    (Datatypes.S cnt, if has (pl_flags pl) BPF_F_PREORDER then Datatypes.S pre else pre))
    (cnt, pre) progs
  = ((cnt + length (with_prog st progs))%nat,
     (pre + count_pre (with_prog st progs))%nat).
Proof.
  revert cnt pre. induction progs as [|pl progs IH]; intros cnt pre; simpl.
  { by rewrite !Nat.add_0_r. }
  unfold with_prog, count_pre in *. rewrite filter_cons.
  destruct (prog_list_prog st pl =? NULL) eqn:E; unfold_bools.
  - rewrite decide_False by tauto. apply IH.
  - rewrite decide_True by done. rewrite IH, filter_cons. unfold is_preorder.
    destruct (has (pl_flags pl) BPF_F_PREORDER); simpl; f_equal; lia.
Qed.
Lemma prog_list_length_eq st progs :
  prog_list_length st progs =
    (length (with_prog st progs), count_pre (with_prog st progs)).
Proof. apply prog_list_length_acc. Qed.

Definition total (f : list bpf_prog_list → nat) (levels : list (list bpf_prog_list)) : nat :=
  sum_list_with f levels.

Lemma count_effective_eq st chain cnt pre :
  count_effective st chain cnt pre =
    let levels := effective_levels st (negb (bool_decide (cnt = 0%nat))) chain in
    ((cnt + total length levels)%nat, (pre + total count_pre levels)%nat).
Proof.
  revert cnt pre. induction chain as [|p chain IH]; intros cnt pre; simpl.
  { by rewrite !Nat.add_0_r. }
  rewrite <- (negb_involutive (bool_decide (cnt = 0%nat) || _)), negb_orb.
  destruct (negb (bool_decide (cnt = 0%nat)) && _) eqn:E; simpl; [apply IH|].
  rewrite prog_list_length_eq, IH. simpl.
  set (pls := with_prog st (cg_progs (cgroup_of st p))).
  replace (negb (bool_decide ((cnt + length pls)%nat = 0%nat)))
    with (negb (bool_decide (cnt = 0%nat)) || bool_decide (pls ≠ [])).
  - f_equal; lia.
  - destruct pls; simpl; repeat case_bool_decide; simpl; try done; lia.
Qed.

(** ** Filling *)

(** The array when [b] preorder slots and [k] other slots are still free. *)
Definition filled (b : nat) (P N : list Z) (k : nat) : fill :=
  mk_fill (replicate b NULL ++ P ++ N ++ replicate k NULL)
    (length P + length N)
    (Z.of_nat b + Z.of_nat (length P) + Z.of_nat (length N)) (Z.of_nat b - 1).

Lemma place_pre st b P N k pl :
  prog_list_prog st pl ≠ NULL → is_preorder pl = true →
  place st (filled (Datatypes.S b) P N k) pl = filled b (prog_list_prog st pl :: P) N k.
Proof.
  unfold place, is_preorder, filled. intros Hp ->. rewrite (proj2 (Z.eqb_neq _ _) Hp).
  cbn [f_items f_cnt f_fstart f_bstart]. f_equal; simpl length; try lia.
  rewrite replicate_S_end, <- app_assoc. simpl.
  replace (Z.of_nat (Datatypes.S b) - 1)
    with (Z.of_nat (length (replicate b NULL))) by (rewrite length_replicate; lia).
  apply store_middle.
Qed.
Lemma place_post st b P N k pl :
  prog_list_prog st pl ≠ NULL → is_preorder pl = false →
  place st (filled b P N (Datatypes.S k)) pl = filled b P (N ++ [prog_list_prog st pl]) k.
Proof.
  unfold place, is_preorder, filled. intros Hp ->. rewrite (proj2 (Z.eqb_neq _ _) Hp).
  cbn [f_items f_cnt f_fstart f_bstart]. rewrite length_app. cbn [length].
  f_equal; try lia. simpl replicate.
  replace (Z.of_nat b + Z.of_nat (length P) + Z.of_nat (length N))
    with (Z.of_nat (length (replicate b NULL ++ P ++ N)))
    by (rewrite !length_app, length_replicate; lia).
  rewrite (app_assoc P), (app_assoc (replicate b NULL)), store_middle.
  by rewrite <- !app_assoc.
Qed.

Lemma place_level st progs b P N k :
  foldl (place st) (filled (b + count_pre (with_prog st progs)) P N
    (length (postorder_progs st (with_prog st progs)) + k)) progs =
  filled b (reverse (preorder_progs st (with_prog st progs)) ++ P)
    (N ++ postorder_progs st (with_prog st progs)) k.
Proof.
  revert P N. induction progs as [|pl progs IH]; intros P N.
  { simpl. by rewrite Nat.add_0_r, app_nil_r. }
  cbn [foldl]. unfold with_prog in *. rewrite filter_cons.
  destruct (decide (prog_list_prog st pl ≠ NULL)) as [Hp|Hp].
  2:{ rewrite <- IH. f_equal. unfold place. rewrite (proj2 (Z.eqb_eq _ _)); [done|].
      by apply dec_stable. }
  unfold count_pre, preorder_progs, postorder_progs in *. rewrite !filter_cons.
  destruct (is_preorder pl) eqn:E.
  - rewrite !(decide_True (P:=true = true)), !(decide_False (P:=true = false)) by done.
    cbn [length]. rewrite Nat.add_succ_r, place_pre by done.
    rewrite IH, fmap_cons, reverse_cons, <- app_assoc. done.
  - rewrite !(decide_False (P:=false = true)), !(decide_True (P:=false = false)) by done.
    rewrite fmap_cons. cbn [length]. rewrite Nat.add_succ_l, place_post by done.
    rewrite IH, <- app_assoc. done.
Qed.

Lemma length_preorder st pls : length (preorder_progs st pls) = count_pre pls.
Proof. unfold preorder_progs. by rewrite length_fmap. Qed.

Lemma fill_level_eq st c b P N k :
  let pls := with_prog st (cg_progs c) in
  (P = [] ∧ N = [] ∨ has (cg_flags c) BPF_F_ALLOW_MULTI = true) →
  fill_level st c (filled (b + count_pre pls) P N (length (postorder_progs st pls) + k)) =
    filled b (preorder_progs st pls ++ P) (N ++ postorder_progs st pls) k.
Proof.
  intros pls Hsel. unfold fill_level, pls. rewrite place_level. fold pls.
  assert (negb (bool_decide (f_cnt (filled (b + count_pre pls) P N
    (length (postorder_progs st pls) + k)) = 0%nat)) &&
    negb (has (cg_flags c) BPF_F_ALLOW_MULTI) = false) as ->.
  { destruct Hsel as [[-> ->]| ->]; [done|]. apply andb_false_r. }
  unfold filled. cbn [f_items f_cnt f_fstart f_bstart].
  rewrite !length_app, length_reverse.
  replace (Z.of_nat b - 1 + 1) with (Z.of_nat (length (replicate b NULL)))
    by (rewrite length_replicate; lia).
  rewrite <- (app_assoc (reverse _)).
  replace (Z.of_nat (b + count_pre pls) - 1)
    with (Z.of_nat (length (replicate b NULL)) +
          Z.of_nat (length (reverse (preorder_progs st pls))) - 1)
    by (rewrite length_replicate, length_reverse, length_preorder; lia).
  rewrite swap_loop_spec, reverse_involutive by (rewrite length_reverse; lia).
  f_equal. by rewrite !app_assoc.
Qed.

Lemma fill_levels_eq st chain P N :
  let levels := effective_levels st (bool_decide ((length P + length N)%nat ≠ 0%nat)) chain in
  f_items (fill_levels st chain (filled (total count_pre levels) P N
    (total (λ pls, length (postorder_progs st pls)) levels))) =
  concat (reverse (preorder_progs st <$> levels)) ++ P ++ N ++
  concat (postorder_progs st <$> levels).
Proof.
  revert P N. induction chain as [|p chain IH]; intros P N; simpl.
  { by rewrite !app_nil_r. }
  unfold fill_levels in *. simpl.
  set (c := cgroup_of st p). set (pls := with_prog st (cg_progs c)).
  destruct (bool_decide ((length P + length N)%nat ≠ 0%nat) &&
            negb (has (cg_flags c) BPF_F_ALLOW_MULTI)) eqn:E.
  - rewrite <- IH. f_equal. f_equal. unfold fill_level, filled at 1.
    cbn [f_cnt]. apply andb_true_iff in E as [E1 ->]. unfold_bools.
    rewrite bool_decide_false by done. done.
  - simpl.
    rewrite (Nat.add_comm (count_pre pls)).
    rewrite fill_level_eq.
    2:{ apply andb_false_iff in E as [E|E]; unfold_bools; [left|by right].
        destruct P, N; simpl in E; [done|exfalso; apply E; lia..]. }
    fold pls.
    assert ((bool_decide ((length P + length N)%nat ≠ 0%nat) || bool_decide (pls ≠ [])) =
      bool_decide ((length (preorder_progs st pls ++ P) +
        length (N ++ postorder_progs st pls))%nat ≠ 0%nat)) as ->.
    { assert ((length (preorder_progs st pls) + length (postorder_progs st pls))%nat
        = length pls) as Hl.
      { unfold preorder_progs, postorder_progs. rewrite !length_fmap. clear.
        induction pls as [|pl pls IHp]; [done|]. rewrite !filter_cons.
        destruct (is_preorder pl); simpl in *; lia. }
      rewrite !length_app. destruct pls as [|pl pls']; simpl in *;
        repeat case_bool_decide; simpl; try done; lia. }
    rewrite IH, reverse_cons, concat_app. simpl. by rewrite app_nil_r, <- !app_assoc.
Qed.

Lemma total_split st levels :
  total length levels =
    (total count_pre levels + total (λ pls, length (postorder_progs st pls)) levels)%nat.
Proof.
  unfold total, count_pre, postorder_progs.
  induction levels as [|pls levels IH]; simpl; [done|]. rewrite IH, length_fmap.
  assert (length pls = (length (filter (λ pl, is_preorder pl = true) pls) +
    length (filter (λ pl, is_preorder pl = false) pls))%nat); [|lia].
  clear. induction pls as [|pl pls IHp]; [done|]. rewrite !filter_cons.
  destruct (is_preorder pl); simpl in *; lia.
Qed.

Lemma compute_effective_eq st cg :
  compute_effective_progs true st cg = Some (effective_spec st cg).
Proof.
  unfold compute_effective_progs, effective_spec.
  rewrite count_effective_eq. simpl. f_equal.
  set (levels := effective_levels st false (cgroup_path st cg)).
  rewrite (total_split st), replicate_add.
  pose proof (fill_levels_eq st (cgroup_path st cg) [] []) as Hf. simpl in Hf.
  fold levels in Hf. rewrite <- Hf. f_equal. f_equal. unfold filled. simpl.
  by rewrite !Z.add_0_r.
Qed.
End effective.
