(* ===== verification/Dispatch.v ===== *)
(** * Link replacement, cgroup lifetime and policy dispatch (kernel/bpf/cgroup.c) *)

From S2P Require Import Prelude Abi Kernel ScopeApi Cgroups.

Section lifetime.
Context {S : Type} `{PolicyScopes S}.

(** ** Replacing the program of a link *)

(** [BUG_ON(!cg)] is [None]. *)
Definition replace_one (link : Z) (st : option (cgroups_state S)) (d : Z)
  : option (cgroups_state S) :=
  st ← st;
  if cg_ref_zero (cgroup_of st d) then Some st else
  pos ← purge_position st (λ pl, pl_link pl =? link) (cgroup_path st d) 0;
  Some (upd_cgroup d (set_effective
    ((λ items, <[pos := default NULL (gs_links st !! link)]> items) <$>
       cg_effective (cgroup_of st d))) st).

Definition replace_effective_prog (descs : list Z) (link : Z) (st : cgroups_state S)
  : option (cgroups_state S) := foldl (replace_one link) (Some st) descs.

(** [same_type]: the old and the new program have the same type. *)
Definition cgroup_bpf_replace_link (descs : list Z) (cg link new_prog : Z)
  (same_type : bool) (st : cgroups_state S) : option (Z * cgroups_state S) :=
  if negb same_type then Some (- EINVAL, st) else
  if negb (existsb (λ pl, pl_link pl =? link) (cg_progs (cgroup_of st cg)))
  then Some (- ENOENT, st) else
  let st := upd_cgroup cg bump_revision st in
  let st := mk_cgroups (gs_cgroups st) (<[link := new_prog]> (gs_links st))
              (gs_scopes st) (gs_enabled st) in
  st ← replace_effective_prog descs link st;
  Some (0, st).

(** ** Cgroup lifetime *)

(** [cgroup_bpf_inherit] of a cgroup just linked under its parent, with no
    program: compute and activate its own array. *)
Definition cgroup_bpf_inherit (alloc_ok : bool) (cg : Z) (st : cgroups_state S)
  : Z * cgroups_state S :=
  let st := upd_cgroup cg (set_progs []) st in
  match compute_effective_progs alloc_ok st cg with
  | None => (- ENOMEM, st)
  | Some array => (0, activate_effective_progs cg (Some array) st)
  end.

(** [cgroup_bpf_release]: drop every attachment and the cgroup's scope.  The
    owner pointer is left as it is: nothing can reach it any more. *)
Definition cgroup_bpf_release (cg : Z) (st : cgroups_state S) : cgroups_state S :=
  let n := Z.of_nat (length (cg_progs (cgroup_of st cg))) in
  let st := upd_cgroup cg (set_progs []) st in
  let st := upd_enabled (- n) st in
  upd_scopes (ps_release cg) st.
End lifetime.

Section dispatch.
Context {S W : Type} `{PolicyScopes S}.

(** What [bpf_prog_run] does, by program. *)
Variable bpf_prog_run : Z → bpf_program W.
(** [cgroup_id(cgrp)] *)
Variable cgroup_id : Z → Z.

(** Run the programs of the array up to the first decision. *)
Fixpoint run_items (items : list Z) (w : W) (ctx : bpf_namei_ext_ctx)
  : Z * W * bpf_namei_ext_ctx :=
  match items with
  | [] => (BPF_NAMEI_EXT_PASS, w, ctx)
  | prog :: rest =>
      if prog =? NULL then (BPF_NAMEI_EXT_PASS, w, ctx) else
      let '(r, w, ctx) := bpf_prog_run prog w ctx in
      let func_ret := u32 r in
      if BPF_NAMEI_EXT_SELECT_TARGET <? func_ret then (- EINVAL, w, ctx) else
      if negb (func_ret =? BPF_NAMEI_EXT_PASS) then (func_ret, w, ctx) else
      run_items rest w ctx
  end.

Definition cgroup_bpf_run_namei_ext_locked (st : cgroups_state S) (cg : Z) (w : W)
  (ctx : bpf_namei_ext_ctx) : Z * W * bpf_namei_ext_ctx :=
  let ctx := set_cgroup_id (cgroup_id cg) ctx in
  match cg_effective (cgroup_of st cg) with
  | None | Some [] => (BPF_NAMEI_EXT_PASS, w, ctx)
  | Some items => run_items items w ctx
  end.

(** [current] is the cgroup of the calling task. *)
Definition cgroup_bpf_run_namei_ext (st : cgroups_state S) (current : Z)
  (parent : path) (w : W) (ctx : bpf_namei_ext_ctx) : Z * W * bpf_namei_ext_ctx :=
  let owner := cg_owner (cgroup_of st current) in
  if negb (owner =? NULL) && ps_matches (gs_scopes st) owner parent
  then cgroup_bpf_run_namei_ext_locked st current w ctx
  else (BPF_NAMEI_EXT_PASS, w, ctx).

Definition cgroup_bpf_run_namei_ext_cgroup (st : cgroups_state S) (cg : Z) (w : W)
  (ctx : bpf_namei_ext_ctx) : Z * W * bpf_namei_ext_ctx :=
  cgroup_bpf_run_namei_ext_locked st cg w ctx.

(** [bpf_live] and [css_live]: whether [percpu_ref_tryget_live_rcu] and
    [cgroup_tryget] succeed.  The caller puts both references. *)
Definition cgroup_bpf_get_namei_ext_cgroup (st : cgroups_state S) (current : Z)
  (parent : path) (bpf_live css_live : bool) : option Z :=
  let owner := cg_owner (cgroup_of st current) in
  if (owner =? NULL) || negb (ps_matches (gs_scopes st) owner parent) then None else
  match cg_effective (cgroup_of st current) with
  | None | Some [] => None
  | Some _ =>
      if negb bpf_live then None else
      if negb css_live then None else
      Some current
  end.
End dispatch.
