(* ===== verification/CgroupFacts.v ===== *)
(** * Invariant of attachments

    In every cgroup that is alive, the effective array, the owner and the
    activity of the scope are those computed afresh from the program lists of
    its ancestors. *)

From S2P Require Import Prelude Abi Kernel ScopeApi Cgroups EffectiveFacts Dispatch.

Section facts.
Context {S : Type} `{PS : PolicyScopes S} (sinv : S → Prop) {PSL : PolicyScopesLaws S sinv}.
Implicit Types st : cgroups_state S.

(** ** States that agree on what the computation reads *)

(** The entries of a cgroup that have a program, and its flags if there is
    one. *)
Definition level_progs st (p : Z) : list bpf_prog_list :=
  with_prog st (cg_progs (cgroup_of st p)).
Definition level_same st st' (p : Z) : Prop :=
  level_progs st p = level_progs st' p ∧
  (level_progs st p ≠ [] → cg_flags (cgroup_of st p) = cg_flags (cgroup_of st' p)).

Lemma cgroup_of_upd cg f st d :
  cgroup_of (upd_cgroup cg f st) d =
    if decide (d = cg) then f (cgroup_of st cg) else cgroup_of st d.
Proof.
  unfold cgroup_of at 1, upd_cgroup; simpl. case_decide as Hd; [subst|].
  - by rewrite lookup_insert_eq.
  - by rewrite lookup_insert_ne.
Qed.
Lemma cgroup_of_upd_ne cg f st d :
  d ≠ cg → cgroup_of (upd_cgroup cg f st) d = cgroup_of st d.
Proof. intros Hd. by rewrite cgroup_of_upd, decide_False. Qed.
Lemma cgroup_of_upd_eq cg f st :
  cgroup_of (upd_cgroup cg f st) cg = f (cgroup_of st cg).
Proof. by rewrite cgroup_of_upd, decide_True. Qed.
Lemma cgroup_of_scopes f st d : cgroup_of (upd_scopes f st) d = cgroup_of st d.
Proof. done. Qed.

Lemma walk_parents_ext fuel st st' p :
  (∀ d, cg_parent (cgroup_of st d) = cg_parent (cgroup_of st' d)) →
  walk_parents fuel st p = walk_parents fuel st' p.
Proof.
  intros Hp. revert p. induction fuel as [|fuel IH]; intros p; simpl; [done|].
  by rewrite IH, Hp.
Qed.
Lemma cgroup_path_ext st st' d :
  (∀ d, cg_parent (cgroup_of st d) = cg_parent (cgroup_of st' d)) →
  (∀ d, cg_level (cgroup_of st d) = cg_level (cgroup_of st' d)) →
  cgroup_path st d = cgroup_path st' d.
Proof.
  intros Hp Hl. unfold cgroup_path. rewrite Hl. by apply walk_parents_ext.
Qed.

(** The levels that contribute something. *)
Definition busy_levels st b chain := filter (λ l, l ≠ []) (effective_levels st b chain).

Lemma busy_levels_ext st st' b chain :
  (∀ p, p ∈ chain → level_same st st' p) →
  busy_levels st b chain = busy_levels st' b chain.
Proof.
  unfold busy_levels. revert b. induction chain as [|p chain IH]; intros b Hs; simpl; [done|].
  destruct (Hs p ltac:(left)) as [Hl Hf].
  assert (∀ b', filter (λ l, l ≠ []) (effective_levels st b' chain) =
    filter (λ l, l ≠ []) (effective_levels st' b' chain)) as IH'.
  { intros b'. apply IH. intros q Hq. apply Hs. by right. }
  unfold level_progs in *. rewrite <- Hl in *.
  destruct (decide (with_prog st (cg_progs (cgroup_of st p)) = [])) as [He|He].
  - rewrite He in *. rewrite orb_false_r.
    repeat case_match; rewrite ?filter_cons, ?decide_False by tauto; auto.
  - rewrite (Hf He). case_match; [done|]. rewrite !filter_cons, !decide_True by done.
    by rewrite IH'.
Qed.

Lemma spec_busy st cg :
  effective_spec st cg =
    concat (reverse (preorder_progs st <$> busy_levels st false (cgroup_path st cg))) ++
    concat (postorder_progs st <$> busy_levels st false (cgroup_path st cg)).
Proof.
  unfold effective_spec, busy_levels.
  assert (∀ ls : list (list bpf_prog_list), ∀ f : list bpf_prog_list → list Z, f [] = [] →
    concat (reverse (f <$> ls)) = concat (reverse (f <$> filter (λ l, l ≠ []) ls)) ∧
    concat (f <$> ls) = concat (f <$> filter (λ l, l ≠ []) ls)) as Hdrop.
  { clear. intros ls f Hf. induction ls as [|l ls [IH1 IH2]]; [done|].
    rewrite filter_cons.
    destruct (decide (l = [])) as [Hl|Hl]; [rewrite decide_False by tauto|rewrite decide_True by done].
    2:{ rewrite !fmap_cons, !reverse_cons, !concat_app. simpl. by rewrite IH1, IH2. }
    subst l. rewrite !fmap_cons, reverse_cons, concat_app.
    simpl. rewrite Hf, app_nil_r. by split. }
  f_equal; apply Hdrop; done.
Qed.

Lemma effective_spec_ext st st' d :
  gs_links st = gs_links st' → cgroup_path st d = cgroup_path st' d →
  (∀ p, p ∈ cgroup_path st d → level_same st st' p) →
  effective_spec st d = effective_spec st' d.
Proof.
  intros Hl Hpath Hs. rewrite !spec_busy, <- Hpath, <- (busy_levels_ext st st' _ _ Hs).
  unfold preorder_progs, postorder_progs, prog_list_prog. by rewrite Hl.
Qed.

Lemma find_owner_ext st st' chain :
  (∀ p, p ∈ chain → level_progs st p = level_progs st' p) →
  find_owner st chain = find_owner st' chain.
Proof.
  induction chain as [|p chain IH]; intros Hp; simpl; [done|].
  rewrite !prog_list_length_eq. cbn [fst]. specialize (Hp p) as Hp0.
  unfold level_progs in *. rewrite Hp0 by left. case_match; [done|].
  apply IH. intros q Hq. apply Hp. by right.
Qed.

(** Two states that agree on everything the computations read. *)
Record agree st st' : Prop := {
  agree_links : gs_links st = gs_links st';
  agree_parent d : cg_parent (cgroup_of st d) = cg_parent (cgroup_of st' d);
  agree_level d : cg_level (cgroup_of st d) = cg_level (cgroup_of st' d);
  agree_progs d : level_same st st' d
}.

#[export] Instance agree_equiv : Equivalence agree.
Proof.
  split.
  - intros st. split; [done..|]. by intros d.
  - intros st st' [Hl Hp Hv Hs]. split; [done..|]. intros d. destruct (Hs d) as [Hd Hf].
    split; [done|]. intros Hne. symmetry. apply Hf. by rewrite Hd.
  - intros s1 s2 s3 [Hl Hp Hv Hs] [Hl' Hp' Hv' Hs']. split; [congruence..|].
    intros d. destruct (Hs d) as [Hd Hf], (Hs' d) as [Hd' Hf'].
    split; [congruence|]. intros Hne. rewrite Hf by done. apply Hf'. by rewrite <- Hd.
Qed.

Lemma agree_path st st' d : agree st st' → cgroup_path st d = cgroup_path st' d.
Proof. intros Ha. apply cgroup_path_ext; intros e; apply Ha. Qed.
Lemma agree_spec st st' d : agree st st' → effective_spec st d = effective_spec st' d.
Proof.
  intros Ha. apply effective_spec_ext; [apply Ha|by apply agree_path|].
  intros p _; apply Ha.
Qed.
Lemma agree_owner st st' d :
  agree st st' → find_owner st (cgroup_path st d) = find_owner st' (cgroup_path st' d).
Proof.
  intros Ha. rewrite (agree_path _ _ d Ha). apply find_owner_ext.
  intros p _. apply Ha.
Qed.

Lemma agree_upd cg f st :
  (∀ c, cg_parent (f c) = cg_parent c ∧ cg_level (f c) = cg_level c ∧
        cg_progs (f c) = cg_progs c ∧ cg_flags (f c) = cg_flags c) →
  agree st (upd_cgroup cg f st).
Proof.
  intros Hf.
  assert (∀ d, cg_progs (cgroup_of (upd_cgroup cg f st) d) = cg_progs (cgroup_of st d) ∧
    cg_flags (cgroup_of (upd_cgroup cg f st) d) = cg_flags (cgroup_of st d)) as Hpf.
  { intros d. rewrite cgroup_of_upd. case_decide; [subst; apply Hf|done]. }
  split; [done|..]; intros d.
  1,2: rewrite cgroup_of_upd; case_decide; [subst; by rewrite !(proj1 (Hf _)) ||
    by rewrite (proj1 (proj2 (Hf _)))|done].
  unfold level_same, level_progs. destruct (Hpf d) as [-> ->]. done.
Qed.
Lemma agree_scopes f st : agree st (upd_scopes f st).
Proof. split; [done..|]. intros d. by split. Qed.

(** ** Activation *)

(** What a live cgroup must satisfy. *)
Record cgroup_current st (d : Z) : Prop := {
  current_effective : cg_effective (cgroup_of st d) = Some (effective_spec st d);
  current_owner : cg_owner (cgroup_of st d) = find_owner st (cgroup_path st d);
  current_active : ps_active (gs_scopes st) d = bool_decide (cg_owner (cgroup_of st d) = d)
}.

Lemma activate_agree cg array st : agree st (activate_effective_progs cg array st).
Proof.
  unfold activate_effective_progs.
  repeat match goal with
    | |- agree _ (if _ then _ else _) => case_match
    | |- agree _ (upd_scopes _ _) => etrans; [|apply agree_scopes]
    | |- agree _ (upd_cgroup _ _ _) => etrans; [|apply agree_upd; done]
    end; reflexivity.
Qed.

Lemma activate_other cg array st d :
  d ≠ cg →
  cgroup_of (activate_effective_progs cg array st) d = cgroup_of st d ∧
  ps_active (gs_scopes (activate_effective_progs cg array st)) d
    = ps_active (gs_scopes st) d.
Proof.
  intros Hd. unfold activate_effective_progs. split.
  - repeat case_match;
      repeat (rewrite cgroup_of_scopes || rewrite cgroup_of_upd_ne by done); done.
  - repeat case_match; simpl; rewrite ?set_active_sets, ?decide_False by done; done.
Qed.

Lemma activate_self cg array st :
  let st' := activate_effective_progs cg array st in
  let owner := find_owner st (cgroup_path st cg) in
  cg_effective (cgroup_of st' cg) = array ∧
  cg_owner (cgroup_of st' cg) = owner ∧
  cg_ref_zero (cgroup_of st' cg) = cg_ref_zero (cgroup_of st cg) ∧
  ps_active (gs_scopes st') cg = bool_decide (owner = cg).
Proof.
  unfold activate_effective_progs. simpl.
  assert (find_owner (upd_cgroup cg (set_effective array) st)
    (cgroup_path (upd_cgroup cg (set_effective array) st) cg) =
    find_owner st (cgroup_path st cg)) as ->.
  { symmetry. apply agree_owner, agree_upd. done. }
  destruct (find_owner st (cgroup_path st cg) =? cg) eqn:E; unfold_bools; simpl;
    repeat (rewrite cgroup_of_scopes || rewrite cgroup_of_upd_eq);
    split_and!; try done;
    rewrite ?set_active_sets, ?decide_True by done.
  - by rewrite bool_decide_true.
  - by rewrite bool_decide_false.
Qed.

Lemma activate_sinv cg array st :
  sinv (gs_scopes st) → sinv (gs_scopes (activate_effective_progs cg array st)).
Proof.
  intros Hs. unfold activate_effective_progs. repeat case_match; simpl;
    repeat apply set_active_keeps; done.
Qed.

(** ** Updating the descendants *)

Lemma compute_effective_alloc b st cg :
  compute_effective_progs b st cg = if b then Some (effective_spec st cg) else None.
Proof.
  destruct b; [apply compute_effective_eq|].
  unfold compute_effective_progs. by destruct (count_effective _ _ _ _).
Qed.

(** What dispatch observes of a cgroup. *)
Definition observed st (d : Z) :=
  (cg_effective (cgroup_of st d), cg_owner (cgroup_of st d),
   cg_ref_zero (cgroup_of st d)).

(** [st'] differs from [st] in the [inactive] arrays only. *)
Record only_inactive st st' : Prop := {
  oi_agree : agree st st';
  oi_observed d : observed st' d = observed st d;
  oi_scopes : gs_scopes st' = gs_scopes st
}.

Lemma only_inactive_refl st : only_inactive st st.
Proof. split; [reflexivity|done..]. Qed.
Lemma only_inactive_trans s1 s2 s3 :
  only_inactive s1 s2 → only_inactive s2 s3 → only_inactive s1 s3.
Proof.
  intros [Ha Ho Hs] [Ha' Ho' Hs']. split; [by etrans| |congruence].
  intros d. by rewrite Ho'.
Qed.
Lemma only_inactive_set d v st : only_inactive st (upd_cgroup d (set_inactive v) st).
Proof.
  split; [by apply agree_upd| |done]. intros e. unfold observed.
  rewrite cgroup_of_upd. by case_decide; subst.
Qed.
Lemma ref_zero_observed st st' d :
  observed st' d = observed st d →
  cg_ref_zero (cgroup_of st' d) = cg_ref_zero (cgroup_of st d).
Proof. unfold observed. congruence. Qed.

Lemma compute_all_spec alloc descs st :
  let '(ok, st') := compute_all alloc descs st in
  only_inactive st st' ∧
  (∀ d, d ∉ descs → cg_inactive (cgroup_of st' d) = cg_inactive (cgroup_of st d)) ∧
  (ok = true → NoDup descs → ∀ d, d ∈ descs → cg_ref_zero (cgroup_of st d) = false →
     cg_inactive (cgroup_of st' d) = Some (effective_spec st d)) ∧
  (ok = true ↔ ∀ d, d ∈ descs → cg_ref_zero (cgroup_of st d) = false → alloc d = true).
Proof.
  revert st. induction descs as [|d rest IH]; intros st; simpl.
  { split; [apply only_inactive_refl|]. split_and!; try done.
    - by intros _ _ ? ?%not_elem_of_nil.
    - split; [|done]. by intros _ ? ?%not_elem_of_nil. }
  destruct (cg_ref_zero (cgroup_of st d)) eqn:Hz.
  { specialize (IH st). destruct (compute_all alloc rest st) as [ok st'].
    destruct IH as (Ho & Hn & Hi & Hok). split; [done|]. split_and!.
    - intros e [? ?]%not_elem_of_cons. by apply Hn.
    - intros H1 [? ?]%NoDup_cons e [->|He]%elem_of_cons Hl; [congruence|]. by apply Hi.
    - rewrite Hok. split.
      + intros Ha e [->|He]%elem_of_cons Hl; [congruence|]. by apply Ha.
      + intros Ha e He. apply Ha. by right. }
  rewrite compute_effective_alloc. destruct (alloc d) eqn:Ha.
  2:{ split; [apply only_inactive_refl|]. split_and!; try done.
      split; [done|]. intros H. rewrite (H d) in Ha; [done|left|done]. }
  set (st1 := upd_cgroup d (set_inactive (Some (effective_spec st d))) st).
  pose proof (only_inactive_set d (Some (effective_spec st d)) st) as H1.
  fold st1 in H1. specialize (IH st1).
  destruct (compute_all alloc rest st1) as [ok st'].
  destruct IH as (Ho & Hn & Hi & Hok).
  assert (∀ e, cg_ref_zero (cgroup_of st1 e) = cg_ref_zero (cgroup_of st e)) as Hzs.
  { intros e. apply ref_zero_observed, H1. }
  split; [by eapply only_inactive_trans|]. split_and!.
  - intros e [Hne He]%not_elem_of_cons. rewrite Hn by done.
    unfold st1. by rewrite cgroup_of_upd_ne.
  - intros Hk [Hd Hnd]%NoDup_cons e He Hl.
    apply elem_of_cons in He as [->|He].
    + rewrite Hn by done. unfold st1. by rewrite cgroup_of_upd_eq.
    + rewrite (agree_spec _ _ e (oi_agree _ _ H1)). apply Hi; [done..|]. by rewrite Hzs.
  - rewrite Hok. split.
    + intros Hall e [->|He]%elem_of_cons Hl; [done|]. apply Hall; [done|]. by rewrite Hzs.
    + intros Hall e He Hl. apply Hall; [by right|]. by rewrite <- Hzs.
Qed.

Lemma activate_one_agree st d : agree st (activate_one st d).
Proof.
  unfold activate_one. case_match; [by apply agree_upd|].
  etrans; [apply activate_agree|]. by apply agree_upd.
Qed.
Lemma activate_one_other st d e :
  e ≠ d →
  observed (activate_one st d) e = observed st e ∧
  cg_inactive (cgroup_of (activate_one st d) e) = cg_inactive (cgroup_of st e) ∧
  ps_active (gs_scopes (activate_one st d)) e = ps_active (gs_scopes st) e.
Proof.
  intros Hne. unfold activate_one, observed. case_match.
  - by rewrite cgroup_of_upd_ne.
  - rewrite cgroup_of_upd_ne by done.
    destruct (activate_other d (cg_inactive (cgroup_of st d)) st e Hne) as [Hc Ha].
    split_and!; [by rewrite Hc..|]. apply Ha.
Qed.

(** After the second pass every live descendant has what the first pass
    computed, everything else is as before. *)
Lemma activate_all_spec descs st :
  NoDup descs →
  let st' := foldl activate_one st descs in
  agree st st' ∧
  (∀ d, cg_ref_zero (cgroup_of st' d) = cg_ref_zero (cgroup_of st d)) ∧
  (∀ d, d ∉ descs → observed st' d = observed st d ∧
     ps_active (gs_scopes st') d = ps_active (gs_scopes st) d) ∧
  (∀ d, d ∈ descs → cg_ref_zero (cgroup_of st d) = false →
     let owner := find_owner st (cgroup_path st d) in
     observed st' d = (cg_inactive (cgroup_of st d), owner, false) ∧
     ps_active (gs_scopes st') d = bool_decide (owner = d)).
Proof.
  revert st. induction descs as [|d rest IH]; intros st Hnd; simpl.
  { split_and!; try done. by intros ? ?%not_elem_of_nil. }
  apply NoDup_cons in Hnd as [Hd Hnd].
  pose proof (activate_one_agree st d) as Hag.
  destruct (IH (activate_one st d) Hnd) as (Ha & Hz & Ho & Hi). clear IH.
  assert (∀ e, cg_ref_zero (cgroup_of (activate_one st d) e) =
    cg_ref_zero (cgroup_of st e)) as Hz1.
  { intros e. destruct (decide (e = d)) as [->|Hne].
    - unfold activate_one. destruct (cg_ref_zero (cgroup_of st d)) eqn:E;
        rewrite cgroup_of_upd_eq; simpl; [done|].
      by rewrite (proj1 (proj2 (proj2 (activate_self d _ st)))).
    - apply ref_zero_observed, activate_one_other, Hne. }
  split_and!.
  - by etrans.
  - intros e. by rewrite Hz, Hz1.
  - intros e [Hne He]%not_elem_of_cons.
    destruct (activate_one_other st d e Hne) as (Ho1 & _ & Ha1).
    destruct (Ho e He) as [-> ->]. done.
  - intros e He Hl. apply elem_of_cons in He as [->|He].
    + destruct (Ho d Hd) as [-> ->]. unfold activate_one. rewrite Hl.
      destruct (activate_self d (cg_inactive (cgroup_of st d)) st) as (H1 & H2 & H3 & H4).
      unfold observed. rewrite cgroup_of_upd_eq. simpl. rewrite H1, H2, H3, Hl.
      split; [done|apply H4].
    + destruct (Hi e He) as [Ho1 Ha1]; [by rewrite Hz1|].
      rewrite <- (agree_owner _ _ e Hag) in Ho1, Ha1.
      assert (e ≠ d) as Hne by (by intros ->).
      destruct (activate_one_other st d e Hne) as (_ & Hin & _).
      by rewrite Ho1, Ha1, Hin.
Qed.

Lemma activate_all_sinv descs st :
  sinv (gs_scopes st) → sinv (gs_scopes (foldl activate_one st descs)).
Proof.
  revert st. induction descs as [|d rest IH]; intros st Hs; simpl; [done|].
  apply IH. unfold activate_one. case_match; [done|]. simpl. by apply activate_sinv.
Qed.

Lemma clear_inactive_all descs st :
  only_inactive st (foldl (λ st d, upd_cgroup d (set_inactive None) st) st descs).
Proof.
  revert st. induction descs as [|d rest IH]; intros st; simpl; [apply only_inactive_refl|].
  eapply only_inactive_trans; [apply only_inactive_set|apply IH].
Qed.

Definition live st (d : Z) : Prop := cg_ref_zero (cgroup_of st d) = false.

(** The descendants in the order the iterator visits them. *)
Definition is_descendants st (cg : Z) (descs : list Z) : Prop :=
  NoDup descs ∧ ∀ d, live st d → d ∈ descs ↔ cg ∈ cgroup_path st d.

(** The whole update. *)
Lemma update_effective_spec alloc descs st :
  NoDup descs → sinv (gs_scopes st) →
  let '(err, st') := update_effective_progs alloc descs st in
  agree st st' ∧ sinv (gs_scopes st') ∧
  (∀ d, cg_ref_zero (cgroup_of st' d) = cg_ref_zero (cgroup_of st d)) ∧
  (err = 0 ↔ ∀ d, d ∈ descs → live st d → alloc d = true) ∧
  (err = 0 ∨ err = - ENOMEM) ∧
  (err ≠ 0 → only_inactive st st') ∧
  (err = 0 → (∀ d, d ∈ descs → live st d → cgroup_current st' d) ∧
    (∀ d, d ∉ descs → observed st' d = observed st d ∧
       ps_active (gs_scopes st') d = ps_active (gs_scopes st) d)).
Proof.
  intros Hnd Hs. unfold update_effective_progs.
  pose proof (compute_all_spec alloc descs st) as Hc.
  destruct (compute_all alloc descs st) as [ok st1]. destruct Hc as (Ho & Hn & Hi & Hok).
  destruct ok.
  - destruct (activate_all_spec descs st1 Hnd) as (Ha & Hz & Hot & Hin).
    assert (∀ d, cg_ref_zero (cgroup_of st1 d) = cg_ref_zero (cgroup_of st d)) as Hz1.
    { intros d. apply ref_zero_observed, Ho. }
    assert (agree st (foldl activate_one st1 descs)) as Hag.
    { etrans; [apply Ho|done]. }
    split_and!.
    + done.
    + apply activate_all_sinv. by rewrite (oi_scopes _ _ Ho).
    + intros d. by rewrite Hz, Hz1.
    + split; [|done]. intros _. by apply Hok.
    + by left.
    + done.
    + intros _. split.
      * intros d Hd Hl. destruct (Hin d Hd) as [H1 H2]; [by rewrite Hz1|].
        unfold observed in H1. injection H1 as He Hw _.
        rewrite (Hi eq_refl Hnd d Hd Hl) in He.
        rewrite <- (agree_owner _ _ d (oi_agree _ _ Ho)) in Hw, H2.
        split; [|by rewrite Hw; apply agree_owner|by rewrite Hw].
        by rewrite He, (agree_spec _ _ d Hag).
      * intros d Hd. destruct (Hot d Hd) as [-> ->].
        by rewrite (oi_observed _ _ Ho), (oi_scopes _ _ Ho).
  - pose proof (only_inactive_trans _ _ _ Ho (clear_inactive_all descs st1)) as Hall.
    split_and!.
    + apply Hall.
    + by rewrite (oi_scopes _ _ Hall).
    + intros d. apply ref_zero_observed, Hall.
    + split; [done|]. intros H. by apply Hok in H.
    + by right.
    + done.
    + done.
Qed.
End facts.
