(* ===== verification/CgroupProps.v ===== *)
(** * Properties of attachments and dispatch

    Attach and detach keep every live cgroup's effective array, owner and
    scope activity equal to a fresh computation; a failed attach is invisible;
    dispatch runs the programs of the reference definition and the prefilter
    is sound for it. *)

From S2P Require Import Prelude Abi Kernel ScopeApi Cgroups EffectiveFacts Dispatch CgroupFacts.

Section props.
Context {S : Type} `{PS : PolicyScopes S} (sinv : S → Prop) {PSL : PolicyScopesLaws S sinv}.
Implicit Types st : cgroups_state S.

(** Every live cgroup is current. *)
Record cgroups_inv st : Prop := {
  inv_scopes : sinv (gs_scopes st);
  inv_current d : live st d → cgroup_current st d
}.

Lemma current_transfer st st' d :
  agree st st' → observed st' d = observed st d →
  ps_active (gs_scopes st') d = ps_active (gs_scopes st) d →
  cgroup_current st d → cgroup_current st' d.
Proof.
  intros Ha Ho Hp [He Hw Hact]. unfold observed in Ho. injection Ho as Ho1 Ho2 _.
  split.
  - by rewrite Ho1, He, (agree_spec _ _ _ Ha).
  - by rewrite Ho2, Hw, (agree_owner _ _ _ Ha).
  - by rewrite Hp, Ho2.
Qed.

Lemma inv_transfer st st' :
  agree st st' → (∀ d, observed st' d = observed st d) →
  gs_scopes st' = gs_scopes st → cgroups_inv st → cgroups_inv st'.
Proof.
  intros Ha Ho Hs [Hi Hc]. split; [by rewrite Hs|].
  intros d Hd. apply (current_transfer st); [done|done|by rewrite Hs|].
  apply Hc. unfold live in *. by rewrite <- (ref_zero_observed st st').
Qed.

(** [st1] is [st] with other programs and flags in [cg]. *)
Record changed_at st (cg : Z) st1 : Prop := {
  ch_links : gs_links st1 = gs_links st;
  ch_scopes : gs_scopes st1 = gs_scopes st;
  ch_other d : d ≠ cg → cgroup_of st1 d = cgroup_of st d;
  ch_parent : cg_parent (cgroup_of st1 cg) = cg_parent (cgroup_of st cg);
  ch_level : cg_level (cgroup_of st1 cg) = cg_level (cgroup_of st cg);
  ch_observed : observed st1 cg = observed st cg
}.

Lemma changed_path st cg st1 d :
  changed_at st cg st1 → cgroup_path st1 d = cgroup_path st d.
Proof.
  intros [Hl Hs Ho Hp Hv _]. apply cgroup_path_ext; intros e;
    (destruct (decide (e = cg)) as [->|]; [done|by rewrite Ho]).
Qed.
Lemma changed_observed st cg st1 d :
  changed_at st cg st1 → observed st1 d = observed st d.
Proof.
  intros Hc. destruct (decide (d = cg)) as [->|Hne]; [apply Hc|].
  unfold observed. by rewrite (ch_other _ _ _ Hc).
Qed.

(** A cgroup that is not below the changed one stays current. *)
Lemma changed_current st cg st1 d :
  changed_at st cg st1 → cg ∉ cgroup_path st d →
  cgroup_current st d → cgroup_current st1 d.
Proof.
  intros Hc Hnot [He Hw Hact].
  pose proof (changed_observed _ _ _ d Hc) as Ho. unfold observed in Ho.
  injection Ho as Ho1 Ho2 _.
  assert (∀ p, p ∈ cgroup_path st d → level_same st st1 p) as Hsame.
  { intros p Hp. assert (p ≠ cg) as Hne by (by intros ->).
    unfold level_same, level_progs. rewrite (ch_other _ _ _ Hc) by done.
    split; [|done]. unfold with_prog, prog_list_prog. by rewrite (ch_links _ _ _ Hc). }
  pose proof (changed_path _ _ _ d Hc) as Hpath.
  split.
  - rewrite Ho1, He. f_equal. apply effective_spec_ext; [|done|done].
    by rewrite (ch_links _ _ _ Hc).
  - rewrite Ho2, Hw, Hpath. apply find_owner_ext. intros p Hp. by apply Hsame.
  - by rewrite Ho2, (ch_scopes _ _ _ Hc).
Qed.

(** Updating the descendants after the change restores the invariant. *)
Lemma update_after_change st cg st1 descs alloc st2 :
  cgroups_inv st → is_descendants st cg descs → changed_at st cg st1 →
  update_effective_progs alloc descs st1 = (0, st2) →
  cgroups_inv st2 ∧ agree st1 st2.
Proof.
  intros [Hs Hcur] [Hnd Hdesc] Hch Hu.
  assert (sinv (gs_scopes st1)) as Hs1 by (by rewrite (ch_scopes _ _ _ Hch)).
  pose proof (update_effective_spec sinv alloc descs st1 Hnd Hs1) as H. rewrite Hu in H.
  destruct H as (Ha & Hs2 & Hz & _ & _ & _ & Hok). destruct (Hok eq_refl) as [Hin Hout].
  split; [|done]. split; [done|]. intros d Hl.
  assert (live st1 d) as Hl1 by (unfold live in *; by rewrite <- Hz).
  assert (live st d) as Hl0.
  { unfold live in *. by rewrite <- (ref_zero_observed st st1) by (by apply changed_observed with cg). }
  destruct (decide (d ∈ descs)) as [Hd|Hd]; [by apply Hin|].
  destruct (Hout d Hd) as [Ho Hp]. apply (current_transfer st1); [done..|].
  apply (changed_current st cg); [done| |by apply Hcur]. by rewrite <- Hdesc.
Qed.

Lemma changed_progs_flags st cg progs flags :
  changed_at st cg (upd_cgroup cg (set_flags flags) (upd_cgroup cg (set_progs progs) st)).
Proof.
  split; try done.
  - intros d Hd. by rewrite !cgroup_of_upd_ne.
  - by rewrite !cgroup_of_upd_eq.
  - by rewrite !cgroup_of_upd_eq.
  - unfold observed. by rewrite !cgroup_of_upd_eq.
Qed.
Lemma changed_progs st cg progs :
  changed_at st cg (upd_cgroup cg (set_progs progs) st).
Proof.
  split; try done.
  - intros d Hd. by rewrite !cgroup_of_upd_ne.
  - by rewrite !cgroup_of_upd_eq.
  - by rewrite !cgroup_of_upd_eq.
  - unfold observed. by rewrite !cgroup_of_upd_eq.
Qed.

(** An update of fields the computations do not read. *)
Lemma inv_upd st cg f :
  (∀ c, cg_parent (f c) = cg_parent c ∧ cg_level (f c) = cg_level c ∧
        cg_progs (f c) = cg_progs c ∧ cg_flags (f c) = cg_flags c) →
  (∀ c, cg_effective (f c) = cg_effective c ∧ cg_owner (f c) = cg_owner c ∧
        cg_ref_zero (f c) = cg_ref_zero c) →
  cgroups_inv st → cgroups_inv (upd_cgroup cg f st).
Proof.
  intros Hf Hg. apply inv_transfer; [by apply agree_upd| |done].
  intros d. unfold observed. rewrite cgroup_of_upd. case_decide; [subst|done].
  by destruct (Hg (cgroup_of st cg)) as (-> & -> & ->).
Qed.
Lemma inv_enabled st n : cgroups_inv st → cgroups_inv (upd_enabled n st).
Proof.
  apply inv_transfer; [|done..]. split; [done..|]. by intros d.
Qed.

Lemma attach_entry_inv al descs cg progs i old_prog prog link flags st st' :
  cgroups_inv st → is_descendants st cg descs →
  attach_entry al descs cg progs i old_prog prog link flags st = (0, st') →
  cgroups_inv st'.
Proof.
  intros Hi Hd. unfold attach_entry.
  set (st1 := upd_cgroup cg (set_flags _) (upd_cgroup cg (set_progs _) st)).
  pose proof (changed_progs_flags st cg (<[i:=mk_pl prog link flags]> progs)
    (Z.land flags (Z.lor BPF_F_ALLOW_OVERRIDE BPF_F_ALLOW_MULTI))) as Hch.
  fold st1 in Hch.
  destruct (update_effective_progs (array_ok al) descs st1) as [err st2] eqn:Hu.
  destruct (err =? 0) eqn:He; unfold_bools; cbn [negb].
  - subst. destruct (update_after_change _ _ _ _ _ _ Hi Hd Hch Hu) as [Hi2 _].
    intros Heq. destruct (negb (old_prog =? NULL)); injection Heq as <-;
      try apply inv_enabled; by apply inv_upd.
  - destruct (negb (old_prog =? NULL)); intros [= ? _]; congruence.
Qed.

(** C35: The effective array: what [compute_effective_progs] computes with two
    cursors and a reversal per level is, over the levels that contribute, the
    preorder programs from the outermost cgroup inwards followed by the other
    programs from the cgroup itself outwards, each level in attach order; it
    fails only when the allocation does. *)
Theorem effective_order alloc_ok st cg :
  let levels := effective_levels st false (cgroup_path st cg) in
  compute_effective_progs alloc_ok st cg =
  if alloc_ok then
    Some (concat (reverse (preorder_progs st <$> levels)) ++
          concat (postorder_progs st <$> levels))
  else None.
Proof. apply compute_effective_alloc. Qed.

(** A successful attachment leaves every live cgroup of the hierarchy with
    the effective array, the policy owner and the scope activity that a fresh
    computation from the program lists gives, whatever flags, anchors and
    replacement the caller used. *)
Theorem attach_keeps_inv link_by_id link_from_fd prog_by_id prog_get al descs cg
  prog replace_prog link flags id_or_fd revision st st' :
  cgroups_inv st → is_descendants st cg descs →
  cgroup_bpf_attach link_by_id link_from_fd prog_by_id prog_get al descs cg
    prog replace_prog link flags id_or_fd revision st = (0, st') →
  cgroups_inv st'.
Proof.
  intros Hi Hd. unfold cgroup_bpf_attach.
  repeat case_match; intros Heq; try (injection Heq as ? <-; done);
    by eapply attach_entry_inv.
Qed.

Lemma attach_entry_fail al descs cg progs i old_prog prog link flags st err st' :
  cgroups_inv st → is_descendants st cg descs →
  attach_entry al descs cg progs i old_prog prog link flags st = (err, st') → err ≠ 0 →
  err = - ENOMEM ∧ (∀ d, observed st' d = observed st d) ∧
  gs_scopes st' = gs_scopes st ∧ gs_links st' = gs_links st ∧
  (∀ d, d ≠ cg → level_progs st' d = level_progs st d) ∧
  (old_prog = NULL → cg_progs (cgroup_of st' cg) = delete i progs).
Proof.
  intros Hi [Hnd _]. unfold attach_entry.
  set (st1 := upd_cgroup cg (set_flags _) (upd_cgroup cg (set_progs _) st)).
  pose proof (changed_progs_flags st cg (<[i:=mk_pl prog link flags]> progs)
    (Z.land flags (Z.lor BPF_F_ALLOW_OVERRIDE BPF_F_ALLOW_MULTI))) as Hch.
  fold st1 in Hch.
  assert (sinv (gs_scopes st1)) as Hs1 by (rewrite (ch_scopes _ _ _ Hch); apply Hi).
  pose proof (update_effective_spec sinv (array_ok al) descs st1 Hnd Hs1) as H.
  destruct (update_effective_progs (array_ok al) descs st1) as [e st2].
  destruct H as (Ha & _ & _ & _ & He & Ho & _).
  destruct (e =? 0) eqn:E; unfold_bools; cbn [negb].
  { destruct (negb (old_prog =? NULL)); intros [= <- _]; done. }
  specialize (Ho E). intros Heq Hne.
  assert (∀ ps, (∀ d, observed (upd_cgroup cg (set_progs ps) st2) d = observed st d) ∧
    (∀ d, d ≠ cg → level_progs (upd_cgroup cg (set_progs ps) st2) d = level_progs st d))
    as Hfin.
  { intros ps. split; intros d.
    - etrans; [|etrans; [apply (oi_observed _ _ Ho)|by apply changed_observed with cg]].
      unfold observed. rewrite cgroup_of_upd. by case_decide; subst.
    - intros Hd. unfold level_progs at 1. rewrite cgroup_of_upd_ne by done.
      change (with_prog _ _) with (level_progs st2 d).
      rewrite <- (proj1 (agree_progs _ _ Ha d)). unfold level_progs.
      rewrite (ch_other _ _ _ Hch) by done. unfold with_prog, prog_list_prog.
      by rewrite (ch_links _ _ _ Hch). }
  assert (gs_links st2 = gs_links st) as Hlk.
  { rewrite <- (agree_links _ _ Ha). apply Hch. }
  assert (gs_scopes st2 = gs_scopes st) as Hsc.
  { rewrite (oi_scopes _ _ Ho). apply Hch. }
  destruct (old_prog =? NULL) eqn:Eo; unfold_bools; simpl in Heq;
    injection Heq as <- <-; split_and!; try apply Hfin; try done; try (by destruct He).
  intros _. by rewrite cgroup_of_upd_eq.
Qed.

Lemma find_anchor_bound progs ap alink preorder i :
  find_anchor progs ap alink preorder = Found i → (i < length progs)%nat.
Proof.
  unfold find_anchor. case_match; [done|].
  destruct (list_find _ progs) as [[j pl]|] eqn:E; [|done].
  case_match; [done|]. intros [= <-].
  apply list_find_Some in E as (E & _). by eapply lookup_lt_Some.
Qed.

Lemma get_prog_list_bound link_by_id link_from_fd prog_by_id prog_get progs prog link
  flags id_or_fd i :
  get_prog_list link_by_id link_from_fd prog_by_id prog_get progs prog link flags
    id_or_fd = Found i → (i < length progs)%nat.
Proof.
  unfold get_prog_list.
  destruct (_ && Bool.eqb _ _); [done|]. destruct (_ && (_ || _)); [done|].
  destruct (_ && _ && _ && _); [done|]. destruct (has flags BPF_F_LINK).
  - destruct (bpf_get_anchor_link _ _ _ _); [done|]. apply find_anchor_bound.
  - destruct (_ || _).
    + destruct (bpf_get_anchor_prog _ _ _ _); [done|]. apply find_anchor_bound.
    + destruct progs as [|pl progs]; [done|].
      destruct (has flags BPF_F_BEFORE); intros [= <-]; simpl; lia.
Qed.


Lemma with_prog_delete st progs i pl fl :
  progs !! i = Some pl →
  with_prog st (<[i := mk_pl NULL NULL fl]> progs) = with_prog st (delete i progs).
Proof.
  intros Hi. rewrite <- (take_drop_middle progs i pl Hi) at 1 2.
  assert (i < length progs)%nat as Hlt by (by eapply lookup_lt_Some).
  assert (length (take i progs) = i) as Ht by (rewrite length_take; lia).
  rewrite <- Ht at 1 4. rewrite delete_middle.
  rewrite insert_app_r_alt, Nat.sub_diag by lia. simpl.
  unfold with_prog. by rewrite !filter_app, filter_cons, decide_False by (intros H; by apply H).
Qed.

Lemma find_detach_bound progs prog link b i :
  find_detach_entry progs prog link b = Found i → ∃ pl, progs !! i = Some pl.
Proof.
  unfold find_detach_entry, find_index. case_match.
  - destruct progs as [|pl progs]; [done|]. intros [= <-]. by exists pl.
  - case_match; [done|].
    destruct (list_find _ progs) as [[j pl]|] eqn:E; simpl; [|done].
    intros [= <-]. apply list_find_Some in E as (E & _). eauto.
Qed.

(** The end of a detachment only removes an entry without program. *)
Lemma agree_after_delete st st1 st2 cg i pl :
  cg_progs (cgroup_of st cg) !! i = Some pl →
  agree st1 st2 →
  cg_progs (cgroup_of st1 cg) = <[i := mk_pl NULL NULL (pl_flags pl)]> (cg_progs (cgroup_of st cg)) →
  agree st2 (upd_cgroup cg bump_revision
    (upd_cgroup cg (set_progs (delete i (cg_progs (cgroup_of st cg)))) st2)).
Proof.
  intros Hpl Ha Hp1. etrans; [|by apply agree_upd].
  set (progs := cg_progs (cgroup_of st cg)) in *.
  split; [done|..]; intros d.
  - rewrite cgroup_of_upd. by case_decide; subst.
  - rewrite cgroup_of_upd. by case_decide; subst.
  - unfold level_same, level_progs. rewrite cgroup_of_upd.
    case_decide; [subst d|done]. simpl. split; [|done].
    change (with_prog st2 (cg_progs (cgroup_of st2 cg))) with (level_progs st2 cg).
    rewrite <- (proj1 (agree_progs _ _ Ha cg)). unfold level_progs. rewrite Hp1.
    rewrite (with_prog_delete _ _ _ _ _ Hpl).
    unfold with_prog, prog_list_prog. by rewrite (agree_links _ _ Ha).
Qed.

Lemma inv_reset_flags st cg :
  cg_progs (cgroup_of st cg) = [] → cgroups_inv st →
  cgroups_inv (upd_cgroup cg (set_flags 0) st).
Proof.
  intros He. apply inv_transfer; [|intros d; unfold observed; rewrite cgroup_of_upd;
    by case_decide; subst|done].
  split; [done|..]; intros d; try (rewrite cgroup_of_upd; by case_decide; subst).
  unfold level_same, level_progs. rewrite cgroup_of_upd. case_decide; [subst d|done].
  simpl. split; [done|]. by rewrite He.
Qed.

Lemma detach_array_ok al descs st :
  sinv (gs_scopes st) → NoDup descs → (∀ d, d ∈ descs → live st d → array_ok al d = true) →
  ∃ st2, update_effective_progs (array_ok al) descs st = (0, st2).
Proof.
  intros Hs Hnd Hall.
  pose proof (update_effective_spec sinv (array_ok al) descs st Hnd Hs) as H.
  destruct (update_effective_progs (array_ok al) descs st) as [err st2].
  destruct H as (_ & _ & _ & Hok & _). exists st2. f_equal. by apply Hok.
Qed.

(** Detaching with the arrays allocated. *)
Lemma detach_keeps delete_safe_at al descs cg prog link revision st :
  cgroups_inv st → is_descendants st cg descs →
  (∀ d, d ∈ descs → live st d → array_ok al d = true) →
  let '(err, st') := cgroup_bpf_detach delete_safe_at al descs cg prog link revision st in
  cgroups_inv st' ∧
  (err = 0 → ∃ i, find_detach_entry (cg_progs (cgroup_of st cg)) prog link
              (has (cg_flags (cgroup_of st cg)) BPF_F_ALLOW_MULTI) = Found i ∧
            cg_progs (cgroup_of st' cg) = delete i (cg_progs (cgroup_of st cg))) ∧
  (err ≠ 0 → st' = st).
Proof.
  intros Hi Hd Hall. unfold cgroup_bpf_detach.
  destruct (negb (revision =? 0) && _); [split_and!; done|].
  destruct (negb (prog =? NULL) && _); [split_and!; done|].
  destruct (find_detach_entry _ _ _ _) as [i| |e] eqn:Hf; [|split_and!; done|].
  2:{ split_and!; try done. intros ->. revert Hf. unfold find_detach_entry.
      repeat case_match; done. }
  destruct (find_detach_bound _ _ _ _ _ Hf) as [pl Hpl].
  rewrite (list_lookup_total_correct _ _ _ Hpl).
  set (st1 := upd_cgroup cg (set_progs (<[i:=_]> _)) st).
  pose proof (changed_progs st cg
    (<[i:=mk_pl NULL NULL (pl_flags pl)]> (cg_progs (cgroup_of st cg)))) as Hch.
  fold st1 in Hch.
  destruct (detach_array_ok al descs st1) as [st2 Hu].
  { rewrite (ch_scopes _ _ _ Hch). apply Hi. }
  { apply Hd. }
  { intros d Hin Hl. apply Hall; [done|]. unfold live in *.
    by rewrite <- (ref_zero_observed st st1) by (by apply changed_observed with cg). }
  rewrite Hu. cbn [negb Z.eqb].
  destruct (update_after_change _ _ _ _ _ _ Hi Hd Hch Hu) as [Hi2 Ha2].
  set (st3 := upd_cgroup cg bump_revision _).
  assert (cgroups_inv st3) as Hi3.
  { apply (inv_transfer st2).
    - apply (agree_after_delete st st1 st2 cg i pl Hpl Ha2). unfold st1.
      by rewrite cgroup_of_upd_eq.
    - intros d. unfold st3, observed. rewrite !cgroup_of_upd.
      by repeat case_decide; subst.
    - done.
    - done. }
  assert (cg_progs (cgroup_of st3 cg) = delete i (cg_progs (cgroup_of st cg))) as Hp3.
  { unfold st3. by rewrite !cgroup_of_upd_eq. }
  split_and!; [|intros _; exists i; split; [done|]|done].
  - apply inv_enabled. destruct (cg_progs (cgroup_of st3 cg)) eqn:E; [|done].
    by apply inv_reset_flags.
  - destruct (cg_progs (cgroup_of st3 cg)) eqn:E; simpl;
      change (cgroup_of (upd_enabled (-1) ?s) cg) with (cgroup_of s cg).
    + rewrite cgroup_of_upd_eq. simpl. by rewrite E.
    + by rewrite E.
Qed.

(** A detachment whose descendants' arrays can be allocated succeeds
    whenever its entry exists, removes exactly that entry, and leaves every
    live cgroup current: no cgroup keeps running the detached program, and
    ownership falls back to the nearest ancestor that still has one. *)
Theorem detach_keeps_inv delete_safe_at al descs cg prog link revision st :
  cgroups_inv st → is_descendants st cg descs →
  (∀ d, d ∈ descs → live st d → array_ok al d = true) →
  let '(err, st') := cgroup_bpf_detach delete_safe_at al descs cg prog link revision st in
  cgroups_inv st' ∧
  (err = 0 → ∃ i, find_detach_entry (cg_progs (cgroup_of st cg)) prog link
              (has (cg_flags (cgroup_of st cg)) BPF_F_ALLOW_MULTI) = Found i ∧
            cg_progs (cgroup_of st' cg) = delete i (cg_progs (cgroup_of st cg))) ∧
  (err ≠ 0 → st' = st).
Proof. apply detach_keeps. Qed.
End props.
