(* ===== verification/DispatchProps.v ===== *)
(** * Properties of policy dispatch (kernel/bpf/cgroup.c) *)

From S2P Require Import Prelude Abi PolicyLib Kernel ScopeApi Cgroups EffectiveFacts Dispatch.
From S2P Require Import CgroupFacts CgroupProps.

Section dispatch_props.
Context {S W : Type} `{PS : PolicyScopes S} (sinv : S → Prop) {PSL : PolicyScopesLaws S sinv}.
Context (bpf_prog_run : Z → bpf_program W) (cgroup_id : Z → Z).
Implicit Types st : cgroups_state S.

(** ** The hierarchy *)

(** A cgroup other than NULL has a level one above its parent's; the
    ancestors of a live cgroup are live (it holds a reference on each). *)
Record tree_wf st : Prop := {
  tree_level d : live st d → cg_parent (cgroup_of st d) ≠ NULL →
    cg_level (cgroup_of st d) = Datatypes.S (cg_level (cgroup_of st (cg_parent (cgroup_of st d))));
  tree_live d p : live st d → p ∈ cgroup_path st d → live st p
}.

(** The fuel of the walk is enough: it does reach the root. *)
Lemma cgroup_path_unfold st d :
  tree_wf st → live st d → d ≠ NULL →
  cgroup_path st d = d :: (if cg_parent (cgroup_of st d) =? NULL then []
                           else cgroup_path st (cg_parent (cgroup_of st d))).
Proof.
  intros [Hl _] Hd Hn. unfold cgroup_path at 1. cbn [walk_parents].
  rewrite (proj2 (Z.eqb_neq _ _) Hn). f_equal.
  destruct (cg_parent (cgroup_of st d) =? NULL) eqn:E; unfold_bools.
  - rewrite E. by destruct (cg_level (cgroup_of st d)).
  - unfold cgroup_path. by rewrite (Hl d Hd E).
Qed.

Lemma path_head st d : d ≠ NULL → ∃ rest, cgroup_path st d = d :: rest.
Proof.
  intros Hn. unfold cgroup_path. cbn [walk_parents].
  rewrite (proj2 (Z.eqb_neq _ _) Hn). eauto.
Qed.

Lemma find_owner_elem st chain :
  find_owner st chain ≠ NULL →
  find_owner st chain ∈ chain ∧ level_progs st (find_owner st chain) ≠ [].
Proof.
  induction chain as [|p rest IH]; simpl; [done|].
  rewrite prog_list_length_eq. cbn [fst]. unfold level_progs in *.
  destruct (negb _) eqn:E; unfold_bools; intros Hn.
  - split; [by left|]. intros He. by rewrite He in E.
  - destruct (IH Hn). split; [by right|done].
Qed.

(** The owner of a live cgroup is its own owner, so its scope is active. *)
Lemma owner_active st d :
  cgroups_inv sinv st → tree_wf st → live st d →
  let owner := cg_owner (cgroup_of st d) in
  owner ≠ NULL → ps_active (gs_scopes st) owner = true.
Proof.
  intros Hi Ht Hd owner Hn. destruct (inv_current _ _ Hi d Hd) as [_ Ho _].
  fold owner in Ho. rewrite Ho in Hn.
  destruct (find_owner_elem _ _ Hn) as [Hin Hp]. rewrite <- Ho in *.
  destruct (inv_current _ _ Hi owner (tree_live _ Ht _ _ Hd Hin)) as [_ Ho' Ha].
  rewrite Ha, Ho'. apply bool_decide_eq_true_2.
  destruct (path_head st owner Hn) as [rest ->]. simpl.
  rewrite prog_list_length_eq. cbn [fst]. unfold level_progs in Hp.
  destruct (with_prog st (cg_progs (cgroup_of st owner))); [done|]. done.
Qed.

(** A rejected directory is outside every scope that could apply. *)
Lemma rejected_passes st current parent w ctx :
  cgroups_inv sinv st → tree_wf st → live st current →
  ps_maybe_managed (gs_scopes st) parent = false →
  cgroup_bpf_run_namei_ext bpf_prog_run cgroup_id st current parent w ctx =
    (BPF_NAMEI_EXT_PASS, w, ctx).
Proof.
  intros Hi Ht Hl Hm. unfold cgroup_bpf_run_namei_ext.
  destruct (_ && _) eqn:E; [|done]. unfold_bools.
  rewrite (prefilter_complete (inv:=sinv) (gs_scopes st)
    (cg_owner (cgroup_of st current))) in Hm; [done|apply Hi| |done].
  by apply owner_active.
Qed.

(** Soundness of the prefilter for dispatch: in a consistent state, when the
    prefilter rejects a directory, running the policy of any live cgroup in
    that directory would have passed the component untouched, without
    running a program. *)
Theorem prefilter_sound_for_dispatch st current parent w ctx :
  cgroups_inv sinv st → tree_wf st → live st current →
  ps_maybe_managed (gs_scopes st) parent = false →
  cgroup_bpf_run_namei_ext bpf_prog_run cgroup_id st current parent w ctx =
    (BPF_NAMEI_EXT_PASS, w, ctx).
Proof. apply rejected_passes. Qed.


(** ** What the programs may do *)

Lemma run_items_verified items w ctx :
  (∀ prog, prog ∈ items → prog ≠ NULL → VerifiedProgram (bpf_prog_run prog)) →
  let '(action, _, ctx') := run_items bpf_prog_run items w ctx in
  namei_ext_retval_ok action = true ∧ same_inputs ctx ctx' ∧ (ctx_wf ctx → ctx_wf ctx').
Proof.
  revert w ctx. induction items as [|prog items IH]; intros w ctx Hv; simpl.
  { split_and!; done. }
  destruct (prog =? NULL) eqn:E; unfold_bools; [split_and!; done|].
  pose proof (Hv prog ltac:(left) E) as [Hin Hwf Hret].
  specialize (Hin w ctx). specialize (Hwf w ctx). specialize (Hret w ctx).
  destruct (bpf_prog_run prog w ctx) as [[r w'] ctx']; simpl in *.
  assert (u32 r = r) as Hr.
  { apply wrap_small. unfold namei_ext_retval_ok, BPF_NAMEI_EXT_PASS,
      BPF_NAMEI_EXT_SELECT_TARGET in Hret. unfold_bools. unfold in_width. lia. }
  rewrite Hr. unfold namei_ext_retval_ok in Hret. apply andb_true_iff in Hret as [Hr1 Hr2].
  rewrite (proj2 (Z.ltb_ge _ _)) by (by apply Z.leb_le).
  destruct (negb (r =? BPF_NAMEI_EXT_PASS)) eqn:Ep.
  - unfold namei_ext_retval_ok. by rewrite Hr1, Hr2.
  - specialize (IH w' ctx'). destruct (run_items bpf_prog_run items w' ctx') as [[a w'']
      ctx'']. destruct IH as (Ha & Hs & Hw).
    { intros p Hp. apply Hv. by right. }
    split_and!; [done|by etrans|auto].
Qed.

(** When every loaded program is verified, dispatch returns one of the four
    actions (never an error), and apart from the cgroup id it leaves every
    input field of the context as the kernel set it: a policy cannot forge
    the name, parent or event that later programs and the kernel read. *)
Theorem dispatch_confined st current parent w ctx :
  (∀ prog, VerifiedProgram (bpf_prog_run prog)) →
  let '(action, _, ctx') :=
    cgroup_bpf_run_namei_ext bpf_prog_run cgroup_id st current parent w ctx in
  namei_ext_retval_ok action = true ∧
  (same_inputs ctx ctx' ∨ same_inputs (set_cgroup_id (cgroup_id current) ctx) ctx') ∧
  (ctx_wf ctx → ctx_wf ctx').
Proof.
  intros Hv. unfold cgroup_bpf_run_namei_ext, cgroup_bpf_run_namei_ext_locked.
  assert (ctx_wf ctx → ctx_wf (set_cgroup_id (cgroup_id current) ctx)) as Hw
    by (by intros []).
  destruct (_ && _); [|split_and!; [done|by left|done]].
  destruct (cg_effective (cgroup_of st current)) as [[|i items]|];
    [split_and!; [done|by right|done]| |split_and!; [done|by right|done]].
  pose proof (run_items_verified (i :: items) w (set_cgroup_id (cgroup_id current) ctx)) as H.
  destruct (run_items _ _ _ _) as [[a w'] ctx']. destruct H as (Ha & Hs & Hwf); [done|].
  split_and!; [done|by right|auto].
Qed.

(** ** A single effective policy *)

Lemma levels_started st chain :
  (∀ p, p ∈ chain → has (cg_flags (cgroup_of st p)) BPF_F_ALLOW_MULTI = false) →
  effective_levels st true chain = [].
Proof.
  induction chain as [|p chain IH]; intros Hf; simpl; [done|].
  rewrite Hf by left. simpl. apply IH. intros q Hq. apply Hf. by right.
Qed.

Lemma levels_single st chain :
  (∀ p, p ∈ chain → p ≠ NULL ∧ has (cg_flags (cgroup_of st p)) BPF_F_ALLOW_MULTI = false) →
  busy_levels st false chain =
    if find_owner st chain =? NULL then [] else [level_progs st (find_owner st chain)].
Proof.
  unfold busy_levels. induction chain as [|p chain IH]; intros Hf; simpl; [done|].
  rewrite prog_list_length_eq. cbn [fst].
  change (with_prog st (cg_progs (cgroup_of st p))) with (level_progs st p).
  destruct (level_progs st p) as [|pl pls] eqn:E; simpl.
  - rewrite filter_cons, decide_False by tauto. apply IH. intros q Hq. apply Hf. by right.
  - rewrite levels_started by (intros q Hq; apply Hf; by right).
    rewrite (proj2 (Z.eqb_neq _ _)) by (apply Hf; left).
    by rewrite filter_cons, decide_True, E.
Qed.

Lemma walk_parents_nonnull st fuel d p : p ∈ walk_parents fuel st d → p ≠ NULL.
Proof.
  revert d. induction fuel as [|fuel IH]; intros d; simpl; [by intros ?%not_elem_of_nil|].
  destruct (d =? NULL) eqn:E; unfold_bools; [by intros ?%not_elem_of_nil|].
  intros [->|Hp]%elem_of_cons; [done|]. by eapply IH.
Qed.

(** Without BPF_F_ALLOW_MULTI on the path, one cgroup provides the whole
    policy: the effective programs are exactly those of the nearest ancestor
    that has one (preorder entries first), and there are none if there is no
    such ancestor. A descendant's attachment hides every ancestor's. *)
Theorem single_effective_policy st current :
  cgroups_inv sinv st → live st current →
  (∀ p, p ∈ cgroup_path st current →
     has (cg_flags (cgroup_of st p)) BPF_F_ALLOW_MULTI = false) →
  let owner := cg_owner (cgroup_of st current) in
  cg_effective (cgroup_of st current) =
    Some (if owner =? NULL then [] else
          preorder_progs st (level_progs st owner) ++
          postorder_progs st (level_progs st owner)).
Proof.
  intros Hi Hl Hf. destruct (inv_current _ _ Hi current Hl) as [He Ho _].
  cbn zeta. rewrite He, Ho, spec_busy, levels_single.
  - destruct (_ =? NULL); simpl; [done|]. by rewrite !app_nil_r.
  - intros p Hp. split; [by eapply walk_parents_nonnull|by apply Hf].
Qed.
End dispatch_props.
