(* ===== verification/System.v ===== *)
(** * The whole kernel side as a transition system

    Cgroups are created and released, policies are attached, detached and
    scoped, in any order: the states the path walk can find.  Steps are the
    operations of kernel/bpf/cgroup.c and fs/namei_ext.c, run to completion
    under [cgroup_mutex], with their allocations of effective arrays
    succeeding. *)

From S2P Require Import Prelude Abi Kernel Scopes ScopeFacts ScopeApi ScopeSystem Cgroups.
From S2P Require Import Dispatch CgroupFacts DispatchProps.

Section system.
Context (hash_min : Z → nat).
Context (bpf_link_by_id bpf_link_get_from_fd bpf_prog_by_id bpf_prog_get : Z → Z + Z).
Context (delete_safe_at : list Z → nat → list Z).

Abbreviation kstate := (cgroups_state scopes_state).
#[local] Existing Instance scopes_policy.
#[local] Instance the_scopes : PolicyScopes scopes_state := scopes_policy hash_min.

(** The last reference of the cgroup's [bpf.refcnt] is gone. *)
Definition kill_ref (c : cgroup) : cgroup :=
  mk_cgroup (cg_parent c) (cg_level c) (cg_progs c) (cg_flags c) (cg_effective c)
    (cg_inactive c) (cg_owner c) (cg_revision c) true.

(** A cgroup as [cgroup_create] links it under its parent. *)
Definition fresh_cgroup (parent : Z) (st : kstate) : cgroup :=
  mk_cgroup parent (if parent =? NULL then 0%nat else S (cg_level (cgroup_of st parent)))
    [] 0 None None NULL 0 false.

(** The operations a write to policy_parent can start. *)
Definition is_parent_op (op : scope_op) : Prop :=
  match op with OpSetActive _ _ | OpRelease _ => False | _ => True end.

Definition arrays_ok (al : allocs) (descs : list Z) (st : kstate) : Prop :=
  ∀ d, d ∈ descs → live st d → array_ok al d = true.

Definition boot : kstate := mk_cgroups ∅ ∅ initial_scopes 0.

(** What [cgroup_bpf_prog_attach] and [cgroup_bpf_link_attach] pass on: a
    program, or a link that has one and allows several programs. *)
Definition attach_request (prog link flags : Z) (st : kstate) : Prop :=
  (prog ≠ NULL ∧ link = NULL) ∨
  (prog = NULL ∧ link ≠ NULL ∧ is_Some (gs_links st !! link) ∧
   has flags BPF_F_ALLOW_MULTI = true).

Definition add_link (link prog : Z) (st : kstate) : kstate :=
  mk_cgroups (gs_cgroups st) (<[link := prog]> (gs_links st)) (gs_scopes st) (gs_enabled st).

Inductive sys_step (st : kstate) : kstate → Prop :=
  | sys_link link prog :
      gs_links st !! link = None → sys_step st (add_link link prog st)
  | sys_create cg parent :
      gs_cgroups st !! cg = None → cg ≠ NULL →
      parent = NULL ∨ live st parent →
      sys_step st (cgroup_bpf_inherit true cg (upd_cgroup cg (λ _, fresh_cgroup parent st) st)).2
  | sys_attach al descs cg prog replace_prog link flags id_or_fd revision :
      live st cg → is_descendants st cg descs → arrays_ok al descs st →
      attach_request prog link flags st →
      sys_step st
        (cgroup_bpf_attach bpf_link_by_id bpf_link_get_from_fd bpf_prog_by_id bpf_prog_get
           al descs cg prog replace_prog link flags id_or_fd revision st).2
  | sys_detach al descs cg prog link revision :
      live st cg → is_descendants st cg descs → arrays_ok al descs st →
      sys_step st (cgroup_bpf_detach delete_safe_at al descs cg prog link revision st).2
  | sys_release cg :
      live st cg → (∀ d, live st d → cg ∈ cgroup_path st d → d = cg) →
      sys_step st (cgroup_bpf_release cg (upd_cgroup cg kill_ref st))
  | sys_scope op :
      is_parent_op op → op_ok op (gs_scopes st) →
      sys_step st (upd_scopes (λ s, (scope_step hash_min op s).2) st).

Inductive sys_reachable : kstate → Prop :=
  | sys_boot : sys_reachable boot
  | sys_next st st' : sys_reachable st → sys_step st st' → sys_reachable st'.

(** The number of list entries, over all cgroups. *)
Definition attached (st : kstate) : Z :=
  map_sum (λ c, Z.of_nat (length (cg_progs c))) (gs_cgroups st).

End system.
