(* ===== verification/Lookup.v ===== *)
(** * Consulting the policy for one component (fs/namei_ext.c)

    The context handed to the policy, the validation of its answer, and the
    resolution of a selected target. *)

From S2P Require Import Prelude Abi Kernel Targets.

(** ** Lookup flags

    The bits of [nd->flags] that the extension and the path walk read; their numeric values are
    in include/linux/namei.h. *)

Inductive lookup_flag :=
  | LOOKUP_FOLLOW | LOOKUP_DIRECTORY | LOOKUP_RCU | LOOKUP_OPEN | LOOKUP_CREATE
  | LOOKUP_EXCL | LOOKUP_NO_XDEV | LOOKUP_BENEATH | LOOKUP_IN_ROOT | LOOKUP_PARENT
  | LOOKUP_CACHED | LOOKUP_REVAL | LOOKUP_NO_SYMLINKS | LOOKUP_NO_MAGICLINKS | LOOKUP_DOWN
  | LOOKUP_MOUNTPOINT | LOOKUP_LINKAT_EMPTY | LOOKUP_RENAME_TARGET | LOOKUP_OTHER (bit : nat).

#[export] Instance lookup_flag_eq_dec : EqDecision lookup_flag.
Proof. solve_decision. Defined.
#[export] Instance lookup_flag_countable : Countable lookup_flag.
Proof.
  refine (inj_countable'
    (λ f, match f with
          | LOOKUP_FOLLOW => 0%nat | LOOKUP_DIRECTORY => 1%nat | LOOKUP_RCU => 2%nat
          | LOOKUP_OPEN => 3%nat | LOOKUP_CREATE => 4%nat | LOOKUP_EXCL => 5%nat
          | LOOKUP_NO_XDEV => 6%nat | LOOKUP_BENEATH => 7%nat | LOOKUP_IN_ROOT => 8%nat
          | LOOKUP_PARENT => 9%nat | LOOKUP_CACHED => 10%nat | LOOKUP_REVAL => 11%nat
          | LOOKUP_NO_SYMLINKS => 12%nat | LOOKUP_NO_MAGICLINKS => 13%nat
          | LOOKUP_DOWN => 14%nat | LOOKUP_MOUNTPOINT => 15%nat
          | LOOKUP_LINKAT_EMPTY => 16%nat | LOOKUP_RENAME_TARGET => 17%nat
          | LOOKUP_OTHER n => (n + 18)%nat end)
    (λ n, match n with
          | 0 => LOOKUP_FOLLOW | 1 => LOOKUP_DIRECTORY | 2 => LOOKUP_RCU
          | 3 => LOOKUP_OPEN | 4 => LOOKUP_CREATE | 5 => LOOKUP_EXCL
          | 6 => LOOKUP_NO_XDEV | 7 => LOOKUP_BENEATH | 8 => LOOKUP_IN_ROOT
          | 9 => LOOKUP_PARENT | 10 => LOOKUP_CACHED | 11 => LOOKUP_REVAL
          | 12 => LOOKUP_NO_SYMLINKS | 13 => LOOKUP_NO_MAGICLINKS | 14 => LOOKUP_DOWN
          | 15 => LOOKUP_MOUNTPOINT | 16 => LOOKUP_LINKAT_EMPTY
          | 17 => LOOKUP_RENAME_TARGET | n => LOOKUP_OTHER (n - 18) end%nat) _).
  intros []; try done. rewrite Nat.add_comm. simpl. by rewrite Nat.sub_0_r.
Defined.

Abbreviation flags_t := (gset lookup_flag).

Definition fl (f : lookup_flag) (flags : flags_t) : bool := bool_decide (f ∈ flags).

(** ** The redirect record (include/linux/namei_ext.h) *)

Record namei_ext_redirect := mk_redirect {
  r_active : bool;
  r_target_pending : bool;
  r_target_active : bool;
  r_target_borrowed : bool;
  r_len : Z;
  r_hash : Z;
  r_target_id : Z;
  r_target_cgroup_id : Z;
  r_name : list Z;
  r_target : path
}.

Definition clear_flags (r : namei_ext_redirect) : namei_ext_redirect :=
  mk_redirect false false false false (r_len r) (r_hash r) (r_target_id r)
    (r_target_cgroup_id r) (r_name r) (r_target r).
Definition set_pending (cg tid : Z) (r : namei_ext_redirect) : namei_ext_redirect :=
  mk_redirect (r_active r) true (r_target_active r) (r_target_borrowed r) (r_len r)
    (r_hash r) tid cg (r_name r) (r_target r).
Definition set_target (p : path) (borrowed : bool) (r : namei_ext_redirect)
  : namei_ext_redirect :=
  mk_redirect (r_active r) false true borrowed (r_len r)
    (r_hash r) (r_target_id r) (r_target_cgroup_id r) (r_name r) p.
Definition drop_target (r : namei_ext_redirect) : namei_ext_redirect :=
  mk_redirect (r_active r) (r_target_pending r) false false (r_len r)
    (r_hash r) (r_target_id r) (r_target_cgroup_id r) (r_name r) (r_target r).

(** [memcpy(dst, src, n)] into a buffer. *)
Definition memcpy (dst src : list Z) (n : nat) : list Z := take n src ++ drop n dst.

Section lookup.
(** [d_backing_inode(dentry)] *)
Variable d_backing_inode : Z → option inode.
(** [full_name_hash(dentry, name, len)] *)
Variable full_name_hash : Z → list Z → Z.
(** The word whose bits are the flags. *)
Variable flags_word : flags_t → Z.

(** [event] and [flags] as the caller gives them; [parent] may be NULL. *)
Definition namei_ext_init_ctx (parent : option path) (parent_inode : option inode)
  (event flags : Z) (name : qstr) : bpf_namei_ext_ctx :=
  let copied := Z.to_nat (Z.min (q_len name) BPF_NAMEI_EXT_NAME_MAX) in
  let inode :=
    match parent_inode, parent with
    | Some i, _ => Some i
    | None, Some p => if p_dentry p =? NULL then None else d_backing_inode (p_dentry p)
    | None, None => None
    end in
  mk_ctx event flags (q_len name) (q_hash name) 0
    (take copied (q_name name) ++ replicate (NAME_MAX_nat - copied) 0)
    0 0 (replicate NAME_MAX_nat 0)
    (match inode with Some i => default 0 (i_sdev i) | None => 0 end)
    (match inode with Some i => i_ino i | None => 0 end)
    (match inode with Some i => i_generation i | None => 0 end)
    0.

Definition namei_ext_redirect_valid (ctx : bpf_namei_ext_ctx) : bool :=
  let len := ctx_redirect_name_len ctx in
  let name := ctx_redirect_name ctx in
  if (len =? 0) || (BPF_NAMEI_EXT_NAME_MAX <? len) then false else
  if (len =? 1) && (name !!! 0%nat =? chr ".") then false else
  if (len =? 2) && (name !!! 0%nat =? chr ".") && (name !!! 1%nat =? chr ".") then false else
  forallb (λ i, negb ((name !!! i =? chr "/") || (name !!! i =? 0))) (seq 0 (Z.to_nat len)).

Definition namei_ext_fill_redirect (parent : path) (ctx : bpf_namei_ext_ctx)
  (r : namei_ext_redirect) : namei_ext_redirect :=
  let len := ctx_redirect_name_len ctx in
  let name := memcpy (r_name r) (ctx_redirect_name ctx) (Z.to_nat len) in
  mk_redirect true (r_target_pending r) (r_target_active r) (r_target_borrowed r) len
    (full_name_hash (p_dentry parent) (take (Z.to_nat len) name))
    (r_target_id r) (r_target_cgroup_id r) name (r_target r).

Section run.
Context {W : Type}.
(** [__cgroup_bpf_run_namei_ext] for the current task. *)
Variable run : W → path → bpf_namei_ext_ctx → Z * W * bpf_namei_ext_ctx.

Definition namei_ext_lookup (parent : path) (parent_inode : option inode) (name : qstr)
  (event : Z) (lookup_flags : flags_t) (redirect : namei_ext_redirect) (w : W)
  : Z * namei_ext_redirect * W :=
  let redirect := clear_flags redirect in
  let ctx := namei_ext_init_ctx (Some parent) parent_inode event
               (flags_word lookup_flags) name in
  let '(action, w, ctx) := run w parent ctx in
  if action <? 0 then (action, redirect, w) else
  if action =? BPF_NAMEI_EXT_PASS then (0, redirect, w) else
  if action =? BPF_NAMEI_EXT_REDIRECT then
    if fl LOOKUP_CREATE lookup_flags then (- EOPNOTSUPP, redirect, w) else
    if negb (namei_ext_redirect_valid ctx) then (- EINVAL, redirect, w) else
    (0, namei_ext_fill_redirect parent ctx redirect, w)
  else if action =? BPF_NAMEI_EXT_HIDE then (- ENOENT, redirect, w)
  else if action =? BPF_NAMEI_EXT_SELECT_TARGET then
    if fl LOOKUP_CREATE lookup_flags then (- EOPNOTSUPP, redirect, w) else
    if fl LOOKUP_OPEN lookup_flags && negb (fl LOOKUP_DIRECTORY lookup_flags)
    then (- EOPNOTSUPP, redirect, w) else
    (0, set_pending (ctx_cgroup_id ctx) (ctx_target_id ctx) redirect, w)
  else (- EINVAL, redirect, w).
End run.

(** [hash_min] of the target table. *)
Variable hash_min : Z → nat.

Definition namei_ext_resolve_target (redirect : namei_ext_redirect) (rcu_walk : bool)
  (ts : targets_state) : Z * namei_ext_redirect * targets_state :=
  if negb (r_target_pending redirect) then (0, redirect, ts) else
  if r_target_id redirect =? 0 then (- EINVAL, redirect, ts) else
  if rcu_walk then
    match namei_ext_find_target_rcu hash_min (r_target_cgroup_id redirect)
            (r_target_id redirect) ts with
    | None => (- ENOENT, redirect, ts)
    | Some t => (0, set_target (tgt_path t) true redirect, ts)
    end
  else
    match namei_ext_get_target hash_min (r_target_cgroup_id redirect)
            (r_target_id redirect) ts with
    | (ret, Some p, ts) => (0, set_target p (r_target_borrowed redirect) redirect, ts)
    | (ret, None, ts) => (ret, redirect, ts)
    end.
End lookup.
