(* ===== verification/Walk.v ===== *)
(** * The path walk (fs/namei.c)

    The steps of the path walk that consult the policy.  The functions they
    call ([lookup_fast], [lookup_slow], [step_into], [put_link],
    [handle_dots], [try_to_unlazy], [lookup_open] and the delegation and
    write-access calls) are parameters here; [PathWalk] defines those of them
    that belong to the walk itself. *)

From S2P Require Import Prelude Abi Kernel Targets Lookup.

Inductive last_type := LAST_NORM | LAST_ROOT | LAST_DOT | LAST_DOTDOT.
#[export] Instance last_type_eq_dec : EqDecision last_type.
Proof. solve_decision. Defined.

(** An entry of [nd->stack]: the symlink being followed, pinned until its
    body has been walked. *)
Record saved := mk_saved { sv_link : path; sv_seq : Z }.

(** struct nameidata.  [nd_root] is [null_path] when [root.mnt] is NULL;
    [nd_stack] has the entry at [depth - 1] first; [nd_dir] is the inode whose
    owner and mode are in [dir_vfsuid] and [dir_mode] (none when [dir_mode] is
    0); [nd_alloced] says that [stack] is no longer [internal]. *)
Record nameidata := mk_nd {
  nd_path : path;
  nd_last : qstr;
  nd_root : path;
  nd_inode : option inode;
  nd_flags : flags_t;
  nd_jumped : bool;
  nd_root_preset : bool;
  nd_root_grabbed : bool;
  nd_seq : Z;
  nd_next_seq : Z;
  nd_root_seq : Z;
  nd_last_type : last_type;
  nd_stack : list saved;
  nd_alloced : bool;
  nd_total_link_count : Z;
  nd_dir : option inode
}.

Definition nd_depth (nd : nameidata) : Z := Z.of_nat (length (nd_stack nd)).

Definition set_path (p : path) (nd : nameidata) : nameidata :=
  mk_nd p (nd_last nd) (nd_root nd) (nd_inode nd) (nd_flags nd) (nd_jumped nd)
    (nd_root_preset nd) (nd_root_grabbed nd) (nd_seq nd) (nd_next_seq nd) (nd_root_seq nd)
    (nd_last_type nd) (nd_stack nd) (nd_alloced nd) (nd_total_link_count nd) (nd_dir nd).
Definition set_last (q : qstr) (nd : nameidata) : nameidata :=
  mk_nd (nd_path nd) q (nd_root nd) (nd_inode nd) (nd_flags nd) (nd_jumped nd)
    (nd_root_preset nd) (nd_root_grabbed nd) (nd_seq nd) (nd_next_seq nd) (nd_root_seq nd)
    (nd_last_type nd) (nd_stack nd) (nd_alloced nd) (nd_total_link_count nd) (nd_dir nd).
Definition set_nd_flags (f : flags_t) (nd : nameidata) : nameidata :=
  mk_nd (nd_path nd) (nd_last nd) (nd_root nd) (nd_inode nd) f (nd_jumped nd)
    (nd_root_preset nd) (nd_root_grabbed nd) (nd_seq nd) (nd_next_seq nd) (nd_root_seq nd)
    (nd_last_type nd) (nd_stack nd) (nd_alloced nd) (nd_total_link_count nd) (nd_dir nd).
Definition set_seq (v : Z) (nd : nameidata) : nameidata :=
  mk_nd (nd_path nd) (nd_last nd) (nd_root nd) (nd_inode nd) (nd_flags nd) (nd_jumped nd)
    (nd_root_preset nd) (nd_root_grabbed nd) v (nd_next_seq nd) (nd_root_seq nd)
    (nd_last_type nd) (nd_stack nd) (nd_alloced nd) (nd_total_link_count nd) (nd_dir nd).
(** [nd->path = p; nd->inode = i] *)
Definition move_to (p : path) (i : option inode) (nd : nameidata) : nameidata :=
  mk_nd p (nd_last nd) (nd_root nd) i (nd_flags nd) (nd_jumped nd)
    (nd_root_preset nd) (nd_root_grabbed nd) (nd_seq nd) (nd_next_seq nd) (nd_root_seq nd)
    (nd_last_type nd) (nd_stack nd) (nd_alloced nd) (nd_total_link_count nd) (nd_dir nd).
Definition set_jumped (b : bool) (nd : nameidata) : nameidata :=
  mk_nd (nd_path nd) (nd_last nd) (nd_root nd) (nd_inode nd) (nd_flags nd) b
    (nd_root_preset nd) (nd_root_grabbed nd) (nd_seq nd) (nd_next_seq nd) (nd_root_seq nd)
    (nd_last_type nd) (nd_stack nd) (nd_alloced nd) (nd_total_link_count nd) (nd_dir nd).
(** [nd->path = p; nd->inode = i; nd->state |= ND_JUMPED] *)
Definition jump_to (p : path) (i : option inode) (nd : nameidata) : nameidata :=
  set_jumped true (move_to p i nd).

Definition nd_has (f : lookup_flag) (nd : nameidata) : bool := fl f (nd_flags nd).

(** A walk in progress: the name data, the registry with the references on
    paths, and the policies' maps. *)
Record walk (W : Type) := mk_walk {
  wk_nd : nameidata; wk_targets : targets_state; wk_maps : W }.
Arguments mk_walk {W} _ _ _.
Arguments wk_nd {W} _.
Arguments wk_targets {W} _.
Arguments wk_maps {W} _.

(** A pointer that may be NULL or an error. *)
Inductive ptr_res (A : Type) := PNull | PPtr (p : A) | PErr (e : Z).
Arguments PNull {A}.
Arguments PPtr {A} _.
Arguments PErr {A} _.

(** What lookups return, a dentry, and what a step returns: the body of a
    symlink to follow, with its NUL. *)
Abbreviation dentry_res := (ptr_res Z).
Abbreviation link_res := (ptr_res (list Z)).

Definition WALK_TRAILING : Z := 1.
Definition WALK_MORE : Z := 2.
Definition WALK_NOFOLLOW : Z := 4.

(** ** Opens

    The bits of open(2)'s flags and of [acc_mode] that the code tests. *)
Definition O_WRONLY : Z := 1.
Definition O_RDWR : Z := 2.
Definition O_ACCMODE : Z := 3.
Definition O_CREAT : Z := 0x40.
Definition O_EXCL : Z := 0x80.
Definition O_TRUNC : Z := 0x200.
Definition O_APPEND : Z := 0x400.
Definition O_DIRECTORY : Z := 0x10000.
Definition O_NOATIME : Z := 0x40000.
Definition O_PATH : Z := 0x200000.
Definition O_TMPFILE : Z := 0x400000.
Definition MAY_EXEC : Z := 1.
Definition MAY_WRITE : Z := 2.

(** [word & bits] *)
Definition bits (b word : Z) : bool := negb (Z.land word b =? 0).

(** struct open_flags; [mode] only reaches file systems and security modules. *)
Record open_flags := mk_open {
  op_open_flag : Z; op_acc_mode : Z; op_intent : flags_t; op_lookup_flags : flags_t }.

(** struct file: FMODE_OPENED and FMODE_CREATED of [f_mode], and [f_path], on
    which an opened file has a reference. *)
Record file := mk_file { f_opened : bool; f_created : bool; f_path : path }.

Section walk.
Context {W : Type}.
Variable d_backing_inode : Z → option inode.
Variable full_name_hash : Z → list Z → Z.
Variable flags_word : flags_t → Z.
Variable run : W → path → bpf_namei_ext_ctx → Z * W * bpf_namei_ext_ctx.
Variable hash_min : Z → nat.

(** The bits of LOOKUP_IS_SCOPED. *)
Variable LOOKUP_IS_SCOPED : flags_t.
(** [d_can_lookup], [d_seq], [d_inode], [d_flags & DCACHE_OP_HASH] and
    [d_op->d_hash] of a dentry. *)
Variables (d_can_lookup : Z → bool) (d_seq : Z → Z) (d_inode : Z → option inode)
  (d_op_hash : Z → bool) (d_hash : Z → qstr → Z * qstr).
Variables (try_to_unlazy : walk W → bool * walk W)
  (lookup_fast lookup_slow : walk W → dentry_res * walk W)
  (put_link : walk W → walk W)
  (step_into : Z → Z → walk W → link_res * walk W)
  (handle_dots : walk W → link_res * walk W).

Definition on_nd (f : nameidata → nameidata) (st : walk W) : walk W :=
  mk_walk (f (wk_nd st)) (wk_targets st) (wk_maps st).
Definition put_path (p : path) (st : walk W) : walk W :=
  mk_walk (wk_nd st)
    (mk_targets (ts_table (wk_targets st)) (path_put p (ts_refs (wk_targets st))))
    (wk_maps st).
Definition get_path (p : path) (st : walk W) : walk W :=
  mk_walk (wk_nd st)
    (mk_targets (ts_table (wk_targets st)) (path_get p (ts_refs (wk_targets st))))
    (wk_maps st).

(** [Some (saved_last, nd)] when there is a redirect. *)
Definition namei_ext_apply_redirect (nd : nameidata) (redirect : namei_ext_redirect)
  : option (qstr * nameidata) :=
  if negb (r_active redirect) then None else
  Some (nd_last nd,
        set_last (mk_qstr (r_hash redirect) (r_len redirect) (r_name redirect)) nd).

Definition namei_ext_hash_redirect (nd : nameidata) : Z * nameidata :=
  let parent := p_dentry (nd_path nd) in
  if d_op_hash parent then
    let '(e, q) := d_hash parent (nd_last nd) in (e, set_last q nd)
  else (0, nd).

Definition namei_ext_apply_target (redirect : namei_ext_redirect) (st : walk W)
  : Z * namei_ext_redirect * walk W :=
  if negb (r_target_active redirect) then (0, redirect, st) else
  let nd := wk_nd st in
  let borrowed := r_target_borrowed redirect in
  let target := r_target redirect in
  let release (st : walk W) := if negb borrowed then put_path target st else st in
  if bool_decide (nd_flags nd ∩ LOOKUP_IS_SCOPED ≠ ∅)
  then (- EXDEV, drop_target redirect, release st) else
  if nd_has LOOKUP_NO_XDEV nd && negb (p_mnt (nd_path nd) =? p_mnt target)
  then (- EXDEV, drop_target redirect, release st) else
  if negb (d_can_lookup (p_dentry target))
  then (- ENOTDIR, drop_target redirect, release st) else
  if borrowed && negb (nd_has LOOKUP_RCU nd)
  then (- EINVAL, drop_target redirect, st) else
  let st :=
    if borrowed then on_nd (set_seq (d_seq (p_dentry target))) st
    else put_path (nd_path nd) st in
  (0, drop_target redirect, on_nd (jump_to target (d_inode (p_dentry target))) st).

Definition walk_component_common (flags : Z) (st : walk W) : link_res * walk W :=
  let continue_with (dentry : Z) (st : walk W) :=
    let st := if negb (nd_depth (wk_nd st) =? 0) && (Z.land flags WALK_MORE =? 0)
              then put_link st else st in
    step_into flags dentry st in
  match lookup_fast st with
  | (PErr e, st) => (PErr e, st)
  | (PPtr d, st) => continue_with d st
  | (PNull, st) =>
      match lookup_slow st with
      | (PErr e, st) => (PErr e, st)
      | (PPtr d, st) => continue_with d st
      | (PNull, st) => continue_with NULL st
      end
  end.

(** Leave RCU mode before reporting [error]. *)
Definition fail_unlazied (error : Z) (st : walk W) : link_res * walk W :=
  if nd_has LOOKUP_RCU (wk_nd st) then
    let '(ok, st) := try_to_unlazy st in
    if negb ok then (PErr (- ECHILD), st) else (PErr error, st)
  else (PErr error, st).

(** The part that both walks share: ask the policy and resolve a target.
    [inl] is a final answer. *)
Definition consult_policy (buf : namei_ext_redirect) (st : walk W)
  : (link_res * walk W) + (namei_ext_redirect * walk W) :=
  let nd := wk_nd st in
  let '(error, redirect, w) :=
    namei_ext_lookup d_backing_inode full_name_hash flags_word run (nd_path nd)
      (nd_inode nd) (nd_last nd) BPF_NAMEI_EXT_LOOKUP
      (nd_flags nd ∖ {[LOOKUP_RCU]}) buf (wk_maps st) in
  let st := mk_walk nd (wk_targets st) w in
  if negb (error =? 0) then inl (fail_unlazied error st) else
  let '(error, redirect, ts) :=
    if r_target_pending redirect
    then namei_ext_resolve_target hash_min redirect (nd_has LOOKUP_RCU nd) (wk_targets st)
    else (0, redirect, wk_targets st) in
  let st := mk_walk nd ts w in
  if negb (error =? 0) then inl (fail_unlazied error st) else
  if r_active redirect && nd_has LOOKUP_RCU nd then
    let '(ok, st) := try_to_unlazy st in
    if negb ok then inl (PErr (- ECHILD), st) else inr (redirect, st)
  else inr (redirect, st).

(** Run [common] on the redirected name, and restore the name. *)
Definition with_redirect (redirect : namei_ext_redirect)
  (common : walk W → link_res * walk W) (st : walk W) : link_res * walk W :=
  match namei_ext_apply_redirect (wk_nd st) redirect with
  | None => common st
  | Some (saved_last, nd) =>
      let '(error, nd) := namei_ext_hash_redirect nd in
      let st := on_nd (λ _, nd) st in
      if error <? 0 then (PErr error, on_nd (set_last saved_last) st) else
      let '(res, st) := common st in
      (res, on_nd (set_last saved_last) st)
  end.

(** [buf] is the uninitialised redirect on the stack. *)
Definition walk_component_namei_ext (buf : namei_ext_redirect) (flags : Z)
  (st : walk W) : link_res * walk W :=
  match consult_policy buf st with
  | inl r => r
  | inr (redirect, st) =>
      if r_target_active redirect then
        let '(error, _, st) := namei_ext_apply_target redirect st in
        if negb (error =? 0) then (PErr error, st) else (PNull, st)
      else with_redirect redirect (walk_component_common flags) st
  end.

(** [enabled] is [namei_ext_enabled()], [managed] the prefilter. *)
Definition walk_component (enabled : bool) (managed : path → bool)
  (buf : namei_ext_redirect) (flags : Z) (st : walk W) : link_res * walk W :=
  if negb (bool_decide (nd_last_type (wk_nd st) = LAST_NORM)) then
    let st := if negb (nd_depth (wk_nd st) =? 0) && (Z.land flags WALK_MORE =? 0)
              then put_link st else st in
    handle_dots st
  else if enabled && managed (nd_path (wk_nd st))
  then walk_component_namei_ext buf flags st
  else walk_component_common flags st.

(** ** The last component of an open *)

(** The byte after the name; [None] is a read past the buffer. *)
Definition trailing_slashes (nd : nameidata) : option bool :=
  (λ b, negb (b =? 0)) <$> q_name (nd_last nd) !! Z.to_nat (q_len (nd_last nd)).

Definition follow_directory (nd : nameidata) : nameidata :=
  set_nd_flags (nd_flags nd ∪ {[LOOKUP_FOLLOW; LOOKUP_DIRECTORY]}) nd.

Definition lookup_last (enabled : bool) (managed : path → bool)
  (buf : namei_ext_redirect) (st : walk W) : option (link_res * walk W) :=
  let go st := walk_component enabled managed buf WALK_TRAILING st in
  if bool_decide (nd_last_type (wk_nd st) = LAST_NORM) then
    slash ← trailing_slashes (wk_nd st);
    Some (go (if slash : bool then on_nd follow_directory st else st))
  else Some (go st).

Definition lookup_fast_for_open (open_flag : Z) (st : walk W)
  : option (dentry_res * walk W) :=
  slash ← trailing_slashes (wk_nd st);
  if bits O_CREAT open_flag && slash then Some (PErr (- EISDIR), st) else
  if bits O_CREAT open_flag && bits O_EXCL open_flag then Some (PNull, st) else
  let st := if slash : bool then on_nd follow_directory st else st in
  match lookup_fast st with
  | (PPtr d, st) =>
      if bits O_CREAT open_flag && bool_decide (d_inode d = None) then Some (PNull, st)
      else Some (PPtr d, st)
  | r => Some r
  end.

(** [mnt_want_write] of a mount; [lookup_open], given whether there is write
    access: the dentry, whether a delegation must be broken, and the file; and
    [break_deleg_wait]. *)
Variables (mnt_want_write : walk W → Z → Z)
  (lookup_open : open_flags → bool → file → walk W →
    option (dentry_res * bool * file * walk W))
  (break_deleg_wait : walk W → Z * walk W).

(** The dentry of the last component, or an error, after [lookup_open]. *)
Inductive opened := Opened (d : Z) | NotOpened (d : Z) | OpenErr (e : Z).

(** The [retry] loop; [fuel] bounds the delegations broken. *)
Fixpoint open_retry (fuel : nat) (op : open_flags) (f : file) (st : walk W)
  : option (opened * file * walk W) :=
  match fuel with
  | O => None
  | S fuel' =>
      let got_write :=
        bits (Z.lor O_CREAT (Z.lor O_TRUNC (Z.lor O_WRONLY O_RDWR))) (op_open_flag op) &&
        (mnt_want_write st (p_mnt (nd_path (wk_nd st))) =? 0) in
      '(dentry, delegated, f, st) ← lookup_open op got_write f st;
      let found (d : Z) := Some (if f_opened f || f_created f then Opened d else NotOpened d, f, st) in
      match dentry with
      | PErr e =>
          if delegated : bool then
            let '(error, st) := break_deleg_wait st in
            if error =? 0 then open_retry fuel' op f st else Some (OpenErr error, f, st)
          else Some (OpenErr e, f, st)
      | PPtr d => found d
      | PNull => found NULL
      end
  end.

Definition finish_lookup (d : Z) (st : walk W) : link_res * walk W :=
  let st := if negb (nd_depth (wk_nd st) =? 0) then put_link st else st in
  match step_into WALK_TRAILING d st with
  | (PNull, st) => (PNull, st)
  | (res, st) =>
      (res, on_nd (λ nd, set_nd_flags
         (nd_flags nd ∖ {[LOOKUP_OPEN; LOOKUP_CREATE; LOOKUP_EXCL]}) nd) st)
  end.

Definition open_last_lookups_common (fuel : nat) (op : open_flags) (f : file) (st : walk W)
  : option (link_res * file * walk W) :=
  let with_file (r : link_res * walk W) := let '(res, st) := r in Some (res, f, st) in
  let st := on_nd (λ nd, set_nd_flags (nd_flags nd ∪ op_intent op) nd) st in
  if negb (bool_decide (nd_last_type (wk_nd st) = LAST_NORM)) then
    let st := if negb (nd_depth (wk_nd st) =? 0) then put_link st else st in
    with_file (handle_dots st)
  else
  '(dentry, st) ← lookup_fast_for_open (op_open_flag op) st;
  match dentry with
  | PErr e => Some (PErr e, f, st)
  | PPtr d => with_file (finish_lookup d st)
  | PNull =>
      if negb (bits O_CREAT (op_open_flag op)) && nd_has LOOKUP_RCU (wk_nd st)
      then Some (PErr (- ECHILD), f, st) else
      let '(ok, st) :=
        if nd_has LOOKUP_RCU (wk_nd st) then try_to_unlazy st else (true, st) in
      if negb ok then Some (PErr (- ECHILD), f, st) else
      '(r, f, st) ← open_retry fuel op f st;
      match r with
      | OpenErr e => Some (PErr e, f, st)
      | Opened d =>
          let old := nd_path (wk_nd st) in
          let p := mk_path (p_mnt old) d in
          Some (PNull, f, on_nd (set_path p) (get_path p (put_path old st)))
      | NotOpened d => let '(res, st) := finish_lookup d st in Some (res, f, st)
      end
  end.

Definition with_redirect_open (redirect : namei_ext_redirect)
  (common : file → walk W → option (link_res * file * walk W)) (f : file) (st : walk W)
  : option (link_res * file * walk W) :=
  match namei_ext_apply_redirect (wk_nd st) redirect with
  | None => common f st
  | Some (saved_last, nd) =>
      let '(error, nd) := namei_ext_hash_redirect nd in
      let st := on_nd (λ _, nd) st in
      if error <? 0 then Some (PErr error, f, on_nd (set_last saved_last) st) else
      '(res, f, st) ← common f st;
      Some (res, f, on_nd (set_last saved_last) st)
  end.

Definition open_last_lookups_namei_ext (buf : namei_ext_redirect) (fuel : nat)
  (op : open_flags) (f : file) (st : walk W) : option (link_res * file * walk W) :=
  let with_file (r : link_res * walk W) := let '(res, st) := r in Some (res, f, st) in
  let st := on_nd (λ nd, set_nd_flags (nd_flags nd ∪ op_intent op) nd) st in
  if negb (bool_decide (nd_last_type (wk_nd st) = LAST_NORM)) then
    let st := if negb (nd_depth (wk_nd st) =? 0) then put_link st else st in
    with_file (handle_dots st)
  else
  match consult_policy buf st with
  | inl r => with_file r
  | inr (redirect, st) =>
      if r_target_active redirect then
        if negb (nd_has LOOKUP_DIRECTORY (wk_nd st)) then
          Some (PErr (- EOPNOTSUPP), f,
                if negb (r_target_borrowed redirect)
                then put_path (r_target redirect) st else st)
        else
          let '(error, _, st) := namei_ext_apply_target redirect st in
          if negb (error =? 0) then Some (PErr error, f, st) else
          let st := if negb (nd_depth (wk_nd st) =? 0) then put_link st else st in
          Some (PNull, f, st)
      else with_redirect_open redirect (open_last_lookups_common fuel op) f st
  end.

Definition open_last_lookups (enabled : bool) (managed : path → bool)
  (buf : namei_ext_redirect) (fuel : nat) (op : open_flags) (f : file) (st : walk W)
  : option (link_res * file * walk W) :=
  if enabled && managed (nd_path (wk_nd st))
  then open_last_lookups_namei_ext buf fuel op f st
  else open_last_lookups_common fuel op f st.
End walk.
