(* ===== verification/PathWalk.v ===== *)
(** * The walk of a whole pathname (fs/namei.c)

    From [filename_lookup] down to the dentry cache: the loop over components,
    the stack of symlinks, the two modes of the walk and the switch between
    them, dots, mounts and the root.  The dentry cache itself, mount traversal,
    permissions, sequence counters and file systems are the fields of [vfs].

    A reference on a path stands for one on its mount and one on its dentry.
    The reference that a lookup takes on a dentry is counted when the walk
    moves to the dentry or pushes it as a link; every error path in between
    drops it on the spot. *)

From S2P Require Import Prelude Abi Kernel Targets Lookup Walk.

(** What [i_op->get_link] returns: a body; nothing, after jumping to a path;
    or an error. *)
Inductive get_link_res := GetBody (s : list Z) | GetJump (p : path) | GetErr (e : Z).

(** ** The functions the walk calls

    Those that can be interfered with, and those that depend on the name the
    walk is at, are functions of the walk. *)
Record vfs (W : Type) := mk_vfs {
  (** the policy's side *)
  v_backing_inode : Z → option inode;
  v_full_name_hash : Z → list Z → Z;
  v_flags_word : flags_t → Z;
  v_run : W → path → bpf_namei_ext_ctx → Z * W * bpf_namei_ext_ctx;
  v_hash_min : Z → nat;
  (** the bits of LOOKUP_IS_SCOPED *)
  v_scoped : flags_t;
  (** dentries: [d_can_lookup], [d_is_symlink], [d_managed], [d_inode],
      [d_parent], [d_op->d_hash] and [d_op->d_weak_revalidate] *)
  v_can_lookup : Z → bool;
  v_is_symlink : Z → bool;
  v_managed : Z → bool;
  v_inode : Z → option inode;
  v_parent : Z → Z;
  v_op_hash : Z → bool;
  v_hash : Z → qstr → Z * qstr;
  v_weak_revalidate : Z → option (flags_t → Z);
  (** sequence counters: [read_seqcount_begin] and [read_seqcount_retry] of a
      dentry, [mount_lock] against [m_seq], [rename_lock] against [r_seq] *)
  v_seq : Z → Z;
  v_seq_retry : walk W → Z → Z → bool;
  v_mount_retry : walk W → bool;
  v_rename_retry : walk W → bool;
  (** taking references in rcu-walk: on mount and dentry of a path, on a dentry *)
  v_grab : walk W → path → bool;
  v_grab_dentry : walk W → Z → bool;
  (** the dentry cache and the file system: [__d_lookup_rcu], [__d_lookup],
      [d_revalidate], [lookup_slow] *)
  v_d_lookup_rcu : walk W → option (Z * Z);
  v_d_lookup : walk W → option Z;
  v_revalidate : walk W → Z → Z;
  v_lookup_slow : walk W → dentry_res;
  (** mounts: [__follow_mount_rcu] (path, next_seq, jumped), [traverse_mounts]
      (result, path, jumped, link count), [choose_mountpoint_rcu],
      [choose_mountpoint], [mnt_root], [path_connected], MNT_NOSYMFOLLOW *)
  v_follow_mount_rcu : walk W → Z → option (path * Z * bool);
  v_traverse_mounts : walk W → Z → Z * path * bool * Z;
  v_choose_mountpoint_rcu : Z → path → option (path * Z);
  v_choose_mountpoint : Z → path → option path;
  v_mnt_root : Z → Z;
  v_path_connected : Z → Z → bool;
  v_nosymfollow : Z → bool;
  v_path_is_under : path → path → bool;
  (** permissions: [lookup_inode_permission_may_exec], with MAY_NOT_BLOCK or
      not, [security_inode_follow_link], and the tests of [may_follow_link] *)
  v_may_exec : option inode → bool → Z;
  v_security_follow_link : Z → bool → Z;
  v_protected_symlinks : bool;
  v_owner_is_fsuid : Z → option inode → bool;
  v_sticky_world_writable : option inode → bool;
  v_same_owner : option inode → option inode → bool;
  (** symlinks: [i_link], [get_link], with a dentry or not,
      [atime_needs_update], allocation of the stack *)
  v_i_link : Z → option (list Z);
  v_get_link : walk W → Z → bool → get_link_res;
  v_atime : walk W → path → bool;
  v_alloc_stack : walk W → bool;
  (** the process: root, working directory, open directories *)
  v_fs_root : path;
  v_pwd : path;
  v_fd : Z → option path;
  v_fd_search : Z → bool
}.
Arguments v_backing_inode {W} _ _.
Arguments v_full_name_hash {W} _ _ _.
Arguments v_flags_word {W} _ _.
Arguments v_run {W} _ _ _ _.
Arguments v_hash_min {W} _ _.
Arguments v_scoped {W} _.
Arguments v_can_lookup {W} _ _.
Arguments v_is_symlink {W} _ _.
Arguments v_managed {W} _ _.
Arguments v_inode {W} _ _.
Arguments v_parent {W} _ _.
Arguments v_op_hash {W} _ _.
Arguments v_hash {W} _ _ _.
Arguments v_weak_revalidate {W} _ _.
Arguments v_seq {W} _ _.
Arguments v_seq_retry {W} _ _ _ _.
Arguments v_mount_retry {W} _ _.
Arguments v_rename_retry {W} _ _.
Arguments v_grab {W} _ _ _.
Arguments v_grab_dentry {W} _ _ _.
Arguments v_d_lookup_rcu {W} _ _.
Arguments v_d_lookup {W} _ _.
Arguments v_revalidate {W} _ _ _.
Arguments v_lookup_slow {W} _ _.
Arguments v_follow_mount_rcu {W} _ _ _.
Arguments v_traverse_mounts {W} _ _ _.
Arguments v_choose_mountpoint_rcu {W} _ _ _.
Arguments v_choose_mountpoint {W} _ _ _.
Arguments v_mnt_root {W} _ _.
Arguments v_path_connected {W} _ _ _.
Arguments v_nosymfollow {W} _ _.
Arguments v_path_is_under {W} _ _ _.
Arguments v_may_exec {W} _ _ _.
Arguments v_security_follow_link {W} _ _ _.
Arguments v_protected_symlinks {W} _.
Arguments v_owner_is_fsuid {W} _ _ _.
Arguments v_sticky_world_writable {W} _ _.
Arguments v_same_owner {W} _ _ _.
Arguments v_i_link {W} _ _.
Arguments v_get_link {W} _ _ _ _.
Arguments v_atime {W} _ _ _.
Arguments v_alloc_stack {W} _ _.
Arguments v_fs_root {W} _.
Arguments v_pwd {W} _.
Arguments v_fd {W} _ _.
Arguments v_fd_search {W} _ _.

(** ** Setters of the remaining fields *)

Definition set_root (v : path) (nd : nameidata) : nameidata :=
  mk_nd (nd_path nd) (nd_last nd) v (nd_inode nd) (nd_flags nd) (nd_jumped nd)
    (nd_root_preset nd) (nd_root_grabbed nd) (nd_seq nd) (nd_next_seq nd)
    (nd_root_seq nd) (nd_last_type nd) (nd_stack nd) (nd_alloced nd)
    (nd_total_link_count nd) (nd_dir nd).
Definition set_root_preset (v : bool) (nd : nameidata) : nameidata :=
  mk_nd (nd_path nd) (nd_last nd) (nd_root nd) (nd_inode nd) (nd_flags nd) (nd_jumped nd)
    v (nd_root_grabbed nd) (nd_seq nd) (nd_next_seq nd) (nd_root_seq nd)
    (nd_last_type nd) (nd_stack nd) (nd_alloced nd) (nd_total_link_count nd) (nd_dir nd).
Definition set_root_grabbed (v : bool) (nd : nameidata) : nameidata :=
  mk_nd (nd_path nd) (nd_last nd) (nd_root nd) (nd_inode nd) (nd_flags nd) (nd_jumped nd)
    (nd_root_preset nd) v (nd_seq nd) (nd_next_seq nd) (nd_root_seq nd) (nd_last_type nd)
    (nd_stack nd) (nd_alloced nd) (nd_total_link_count nd) (nd_dir nd).
Definition set_next_seq (v : Z) (nd : nameidata) : nameidata :=
  mk_nd (nd_path nd) (nd_last nd) (nd_root nd) (nd_inode nd) (nd_flags nd) (nd_jumped nd)
    (nd_root_preset nd) (nd_root_grabbed nd) (nd_seq nd) v (nd_root_seq nd)
    (nd_last_type nd) (nd_stack nd) (nd_alloced nd) (nd_total_link_count nd) (nd_dir nd).
Definition set_root_seq (v : Z) (nd : nameidata) : nameidata :=
  mk_nd (nd_path nd) (nd_last nd) (nd_root nd) (nd_inode nd) (nd_flags nd) (nd_jumped nd)
    (nd_root_preset nd) (nd_root_grabbed nd) (nd_seq nd) (nd_next_seq nd) v
    (nd_last_type nd) (nd_stack nd) (nd_alloced nd) (nd_total_link_count nd) (nd_dir nd).
Definition set_last_type (v : last_type) (nd : nameidata) : nameidata :=
  mk_nd (nd_path nd) (nd_last nd) (nd_root nd) (nd_inode nd) (nd_flags nd) (nd_jumped nd)
    (nd_root_preset nd) (nd_root_grabbed nd) (nd_seq nd) (nd_next_seq nd)
    (nd_root_seq nd) v (nd_stack nd) (nd_alloced nd) (nd_total_link_count nd) (nd_dir nd).
Definition set_stack (v : list saved) (nd : nameidata) : nameidata :=
  mk_nd (nd_path nd) (nd_last nd) (nd_root nd) (nd_inode nd) (nd_flags nd) (nd_jumped nd)
    (nd_root_preset nd) (nd_root_grabbed nd) (nd_seq nd) (nd_next_seq nd)
    (nd_root_seq nd) (nd_last_type nd) v (nd_alloced nd) (nd_total_link_count nd)
    (nd_dir nd).
Definition set_alloced (v : bool) (nd : nameidata) : nameidata :=
  mk_nd (nd_path nd) (nd_last nd) (nd_root nd) (nd_inode nd) (nd_flags nd) (nd_jumped nd)
    (nd_root_preset nd) (nd_root_grabbed nd) (nd_seq nd) (nd_next_seq nd)
    (nd_root_seq nd) (nd_last_type nd) (nd_stack nd) v (nd_total_link_count nd)
    (nd_dir nd).
Definition set_total_link_count (v : Z) (nd : nameidata) : nameidata :=
  mk_nd (nd_path nd) (nd_last nd) (nd_root nd) (nd_inode nd) (nd_flags nd) (nd_jumped nd)
    (nd_root_preset nd) (nd_root_grabbed nd) (nd_seq nd) (nd_next_seq nd)
    (nd_root_seq nd) (nd_last_type nd) (nd_stack nd) (nd_alloced nd) v (nd_dir nd).
Definition set_dir (v : option inode) (nd : nameidata) : nameidata :=
  mk_nd (nd_path nd) (nd_last nd) (nd_root nd) (nd_inode nd) (nd_flags nd) (nd_jumped nd)
    (nd_root_preset nd) (nd_root_grabbed nd) (nd_seq nd) (nd_next_seq nd)
    (nd_root_seq nd) (nd_last_type nd) (nd_stack nd) (nd_alloced nd)
    (nd_total_link_count nd) v.

(** [terminate_walk] and failed switches clear the position. *)
Definition clear_path (nd : nameidata) : nameidata := set_path null_path nd.

(** ** Bytes of a C string, which ends with its NUL *)

Fixpoint skip_slashes (s : list Z) : list Z :=
  match s with
  | c :: s' => if c =? chr "/" then skip_slashes s' else s
  | [] => []
  end.

(** [!*s] *)
Definition at_nul (s : list Z) : bool :=
  match s with c :: _ => c =? 0 | [] => true end.
Definition at_slash (s : list Z) : bool :=
  match s with c :: _ => c =? chr "/" | [] => false end.

(** The loop of [hash_name]: the word of the last bytes, the length of the
    component and the string after it. *)
Fixpoint hash_name_loop (last len : Z) (s : list Z) : Z * Z * list Z :=
  match s with
  | [] => (last, len, [])
  | c :: s' =>
      let last := u64 (Z.shiftl last 8 + c) in
      if at_nul s' || at_slash s' then (last, len + 1, s')
      else hash_name_loop last (len + 1) s'
  end.

Definition LAST_WORD_IS_DOT : Z := 0x2e.
Definition LAST_WORD_IS_DOTDOT : Z := 0x2e2e.
Definition MAXSYMLINKS : Z := 40.
Definition EMBEDDED_LEVELS : Z := 2.
Definition AT_FDCWD : Z := -100.

Section walk.
Context {W : Type} (E : vfs W).

Definition rcu (st : walk W) : bool := nd_has LOOKUP_RCU (wk_nd st).
Definition scoped (nd : nameidata) : bool := bool_decide (nd_flags nd ∩ v_scoped E ≠ ∅).
(** [nd->root.mnt != NULL] *)
Definition has_root (nd : nameidata) : bool := negb (path_equal (nd_root nd) null_path).

(** ** Leaving rcu-walk

    [drop_links] only runs the delayed calls that free link bodies, which has
    no effect here.  A path that could not be legitimized keeps what was taken
    of it for the [path_put] that follows; here it is cleared and nothing is
    taken. *)

Definition leave_rcu (nd : nameidata) : nameidata :=
  set_nd_flags (nd_flags nd ∖ {[LOOKUP_RCU]}) (set_seq 0 (set_next_seq 0 nd)).

Definition legitimize_path (p : path) (seq : Z) (st : walk W) : bool * path * walk W :=
  if negb (v_grab E st p) then (false, null_path, st) else
  (negb (v_seq_retry E st (p_dentry p) seq), p, get_path p st).

(** From the bottom of the stack; what is left of it when one fails. *)
Fixpoint legitimize_saved (ss : list saved) (st : walk W) : bool * list saved * walk W :=
  match ss with
  | [] => (true, [], st)
  | s :: ss' =>
      let '(ok, p, st) := legitimize_path (sv_link s) (sv_seq s) st in
      let s := mk_saved p (sv_seq s) in
      if negb ok then (false, [s], st) else
      let '(ok, kept, st) := legitimize_saved ss' st in (ok, s :: kept, st)
  end.
Definition legitimize_links (st : walk W) : bool * walk W :=
  let '(ok, kept, st) := legitimize_saved (rev (nd_stack (wk_nd st))) st in
  (ok, on_nd (set_stack (rev kept)) st).

Definition legitimize_root (st : walk W) : bool * walk W :=
  let nd := wk_nd st in
  if negb (has_root nd) || nd_root_preset nd then (true, st) else
  let st := on_nd (set_root_grabbed true) st in
  let '(ok, p, st) := legitimize_path (nd_root nd) (nd_root_seq nd) st in
  (ok, on_nd (set_root p) st).

Definition try_to_unlazy (st : walk W) : bool * walk W :=
  if nd_has LOOKUP_CACHED (wk_nd st) then
    (false, on_nd (λ nd, leave_rcu (clear_path (set_stack [] nd))) st) else
  let '(ok, st) := legitimize_links st in
  if negb ok then (false, on_nd (λ nd, leave_rcu (clear_path nd)) st) else
  let '(ok, p, st) := legitimize_path (nd_path (wk_nd st)) (nd_seq (wk_nd st)) st in
  let st := on_nd (set_path p) st in
  if negb ok then (false, on_nd leave_rcu st) else
  let '(ok, st) := legitimize_root st in
  (ok, on_nd leave_rcu st).

Definition try_to_unlazy_next (dentry : Z) (st : walk W) : bool * walk W :=
  if nd_has LOOKUP_CACHED (wk_nd st) then
    (false, on_nd (λ nd, leave_rcu (clear_path (set_stack [] nd))) st) else
  let '(ok, st) := legitimize_links st in
  if negb ok then (false, on_nd (λ nd, leave_rcu (clear_path nd)) st) else
  if negb (v_grab E st (nd_path (wk_nd st)))
  then (false, on_nd (λ nd, leave_rcu (clear_path nd)) st) else
  let st := get_path (nd_path (wk_nd st)) st in
  if negb (v_grab_dentry E st dentry) then (false, on_nd leave_rcu st) else
  if v_seq_retry E st dentry (nd_next_seq (wk_nd st)) then (false, on_nd leave_rcu st) else
  let '(ok, st) := legitimize_root st in
  (ok, on_nd leave_rcu st).

(** ** The dentry of the component *)

Definition lookup_fast (st : walk W) : dentry_res * walk W :=
  let checked (status d : Z) (st : walk W) : dentry_res * walk W :=
    if status <=? 0 then (if status =? 0 then PNull else PErr status, st) else (PPtr d, st) in
  if rcu st then
    match v_d_lookup_rcu E st with
    | None =>
        let '(ok, st) := try_to_unlazy st in (if ok then PNull else PErr (- ECHILD), st)
    | Some (d, next_seq) =>
        let st := on_nd (set_next_seq next_seq) st in
        if v_seq_retry E st (p_dentry (nd_path (wk_nd st))) (nd_seq (wk_nd st))
        then (PErr (- ECHILD), st) else
        let status := v_revalidate E st d in
        if 0 <? status then (PPtr d, st) else
        let '(ok, st) := try_to_unlazy_next d st in
        if negb ok then (PErr (- ECHILD), st) else
        checked (if status =? - ECHILD then v_revalidate E st d else status) d st
    end
  else
    match v_d_lookup E st with
    | None => (PNull, st)
    | Some d => checked (v_revalidate E st d) d st
    end.

Definition lookup_slow (st : walk W) : dentry_res * walk W := (v_lookup_slow E st, st).

(** ** The root *)

Definition set_root_fs (st : walk W) : Z * walk W :=
  if scoped (wk_nd st) then (- ENOTRECOVERABLE, st) else
  if rcu st then
    (0, on_nd (λ nd, set_root_seq (v_seq E (p_dentry (v_fs_root E)))
                       (set_root (v_fs_root E) nd)) st)
  else
    (0, on_nd (λ nd, set_root_grabbed true (set_root (v_fs_root E) nd))
          (get_path (v_fs_root E) st)).

Definition nd_jump_root (st : walk W) : Z * walk W :=
  let nd := wk_nd st in
  if nd_has LOOKUP_BENEATH nd then (- EXDEV, st) else
  if nd_has LOOKUP_NO_XDEV nd && negb (p_mnt (nd_path nd) =? NULL) &&
     negb (p_mnt (nd_path nd) =? p_mnt (nd_root nd))
  then (- EXDEV, st) else
  let '(error, st) := if has_root nd then (0, st) else set_root_fs st in
  if negb (error =? 0) then (error, st) else
  let root := nd_root (wk_nd st) in
  let inode := v_inode E (p_dentry root) in
  if rcu st then
    let st := on_nd (λ nd, set_seq (nd_root_seq nd) (move_to root inode nd)) st in
    if v_seq_retry E st (p_dentry root) (nd_seq (wk_nd st)) then (- ECHILD, st)
    else (0, on_nd (set_jumped true) st)
  else
    (0, on_nd (jump_to root inode) (get_path root (put_path (nd_path (wk_nd st)) st))).

(** [path] comes with a reference. *)
Definition nd_jump_link (p : path) (st : walk W) : Z * walk W :=
  let nd := wk_nd st in
  if nd_has LOOKUP_NO_MAGICLINKS nd then (- ELOOP, put_path p st) else
  if nd_has LOOKUP_NO_XDEV nd && negb (p_mnt (nd_path nd) =? p_mnt p)
  then (- EXDEV, put_path p st) else
  if scoped nd then (- EXDEV, put_path p st) else
  (0, on_nd (jump_to p (v_inode E (p_dentry p))) (put_path (nd_path nd) st)).

(** ** Following a symlink *)

Definition put_link (st : walk W) : walk W :=
  match nd_stack (wk_nd st) with
  | [] => st
  | last :: rest =>
      let st := on_nd (set_stack rest) st in
      if rcu st then st else put_path (sv_link last) st
  end.

Definition may_follow_link (inode : option inode) (nd : nameidata) : Z :=
  if negb (v_protected_symlinks E) then 0 else
  if v_owner_is_fsuid E (p_mnt (nd_path nd)) inode then 0 else
  if negb (v_sticky_world_writable E (nd_dir nd)) then 0 else
  if v_same_owner E (nd_dir nd) inode then 0 else
  if nd_has LOOKUP_RCU nd then - ECHILD else - EACCES.

Definition nd_alloc_stack (st : walk W) : bool * walk W :=
  if v_alloc_stack E st then (true, on_nd (set_alloced true) st) else (false, st).

Definition reserve_stack (link : path) (st : walk W) : Z * path * walk W :=
  let count := nd_total_link_count (wk_nd st) in
  let st := on_nd (set_total_link_count (count + 1)) st in
  if MAXSYMLINKS <=? count then (- ELOOP, link, st) else
  if negb (nd_depth (wk_nd st) =? EMBEDDED_LEVELS) then (0, link, st) else
  if nd_alloced (wk_nd st) then (0, link, st) else
  let '(ok, st) := nd_alloc_stack st in
  if ok then (0, link, st) else
  if rcu st then
    let '(grabbed, link, st) := legitimize_path link (nd_next_seq (wk_nd st)) st in
    let '(ok, st) := try_to_unlazy st in
    if negb ok || negb grabbed then (- ECHILD, link, st) else
    let '(ok, st) := nd_alloc_stack st in
    (if ok then 0 else - ENOMEM, link, st)
  else (- ENOMEM, link, st).

(** The body of the link, or the end of a jump: [PNull]. *)
Definition read_link (link : path) (st : walk W) : link_res * walk W :=
  let jumped (r : Z * walk W) : link_res * walk W :=
    let '(e, st) := r in (if e =? 0 then PNull else PErr e, st) in
  let got (r : get_link_res) (st : walk W) : link_res * walk W :=
    match r with
    | GetBody s => (PPtr s, st)
    | GetJump p => jumped (nd_jump_link p (get_path p st))
    | GetErr e => (PErr e, st)
    end in
  match v_i_link E (p_dentry link) with
  | Some s => (PPtr s, st)
  | None =>
      if rcu st then
        match v_get_link E st (p_dentry link) false with
        | GetErr e =>
            if e =? - ECHILD then
              let '(ok, st) := try_to_unlazy st in
              if ok then got (v_get_link E st (p_dentry link) true) st else (PErr e, st)
            else (PErr e, st)
        | r => got r st
        end
      else got (v_get_link E st (p_dentry link) true) st
  end.

(** From [*res == '/'] on. *)
Definition start_body (res : list Z) (st : walk W) : link_res * walk W :=
  let finish (res : list Z) (st : walk W) : link_res * walk W :=
    if negb (at_nul res) then (PPtr res, st) else (PNull, put_link st) in
  if at_slash res then
    let '(error, st) := nd_jump_root st in
    if negb (error =? 0) then (PErr error, st) else finish (skip_slashes res) st
  else finish res st.

Definition pick_link (link : path) (inode : option inode) (flags : Z) (st : walk W)
  : link_res * walk W :=
  if rcu st && v_seq_retry E st (p_dentry link) (nd_next_seq (wk_nd st))
  then (PErr (- ECHILD), st) else
  let st := if rcu st then st else get_path link st in
  let '(error, link, st) := reserve_stack link st in
  if negb (error =? 0) then
    (PErr error, if rcu st then st else put_path link st) else
  let st := on_nd (λ nd, set_stack (mk_saved link (nd_next_seq nd) :: nd_stack nd) nd) st in
  let error := if Z.land flags WALK_TRAILING =? 0 then 0 else may_follow_link inode (wk_nd st) in
  if negb (error =? 0) then (PErr error, st) else
  if nd_has LOOKUP_NO_SYMLINKS (wk_nd st) || v_nosymfollow E (p_mnt link)
  then (PErr (- ELOOP), st) else
  let '(ok, st) :=
    if v_atime E st link && rcu st then try_to_unlazy st else (true, st) in
  if negb ok then (PErr (- ECHILD), st) else
  let error := v_security_follow_link E (p_dentry link) (rcu st) in
  if negb (error =? 0) then (PErr error, st) else
  match read_link link st with
  | (PErr e, st) => (PErr e, st)
  | (PNull, st) => (PNull, put_link st)
  | (PPtr res, st) => start_body res st
  end.

(** ** Moving to a dentry *)

Definition handle_mounts (dentry : Z) (st : walk W) : Z * path * walk W :=
  let here (st : walk W) := mk_path (p_mnt (nd_path (wk_nd st))) dentry in
  let traverse (st : walk W) : Z * path * walk W :=
    let '(ret, p, jumped, count) := v_traverse_mounts E st dentry in
    let st := on_nd (λ nd, set_total_link_count count
                       (if jumped : bool then set_jumped true nd else nd)) st in
    (ret, p, st) in
  if rcu st then
    if negb (v_managed E dentry) then (0, here st, st) else
    match v_follow_mount_rcu E st dentry with
    | Some (p, next_seq, jumped) =>
        (0, p, on_nd (λ nd, set_next_seq next_seq
                        (if jumped : bool then set_jumped true nd else nd)) st)
    | None =>
        let '(ok, st) := try_to_unlazy_next dentry st in
        if negb ok then (- ECHILD, here st, st) else traverse st
    end
  else traverse st.

Definition step_into_slowpath (flags dentry : Z) (st : walk W) : link_res * walk W :=
  let '(err, path, st) := handle_mounts dentry st in
  if err <? 0 then (PErr err, st) else
  let inode := v_inode E (p_dentry path) in
  let nd := wk_nd st in
  let arrive (st : walk W) :=
    on_nd (λ nd, set_seq (nd_next_seq nd) (move_to path inode nd)) st in
  if negb (v_is_symlink E (p_dentry path)) ||
     (negb (Z.land flags WALK_TRAILING =? 0) && negb (nd_has LOOKUP_FOLLOW nd)) ||
     negb (Z.land flags WALK_NOFOLLOW =? 0)
  then
    if rcu st then
      if v_seq_retry E st (p_dentry path) (nd_next_seq nd) then (PErr (- ECHILD), st) else
      if bool_decide (inode = None) then (PErr (- ENOENT), st) else (PNull, arrive st)
    else (PNull, arrive (get_path path (put_path (nd_path nd) st)))
  else pick_link path inode flags st.

Definition step_into (flags dentry : Z) (st : walk W) : link_res * walk W :=
  if rcu st && negb (v_managed E dentry) && negb (v_is_symlink E dentry) then
    let inode := v_inode E dentry in
    let nd := wk_nd st in
    if v_seq_retry E st dentry (nd_next_seq nd) then (PErr (- ECHILD), st) else
    if bool_decide (inode = None) then (PErr (- ENOENT), st) else
    (PNull, on_nd (λ nd, set_seq (nd_next_seq nd)
                     (move_to (mk_path (p_mnt (nd_path nd)) dentry) inode nd)) st)
  else step_into_slowpath flags dentry st.

(** ** Dots *)

Definition follow_dotdot_rcu (st : walk W) : dentry_res * walk W :=
  let in_root (st : walk W) : dentry_res * walk W :=
    if v_mount_retry E st then (PErr (- ECHILD), st) else
    if nd_has LOOKUP_BENEATH (wk_nd st) then (PErr (- ECHILD), st) else
    (PPtr (p_dentry (nd_path (wk_nd st))), on_nd (λ nd, set_next_seq (nd_seq nd) nd) st) in
  let up (st : walk W) : dentry_res * walk W :=
    let old := p_dentry (nd_path (wk_nd st)) in
    let parent := v_parent E old in
    let st := on_nd (set_next_seq (v_seq E parent)) st in
    if v_seq_retry E st old (nd_seq (wk_nd st)) then (PErr (- ECHILD), st) else
    if negb (v_path_connected E (p_mnt (nd_path (wk_nd st))) parent)
    then (PErr (- ECHILD), st) else (PPtr parent, st) in
  let nd := wk_nd st in
  if path_equal (nd_path nd) (nd_root nd) then in_root st else
  if p_dentry (nd_path nd) =? v_mnt_root E (p_mnt (nd_path nd)) then
    match v_choose_mountpoint_rcu E (p_mnt (nd_path nd)) (nd_root nd) with
    | None => in_root st
    | Some (path, seq) =>
        if nd_has LOOKUP_NO_XDEV nd then (PErr (- ECHILD), st) else
        let st := on_nd (λ nd, set_seq seq
                           (move_to path (v_inode E (p_dentry path)) nd)) st in
        if v_mount_retry E st then (PErr (- ECHILD), st) else up st
    end
  else up st.

Definition follow_dotdot (st : walk W) : dentry_res * walk W :=
  let in_root (st : walk W) : dentry_res * walk W :=
    if nd_has LOOKUP_BENEATH (wk_nd st) then (PErr (- EXDEV), st)
    else (PPtr (p_dentry (nd_path (wk_nd st))), st) in
  let up (st : walk W) : dentry_res * walk W :=
    let parent := v_parent E (p_dentry (nd_path (wk_nd st))) in
    if negb (v_path_connected E (p_mnt (nd_path (wk_nd st))) parent)
    then (PErr (- ENOENT), st) else (PPtr parent, st) in
  let nd := wk_nd st in
  if path_equal (nd_path nd) (nd_root nd) then in_root st else
  if p_dentry (nd_path nd) =? v_mnt_root E (p_mnt (nd_path nd)) then
    match v_choose_mountpoint E (p_mnt (nd_path nd)) (nd_root nd) with
    | None => in_root st
    | Some path =>
        let st := on_nd (move_to path (v_inode E (p_dentry path)))
                    (get_path path (put_path (nd_path nd) st)) in
        if nd_has LOOKUP_NO_XDEV nd then (PErr (- EXDEV), st) else up st
    end
  else up st.

Definition handle_dots (st : walk W) : link_res * walk W :=
  if negb (bool_decide (nd_last_type (wk_nd st) = LAST_DOTDOT)) then (PNull, st) else
  let '(error, st) := if has_root (wk_nd st) then (0, st) else set_root_fs st in
  if negb (error =? 0) then (PErr error, st) else
  let '(parent, st) := if rcu st then follow_dotdot_rcu st else follow_dotdot st in
  match parent with
  | PErr e => (PErr e, st)
  | PNull => (PNull, st)
  | PPtr d =>
      match step_into WALK_NOFOLLOW d st with
      | (PNull, st) =>
          if scoped (wk_nd st) && (v_mount_retry E st || v_rename_retry E st)
          then (PErr (- EAGAIN), st) else (PNull, st)
      | r => r
      end
  end.

(** ** One component

    [enabled] is [namei_ext_enabled()], [managed] the prefilter, [buf] the
    redirect record on the stack. *)

Section lookups.
Variables (enabled : bool) (managed : path → bool) (buf : namei_ext_redirect).

Definition walk_component (flags : Z) (st : walk W) : link_res * walk W :=
  Walk.walk_component (v_backing_inode E) (v_full_name_hash E) (v_flags_word E) (v_run E)
    (v_hash_min E) (v_scoped E) (v_can_lookup E) (v_seq E) (v_inode E) (v_op_hash E)
    (v_hash E) try_to_unlazy lookup_fast lookup_slow put_link step_into handle_dots
    enabled managed buf flags st.

Definition lookup_last (st : walk W) : option (link_res * walk W) :=
  Walk.lookup_last (v_backing_inode E) (v_full_name_hash E) (v_flags_word E) (v_run E)
    (v_hash_min E) (v_scoped E) (v_can_lookup E) (v_seq E) (v_inode E) (v_op_hash E)
    (v_hash E) try_to_unlazy lookup_fast lookup_slow put_link step_into handle_dots
    enabled managed buf st.

Definition may_lookup (st : walk W) : Z * walk W :=
  let inode (st : walk W) := nd_inode (wk_nd st) in
  let err := v_may_exec E (inode st) (rcu st) in
  if err =? 0 then (0, st) else
  if negb (rcu st) then (err, st) else
  let '(ok, st) := try_to_unlazy st in
  if negb ok then (- ECHILD, st) else
  if negb (err =? - ECHILD) then (err, st) else
  (v_may_exec E (inode st) false, st).

(** [name] is not empty. *)
Definition hash_name (name : list Z) (nd : nameidata) : Z * list Z * nameidata :=
  let '(lastword, len, rest) := hash_name_loop 0 0 name in
  let hash := v_full_name_hash E (p_dentry (nd_path nd)) (take (Z.to_nat len) name) in
  (lastword, rest, set_last (mk_qstr hash len name) nd).

(** The [switch (lastword)]: an error of [d_hash], or 0. *)
Definition classify (lastword : Z) (nd : nameidata) : Z * nameidata :=
  if lastword =? LAST_WORD_IS_DOTDOT then (0, set_jumped true (set_last_type LAST_DOTDOT nd)) else
  if lastword =? LAST_WORD_IS_DOT then (0, set_last_type LAST_DOT nd) else
  let nd := set_jumped false (set_last_type LAST_NORM nd) in
  let parent := p_dentry (nd_path nd) in
  if v_op_hash E parent then
    let '(err, q) := v_hash E parent (nd_last nd) in (err, set_last q nd)
  else (0, nd).

(** The pathname, or a trailing symlink, ends here. *)
Definition last_component (nd : nameidata) : nameidata :=
  set_nd_flags (nd_flags nd ∖ {[LOOKUP_PARENT]}) (set_dir (nd_inode nd) nd).

(** The [for] loop.  [names] has the [name] fields of the stack below the
    local [depth], the top first. *)
Fixpoint link_path_walk_loop (fuel : nat) (name : list Z) (names : list (list Z))
  (st : walk W) : option (Z * walk W) :=
  match fuel with
  | O => None
  | S fuel' =>
      let '(err, st) := may_lookup st in
      if negb (err =? 0) then Some (err, st) else
      let '(lastword, name, nd) := hash_name name (wk_nd st) in
      let '(err, nd) := classify lastword nd in
      let st := on_nd (λ _, nd) st in
      if err <? 0 then Some (err, st) else
      let next (r : link_res * walk W) (name : list Z) (names : list (list Z)) :=
        let '(link, st) := r in
        match link with
        | PErr e => Some (e, st)
        | PPtr body => link_path_walk_loop fuel' body (name :: names) st
        | PNull =>
            if negb (v_can_lookup E (p_dentry (nd_path (wk_nd st)))) then
              let '(ok, st) := if rcu st then try_to_unlazy st else (true, st) in
              Some (if negb ok then - ECHILD else - ENOTDIR, st)
            else link_path_walk_loop fuel' name names st
        end in
      let name := if at_nul name then name else skip_slashes name in
      if at_nul name then
        match names with
        | [] => Some (0, on_nd last_component st)
        | name :: names => next (walk_component 0 st) name names
        end
      else next (walk_component WALK_MORE st) name names
  end.

(** [name] may be an error. *)
Definition link_path_walk (fuel : nat) (name : link_res) (st : walk W)
  : option (Z * walk W) :=
  let st := on_nd (λ nd, set_nd_flags (nd_flags nd ∪ {[LOOKUP_PARENT]})
                           (set_last_type LAST_ROOT nd)) st in
  match name with
  | PErr e => Some (e, st)
  | PNull => Some (0, on_nd (set_dir None) st)
  | PPtr name =>
      let name := skip_slashes name in
      if at_nul name then Some (0, on_nd (set_dir None) st) else
      link_path_walk_loop fuel name [] st
  end.

(** ** Starting and ending a walk *)

(** [nd->path = path; nd->inode = ...], with a reference outside rcu-walk. *)
Definition start_at (path : path) (st : walk W) : walk W :=
  let inode := v_inode E (p_dentry path) in
  if rcu st
  then on_nd (λ nd, set_seq (v_seq E (p_dentry path)) (move_to path inode nd)) st
  else on_nd (move_to path inode) (get_path path st).

(** For scoped lookups, the starting point is the root. *)
Definition root_at_start (s : list Z) (st : walk W) : link_res * walk W :=
  let nd := wk_nd st in
  if negb (scoped nd) then (PPtr s, st) else
  let st := on_nd (set_root (nd_path nd)) st in
  if rcu st then (PPtr s, on_nd (set_root_seq (nd_seq nd)) st)
  else (PPtr s, on_nd (set_root_grabbed true) (get_path (nd_path nd) st)).

(** [s] is [nd->pathname], [dfd] is [nd->dfd]. *)
Definition path_init (dfd : Z) (s : list Z) (flags : flags_t) (st : walk W)
  : link_res * walk W :=
  if negb (fl LOOKUP_RCU flags) && fl LOOKUP_CACHED flags then (PErr (- EAGAIN), st) else
  let flags := if at_nul s then flags ∖ {[LOOKUP_RCU]} else flags in
  let st := if fl LOOKUP_RCU flags then st
            else on_nd (λ nd, set_seq 0 (set_next_seq 0 nd)) st in
  let st := on_nd (λ nd, set_jumped true (set_nd_flags flags nd)) st in
  if nd_root_preset (wk_nd st) then
    let root := nd_root (wk_nd st) in
    if negb (at_nul s) && negb (v_can_lookup E (p_dentry root))
    then (PErr (- ENOTDIR), st) else
    let st := start_at root st in
    (PPtr s, if rcu st then on_nd (λ nd, set_root_seq (nd_seq nd) nd) st else st)
  else
  let st := on_nd (set_root null_path) st in
  if at_slash s && negb (fl LOOKUP_IN_ROOT flags) then
    let '(error, st) := nd_jump_root st in
    if negb (error =? 0) then (PErr error, st) else (PPtr s, st)
  else if dfd =? AT_FDCWD then root_at_start s (start_at (v_pwd E) st)
  else
    match v_fd E dfd with
    | None => (PErr (- EBADF), st)
    | Some path =>
        if fl LOOKUP_LINKAT_EMPTY flags && negb (v_fd_search E dfd)
        then (PErr (- ENOENT), st) else
        if negb (at_nul s) && negb (v_can_lookup E (p_dentry path))
        then (PErr (- ENOTDIR), st) else
        root_at_start s (start_at path st)
    end.

(** [dget] of the dentry is the reference that [step_into] consumes. *)
Definition handle_lookup_down (st : walk W) : Z * walk W :=
  let st := on_nd (λ nd, set_next_seq (nd_seq nd) nd) st in
  match step_into WALK_NOFOLLOW (p_dentry (nd_path (wk_nd st))) st with
  | (PErr e, st) => (e, st)
  | (_, st) => (0, st)
  end.

Definition complete_walk (st : walk W) : Z * walk W :=
  let dentry := p_dentry (nd_path (wk_nd st)) in
  let '(ok, st) :=
    if rcu st then
      try_to_unlazy (on_nd (λ nd,
        set_nd_flags (nd_flags nd ∖ {[LOOKUP_CACHED]})
          (if negb (nd_root_preset nd) && negb (scoped nd)
           then set_root null_path nd else nd)) st)
    else (true, st) in
  if negb ok then (- ECHILD, st) else
  let nd := wk_nd st in
  if scoped nd && negb (v_path_is_under E (nd_path nd) (nd_root nd)) then (- EXDEV, st) else
  if negb (nd_jumped nd) then (0, st) else
  match v_weak_revalidate E dentry with
  | None => (0, st)
  | Some revalidate =>
      let status := revalidate (nd_flags nd) in
      (if 0 <? status then 0 else if status =? 0 then - ESTALE else status, st)
  end.

Definition put_links (ss : list saved) (st : walk W) : walk W :=
  foldl (λ st s, put_path (sv_link s) st) st ss.

Definition terminate_walk (st : walk W) : walk W :=
  let nd := wk_nd st in
  let st :=
    if rcu st then on_nd leave_rcu st else
    let st := put_links (rev (nd_stack nd)) (put_path (nd_path nd) st) in
    if nd_root_grabbed nd
    then on_nd (set_root_grabbed false) (put_path (nd_root nd) st) else st in
  on_nd (λ nd, clear_path (set_stack [] nd)) st.

(** The loop of [path_lookupat]: walk to the last component and through it,
    until it is not a symlink to follow.  [links] bounds its rounds. *)
Fixpoint lookup_loop (links fuel : nat) (s : link_res) (st : walk W)
  : option (Z * walk W) :=
  match links with
  | O => None
  | S links' =>
      '(err, st) ← link_path_walk fuel s st;
      if negb (err =? 0) then Some (err, st) else
      '(s, st) ← lookup_last st;
      match s with
      | PNull => Some (0, st)
      | s => lookup_loop links' fuel s st
      end
  end.

(** From [LOOKUP_MOUNTPOINT] on; the path found goes to the caller with its
    reference. *)
Definition finish_lookupat (err : Z) (st : walk W) : Z * path * walk W :=
  let '(err, st) :=
    if (err =? 0) && nd_has LOOKUP_MOUNTPOINT (wk_nd st) then
      let '(err, st) := handle_lookup_down st in (err, on_nd (set_jumped false) st)
    else (err, st) in
  let '(err, st) := if err =? 0 then complete_walk st else (err, st) in
  let nd := wk_nd st in
  let err := if (err =? 0) && nd_has LOOKUP_DIRECTORY nd &&
                negb (v_can_lookup E (p_dentry (nd_path nd))) then - ENOTDIR else err in
  if err =? 0 then (err, nd_path nd, terminate_walk (on_nd clear_path st))
  else (err, null_path, terminate_walk st).

Definition path_lookupat (links fuel : nat) (dfd : Z) (name : list Z) (flags : flags_t)
  (st : walk W) : option (Z * path * walk W) :=
  let '(s, st) := path_init dfd name flags st in
  let '(s, st) :=
    match s with
    | PPtr _ =>
        if fl LOOKUP_DOWN flags then
          let '(err, st) := handle_lookup_down st in
          if err <? 0 then (PErr err, st) else (s, st)
        else (s, st)
    | _ => (s, st)
    end in
  '(err, st) ← lookup_loop links fuel s st;
  Some (finish_lookupat err st).

(** [set_nameidata]: [nested] is the link count of the walk around this one. *)
Definition set_nameidata (nested : Z) (root : option path) (nd : nameidata) : nameidata :=
  set_alloced false (set_stack [] (set_total_link_count nested (clear_path
    (set_root_grabbed false (set_jumped false
      match root with
      | Some p => set_root p (set_root_preset true nd)
      | None => set_root_preset false nd
      end))))).

Definition filename_lookup (links fuel : nat) (nested : Z) (dfd : Z) (name : list Z)
  (flags : flags_t) (root : option path) (st : walk W) : option (Z * path * walk W) :=
  let st := on_nd (set_nameidata nested root) st in
  '(retval, p, st) ← path_lookupat links fuel dfd name (flags ∪ {[LOOKUP_RCU]}) st;
  '(retval, p, st) ←
    if retval =? - ECHILD then path_lookupat links fuel dfd name flags st
    else Some (retval, p, st);
  if retval =? - ESTALE
  then path_lookupat links fuel dfd name (flags ∪ {[LOOKUP_REVAL]}) st
  else Some (retval, p, st).

(** ** The parent of the last component *)

Definition path_parentat (fuel : nat) (dfd : Z) (name : list Z) (flags : flags_t)
  (st : walk W) : option (Z * path * walk W) :=
  let '(s, st) := path_init dfd name flags st in
  '(err, st) ← link_path_walk fuel s st;
  let '(err, st) := if err =? 0 then complete_walk st else (err, st) in
  Some (if err =? 0
        then (err, nd_path (wk_nd st), terminate_walk (on_nd clear_path st))
        else (err, null_path, terminate_walk st)).

(** [__filename_parentat]; the component and its type stay in [nd_last] and
    [nd_last_type]. *)
Definition filename_parentat (fuel : nat) (nested : Z) (dfd : Z) (name : list Z)
  (flags : flags_t) (root : option path) (st : walk W) : option (Z * path * walk W) :=
  let st := on_nd (set_nameidata nested root) st in
  '(retval, p, st) ← path_parentat fuel dfd name (flags ∪ {[LOOKUP_RCU]}) st;
  '(retval, p, st) ←
    if retval =? - ECHILD then path_parentat fuel dfd name flags st
    else Some (retval, p, st);
  if retval =? - ESTALE
  then path_parentat fuel dfd name (flags ∪ {[LOOKUP_REVAL]}) st
  else Some (retval, p, st).
End lookups.
End walk.
