(* ===== verification/PathOpen.v ===== *)
(** * Opening a pathname (fs/namei.c)

    From [do_file_open] down to the file system: the walk to the last component,
    its lookup or creation under the directory's lock, the checks of [do_open],
    temporary files and O_PATH.  File systems, delegations, permissions and the
    modes of inodes are the fields of [vopen]; what a call of a file system
    changes it changes in the part of the state that the walk does not have. *)

From S2P Require Import Prelude Abi Kernel Targets Lookup Walk PathWalk.

(** The file types and bits of [i_mode]. *)
Definition S_IFMT : Z := 0xf000.
Definition S_IFSOCK : Z := 0xc000.
Definition S_IFLNK : Z := 0xa000.
Definition S_IFREG : Z := 0x8000.
Definition S_IFBLK : Z := 0x6000.
Definition S_IFDIR : Z := 0x4000.
Definition S_IFCHR : Z := 0x2000.
Definition S_IFIFO : Z := 0x1000.
Definition S_ISVTX : Z := 0x200.
Definition S_IWGRP : Z := 0x10.
Definition S_IWOTH : Z := 0x2.
Definition MAY_OPEN : Z := 0x20.

(** What [i_op->atomic_open] and [i_op->tmpfile] leave: the error, FMODE_OPENED,
    FMODE_CREATED and [f_path.dentry]. *)
Record fs_open (W : Type) := mk_fs_open {
  fo_error : Z; fo_opened : bool; fo_created : bool; fo_dentry : Z; fo_maps : W }.
Arguments mk_fs_open {W} _ _ _ _ _.
Arguments fo_error {W} _.
Arguments fo_opened {W} _.
Arguments fo_created {W} _.
Arguments fo_dentry {W} _.
Arguments fo_maps {W} _.

Definition DENTRY_NOT_SET : Z := u64 (-1).

Record vopen (W : Type) := mk_vopen {
  (** [mnt_want_write], [break_deleg_wait], [IS_DEADDIR] *)
  o_want_write : walk W → Z → Z;
  o_break_deleg_wait : walk W → Z * W;
  o_dead_dir : walk W → bool;
  (** [d_lookup], [d_alloc_parallel], [d_in_lookup], [d_invalidate], [d_alloc] *)
  o_d_lookup : walk W → option Z;
  o_d_alloc_parallel : walk W → Z + Z;
  o_in_lookup : walk W → Z → bool;
  o_invalidate : walk W → Z → W;
  o_d_alloc : walk W → path → option Z;
  (** inodes: of a dentry now, [i_mode], IS_APPEND; [d_is_dir], [d_is_reg] *)
  o_inode : walk W → Z → option inode;
  o_mode : inode → Z;
  o_append : inode → bool;
  o_is_dir : walk W → Z → bool;
  o_is_reg : walk W → Z → bool;
  (** permissions: [inode_permission], [inode_owner_or_capable],
      [fsuidgid_has_mapping], [path_noexec], [may_open_dev], the sysctls *)
  o_inode_permission : walk W → path → Z → Z;
  o_owner_or_capable : path → inode → bool;
  o_has_mapping : path → bool;
  o_noexec : path → bool;
  o_may_open_dev : path → bool;
  o_protected_regular : Z;
  o_protected_fifos : Z;
  (** security modules: [security_path_mknod], [security_inode_create],
      [security_file_post_open], [security_file_truncate] *)
  o_security_path_mknod : walk W → Z → Z;
  o_security_inode_create : walk W → Z → Z;
  o_security_file_post_open : walk W → file → Z;
  o_security_file_truncate : walk W → file → Z;
  (** [try_break_deleg]: the error, and whether to wait *)
  o_try_break_deleg : walk W → Z * bool;
  (** the directory's file system: which operations it has, and what they do *)
  o_has_atomic_open : Z → bool;
  o_atomic_open : walk W → Z → Z → fs_open W;
  o_fs_lookup : walk W → Z → dentry_res * W;
  o_has_create : Z → bool;
  o_create : walk W → Z → bool → Z * W;
  o_has_tmpfile : Z → bool;
  o_tmpfile : walk W → path → fs_open W;
  (** [do_dentry_open]: the error, whether the file is opened; truncation:
      [get_write_access] and [do_truncate] *)
  o_dentry_open : walk W → path → Z * bool * W;
  o_get_write_access : walk W → path → Z;
  o_truncate : walk W → path → Z * W;
  (** [alloc_empty_file] *)
  o_alloc_file : walk W → Z
}.
Arguments o_want_write {W} _ _ _.
Arguments o_break_deleg_wait {W} _ _.
Arguments o_dead_dir {W} _ _.
Arguments o_d_lookup {W} _ _.
Arguments o_d_alloc_parallel {W} _ _.
Arguments o_in_lookup {W} _ _ _.
Arguments o_invalidate {W} _ _ _.
Arguments o_d_alloc {W} _ _ _.
Arguments o_inode {W} _ _ _.
Arguments o_mode {W} _ _.
Arguments o_append {W} _ _.
Arguments o_is_dir {W} _ _ _.
Arguments o_is_reg {W} _ _ _.
Arguments o_inode_permission {W} _ _ _ _.
Arguments o_owner_or_capable {W} _ _ _.
Arguments o_has_mapping {W} _ _.
Arguments o_noexec {W} _ _.
Arguments o_may_open_dev {W} _ _.
Arguments o_protected_regular {W} _.
Arguments o_protected_fifos {W} _.
Arguments o_security_path_mknod {W} _ _ _.
Arguments o_security_inode_create {W} _ _ _.
Arguments o_security_file_post_open {W} _ _ _.
Arguments o_security_file_truncate {W} _ _ _.
Arguments o_try_break_deleg {W} _ _.
Arguments o_has_atomic_open {W} _ _.
Arguments o_atomic_open {W} _ _ _ _.
Arguments o_fs_lookup {W} _ _ _.
Arguments o_has_create {W} _ _.
Arguments o_create {W} _ _ _ _.
Arguments o_has_tmpfile {W} _ _.
Arguments o_tmpfile {W} _ _ _.
Arguments o_dentry_open {W} _ _ _.
Arguments o_get_write_access {W} _ _ _.
Arguments o_truncate {W} _ _ _.
Arguments o_alloc_file {W} _ _.

Section opens.
Context {W : Type} (E : vfs W) (V : vopen W).

Definition with_maps (w : W) (st : walk W) : walk W := mk_walk (wk_nd st) (wk_targets st) w.
Definition set_created (b : bool) (f : file) : file := mk_file (f_opened f) b (f_path f).
Definition negative (st : walk W) (dentry : Z) : bool := bool_decide (o_inode V st dentry = None).

(** ** Permissions *)

Definition open_to_namei_flags (flag : Z) : Z :=
  if Z.land flag O_ACCMODE =? 3 then flag - 1 else flag.

Definition may_o_create (dentry : Z) (st : walk W) : Z :=
  let dir := nd_path (wk_nd st) in
  let error := o_security_path_mknod V st dentry in
  if negb (error =? 0) then error else
  if negb (o_has_mapping V dir) then - EOVERFLOW else
  let error := o_inode_permission V st dir (Z.lor MAY_WRITE MAY_EXEC) in
  if negb (error =? 0) then error else o_security_inode_create V st dentry.

(** [nd->dir_mode] and [i_mode & S_IFMT]. *)
Definition dir_mode (nd : nameidata) : Z :=
  match nd_dir nd with Some i => o_mode V i | None => 0 end.
Definition has_type (i : inode) (type : Z) : bool := Z.land (o_mode V i) S_IFMT =? type.

(** A file that exists has an inode. *)
Definition may_create_in_sticky (inode : option inode) (nd : nameidata) : Z :=
  match inode with
  | None => 0
  | Some i =>
      if negb (bits S_ISVTX (dir_mode nd)) then 0 else
      if has_type i S_IFREG && (o_protected_regular V =? 0) then 0 else
      if has_type i S_IFIFO && (o_protected_fifos V =? 0) then 0 else
      if v_same_owner E (nd_dir nd) (Some i) then 0 else
      if v_owner_is_fsuid E (p_mnt (nd_path nd)) (Some i) then 0 else
      if bits S_IWOTH (dir_mode nd) then - EACCES else
      if bits S_IWGRP (dir_mode nd) then
        if (2 <=? o_protected_fifos V) && has_type i S_IFIFO then - EACCES else
        if (2 <=? o_protected_regular V) && has_type i S_IFREG then - EACCES else 0
      else 0
  end.

(** The [switch] on the file type: the error, and [flag] with O_TRUNC cleared
    where it means nothing. *)
Definition may_open_type (p : path) (i : inode) (acc_mode flag : Z) : Z * Z :=
  let exec := bits MAY_EXEC acc_mode in
  let device := has_type i S_IFBLK || has_type i S_IFCHR in
  if has_type i S_IFLNK then (- ELOOP, flag) else
  if has_type i S_IFDIR then
    (if bits MAY_WRITE acc_mode then - EISDIR else if exec then - EACCES else 0, flag) else
  if device || has_type i S_IFIFO || has_type i S_IFSOCK then
    (if device && negb (o_may_open_dev V p) then - EACCES else if exec then - EACCES else 0,
     Z.ldiff flag O_TRUNC) else
  if has_type i S_IFREG then (if exec && o_noexec V p then - EACCES else 0, flag) else
  (0, flag).

Definition may_open (p : path) (acc_mode flag : Z) (st : walk W) : Z :=
  match o_inode V st (p_dentry p) with
  | None => - ENOENT
  | Some i =>
      let '(error, flag) := may_open_type p i acc_mode flag in
      if negb (error =? 0) then error else
      let error := o_inode_permission V st p (Z.lor MAY_OPEN acc_mode) in
      if negb (error =? 0) then error else
      if o_append V i && bits O_ACCMODE flag && negb (bits O_APPEND flag) then - EPERM else
      if o_append V i && bits O_TRUNC flag then - EPERM else
      if bits O_NOATIME flag && negb (o_owner_or_capable V p i) then - EPERM else 0
  end.

(** ** The last component, under the directory's lock *)

(** The loop: a dentry found valid, or being looked up; or an error. *)
Fixpoint open_dentry (tries : nat) (dentry : option Z) (st : walk W)
  : option ((Z + Z) * walk W) :=
  match tries with
  | O => None
  | S tries' =>
      match (match dentry with Some d => inr d | None => o_d_alloc_parallel V st end) with
      | inl e => Some (inl e, st)
      | inr d =>
          if o_in_lookup V st d then Some (inr d, st) else
          let error := v_revalidate E st d in
          if 0 <? error then Some (inr d, st) else
          if negb (error =? 0) then Some (inl error, st) else
          open_dentry tries' None (with_maps (o_invalidate V st d) st)
      end
  end.

(** An opened file has taken its reference ([finish_open]). *)
Definition atomic_open (dentry open_flag : Z) (f : file) (st : walk W)
  : dentry_res * file * walk W :=
  let r := o_atomic_open V st dentry (open_to_namei_flags open_flag) in
  let p := mk_path (p_mnt (nd_path (wk_nd st))) (fo_dentry r) in
  let st := with_maps (fo_maps r) st in
  let f := mk_file (fo_opened r) (f_created f || fo_created r) p in
  let st := if f_opened f then get_path p st else st in
  if negb (fo_error r =? 0) then (PErr (fo_error r), f, st) else
  if f_opened f then (PPtr (fo_dentry r), f, st) else
  if fo_dentry r =? DENTRY_NOT_SET then (PErr (- EIO), f, st) else
  let dentry := if fo_dentry r =? NULL then dentry else fo_dentry r in
  (if negative st dentry then PErr (- ENOENT) else PPtr dentry, f, st).

(** The flags left for the file system, and why nothing may be created. *)
Definition create_flags (op : open_flags) (got_write : bool) (dentry : Z) (st : walk W) : Z * Z :=
  let open_flag := op_open_flag op in
  let open_flag := if negb got_write then Z.ldiff open_flag O_TRUNC else open_flag in
  if bits O_CREAT open_flag then
    let open_flag := if bits O_EXCL open_flag then Z.ldiff open_flag O_TRUNC else open_flag in
    let create_error := if got_write then may_o_create dentry st else - EROFS in
    (if negb (create_error =? 0) then Z.ldiff open_flag O_CREAT else open_flag, create_error)
  else (open_flag, 0).

(** From [d_in_lookup] on, without atomic_open: the dentry, whether a delegation
    must be broken, and the file. *)
Definition lookup_create (dentry open_flag create_error : Z) (f : file) (st : walk W)
  : dentry_res * bool * file * walk W :=
  let '(r, st) :=
    if o_in_lookup V st dentry then
      let '(res, w) := o_fs_lookup V st dentry in
      (match res with PNull => PPtr dentry | r => r end, with_maps w st)
    else (PPtr dentry, st) in
  let finish (dentry : Z) (f : file) (st : walk W) : dentry_res * bool * file * walk W :=
    (if negb (create_error =? 0) && negative st dentry then PErr create_error
     else PPtr dentry, false, f, st) in
  match r with
  | PErr e => (PErr e, false, f, st)
  | PNull => (PNull, false, f, st)
  | PPtr dentry =>
      if negative st dentry && bits O_CREAT open_flag then
        let '(error, delegated) := o_try_break_deleg V st in
        if negb (error =? 0) then (PErr error, delegated, f, st) else
        let f := set_created true f in
        if negb (o_has_create V (p_dentry (nd_path (wk_nd st))))
        then (PErr (- EACCES), false, f, st) else
        let '(error, w) := o_create V st dentry (bits O_EXCL open_flag) in
        let st := with_maps w st in
        if negb (error =? 0) then (PErr error, false, f, st) else finish dentry f st
      else finish dentry f st
  end.

Definition lookup_open (tries : nat) (op : open_flags) (got_write : bool) (f : file)
  (st : walk W) : option (dentry_res * bool * file * walk W) :=
  let dir := p_dentry (nd_path (wk_nd st)) in
  if o_dead_dir V st then Some (PErr (- ENOENT), false, f, st) else
  let f := set_created false f in
  '(r, st) ← open_dentry tries (o_d_lookup V st) st;
  match r with
  | inl e => Some (PErr e, false, f, st)
  | inr dentry =>
      if negb (negative st dentry) then Some (PPtr dentry, false, f, st) else
      let '(open_flag, create_error) := create_flags op got_write dentry st in
      if o_has_atomic_open V dir then
        let open_flag := if nd_has LOOKUP_DIRECTORY (wk_nd st)
                         then Z.lor open_flag O_DIRECTORY else open_flag in
        let '(r, f, st) := atomic_open dentry open_flag f st in
        Some (match r with
              | PErr e => PErr (if negb (create_error =? 0) && (e =? - ENOENT)
                                then create_error else e)
              | r => r
              end, false, f, st)
      else Some (lookup_create dentry open_flag create_error f st)
  end.

(** ** Opening *)

(** [vfs_open]: an opened file has its reference. *)
Definition vfs_open (p : path) (f : file) (st : walk W) : Z * file * walk W :=
  let '(error, opened, w) := o_dentry_open V st p in
  let st := with_maps w st in
  (error, mk_file opened (f_created f) (if opened : bool then p else null_path),
   if opened then get_path p st else st).

Definition handle_truncate (f : file) (st : walk W) : Z * walk W :=
  let error := o_get_write_access V st (f_path f) in
  if negb (error =? 0) then (error, st) else
  let error := o_security_file_truncate V st f in
  if negb (error =? 0) then (error, st) else
  let '(error, w) := o_truncate V st (f_path f) in (error, with_maps w st).

(** The checks of an O_CREAT. *)
Definition create_checks (open_flag : Z) (f : file) (st : walk W) : Z :=
  let dentry := p_dentry (nd_path (wk_nd st)) in
  if negb (bits O_CREAT open_flag) then 0 else
  if bits O_EXCL open_flag && negb (f_created f) then - EEXIST else
  if o_is_dir V st dentry then - EISDIR else
  may_create_in_sticky (o_inode V st dentry) (wk_nd st).

(** From [may_open] on. *)
Definition open_checked (do_truncate : bool) (acc_mode open_flag : Z) (f : file) (st : walk W)
  : Z * file * walk W :=
  let error := may_open (nd_path (wk_nd st)) acc_mode open_flag st in
  let '(error, f, st) :=
    if (error =? 0) && negb (f_opened f) then vfs_open (nd_path (wk_nd st)) f st
    else (error, f, st) in
  let error := if error =? 0 then o_security_file_post_open V st f else error in
  let '(error, st) :=
    if (error =? 0) && do_truncate then handle_truncate f st else (error, st) in
  (if 0 <? error then - EINVAL else error, f, st).

(** From [do_truncate = false] on. *)
Definition open_file (op : open_flags) (f : file) (st : walk W) : Z * file * walk W :=
  let open_flag := op_open_flag op in
  let p := nd_path (wk_nd st) in
  if f_created f then open_checked false 0 (Z.ldiff open_flag O_TRUNC) f st else
  if o_is_reg V st (p_dentry p) && bits O_TRUNC open_flag then
    let error := o_want_write V st (p_mnt p) in
    if negb (error =? 0) then (error, f, st)
    else open_checked true (op_acc_mode op) open_flag f st
  else open_checked false (op_acc_mode op) open_flag f st.

Definition do_open (op : open_flags) (f : file) (st : walk W) : Z * file * walk W :=
  let '(error, st) :=
    if negb (f_opened f || f_created f) then complete_walk E st else (0, st) in
  if negb (error =? 0) then (error, f, st) else
  let error := create_checks (op_open_flag op) f st in
  if negb (error =? 0) then (error, f, st) else
  if nd_has LOOKUP_DIRECTORY (wk_nd st) && negb (v_can_lookup E (p_dentry (nd_path (wk_nd st))))
  then (- ENOTDIR, f, st) else
  open_file op f st.

Definition vfs_tmpfile (parent : path) (open_flag : Z) (f : file) (st : walk W)
  : Z * file * walk W :=
  let error := o_inode_permission V st parent (Z.lor MAY_WRITE MAY_EXEC) in
  if negb (error =? 0) then (error, f, st) else
  if negb (o_has_tmpfile V (p_dentry parent)) then (- EOPNOTSUPP, f, st) else
  match o_d_alloc V st parent with
  | None => (- ENOMEM, f, st)
  | Some child =>
      let r := o_tmpfile V st (mk_path (p_mnt parent) child) in
      let p := mk_path (p_mnt parent) (fo_dentry r) in
      let f := mk_file (fo_opened r) (f_created f) p in
      let st := with_maps (fo_maps r) st in
      let st := if f_opened f then get_path p st else st in
      (if negb (fo_error r =? 0) then fo_error r else may_open p 0 open_flag st, f, st)
  end.

(** [fput_close]: the reference of an opened file is dropped. *)
Definition fput_close (f : file) (st : walk W) : walk W :=
  if f_opened f then put_path (f_path f) st else st.

(** ** A whole open

    [tries] bounds the delegations broken and the dentries invalidated. *)

Section walks.
Variables (enabled : bool) (managed : path → bool) (buf : namei_ext_redirect).
Variables (rounds fuel tries : nat).

Definition open_last_lookups (op : open_flags) (f : file) (st : walk W)
  : option (link_res * file * walk W) :=
  Walk.open_last_lookups (v_backing_inode E) (v_full_name_hash E) (v_flags_word E) (v_run E)
    (v_hash_min E) (v_scoped E) (v_can_lookup E) (v_seq E) (v_inode E) (v_op_hash E)
    (v_hash E) (try_to_unlazy E) (lookup_fast E) put_link (step_into E) (handle_dots E)
    (o_want_write V) (lookup_open tries)
    (λ st, let '(error, w) := o_break_deleg_wait V st in (error, with_maps w st))
    enabled managed buf tries op f st.

(** The loop of [path_openat]. *)
Fixpoint open_loop (rounds : nat) (op : open_flags) (s : link_res) (f : file) (st : walk W)
  : option (Z * file * walk W) :=
  match rounds with
  | O => None
  | S rounds' =>
      '(err, st) ← link_path_walk E enabled managed buf fuel s st;
      if negb (err =? 0) then Some (err, f, st) else
      '(s, f, st) ← open_last_lookups op f st;
      match s with
      | PNull => Some (0, f, st)
      | s => open_loop rounds' op s f st
      end
  end.

Definition do_tmpfile (dfd : Z) (name : list Z) (op : open_flags) (flags : flags_t) (f : file)
  (st : walk W) : option (Z * file * walk W) :=
  '(error, p, st) ← path_lookupat E enabled managed buf rounds fuel dfd name
                      (flags ∪ {[LOOKUP_DIRECTORY]}) st;
  if negb (error =? 0) then Some (error, f, st) else
  let error := o_want_write V st (p_mnt p) in
  let '(error, f, st) :=
    if negb (error =? 0) then (error, f, st)
    else vfs_tmpfile p (op_open_flag op) f st in
  Some (error, f, put_path p st).

Definition do_o_path (dfd : Z) (name : list Z) (flags : flags_t) (f : file) (st : walk W)
  : option (Z * file * walk W) :=
  '(error, p, st) ← path_lookupat E enabled managed buf rounds fuel dfd name flags st;
  if negb (error =? 0) then Some (error, f, st) else
  let '(error, f, st) := vfs_open p f st in
  Some (error, f, put_path p st).

(** An error and a closed file, or 0 and the open file. *)
Definition path_openat (dfd : Z) (name : list Z) (op : open_flags) (flags : flags_t)
  (st : walk W) : option (Z * file * walk W) :=
  let f := mk_file false false null_path in
  let error := o_alloc_file V st in
  if negb (error =? 0) then Some (error, f, st) else
  '(error, f, st) ←
    if bits O_TMPFILE (op_open_flag op) then do_tmpfile dfd name op flags f st else
    if bits O_PATH (op_open_flag op) then do_o_path dfd name flags f st else
    let '(s, st) := path_init E dfd name flags st in
    '(error, f, st) ← open_loop rounds op s f st;
    let '(error, f, st) := if error =? 0 then do_open op f st else (error, f, st) in
    Some (error, f, terminate_walk st);
  if (error =? 0) && f_opened f then Some (0, f, st) else
  let error := if error =? 0 then - EINVAL else error in
  let error := if error =? - EOPENSTALE
               then if fl LOOKUP_RCU flags then - ECHILD else - ESTALE else error in
  Some (error, mk_file false false null_path, fput_close f st).

(** The three attempts. *)
Definition open_attempts (dfd : Z) (name : list Z) (op : open_flags) (st : walk W)
  : option (Z * file * walk W) :=
  let flags := op_lookup_flags op in
  '(error, f, st) ← path_openat dfd name op (flags ∪ {[LOOKUP_RCU]}) st;
  '(error, f, st) ←
    if error =? - ECHILD then path_openat dfd name op flags st else Some (error, f, st);
  if error =? - ESTALE then path_openat dfd name op (flags ∪ {[LOOKUP_REVAL]}) st
  else Some (error, f, st).

Definition do_file_open (nested dfd : Z) (name : list Z) (op : open_flags) (st : walk W)
  : option (Z * file * walk W) :=
  open_attempts dfd name op (on_nd (set_nameidata nested None) st).

Definition do_file_open_root (nested : Z) (root : path) (name : list Z) (op : open_flags)
  (st : walk W) : option (Z * file * walk W) :=
  if v_is_symlink E (p_dentry root) && fl LOOKUP_OPEN (op_intent op)
  then Some (- ELOOP, mk_file false false null_path, st) else
  open_attempts (-1) name op (on_nd (set_nameidata nested (Some root)) st).
End walks.
End opens.
