(* ===== verification/LookupProps.v ===== *)
(** * Properties of the consultation of a policy

    The context is a faithful image of the component, the answer of a policy
    is validated before it is used, and keys built from the context identify
    the component. *)

From S2P Require Import Prelude Abi PolicyLib PoliciesBasic PoliciesTable PoliciesFamily.
From S2P Require Import PolicyFacts Kernel Targets Lookup.

(** ** Valid component names *)

(** A name the VFS accepts as a single component: not empty, at most 64 bytes,
    neither "." nor "..", without a slash or a NUL byte. *)
Definition component_name (t : list Z) : Prop :=
  t ≠ [] ∧ (length t ≤ NAME_MAX_nat)%nat ∧ t ≠ [chr "."] ∧ t ≠ [chr "."; chr "."] ∧
  Forall (λ b, b ≠ chr "/" ∧ b ≠ 0) t.

Lemma forallb_seq_total (P : Z → bool) (l : list Z) n :
  (n ≤ length l)%nat →
  forallb (λ i, P (l !!! i)) (seq 0 n) = true ↔ Forall (λ b, P b = true) (take n l).
Proof.
  intros Hn. rewrite forallb_forall, Forall_lookup. split.
  - intros H i x Hx. apply lookup_take_Some in Hx as [Hx Hi].
    rewrite <- (list_lookup_total_correct _ _ _ Hx). apply H, in_seq. lia.
  - intros H i Hi. apply in_seq in Hi.
    destruct (lookup_lt_is_Some_2 l i) as [x Hx]; [lia|].
    rewrite (list_lookup_total_correct _ _ _ Hx). apply (H i).
    apply lookup_take_Some. split; [done|lia].
Qed.

(** The "." and ".." tests compare the replacement itself. *)
Lemma take_1_total (l : list Z) : (1 ≤ length l)%nat → take 1 l = [l !!! 0%nat].
Proof. destruct l; simpl; [lia|]. by rewrite take_0. Qed.
Lemma take_2_total (l : list Z) :
  (2 ≤ length l)%nat → take 2 l = [l !!! 0%nat; l !!! 1%nat].
Proof. destruct l as [|a [|b l]]; simpl; [lia..|]. by rewrite take_0. Qed.

Lemma dot_test name len :
  len ≤ Z.of_nat (length name) →
  (len =? 1) && (name !!! 0%nat =? chr ".") =
    bool_decide (take (Z.to_nat len) name = [chr "."]).
Proof.
  intros Hn. destruct (len =? 1) eqn:E; unfold_bools; cbn [andb].
  - subst. change (Z.to_nat 1) with 1%nat. rewrite (take_1_total name) by lia.
    destruct (Z.eqb_spec (name !!! 0%nat) (chr ".")) as [H|H]; case_bool_decide; congruence.
  - symmetry. apply bool_decide_eq_false_2. intros H%(f_equal length).
    rewrite length_take in H. simpl in H. lia.
Qed.
Lemma dot_test2 name len :
  len ≤ Z.of_nat (length name) →
  (len =? 2) && (name !!! 0%nat =? chr ".") && (name !!! 1%nat =? chr ".") =
    bool_decide (take (Z.to_nat len) name = [chr "."; chr "."]).
Proof.
  intros Hn. destruct (len =? 2) eqn:E; unfold_bools; cbn [andb].
  - subst. change (Z.to_nat 2) with 2%nat. rewrite (take_2_total name) by lia.
    destruct (Z.eqb_spec (name !!! 0%nat) (chr ".")) as [H|H],
      (Z.eqb_spec (name !!! 1%nat) (chr ".")) as [H'|H']; case_bool_decide; simpl; congruence.
  - symmetry. apply bool_decide_eq_false_2. intros H%(f_equal length).
    rewrite length_take in H. simpl in H. lia.
Qed.

Lemma redirect_valid_spec c :
  ctx_wf c → 0 ≤ ctx_redirect_name_len c →
  namei_ext_redirect_valid c = true ↔
  ctx_redirect_name_len c ≤ BPF_NAMEI_EXT_NAME_MAX ∧ component_name (ctx_redirect c).
Proof.
  intros Hwf Hlen. pose proof (wf_redirect_name c Hwf) as Hn.
  unfold namei_ext_redirect_valid, component_name, ctx_redirect.
  set (len := ctx_redirect_name_len c) in *. set (name := ctx_redirect_name c) in *.
  unfold BPF_NAMEI_EXT_NAME_MAX, NAME_MAX_nat in *.
  destruct (decide (1 ≤ len ≤ 64)) as [Hr|Hr].
  2:{ assert ((len =? 0) || (64 <? len) = true) as ->
        by (apply orb_true_iff; rewrite Z.eqb_eq, Z.ltb_lt; lia).
      split; [done|]. intros (? & Hne & _). exfalso. apply Hr.
      assert (len ≠ 0); [|lia]. intros E. rewrite E in Hne. done. }
  assert ((len =? 0) || (64 <? len) = false) as ->
    by (apply orb_false_iff; rewrite Z.eqb_neq, Z.ltb_ge; lia).
  rewrite (dot_test name len), (dot_test2 name len) by lia.
  case_bool_decide; [split; [done|tauto]|].
  case_bool_decide; [split; [done|tauto]|].
  rewrite (forallb_seq_total (λ b, negb ((b =? chr "/") || (b =? 0)))) by lia.
  assert (∀ l, Forall (λ b, negb ((b =? chr "/") || (b =? 0)) = true) l ↔
    Forall (λ b, b ≠ chr "/" ∧ b ≠ 0) l) as ->.
  { intros l. apply Forall_proper; [|done]. intros b.
    by rewrite negb_true_iff, orb_false_iff, !Z.eqb_neq. }
  split; [|by intros (_ & _ & _ & _ & _ & ?)].
  intros Hf. split_and!; try done; [lia| |].
  - intros E%(f_equal length). rewrite length_take in E. simpl in E. lia.
  - rewrite length_take. lia.
Qed.

(** The kernel accepts a policy's replacement exactly when it is a name the
    VFS could have parsed out of a path itself: a redirect can never inject a
    path separator, a terminator, or a "." or ".." step. *)
Theorem redirect_valid_iff c :
  ctx_wf c → 0 ≤ ctx_redirect_name_len c →
  namei_ext_redirect_valid c = true ↔
  ctx_redirect_name_len c ≤ BPF_NAMEI_EXT_NAME_MAX ∧ component_name (ctx_redirect c).
Proof. exact (redirect_valid_spec c). Qed.

(** The name in the redirect record is the one the policy wrote. *)
Lemma redirect_buffer_bytes c buf :
  ctx_wf c → 0 ≤ ctx_redirect_name_len c → namei_ext_redirect_valid c = true →
  take (Z.to_nat (ctx_redirect_name_len c))
    (memcpy buf (ctx_redirect_name c) (Z.to_nat (ctx_redirect_name_len c))) = ctx_redirect c.
Proof.
  intros Hwf Hlen [Hmax _]%redirect_valid_spec; [|done..].
  pose proof (wf_redirect_name c Hwf) as Hn. unfold memcpy, ctx_redirect.
  unfold NAME_MAX_nat, BPF_NAMEI_EXT_NAME_MAX in *.
  rewrite take_app_le by (rewrite length_take; lia). by rewrite take_take, Nat.min_id.
Qed.

(** The byte after it is the one that was there. *)
Lemma redirect_buffer_after c buf :
  ctx_wf c → 0 ≤ ctx_redirect_name_len c → namei_ext_redirect_valid c = true →
  memcpy buf (ctx_redirect_name c) (Z.to_nat (ctx_redirect_name_len c)) !!
    Z.to_nat (ctx_redirect_name_len c) = buf !! Z.to_nat (ctx_redirect_name_len c).
Proof.
  intros Hwf Hlen [Hmax _]%redirect_valid_spec; [|done..].
  pose proof (wf_redirect_name c Hwf) as Hn. unfold memcpy, NAME_MAX_nat, BPF_NAMEI_EXT_NAME_MAX in *.
  rewrite lookup_app_r, length_take, lookup_drop by (rewrite length_take; lia). f_equal. lia.
Qed.

(** *** The context *)

Section lookup_props.
Context (d_backing_inode : Z → option inode) (full_name_hash : Z → list Z → Z)
  (flags_word : flags_t → Z).

Lemma init_ctx_wf parent pinode event flags name :
  in_width 32 event → in_width 32 (q_len name) → q_len name ≤ Z.of_nat (length (q_name name)) →
  ctx_wf (namei_ext_init_ctx d_backing_inode parent pinode event flags name).
Proof.
  intros He Hl Hb. unfold in_width in *. split; simpl; try done.
  rewrite length_app, length_take, length_replicate.
  unfold BPF_NAMEI_EXT_NAME_MAX, NAME_MAX_nat. lia.
Qed.

Lemma init_ctx_component parent pinode event flags name :
  0 ≤ q_len name ≤ BPF_NAMEI_EXT_NAME_MAX →
  q_len name ≤ Z.of_nat (length (q_name name)) →
  ctx_component (namei_ext_init_ctx d_backing_inode parent pinode event flags name)
    = q_bytes name.
Proof.
  intros Hl Hb. unfold ctx_component, q_bytes. simpl.
  rewrite Z.min_l by lia. rewrite take_app_le by (rewrite length_take; lia).
  by rewrite take_take, Nat.min_id.
Qed.

(** What the key builder of the policies makes of a component. *)
Definition kernel_key (cg : Z) (parent : option path) (pinode : option inode)
  (event flags : Z) (name : qstr) : namei_ext_component_key :=
  namei_ext_build_component_key
    (set_cgroup_id cg (namei_ext_init_ctx d_backing_inode parent pinode event flags name)).

(** A name of the walk: its bytes are in memory and its length is a u32. *)
Definition name_ok (name : qstr) : Prop :=
  in_width 32 (q_len name) ∧ q_len name ≤ Z.of_nat (length (q_name name)).

Lemma set_cgroup_id_wf cg c : ctx_wf c → ctx_wf (set_cgroup_id cg c).
Proof. by intros []. Qed.

(** From the kernel's component to the policy's map key and back: two
    components of at most 64 bytes get the same key exactly when the event,
    the cgroup, the parent directory's device and inode number and the name
    are the same, whatever lies behind the names in memory and whatever the
    lookup flags and hashes. *)
Theorem kernel_key_identifies_component cg cg' event event' flags flags' i i' name name' :
  name_ok name → name_ok name' → in_width 32 event → in_width 32 event' →
  q_len name ≤ BPF_NAMEI_EXT_NAME_MAX → q_len name' ≤ BPF_NAMEI_EXT_NAME_MAX →
  kernel_key cg None (Some i) event flags name =
    kernel_key cg' None (Some i') event' flags' name' ↔
  (event, cg, default 0 (i_sdev i), i_ino i, q_bytes name) =
    (event', cg', default 0 (i_sdev i'), i_ino i', q_bytes name').
Proof.
  intros [Hw Hb] [Hw' Hb'] He He' Hl Hl'.
  assert (0 ≤ q_len name) as H0 by apply Hw. assert (0 ≤ q_len name') as H0' by apply Hw'.
  unfold kernel_key. rewrite build_component_key_inj;
    [|by apply set_cgroup_id_wf, init_ctx_wf..|done|done].
  change (ctx_component (set_cgroup_id ?c ?x)) with (ctx_component x).
  rewrite !init_ctx_component by done. simpl.
  split; [congruence|]. intros [= -> -> -> -> Hn].
  assert (q_len name = q_len name') as ->; [|congruence].
  apply (f_equal length) in Hn. unfold q_bytes in Hn. rewrite !length_take in Hn. lia.
Qed.

(** Names longer than the 64 bytes of the context do not fit the key: two
    different files of one directory whose names have the same length and
    the same first 64 bytes get the same key, so a rule installed for one
    also decides the other. *)
Theorem long_names_share_key cg parent pinode event flags h h' a b b' :
  length a = NAME_MAX_nat → length b = length b' →
  kernel_key cg parent pinode event flags
    (mk_qstr h (Z.of_nat (length (a ++ b))) (a ++ b)) =
  kernel_key cg parent pinode event flags
    (mk_qstr h' (Z.of_nat (length (a ++ b'))) (a ++ b')).
Proof.
  intros Ha Hb. apply key_eq_iff. unfold kernel_key, namei_ext_build_component_key. simpl.
  rewrite !length_app, Ha, Hb.
  replace (Z.to_nat (Z.min (Z.of_nat (NAME_MAX_nat + length b')) BPF_NAMEI_EXT_NAME_MAX))
    with (length a) by (rewrite Ha; unfold BPF_NAMEI_EXT_NAME_MAX, NAME_MAX_nat; lia).
  by rewrite !take_app_length.
Qed.

Section run.
Context {W : Type} (run : W → path → bpf_namei_ext_ctx → Z * W * bpf_namei_ext_ctx).

(** C25: What the walk may rely on after a consultation, for any policy the
    verifier accepts: an error is a negative errno; success leaves at most
    one of a redirect and a pending target; a redirect is a valid single
    component (at most 64 bytes, no "." or "..", no slash or NUL) and never
    answers a create; a target never answers a create nor the open of a
    non-directory. *)
Theorem lookup_outcome_safe parent pinode name event lflags buf w :
  name_ok name → in_width 32 event → length (r_name buf) = NAME_MAX_nat →
  (∀ w p c, ctx_wf c → 0 ≤ ctx_redirect_name_len c → let '(action, _, c') := run w p c in
     namei_ext_retval_ok action = true ∧ ctx_wf c' ∧ 0 ≤ ctx_redirect_name_len c') →
  let '(err, r, _) := namei_ext_lookup d_backing_inode full_name_hash flags_word run
                        parent pinode name event lflags buf w in
  err ≤ 0 ∧ r_target_active r = false ∧ r_target_borrowed r = false ∧
  (err ≠ 0 → r_active r = false ∧ r_target_pending r = false) ∧
  (r_active r = true → r_target_pending r = false ∧ fl LOOKUP_CREATE lflags = false ∧
     component_name (take (Z.to_nat (r_len r)) (r_name r)) ∧
     r_len r ≤ BPF_NAMEI_EXT_NAME_MAX) ∧
  (r_target_pending r = true → fl LOOKUP_CREATE lflags = false ∧
     (fl LOOKUP_OPEN lflags = true → fl LOOKUP_DIRECTORY lflags = true)).
Proof.
  intros [Hw Hb] He Hbuf Hrun. unfold namei_ext_lookup.
  pose proof (Hrun w parent _ (init_ctx_wf (Some parent) pinode event
    (flags_word lflags) name He Hw Hb) ltac:(done)) as H.
  destruct (run w parent _) as [[action w'] c']. destruct H as (Hok & Hwf & Hlen).
  unfold namei_ext_retval_ok, BPF_NAMEI_EXT_PASS, BPF_NAMEI_EXT_REDIRECT,
    BPF_NAMEI_EXT_HIDE, BPF_NAMEI_EXT_SELECT_TARGET, EOPNOTSUPP, EINVAL, ENOENT in *.
  unfold_bools. rewrite (proj2 (Z.ltb_ge _ _)) by lia.
  destruct (action =? 0); [by split_and!|].
  destruct (action =? 1).
  { destruct (fl LOOKUP_CREATE lflags) eqn:Hc; [by split_and!|].
    destruct (namei_ext_redirect_valid c') eqn:Hv; [|by split_and!]. simpl.
    pose proof Hv as [Hmax Hname]%redirect_valid_spec; [|done..].
    rewrite !redirect_buffer_bytes by done. by split_and!. }
  destruct (action =? 2); [by split_and!|].
  destruct (action =? 3); [|by split_and!].
  destruct (fl LOOKUP_CREATE lflags) eqn:Hc; [by split_and!|].
  destruct (fl LOOKUP_OPEN lflags), (fl LOOKUP_DIRECTORY lflags); by split_and!.
Qed.
End run.
End lookup_props.
