(* ===== verification/SystemProps.v ===== *)
(** * Properties of the whole kernel side

    Every state reached by creating, attaching, detaching, scoping and
    releasing is consistent, so the prefilter and the static key of the path
    walk are exact optimisations: what a task sees depends on its own cgroup's
    policy only. *)

From S2P Require Import Prelude Abi Kernel Targets Scopes ScopeFacts ScopeProps ScopeApi.
From S2P Require Import ScopeSystem Cgroups EffectiveFacts Dispatch CgroupFacts CgroupProps.
From S2P Require Import DispatchProps System Lookup Walk WalkProps.

Section system_props.
Context (hash_min : Z → nat) (hash_min_lt : ∀ k, (hash_min k < scope_buckets)%nat).
Context (bpf_link_by_id bpf_link_get_from_fd bpf_prog_by_id bpf_prog_get : Z → Z + Z).
Context (delete_safe_at : list Z → nat → list Z).

Abbreviation kstate := (cgroups_state scopes_state).
Abbreviation step := (sys_step hash_min bpf_link_by_id bpf_link_get_from_fd bpf_prog_by_id
  bpf_prog_get delete_safe_at).
Abbreviation reachable := (sys_reachable hash_min bpf_link_by_id bpf_link_get_from_fd
  bpf_prog_by_id bpf_prog_get delete_safe_at).
#[local] Instance props_scopes : PolicyScopes scopes_state := scopes_policy hash_min.
#[local] Instance props_laws : PolicyScopesLaws scopes_state (scopes_inv hash_min) :=
  scopes_policy_laws hash_min hash_min_lt.
Implicit Types st : kstate.

(** ** What the passes over the descendants leave alone *)

(** The fields of a cgroup that only attaching and releasing change. *)
Definition frame (c : cgroup) :=
  (cg_parent c, cg_level c, cg_ref_zero c, cg_progs c, cg_flags c).

Record same_frame st st' : Prop := {
  sf_frame d : frame (cgroup_of st' d) = frame (cgroup_of st d);
  sf_attached : attached st' = attached st;
  sf_links : gs_links st' = gs_links st;
  sf_enabled : gs_enabled st' = gs_enabled st
}.

Lemma same_frame_refl st : same_frame st st.
Proof. by split. Qed.
Lemma same_frame_trans s1 s2 s3 : same_frame s1 s2 → same_frame s2 s3 → same_frame s1 s3.
Proof. intros [] []. split; intros; congruence. Qed.

Lemma attached_upd cg f st :
  attached (upd_cgroup cg f st) =
    attached st + Z.of_nat (length (cg_progs (f (cgroup_of st cg))))
    - Z.of_nat (length (cg_progs (cgroup_of st cg))).
Proof.
  unfold attached, upd_cgroup. cbn [gs_cgroups]. rewrite map_sum_insert. f_equal.
  unfold cgroup_of. by destruct (gs_cgroups st !! cg).
Qed.

Lemma same_frame_upd cg f st :
  (∀ c, frame (f c) = frame c) → same_frame st (upd_cgroup cg f st).
Proof.
  intros Hf. split; [|rewrite attached_upd|done..].
  - intros d. rewrite cgroup_of_upd. case_decide; [by subst|done].
  - specialize (Hf (cgroup_of st cg)). unfold frame in Hf. injection Hf as _ _ _ -> _. lia.
Qed.
Lemma same_frame_scopes f st : same_frame st (upd_scopes f st).
Proof. by split. Qed.

Lemma same_frame_fold (f : kstate → Z → kstate) descs st :
  (∀ s d, same_frame s (f s d)) → same_frame st (foldl f st descs).
Proof.
  intros Hf. revert st. induction descs as [|d rest IH]; intros st; simpl;
    [apply same_frame_refl|]. eapply same_frame_trans; [apply Hf|apply IH].
Qed.

Lemma same_frame_activate cg array st : same_frame st (activate_effective_progs cg array st).
Proof.
  unfold activate_effective_progs.
  repeat match goal with
    | |- same_frame _ (if _ then _ else _) => case_match
    | |- same_frame _ (upd_scopes _ _) => eapply same_frame_trans; [|apply same_frame_scopes]
    | |- same_frame _ (upd_cgroup _ _ _) =>
        eapply same_frame_trans; [|apply same_frame_upd; done]
    end; apply same_frame_refl.
Qed.
Lemma same_frame_activate_one st d : same_frame st (activate_one st d).
Proof.
  unfold activate_one. case_match; [by apply same_frame_upd|].
  eapply same_frame_trans; [apply same_frame_activate|by apply same_frame_upd].
Qed.
Lemma same_frame_compute alloc descs st : same_frame st (compute_all alloc descs st).2.
Proof.
  revert st. induction descs as [|d rest IH]; intros st; simpl; [apply same_frame_refl|].
  case_match; [apply IH|]. case_match; [|apply same_frame_refl].
  eapply same_frame_trans; [|apply IH]. by apply same_frame_upd.
Qed.
Lemma same_frame_update alloc descs st :
  same_frame st (update_effective_progs alloc descs st).2.
Proof.
  unfold update_effective_progs. pose proof (same_frame_compute alloc descs st) as H.
  destruct (compute_all alloc descs st) as [ok st1]. simpl in H.
  destruct ok; simpl; (eapply same_frame_trans; [apply H|]); apply same_frame_fold.
  - apply same_frame_activate_one.
  - intros s d. by apply same_frame_upd.
Qed.

(** ** The invariant *)

(** An entry of a list holds a program, or a link that has one and may sit
    beside others. *)
Definition entry_wf (links : gmap Z Z) (flags : Z) (pl : bpf_prog_list) : Prop :=
  (pl_prog pl ≠ NULL ∧ pl_link pl = NULL) ∨
  (pl_prog pl = NULL ∧ pl_link pl ≠ NULL ∧ is_Some (links !! pl_link pl) ∧
   has flags BPF_F_ALLOW_MULTI = true).

Record sys_inv st : Prop := {
  si_cgroups : cgroups_inv (scopes_inv hash_min) st;
  si_tree : tree_wf st;
  si_null : ¬ live st NULL;
  si_entries d : Forall (entry_wf (gs_links st) (cg_flags (cgroup_of st d)))
                   (cg_progs (cgroup_of st d));
  si_enabled : gs_enabled st = attached st
}.

(** The structural half, kept by whatever keeps the frames. *)
Lemma frame_fields st st' d :
  frame (cgroup_of st' d) = frame (cgroup_of st d) →
  cg_parent (cgroup_of st' d) = cg_parent (cgroup_of st d) ∧
  cg_level (cgroup_of st' d) = cg_level (cgroup_of st d) ∧
  (live st' d ↔ live st d) ∧
  cg_progs (cgroup_of st' d) = cg_progs (cgroup_of st d) ∧
  cg_flags (cgroup_of st' d) = cg_flags (cgroup_of st d).
Proof. unfold frame, live. intros [= -> -> -> -> ->]. done. Qed.

Lemma tree_transfer st st' :
  (∀ d, cg_parent (cgroup_of st' d) = cg_parent (cgroup_of st d)) →
  (∀ d, cg_level (cgroup_of st' d) = cg_level (cgroup_of st d)) →
  (∀ d, live st' d ↔ live st d) → tree_wf st → tree_wf st'.
Proof.
  intros Hp Hv Hl [Ht1 Ht2]. split.
  - intros d Hd. rewrite !Hp, !Hv. apply Ht1. by apply Hl.
  - intros d p Hd. rewrite (cgroup_path_ext st' st) by done. rewrite !Hl in *. eauto.
Qed.
Lemma same_frame_tree st st' : same_frame st st' → tree_wf st → tree_wf st'.
Proof.
  intros Hs. apply tree_transfer; intros d; by apply frame_fields, (sf_frame _ _ Hs).
Qed.

(** A cgroup stays current if nothing its computation reads has changed. *)
Lemma current_frame st st' d :
  gs_links st' = gs_links st → cgroup_path st' d = cgroup_path st d →
  (∀ p, p ∈ cgroup_path st d → level_same st st' p) →
  observed st' d = observed st d →
  ps_active (gs_scopes st') d = ps_active (gs_scopes st) d →
  cgroup_current st d → cgroup_current st' d.
Proof.
  intros Hl Hp Hs Ho Ha [He Hw Hact]. unfold observed in Ho. injection Ho as Ho1 Ho2 _.
  split.
  - rewrite Ho1, He. f_equal. by apply effective_spec_ext.
  - rewrite Ho2, Hw, Hp. apply find_owner_ext. intros p Hin. by apply Hs.
  - by rewrite Ha, Ho2.
Qed.

Lemma boot_inv : sys_inv boot.
Proof.
  assert (∀ d, cgroup_of boot d = no_cgroup) as Hb by done.
  split; [split| | |intros d; rewrite Hb|]; try done.
  - apply initial_scopes_inv.
Qed.

(** ** Each step keeps it *)

Lemma prog_add_link link prog st d pl :
  gs_links st !! link = None → sys_inv st → pl ∈ cg_progs (cgroup_of st d) →
  prog_list_prog (add_link link prog st) pl = prog_list_prog st pl.
Proof.
  intros Hn Hi Hpl. unfold prog_list_prog, add_link. cbn [gs_links].
  pose proof (si_entries _ Hi d) as Hw. rewrite Forall_forall in Hw.
  destruct (Hw pl Hpl) as [[_ ->]|(_ & _ & Hs & _)]; [done|].
  rewrite lookup_insert_ne; [done|]. intros ->. rewrite Hn in Hs. by destruct Hs.
Qed.

(** *** A new link *)

Section relink.
Context st st'.
Hypothesis Hcg : ∀ p, cgroup_of st' p = cgroup_of st p.
Hypothesis Hprog : ∀ p pl, pl ∈ cg_progs (cgroup_of st p) →
  prog_list_prog st' pl = prog_list_prog st pl.

Lemma relink_with_prog p :
  with_prog st' (cg_progs (cgroup_of st p)) = with_prog st (cg_progs (cgroup_of st p)).
Proof. apply filter_ext_in. intros pl Hpl. by rewrite (Hprog p). Qed.
Lemma relink_levels b chain : effective_levels st' b chain = effective_levels st b chain.
Proof.
  revert b. induction chain as [|p chain IH]; intros b; simpl; [done|].
  by rewrite Hcg, relink_with_prog, !IH.
Qed.
Lemma levels_entries b chain l pl :
  l ∈ effective_levels st b chain → pl ∈ l → ∃ p, pl ∈ cg_progs (cgroup_of st p).
Proof.
  revert b. induction chain as [|p chain IH]; intros b; simpl; [by intros ?%not_elem_of_nil|].
  case_match; [apply IH|]. intros [->|Hl]%elem_of_cons Hpl; [|by eapply IH].
  exists p. by apply list_elem_of_filter in Hpl as [_ ?].
Qed.
Lemma relink_progs (f : bpf_prog_list → Prop) `{∀ pl, Decision (f pl)} b chain :
  (λ l : list bpf_prog_list, prog_list_prog st' <$> filter f l) <$>
    effective_levels st b chain =
  (λ l : list bpf_prog_list, prog_list_prog st <$> filter f l) <$>
    effective_levels st b chain.
Proof.
  apply list_fmap_ext. intros i l Hl%list_elem_of_lookup_2.
  apply list_fmap_ext. intros j pl Hpl%list_elem_of_lookup_2.
  apply list_elem_of_filter in Hpl as [_ Hpl].
  destruct (levels_entries _ _ _ _ Hl Hpl) as [p Hp]. by apply (Hprog p).
Qed.
Lemma relink_spec d : effective_spec st' d = effective_spec st d.
Proof.
  unfold effective_spec. rewrite (cgroup_path_ext st' st) by (intros; by rewrite Hcg).
  rewrite relink_levels. unfold preorder_progs, postorder_progs. by rewrite !relink_progs.
Qed.
Lemma relink_owner chain : find_owner st' chain = find_owner st chain.
Proof.
  induction chain as [|p chain IH]; simpl; [done|].
  by rewrite !prog_list_length_eq, Hcg, relink_with_prog, IH.
Qed.
Lemma relink_current d :
  gs_scopes st' = gs_scopes st → cgroup_current st d → cgroup_current st' d.
Proof.
  intros Hs [He Hw Ha]. split; rewrite Hcg.
  - by rewrite relink_spec.
  - rewrite (cgroup_path_ext st' st) by (intros; by rewrite Hcg). by rewrite relink_owner.
  - by rewrite Hs.
Qed.
End relink.

Lemma add_link_inv link prog st :
  gs_links st !! link = None → sys_inv st → sys_inv (add_link link prog st).
Proof.
  intros Hn Hi. assert (∀ p, cgroup_of (add_link link prog st) p = cgroup_of st p) as Hcg by done.
  split.
  - split; [apply Hi|]. intros d Hd. apply (relink_current st); [done| |done|by apply Hi].
    intros p pl. by apply prog_add_link.
  - apply (tree_transfer st); [done..|apply Hi].
  - apply Hi.
  - intros d. eapply Forall_impl; [apply (si_entries _ Hi d)|].
    intros pl [?|(? & ? & Hs & ?)]; [by left|right]. split_and!; try done.
    cbn [gs_links add_link]. destruct (decide (link = pl_link pl)) as [->|].
    + by rewrite lookup_insert_eq.
    + by rewrite lookup_insert_ne.
  - apply (si_enabled _ Hi).
Qed.

(** *** Writing policy_parent *)

Lemma parent_op_active op s cg :
  is_parent_op op →
  (scope_view (scope_step hash_min op s).2 cg).2 = (scope_view s cg).2.
Proof.
  intros Hop. rewrite scope_step_eq by done.
  destruct op; try done; repeat case_match; cbn [snd];
    rewrite ?scope_view_free, ?scope_view_replace, ?scope_view_set_refs by done;
    by try case_decide; subst.
Qed.
Lemma scope_inv op st :
  is_parent_op op → op_ok op (gs_scopes st) → sys_inv st →
  sys_inv (upd_scopes (λ s, (scope_step hash_min op s).2) st).
Proof.
  intros Hop Hok [[Hs Hc] Ht Hn He Hen]. split; try done.
  - split; [by apply (scope_step_inv hash_min hash_min_lt)|].
    intros d Hd. apply (current_frame st); [done|by apply cgroup_path_ext|done|done| |by apply Hc].
    apply (parent_op_active op (gs_scopes st) d Hop).
  - by apply (tree_transfer st).
Qed.

(** *** Releasing *)

Lemma release_inv cg st :
  live st cg → (∀ d, live st d → cg ∈ cgroup_path st d → d = cg) → sys_inv st →
  sys_inv (cgroup_bpf_release cg (upd_cgroup cg kill_ref st)).
Proof.
  intros Hl Hleaf [[Hs Hc] [Ht1 Ht2] Hn He Hen].
  set (st' := cgroup_bpf_release _ _).
  assert (∀ d, d ≠ cg → cgroup_of st' d = cgroup_of st d) as Hother.
  { intros d Hd. unfold st', cgroup_bpf_release. rewrite cgroup_of_scopes.
    change (cgroup_of (upd_enabled ?n ?s) d) with (cgroup_of s d).
    by rewrite !cgroup_of_upd_ne. }
  assert (cgroup_of st' cg = set_progs [] (kill_ref (cgroup_of st cg))) as Hself.
  { unfold st', cgroup_bpf_release. rewrite cgroup_of_scopes.
    change (cgroup_of (upd_enabled ?n ?s) cg) with (cgroup_of s cg).
    by rewrite !cgroup_of_upd_eq. }
  assert (∀ d, cg_parent (cgroup_of st' d) = cg_parent (cgroup_of st d) ∧
               cg_level (cgroup_of st' d) = cg_level (cgroup_of st d)) as Hpl.
  { intros d. destruct (decide (d = cg)) as [->|]; [by rewrite Hself|by rewrite Hother]. }
  assert (∀ d, cgroup_path st' d = cgroup_path st d) as Hpath.
  { intros d. apply cgroup_path_ext; apply Hpl. }
  assert (∀ d, live st' d ↔ live st d ∧ d ≠ cg) as Hlive.
  { intros d. unfold live. destruct (decide (d = cg)) as [->|].
    - rewrite Hself. simpl. split; [done|by intros [_ ?]].
    - rewrite Hother by done. tauto. }
  assert (∀ d p, live st' d → p ∈ cgroup_path st d → p ≠ cg) as Hnot.
  { intros d p [Hd Hne]%Hlive Hp ->. by apply Hne, Hleaf. }
  split.
  - split; [by apply (release_keeps (inv:=scopes_inv hash_min))|].
    intros d Hd. apply Hlive in Hd as Hd'. destruct Hd' as [Hd0 Hne].
    apply (current_frame st); [done|done| |unfold observed; by rewrite Hother| |by apply Hc].
    + intros p Hp. unfold level_same, level_progs. rewrite Hother by eauto. done.
    + change (gs_scopes st') with (ps_release cg (gs_scopes st)).
      by rewrite (release_inactive (inv:=scopes_inv hash_min)), decide_False.
  - split.
    + intros d [Hd _]%Hlive. rewrite (proj1 (Hpl d)), !(proj2 (Hpl _)). by apply Ht1.
    + intros d p Hd. rewrite Hpath. intros Hp. apply Hlive. split; [|by eauto].
      apply Hlive in Hd as [Hd _]. by eapply Ht2.
  - rewrite Hlive. tauto.
  - intros d. destruct (decide (d = cg)) as [->|]; [by rewrite Hself|].
    rewrite Hother by done. apply He.
  - unfold st', cgroup_bpf_release.
    change (attached (upd_scopes ?f ?s)) with (attached s).
    change (attached (upd_enabled ?n ?s)) with (attached s).
    rewrite !attached_upd, cgroup_of_upd_eq. cbn. rewrite Hen. lia.
Qed.

(** *** Creating *)

Lemma walk_parents_avoid fuel st st' cg p :
  (∀ d, d ≠ cg → cgroup_of st' d = cgroup_of st d) →
  cg ∉ walk_parents fuel st p → walk_parents fuel st' p = walk_parents fuel st p.
Proof.
  intros Ho. revert p. induction fuel as [|fuel IH]; intros p; simpl; [done|].
  case_match; [done|]. intros [Hne Hn]%not_elem_of_cons. by rewrite Ho, IH.
Qed.

Lemma create_inv cg parent st :
  gs_cgroups st !! cg = None → cg ≠ NULL → parent = NULL ∨ live st parent →
  sys_inv st →
  sys_inv (cgroup_bpf_inherit true cg (upd_cgroup cg (λ _, fresh_cgroup parent st) st)).2.
Proof.
  intros Hnew Hcn Hpar [[Hs Hc] [Ht1 Ht2] Hn He Hen].
  assert (¬ live st cg) as Hdead.
  { unfold live, cgroup_of. by rewrite Hnew. }
  set (st1 := upd_cgroup cg _ st).
  unfold cgroup_bpf_inherit. rewrite compute_effective_alloc.
  set (st2 := upd_cgroup cg (set_progs []) st1). cbn [snd].
  set (array := Some (effective_spec st2 cg)).
  pose proof (same_frame_activate cg array st2) as Hsf.
  pose proof (activate_agree cg array st2) as Hag.
  set (st' := activate_effective_progs cg array st2) in *.

  assert (∀ d, d ≠ cg → cgroup_of st2 d = cgroup_of st d) as Hother2.
  { intros d Hd. unfold st2, st1. by rewrite !cgroup_of_upd_ne. }
  assert (cgroup_of st2 cg = fresh_cgroup parent st) as Hself2.
  { unfold st2, st1. by rewrite !cgroup_of_upd_eq. }
  assert (∀ d, d ≠ cg → cgroup_of st' d = cgroup_of st d ∧
    ps_active (gs_scopes st') d = ps_active (gs_scopes st) d) as Hother.
  { intros d Hd. destruct (activate_other (scopes_inv hash_min) cg array st2 d Hd)
      as [H1 H2]. rewrite Hother2 in H1 by done. by split. }
  assert (∀ d, live st' d ↔ live st d ∨ d = cg) as Hlive.
  { intros d. destruct (frame_fields _ _ d (sf_frame _ _ Hsf d)) as (_ & _ & -> & _).
    unfold live. destruct (decide (d = cg)) as [->|]; [rewrite Hself2; simpl; tauto|].
    rewrite Hother2 by done. tauto. }
  assert (∀ d, live st d → cg ∉ cgroup_path st d) as Hnotin.
  { intros d Hd Hin. by apply Hdead, (Ht2 d). }
  assert (∀ d, live st d → cgroup_path st' d = cgroup_path st d) as Hpath.
  { intros d Hd. assert (d ≠ cg) as Hne by (by intros ->). unfold cgroup_path.
    rewrite (proj1 (Hother d Hne)). apply (walk_parents_avoid _ st st' cg).
    - intros e Hne'. by apply Hother.
    - by apply Hnotin. }
  assert (frame (cgroup_of st' cg) = frame (fresh_cgroup parent st)) as Hself.
  { rewrite <- Hself2. apply (sf_frame _ _ Hsf). }
  assert (tree_wf st') as Htree.
  { split.
    - intros d [Hd|Hd]%Hlive.
      + assert (d ≠ cg) as Hne by (by intros ->). destruct (Hother d Hne) as [-> _].
        intros Hp. rewrite (Ht1 d Hd Hp). f_equal. symmetry.
        assert (cg_parent (cgroup_of st d) ≠ cg) as Hpc; [|by rewrite (proj1 (Hother _ Hpc))].
        intros <-. apply Hdead. apply (Ht2 d _ Hd).
        rewrite (cgroup_path_unfold st d) by (done || by intros ->).
        rewrite (proj2 (Z.eqb_neq _ _) Hp). right. unfold cgroup_path. cbn [walk_parents].
        rewrite (proj2 (Z.eqb_neq _ _) Hp). left.
      + subst d. unfold frame in Hself. injection Hself as Hp Hv _ _ _. rewrite Hp, Hv.
        intros Hne. rewrite (proj2 (Z.eqb_neq _ _) Hne). f_equal.
        destruct Hpar as [|Hpar]; [done|]. assert (parent ≠ cg) as Hpc by (by intros ->).
        by rewrite (proj1 (Hother _ Hpc)).
    - intros d p [Hd|Hd]%Hlive.
      + rewrite Hpath by done. intros Hp. apply Hlive. left. eauto.
      + subst d. unfold frame in Hself. injection Hself as Hpa Hv _ _ _.
        intros Hp. apply Hlive. revert Hp. unfold cgroup_path. rewrite Hv. cbn [walk_parents].
        rewrite (proj2 (Z.eqb_neq _ _) Hcn), Hpa. intros [->|Hp]%elem_of_cons; [by right|left].
        destruct (parent =? NULL) eqn:E; unfold_bools; [by apply not_elem_of_nil in Hp|].
        destruct Hpar as [|Hpar]; [done|]. assert (parent ≠ cg) as Hpc by (by intros ->).
        apply (Ht2 parent); [done|]. rewrite <- Hpath by done. unfold cgroup_path.
        by rewrite (proj1 (Hother _ Hpc)). }
  split; [split| | | |].
  - by apply (activate_sinv (scopes_inv hash_min)).
  - intros d [Hd|Hd]%Hlive.
    + assert (d ≠ cg) as Hne by (by intros ->). destruct (Hother d Hne) as [Ho Ha].
      apply (current_frame st); [apply (sf_links _ _ Hsf)|by apply Hpath| | |done|by apply Hc].
      * intros p Hp. assert (p ≠ cg) as Hpc by (intros ->; by apply (Hnotin d)).
        unfold level_same, level_progs. rewrite (proj1 (Hother p Hpc)). split; [|done].
        unfold with_prog, prog_list_prog. by rewrite (sf_links _ _ Hsf).
      * unfold observed. by rewrite Ho.
    + subst d. destruct (activate_self (scopes_inv hash_min) cg array st2) as (He1 & Hw1 & _ & Ha1).
      split.
      * fold st' in He1. rewrite He1. unfold array. f_equal. by apply agree_spec.
      * fold st' in Hw1. rewrite Hw1. by apply agree_owner.
      * fold st' in Ha1, Hw1. by rewrite Ha1, Hw1.
  - done.
  - rewrite Hlive. intros [?|?]; [done|congruence].
  - intros d. rewrite (sf_links _ _ Hsf).
    destruct (frame_fields _ _ d (sf_frame _ _ Hsf d)) as (_ & _ & _ & -> & ->).
    destruct (decide (d = cg)) as [->|Hd]; [by rewrite Hself2|].
    rewrite Hother2 by done. apply He.
  - rewrite (sf_enabled _ _ Hsf), (sf_attached _ _ Hsf). unfold st2, st1.
    rewrite !attached_upd, cgroup_of_upd_eq. cbn. rewrite Hen. unfold cgroup_of.
    rewrite Hnew. simpl. lia.
Qed.

(** *** Attaching and detaching *)

Lemma same_frame_inv st st' :
  same_frame st st' → cgroups_inv (scopes_inv hash_min) st' → tree_wf st → ¬ live st NULL →
  (∀ d, Forall (entry_wf (gs_links st) (cg_flags (cgroup_of st d))) (cg_progs (cgroup_of st d))) →
  gs_enabled st = attached st → sys_inv st'.
Proof.
  intros Hs Hc Ht Hn He Hen. split; [done| | | |].
  - by apply (same_frame_tree st).
  - rewrite (proj1 (proj2 (proj2 (frame_fields _ _ NULL (sf_frame _ _ Hs _))))). done.
  - intros d. destruct (frame_fields _ _ d (sf_frame _ _ Hs d)) as (_ & _ & _ & -> & ->).
    rewrite (sf_links _ _ Hs). apply He.
  - rewrite (sf_enabled _ _ Hs), (sf_attached _ _ Hs). done.
Qed.

(** Another list and other flags for one cgroup: the tree is the same, the
    entries and the count are those of the new list. *)
Lemma relist_frame st cg progs flags n :
  let st1 := upd_cgroup cg (set_flags flags) (upd_cgroup cg (set_progs progs) st) in
  sys_inv st → Forall (entry_wf (gs_links st) flags) progs →
  n = Z.of_nat (length progs) - Z.of_nat (length (cg_progs (cgroup_of st cg))) →
  tree_wf st1 ∧ ¬ live st1 NULL ∧
  (∀ d, Forall (entry_wf (gs_links st1) (cg_flags (cgroup_of st1 d)))
          (cg_progs (cgroup_of st1 d))) ∧
  gs_enabled st1 + n = attached st1.
Proof.
  intros st1 [Hc Ht Hn He Hen] Hw ->.
  assert (∀ d, cgroup_of st1 d = if decide (d = cg) then
    set_flags flags (set_progs progs (cgroup_of st cg)) else cgroup_of st d) as Hof.
  { intros d. unfold st1. rewrite cgroup_of_upd. case_decide; [by rewrite cgroup_of_upd_eq|].
    by rewrite cgroup_of_upd_ne. }
  split_and!.
  - apply (tree_transfer st); [..|done]; intros d; unfold live; rewrite Hof;
      by case_decide; subst.
  - unfold live in *. rewrite Hof. by case_decide; subst.
  - intros d. rewrite Hof. case_decide; [done|apply He].
  - unfold st1. rewrite !attached_upd, !cgroup_of_upd_eq. cbn. rewrite Hen. lia.
Qed.

Lemma upd_enabled_inv n st :
  cgroups_inv (scopes_inv hash_min) st → tree_wf st → ¬ live st NULL →
  (∀ d, Forall (entry_wf (gs_links st) (cg_flags (cgroup_of st d))) (cg_progs (cgroup_of st d))) →
  gs_enabled st + n = attached st → sys_inv (upd_enabled n st).
Proof.
  intros Hc Ht Hn He Hen. split; try done.
  - by apply inv_enabled.
  - by apply (tree_transfer st).
Qed.

Lemma saved_multi flags :
  has (Z.land flags (Z.lor BPF_F_ALLOW_OVERRIDE BPF_F_ALLOW_MULTI)) BPF_F_ALLOW_MULTI =
    has flags BPF_F_ALLOW_MULTI.
Proof. unfold has. by rewrite <- Z.land_assoc. Qed.

Lemma attach_entry_sys al descs cg progs i old_prog prog link flags st :
  sys_inv st → is_descendants st cg descs → arrays_ok al descs st →
  Forall (entry_wf (gs_links st) (Z.land flags (Z.lor BPF_F_ALLOW_OVERRIDE BPF_F_ALLOW_MULTI)))
    (<[i := mk_pl prog link flags]> progs) →
  Z.of_nat (length progs) = Z.of_nat (length (cg_progs (cgroup_of st cg))) +
    (if old_prog =? NULL then 1 else 0) →
  sys_inv (attach_entry al descs cg progs i old_prog prog link flags st).2.
Proof.
  intros Hi Hd Ha Hw Hlen.
  set (sfl := Z.land flags _) in *.
  destruct (relist_frame st cg _ sfl (if old_prog =? NULL then 1 else 0) Hi Hw)
    as (Ht1 & Hn1 & He1 & Hen1); [rewrite length_insert; lia|].
  pose proof (changed_progs_flags st cg (<[i := mk_pl prog link flags]> progs) sfl) as Hch.
  unfold attach_entry. fold sfl.
  set (st1 := upd_cgroup cg (set_flags sfl) _) in *.
  destruct (detach_array_ok (scopes_inv hash_min) al descs st1) as [st2 Hu].
  { rewrite (ch_scopes _ _ _ Hch). apply Hi. }
  { apply Hd. }
  { intros d Hin Hl. apply Ha; [done|]. unfold live in *.
    by rewrite <- (ref_zero_observed st st1) by (by apply changed_observed with cg). }
  pose proof (same_frame_update (array_ok al) descs st1) as Hsf. rewrite Hu in *.
  cbn [snd negb Z.eqb] in *.
  destruct (update_after_change _ st cg st1 descs _ st2 (si_cgroups _ Hi) Hd Hch Hu) as [Hc2 _].
  assert (same_frame st1 (upd_cgroup cg bump_revision st2)) as Hsf3.
  { eapply same_frame_trans; [done|by apply same_frame_upd]. }
  assert (cgroups_inv (scopes_inv hash_min) (upd_cgroup cg bump_revision st2)) as Hc3
    by (by apply inv_upd).
  destruct (old_prog =? NULL) eqn:E; cbn [negb snd].
  - apply upd_enabled_inv; [done|by apply (same_frame_tree st1)| | |].
    + by rewrite (proj1 (proj2 (proj2 (frame_fields _ _ NULL (sf_frame _ _ Hsf3 _))))).
    + intros d. destruct (frame_fields _ _ d (sf_frame _ _ Hsf3 d)) as (_ & _ & _ & -> & ->).
      rewrite (sf_links _ _ Hsf3). apply He1.
    + by rewrite (sf_enabled _ _ Hsf3), (sf_attached _ _ Hsf3).
  - apply (same_frame_inv st1); [done..|]. rewrite Z.add_0_r in Hen1. done.
Qed.

Lemma request_wf prog link flags st :
  attach_request prog link flags st →
  entry_wf (gs_links st) (Z.land flags (Z.lor BPF_F_ALLOW_OVERRIDE BPF_F_ALLOW_MULTI))
    (mk_pl prog link flags).
Proof.
  intros [[? ?]|(? & ? & ? & ?)]; [by left|right]. by rewrite saved_multi.
Qed.

(** The entry that is overridden or replaced holds a program. *)
Lemma attach_found st cg flags prog link replace_prog i :
  sys_inv st →
  cg_flags (cgroup_of st cg) = Z.land flags (Z.lor BPF_F_ALLOW_OVERRIDE BPF_F_ALLOW_MULTI) →
  find_attach_entry (cg_progs (cgroup_of st cg)) prog link replace_prog
    (has flags BPF_F_ALLOW_MULTI) = Found i →
  ∃ pl, cg_progs (cgroup_of st cg) !! i = Some pl ∧ pl_prog pl ≠ NULL.
Proof.
  intros Hi Hfl. unfold find_attach_entry, find_index. destruct (has flags _) eqn:Hm; simpl.
  - case_match; [done|]. case_match eqn:Hr; [|done].
    destruct (list_find _ _) as [[j pl]|] eqn:Hf; [|done]. intros [= <-].
    apply list_find_Some in Hf as (Hl & Hp & _). exists pl. split; [done|].
    unfold_bools. congruence.
  - destruct (cg_progs (cgroup_of st cg)) as [|pl rest] eqn:Hp; [done|]. intros [= <-].
    exists pl. split; [done|]. pose proof (si_entries _ Hi cg) as Hw. rewrite Hp in Hw.
    apply Forall_cons in Hw as [[[? _]|(_ & _ & _ & Hmu)] _]; [done|].
    rewrite Hfl, saved_multi in Hmu. congruence.
Qed.

Lemma attach_inv al descs cg prog replace_prog link flags id_or_fd revision st :
  is_descendants st cg descs → arrays_ok al descs st → attach_request prog link flags st →
  sys_inv st →
  sys_inv (cgroup_bpf_attach bpf_link_by_id bpf_link_get_from_fd bpf_prog_by_id bpf_prog_get
    al descs cg prog replace_prog link flags id_or_fd revision st).2.
Proof.
  intros Hd Ha Hreq Hi. apply request_wf in Hreq. unfold cgroup_bpf_attach.
  destruct (negb (cgroup_bpf_attach_args_ok _ _ _ _)); [done|].
  destruct (negb (revision =? 0) && _); [done|].
  destruct (negb (hierarchy_allows_attach _ _)); [done|].
  set (progs := cg_progs (cgroup_of st cg)).
  set (sfl := Z.land flags _) in *.
  destruct (bool_decide (progs ≠ []) && _) eqn:Hfl; [done|].
  assert (progs ≠ [] → cg_flags (cgroup_of st cg) = sfl) as Hsame.
  { intros Hne. apply andb_false_iff in Hfl as [Hfl|Hfl]; unfold_bools; done. }
  assert (Forall (entry_wf (gs_links st) sfl) progs) as Hw.
  { destruct (decide (progs = [])) as [->|Hne]; [done|].
    rewrite <- (Hsame Hne). apply (si_entries _ Hi). }
  destruct (_ <=? _); [done|].
  destruct (find_attach_entry _ _ _ _ _) as [i| |e] eqn:Hf; [| |done].
  - destruct (negb (storages_ok al)); [done|].
    assert (progs ≠ []) as Hne.
    { intros Hp. rewrite Hp in Hf. revert Hf. unfold find_attach_entry, find_index. simpl.
      repeat case_match; done. }
    destruct (attach_found _ _ _ _ _ _ _ Hi (Hsame Hne) Hf) as (pl & Hpl & Hp).
    fold progs in Hpl. rewrite Hpl.
    apply attach_entry_sys; [done..|by apply Forall_insert|].
    rewrite (proj2 (Z.eqb_neq _ _) Hp). fold progs. lia.
  - destruct (negb (storages_ok al)); [done|]. destruct (negb (entry_ok al)); [done|].
    unfold insert_pl_to_hlist.
    destruct (get_prog_list _ _ _ _ _ _ _ _ _) as [j| |e] eqn:Hg; [| |done].
    + apply attach_entry_sys; [done..| |].
      * set (k := if has flags BPF_F_BEFORE then j else S j).
        apply get_prog_list_bound in Hg.
        assert (length (take k progs) = k) as Hk.
        { rewrite length_take. fold progs in Hg. unfold k. destruct (has flags BPF_F_BEFORE); lia. }
        rewrite <- Hk at 1. rewrite insert_app_r_alt, Nat.sub_diag by done. simpl.
        apply Forall_app. split; [by apply Forall_take|].
        apply Forall_cons. split; [done|by apply Forall_drop].
      * set (k := if has flags BPF_F_BEFORE then j else S j).
        pose proof (length_app (take k progs) (drop k progs)) as Hl.
        rewrite take_drop in Hl. rewrite length_app. fold progs. simpl. lia.
    + apply attach_entry_sys; [done..| |].
      * simpl. by apply Forall_cons.
      * simpl. fold progs. lia.
Qed.

(** What a successful detachment leaves in the cgroup. *)
Lemma detach_frame st cg descs al i pl :
  sys_inv st → is_descendants st cg descs → cg_progs (cgroup_of st cg) !! i = Some pl →
  let st1 := upd_cgroup cg
    (set_progs (<[i := mk_pl NULL NULL (pl_flags pl)]> (cg_progs (cgroup_of st cg)))) st in
  let st2 := (update_effective_progs (array_ok al) descs st1).2 in
  same_frame (upd_cgroup cg (set_progs (delete i (cg_progs (cgroup_of st cg)))) st)
    (upd_cgroup cg bump_revision
      (upd_cgroup cg (set_progs (delete i (cg_progs (cgroup_of st cg)))) st2)).
Proof.
  intros Hi Hd Hpl st1 st2.
  pose proof (same_frame_update (array_ok al) descs st1) as Hsf. fold st2 in Hsf.
  eapply same_frame_trans; [|by apply same_frame_upd].
  split; [| |exact (sf_links _ _ Hsf)|exact (sf_enabled _ _ Hsf)].
  - intros d. pose proof (sf_frame _ _ Hsf d) as Hf. unfold st1 in Hf.
    revert Hf. rewrite !cgroup_of_upd. case_decide; [subst|done].
    unfold frame. intros [= H1 H2 H3 _ H5]. cbn. congruence.
  - rewrite !attached_upd. rewrite (sf_attached _ _ Hsf). unfold st1.
    rewrite attached_upd. cbn [cg_progs set_progs]. rewrite length_insert.
    destruct (frame_fields _ _ cg (sf_frame _ _ Hsf cg)) as (_ & _ & _ & -> & _).
    unfold st1. rewrite cgroup_of_upd_eq. cbn [cg_progs set_progs]. rewrite length_insert. lia.
Qed.

Lemma same_frame_flags cg fl st st' :
  same_frame st st' →
  same_frame (upd_cgroup cg (set_flags fl) st) (upd_cgroup cg (set_flags fl) st').
Proof.
  intros [Hf Ha Hl He]. split; [| |done..].
  - intros d. rewrite !cgroup_of_upd. case_decide; [|apply Hf].
    specialize (Hf cg). unfold frame in *. injection Hf as H1 H2 H3 H4 _. cbn. congruence.
  - rewrite !attached_upd. cbn. lia.
Qed.
Lemma same_frame_own_flags cg st :
  same_frame (upd_cgroup cg (set_flags (cg_flags (cgroup_of st cg))) st) st.
Proof.
  split; [| |done..].
  - intros d. rewrite cgroup_of_upd. by case_decide; subst.
  - rewrite attached_upd. cbn. lia.
Qed.

Lemma detach_inv al descs cg prog link revision st :
  is_descendants st cg descs → arrays_ok al descs st → sys_inv st →
  sys_inv (cgroup_bpf_detach delete_safe_at al descs cg prog link revision st).2.
Proof.
  intros Hd Ha Hi.
  pose proof (detach_keeps (scopes_inv hash_min) delete_safe_at al descs cg prog link
    revision st (si_cgroups _ Hi) Hd Ha) as Hk.
  unfold cgroup_bpf_detach in *.
  destruct (negb (revision =? 0) && _); [done|].
  destruct (negb (prog =? NULL) && _); [done|].
  destruct (find_detach_entry _ _ _ _) as [i| |e] eqn:Hf; [|done..].
  destruct (find_detach_bound _ _ _ _ _ Hf) as [pl Hpl].
  rewrite (list_lookup_total_correct _ _ _ Hpl) in *.
  pose proof (detach_frame st cg descs al i pl Hi Hd Hpl) as Hsf.
  set (progs' := delete i (cg_progs (cgroup_of st cg))) in *.
  set (st1 := upd_cgroup cg (set_progs (<[i:=_]> _)) st) in *.
  destruct (detach_array_ok (scopes_inv hash_min) al descs st1) as [st2 Hu].
  { apply Hi. }
  { apply Hd. }
  { intros d Hin Hl. apply Ha; [done|]. revert Hl. unfold live, st1. rewrite cgroup_of_upd.
    by case_decide; subst. }
  pose proof (f_equal snd Hu) as Hu2. cbn [snd] in Hu2.
  rewrite Hu in Hk |- *. cbn [negb Z.eqb snd] in *.
  set (st3 := upd_cgroup cg bump_revision (upd_cgroup cg (set_progs progs') st2)) in *.
  assert (same_frame (upd_cgroup cg (set_progs progs') st) st3) as Hsf3.
  { unfold st3. rewrite <- Hu2. exact Hsf. }
  clear Hsf.
  assert (cg_progs (cgroup_of st3 cg) = progs') as Hp3.
  { unfold st3. by rewrite !cgroup_of_upd_eq. }
  rewrite Hp3 in *.
  set (fl := match progs' with [] => 0 | _ => cg_flags (cgroup_of st cg) end).
  assert (Forall (entry_wf (gs_links st) fl) progs') as Hw.
  { pose proof (si_entries _ Hi cg) as Hw. apply (Forall_delete _ _ i) in Hw. fold progs' in Hw.
    unfold fl. clearbody progs'. clear - Hw. destruct progs'; [done|exact Hw]. }
  destruct (relist_frame st cg progs' fl (-1) Hi Hw) as (Ht & Hn & He & Hen).
  { unfold progs'. rewrite length_delete by eauto.
    assert (i < length (cg_progs (cgroup_of st cg)))%nat by (by eapply lookup_lt_Some). lia. }
  assert (same_frame (upd_cgroup cg (set_flags fl) (upd_cgroup cg (set_progs progs') st))
    (match progs' with [] => upd_cgroup cg (set_flags 0) st3 | _ :: _ => st3 end)) as Hs4.
  { unfold fl. clear - Hsf3. clearbody st3 progs'.
    destruct progs' as [|pl' rest]; [exact (same_frame_flags cg 0 _ _ Hsf3)|].
    eapply same_frame_trans; [|exact Hsf3].
    pose proof (same_frame_own_flags cg (upd_cgroup cg (set_progs (pl' :: rest)) st)) as H.
    by rewrite cgroup_of_upd_eq in H. }
  set (st4 := match progs' with [] => _ | _ :: _ => _ end) in *.
  destruct Hk as [Hc _].
  apply upd_enabled_inv.
  - revert Hc. apply inv_transfer; [|done..]. split; [done..|]. by intros d.
  - by apply (same_frame_tree _ _ Hs4).
  - by rewrite (proj1 (proj2 (proj2 (frame_fields _ _ NULL (sf_frame _ _ Hs4 _))))).
  - intros d. destruct (frame_fields _ _ d (sf_frame _ _ Hs4 d)) as (_ & _ & _ & -> & ->).
    rewrite (sf_links _ _ Hs4). apply He.
  - by rewrite (sf_enabled _ _ Hs4), (sf_attached _ _ Hs4).
Qed.

(** ** Every reachable state *)

Lemma reachable_inv st : reachable st → sys_inv st.
Proof.
  induction 1 as [|st st' _ IH Hstep]; [apply boot_inv|].
  destruct Hstep.
  - by apply add_link_inv.
  - by apply create_inv.
  - by apply attach_inv.
  - by apply detach_inv.
  - by apply release_inv.
  - by apply scope_inv.
Qed.


(** ** The walk over a reachable state *)

Section system_walk.
Context {W : Type} (bpf_prog_run : Z → bpf_program W) (cgroup_id : Z → Z).
Context (d_backing_inode : Z → option inode) (full_name_hash : Z → list Z → Z)
  (flags_word : flags_t → Z) (LOOKUP_IS_SCOPED : flags_t) (d_can_lookup : Z → bool)
  (d_seq : Z → Z) (d_inode : Z → option inode) (d_op_hash : Z → bool)
  (d_hash : Z → qstr → Z * qstr) (try_to_unlazy : walk W → bool * walk W)
  (lookup_fast lookup_slow : walk W → dentry_res * walk W) (put_link : walk W → walk W)
  (step_into : Z → Z → walk W → link_res * walk W)
  (handle_dots : walk W → link_res * walk W)
  (mnt_want_write : walk W → Z → Z)
  (lookup_open : open_flags → bool → file → walk W →
    option (dentry_res * bool * file * walk W))
  (break_deleg_wait : walk W → Z * walk W).

(** The policy of the task's cgroup, as the dispatcher runs it. *)
Definition policy_of st (current : Z) (w : W) (p : path) (c : bpf_namei_ext_ctx)
  : Z * W * bpf_namei_ext_ctx :=
  cgroup_bpf_run_namei_ext bpf_prog_run cgroup_id st current p w c.

(** [namei_ext_enabled()] *)
Definition key_enabled st : bool := negb (gs_enabled st =? 0).

Abbreviation sys_walk st current := (walk_component d_backing_inode full_name_hash
  flags_word (policy_of st current) hash_min LOOKUP_IS_SCOPED d_can_lookup d_seq d_inode
  d_op_hash d_hash try_to_unlazy lookup_fast lookup_slow put_link step_into handle_dots).
Abbreviation sys_open st current := (open_last_lookups d_backing_inode full_name_hash
  flags_word (policy_of st current) hash_min LOOKUP_IS_SCOPED d_can_lookup d_seq d_inode
  d_op_hash d_hash try_to_unlazy lookup_fast put_link step_into handle_dots
  mnt_want_write lookup_open break_deleg_wait).

Lemma unowned_passes st current p w c :
  reachable st → live st current →
  (let owner := find_owner st (cgroup_path st current) in
   owner = NULL ∨ ps_matches (gs_scopes st) owner p = false) →
  policy_of st current w p c = (BPF_NAMEI_EXT_PASS, w, c).
Proof.
  intros Hr Hl Ho. apply reachable_inv in Hr as [[_ Hc] _ _ _ _].
  destruct (Hc current Hl) as [_ Hw _]. unfold policy_of, cgroup_bpf_run_namei_ext.
  rewrite Hw. destruct Ho as [->|Ho]; [done|]. rewrite Ho. by rewrite andb_false_r.
Qed.

Lemma disabled_unowned st chain :
  sys_inv st → gs_enabled st = 0 → find_owner st chain = NULL.
Proof.
  intros Hi Hen. rewrite (si_enabled _ Hi) in Hen.
  assert (∀ d, cg_progs (cgroup_of st d) = []) as Hp.
  { intros d. unfold cgroup_of. destruct (gs_cgroups st !! d) as [c|] eqn:E; [|done]. simpl.
    pose proof (map_sum_ge (λ c, Z.of_nat (length (cg_progs c))) (gs_cgroups st) d c) as Hge.
    unfold attached in Hen. rewrite Hen in Hge. destruct (cg_progs c); [done|].
    simpl in Hge. assert (0 < 0); [|lia]. 
    eapply Z.lt_le_trans; [|apply Hge; [intros; lia|done]]. lia. }
  induction chain as [|p chain IH]; simpl; [done|]. by rewrite Hp.
Qed.

(** Where the walk skips the policy, it would have passed. *)
Lemma skipped_passes st current p :
  reachable st → live st current →
  key_enabled st = false ∨ namei_ext_parent_maybe_managed hash_min (gs_scopes st) p = false →
  ∀ w c, policy_of st current w p c = (BPF_NAMEI_EXT_PASS, w, c).
Proof.
  intros Hr Hl Hs w c. apply reachable_inv in Hr as Hi. destruct Hs as [Hk|Hm].
  - apply unowned_passes; [done..|]. left. apply disabled_unowned; [done|].
    unfold key_enabled in Hk. by unfold_bools.
  - apply (rejected_passes (scopes_inv hash_min)); [apply Hi..|done|done].
Qed.


(** Isolation: a task whose cgroup has no policy above it, or that is in a
    directory outside the scope of its policy's owner, walks and opens as on a
    kernel without the extension, whatever policies other cgroups have. *)
Theorem unmanaged_unchanged st current buf flags fuel op f nd :
  reachable st → live st current →
  (let owner := find_owner st (cgroup_path st current) in
   owner = NULL ∨ ps_matches (gs_scopes st) owner (nd_path (wk_nd nd)) = false) →
  let managed := namei_ext_parent_maybe_managed hash_min (gs_scopes st) in
  sys_walk st current (key_enabled st) managed buf flags nd =
    sys_walk st current false managed buf flags nd ∧
  sys_open st current (key_enabled st) managed buf fuel op f nd =
    sys_open st current false managed buf fuel op f nd.
Proof.
  intros Hr Hl Ho managed. destruct (key_enabled st); [|done].
  split; [apply walk_pass_plain | apply open_pass_plain]; intros; by apply unowned_passes.
Qed.
End system_walk.
End system_props.
