(* ===== verification/PathInv.v ===== *)
(** * What a walk holds

    The invariant of a walk in progress: outside rcu-walk it holds one
    reference on its position, on each symlink on its stack and on the root it
    grabbed, in rcu-walk none; its stack fits the memory it has; its link count
    only grows. *)

From S2P Require Import Prelude Abi Kernel Targets Lookup Walk WalkProps PathWalk.

(** The references held by the name data alone. *)
Definition held (nd : nameidata) : list path :=
  if nd_has LOOKUP_RCU nd then [] else
  nd_path nd :: (sv_link <$> nd_stack nd) ++ (if nd_root_grabbed nd then [nd_root nd] else []).

(** [nd->stack] is [internal] or an allocated array; an entry per link. *)
Record stack_ok (nd : nameidata) : Prop := {
  stack_counted : nd_depth nd ≤ nd_total_link_count nd;
  stack_room : nd_depth nd ≤ (if nd_alloced nd then MAXSYMLINKS else EMBEDDED_LEVELS)
}.

(** The length of the longest symlink, with its NUL. *)
Definition PATH_MAX : Z := 4096.

(** A string with its NUL, that fits a pathname. *)
Record cstring (s : list Z) : Prop := {
  cstring_nul : 0 ∈ s;
  cstring_max : Z.of_nat (length s) ≤ PATH_MAX
}.

(** What the environment must do for the invariant: mount traversal does not
    take back links, a file system jumps only when it is given a dentry,
    bodies of symlinks are strings, [d_hash] sets the hash of a name, and an
    error is not 0. *)
Record env_ok {W} (E : vfs W) : Prop := {
  env_count : ∀ st d, nd_total_link_count (wk_nd st) ≤ (v_traverse_mounts E st d).2;
  env_jump : ∀ st d p, v_get_link E st d false ≠ GetJump p;
  env_i_link : ∀ d body, v_i_link E d = Some body → cstring body;
  env_get_link : ∀ st d b body, v_get_link E st d b = GetBody body → cstring body;
  env_get_err : ∀ st d b, v_get_link E st d b ≠ GetErr 0;
  env_lookup_err : ∀ st, v_lookup_slow E st ≠ PErr 0;
  env_hash : ∀ d q, q_len (v_hash E d q).2 = q_len q ∧ q_name (v_hash E d q).2 = q_name q
}.

Lemma fl_add f F s : f ∉ s → fl f (F ∪ s) = fl f F.
Proof. intros Hf. unfold fl. apply bool_decide_ext. rewrite elem_of_union. tauto. Qed.
Lemma fl_drop f F s : f ∉ s → fl f (F ∖ s) = fl f F.
Proof. intros Hf. unfold fl. apply bool_decide_ext. rewrite elem_of_difference. tauto. Qed.

(** The fields of the name data the invariant reads. *)
Definition core (nd : nameidata) :=
  (nd_path nd, nd_root nd, nd_has LOOKUP_RCU nd, nd_root_grabbed nd, nd_stack nd,
   nd_alloced nd, nd_total_link_count nd).

Lemma core_flags nd F :
  fl LOOKUP_RCU F = nd_has LOOKUP_RCU nd → core (set_nd_flags F nd) = core nd.
Proof. intros HF. unfold core. cbn. unfold nd_has at 1. cbn. by rewrite HF. Qed.

(** [base] is what others hold, [k] a lower bound of the link count, [l] the
    references the code at hand holds besides. *)
Record walk_inv {W} (base : path → Z) (k : Z) (l : list path) (st : walk W) : Prop := {
  wi_count : k ≤ nd_total_link_count (wk_nd st);
  wi_stack : stack_ok (wk_nd st);
  wi_rcu : rcu st = true → nd_root_grabbed (wk_nd st) = false;
  wi_refs : ∀ q, q ≠ null_path →
    foreign_refs (wk_targets st) q = base q + occurrences q (held (wk_nd st) ++ l)
}.

(** Compare what two lists of paths hold of a path that is not null. *)
Ltac count_refs :=
  cbn; rewrite ?app_nil_r; autorewrite with namei_rw;
  repeat match goal with
  | H : ?q ≠ null_path |- context [decide (?q = null_path)] =>
      rewrite (decide_False (P := q = null_path)) by exact H
  end; lia.

(** After a step: a symlink to follow has been counted, and there were not too
    many. *)
Definition link_post {W} (base : path → Z) (k : Z) (l : list path) (r : link_res * walk W) : Prop :=
  match r with
  | (PPtr body, st) =>
      walk_inv base (k + 1) l st ∧ nd_total_link_count (wk_nd st) ≤ MAXSYMLINKS ∧
      cstring body ∧ at_nul body = false
  | (_, st) => walk_inv base k l st
  end.

Section inv.
Context {W : Type}.
Implicit Types (st : walk W) (l : list path) (base : path → Z).

Lemma foreign_refs_get ts p q :
  foreign_refs (mk_targets (ts_table ts) (path_get p (ts_refs ts))) q =
    foreign_refs ts q + (if decide (q = p) then 1 else 0).
Proof. unfold foreign_refs, ts_held. simpl. rewrite ref_count_get. lia. Qed.

Lemma core_rcu st nd : core nd = core (wk_nd st) → nd_has LOOKUP_RCU nd = rcu st.
Proof. intros Hc. by injection Hc. Qed.
Lemma core_stack_ok nd nd' : core nd' = core nd → stack_ok nd → stack_ok nd'.
Proof.
  intros Hc [Hn Hb]. injection Hc as _ _ _ _ Hs Ha Ht.
  by split; unfold nd_depth in *; rewrite ?Hs, ?Ha, ?Ht.
Qed.
Lemma core_held nd nd' : core nd' = core nd → held nd' = held nd.
Proof.
  intros Hc. injection Hc as Hp Hr Hrcu Hg Hs _ _. unfold held. by rewrite Hp, Hr, Hrcu, Hg, Hs.
Qed.

(** Changing fields the invariant does not read. *)
Lemma inv_core base k l f st :
  core (f (wk_nd st)) = core (wk_nd st) → walk_inv base k l st → walk_inv base k l (on_nd f st).
Proof.
  intros Hc [Hk Hs Hr Hf]. pose proof Hc as Hc'. injection Hc' as _ _ Hrcu Hg _ _ Ht.
  split; cbn [on_nd wk_nd wk_targets].
  - by rewrite Ht.
  - by eapply core_stack_ok.
  - unfold rcu in *. cbn. rewrite Hrcu, Hg. done.
  - intros q Hq. rewrite (core_held _ _ Hc). auto.
Qed.

Lemma inv_targets base k l st ts (w : W) :
  (∀ q, foreign_refs ts q = foreign_refs (wk_targets st) q) →
  walk_inv base k l st → walk_inv base k l (mk_walk (wk_nd st) ts w).
Proof. intros Ht [Hk Hs Hr Hf]. split; try done. intros q Hq. cbn. rewrite Ht. auto. Qed.

Lemma inv_weaken base k k' l st : k' ≤ k → walk_inv base k l st → walk_inv base k' l st.
Proof. intros Hk [????]. split; auto; lia. Qed.
Lemma inv_perm base k l l' st : l ≡ₚ l' → walk_inv base k l st → walk_inv base k l' st.
Proof. intros Hl [? ? ? Hf]. split; auto. intros q Hq. rewrite Hf, !occurrences_app, Hl; done. Qed.
Lemma inv_count base k l st :
  walk_inv base k l st → walk_inv base (nd_total_link_count (wk_nd st)) l st.
Proof. intros [????]. by split. Qed.

Lemma inv_count_weaken base k l st :
  walk_inv base k l st →
  k ≤ nd_total_link_count (wk_nd st) ∧ walk_inv base (nd_total_link_count (wk_nd st)) l st.
Proof. intros H. split; [by destruct H|by eapply inv_count]. Qed.

Lemma inv_get base k l p st :
  walk_inv base k l st → walk_inv base k (p :: l) (get_path p st).
Proof.
  intros [?? Hr Hf]. split; auto. intros q Hq. cbn [get_path wk_nd wk_targets].
  rewrite foreign_refs_get, Hf, !occurrences_app, occurrences_cons by done. lia.
Qed.
Lemma inv_put base k l p st :
  walk_inv base k (p :: l) st → walk_inv base k l (put_path p st).
Proof.
  intros [?? Hr Hf]. split; auto. intros q Hq. cbn [put_path wk_nd wk_targets].
  rewrite foreign_refs_put, Hf, !occurrences_app, occurrences_cons by done. lia.
Qed.
Lemma inv_null base k l st :
  walk_inv base k l st ↔ walk_inv base k (null_path :: l) st.
Proof.
  split; intros [? ? ? Hf]; split; auto; intros q Hq; specialize (Hf q Hq);
    rewrite !occurrences_app, occurrences_cons, decide_False in * by done; lia.
Qed.

(** Changing what the name data hold. *)
Lemma inv_move base k l l' f st :
  let nd' := f (wk_nd st) in
  k ≤ nd_total_link_count nd' → stack_ok nd' →
  (nd_has LOOKUP_RCU nd' = true → nd_root_grabbed nd' = false) →
  (∀ q, q ≠ null_path →
     occurrences q (held nd' ++ l') = occurrences q (held (wk_nd st) ++ l)) →
  walk_inv base k l st → walk_inv base k l' (on_nd f st).
Proof.
  intros nd' Hk Hs Hr Ho [? ? ? Hf]. split; auto.
  intros q Hq. cbn [on_nd wk_targets wk_nd]. fold nd'. rewrite Ho by done. auto.
Qed.

(** In rcu-walk the position and the root are not held. *)
Lemma held_rcu nd : nd_has LOOKUP_RCU nd = true → held nd = [].
Proof. unfold held. by intros ->. Qed.
Lemma held_ref nd : nd_has LOOKUP_RCU nd = false → held nd =
  nd_path nd :: (sv_link <$> nd_stack nd) ++ (if nd_root_grabbed nd then [nd_root nd] else []).
Proof. unfold held. by intros ->. Qed.

Lemma inv_rcu_move base k l f st :
  rcu st = true →
  (nd_has LOOKUP_RCU (f (wk_nd st)), nd_root_grabbed (f (wk_nd st)), nd_stack (f (wk_nd st)),
   nd_alloced (f (wk_nd st)), nd_total_link_count (f (wk_nd st))) =
  (nd_has LOOKUP_RCU (wk_nd st), nd_root_grabbed (wk_nd st), nd_stack (wk_nd st),
   nd_alloced (wk_nd st), nd_total_link_count (wk_nd st)) →
  walk_inv base k l st → walk_inv base k l (on_nd f st).
Proof.
  intros Hrcu He H. injection He as Hr Hg Hs Ha Hc. pose proof H as [Hk [Hn Hb] Hroot _].
  apply (inv_move base k l l); [..|done].
  - by rewrite Hc.
  - by split; unfold nd_depth in *; rewrite ?Hs, ?Ha, ?Hc.
  - intros _. rewrite Hg. auto.
  - intros q _. by rewrite !held_rcu by (rewrite ?Hr; done).
Qed.

(** Outside it, the position moves with its reference. *)
Lemma inv_release base k l st :
  rcu st = false → walk_inv base k l st →
  walk_inv base k (nd_path (wk_nd st) :: l) (on_nd clear_path st).
Proof.
  intros Hr H. pose proof H as [? [??] ??]. apply (inv_move base k l); try done.
  intros q Hq. rewrite !held_ref by done. count_refs.
Qed.
Lemma inv_adopt base k l p i st :
  rcu st = false → nd_path (wk_nd st) = null_path → walk_inv base k (p :: l) st →
  walk_inv base k l (on_nd (move_to p i) st).
Proof.
  intros Hr Hn H. pose proof H as [? [??] ??]. apply (inv_move base k (p :: l)); try done.
  intros q Hq. rewrite !held_ref by done. cbn. rewrite Hn. count_refs.
Qed.

Lemma inv_ref_move base k l p i st :
  rcu st = false → walk_inv base k l st →
  walk_inv base k l (on_nd (move_to p i) (get_path p (put_path (nd_path (wk_nd st)) st))).
Proof.
  intros Hr H. apply inv_release in H; [|done]. apply inv_put, (inv_get _ _ _ p) in H.
  by apply (inv_adopt _ _ _ p i) in H.
Qed.
Lemma inv_ref_take base k l p i st :
  rcu st = false → walk_inv base k (p :: l) st →
  walk_inv base k l (on_nd (move_to p i) (put_path (nd_path (wk_nd st)) st)).
Proof.
  intros Hr H. apply inv_release, inv_put in H; [|done]. by apply (inv_adopt _ _ _ p i) in H.
Qed.
Lemma inv_jump base k l p i st :
  walk_inv base k l (on_nd (move_to p i) st) → walk_inv base k l (on_nd (jump_to p i) st).
Proof. by apply (inv_core _ _ _ (set_jumped true)). Qed.
End inv.
