(* ===== verification/PathRefs.v ===== *)
(** * Every step of a walk keeps what it holds

    The functions of [PathWalk] preserve [walk_inv], in both modes and on
    every error path. *)

From S2P Require Import Prelude Abi Kernel Targets Lookup LookupProps Walk WalkProps PathWalk PathInv.

Section refs.
Context {W : Type} (E : vfs W) (HE : env_ok E).
Implicit Types (st : walk W) (l : list path) (base : path → Z).

(** ** Leaving rcu-walk *)

Lemma leave_rcu_has nd : nd_has LOOKUP_RCU (leave_rcu nd) = false.
Proof. apply bool_decide_eq_false. unfold leave_rcu. simpl. apply not_elem_of_difference. right. by apply elem_of_singleton. Qed.
Lemma rcu_leave st : rcu (on_nd leave_rcu st) = false.
Proof. apply leave_rcu_has. Qed.

Lemma inv_leave base k l st :
  rcu st = true →
  walk_inv base k (nd_path (wk_nd st) :: (sv_link <$> nd_stack (wk_nd st)) ++ l) st →
  walk_inv base k l (on_nd leave_rcu st).
Proof.
  intros Hrcu H. pose proof H as [Hk [Hn Hb] Hr _].
  eapply inv_move; [done|by split|by rewrite leave_rcu_has| |done].
  intros q Hq. rewrite held_ref by apply leave_rcu_has. rewrite held_rcu by done.
  cbn [leave_rcu set_nd_flags set_seq set_next_seq nd_path nd_stack nd_root_grabbed nd_root].
  by rewrite Hr, app_nil_r by done.
Qed.

Lemma legitimize_path_inv base k l p seq st :
  walk_inv base k l st →
  let '(ok, p', st') := legitimize_path E p seq st in
  walk_inv base k (p' :: l) st' ∧ wk_nd st' = wk_nd st ∧ (ok = true → p' = p).
Proof.
  intros H. unfold legitimize_path. destruct (v_grab E st p); cbn [negb].
  - split_and!; [by apply inv_get|done..].
  - split_and!; [by apply inv_null in H|done..].
Qed.

Lemma legitimize_saved_inv ss : ∀ base k l st,
  walk_inv base k l st →
  let '(ok, kept, st') := legitimize_saved E ss st in
  walk_inv base k ((sv_link <$> kept) ++ l) st' ∧ wk_nd st' = wk_nd st ∧
  (length kept ≤ length ss)%nat ∧ (ok = true → kept = ss).
Proof.
  induction ss as [|s ss IH]; intros base k l st H; simpl; [done|].
  pose proof (legitimize_path_inv _ _ _ (sv_link s) (sv_seq s) _ H) as Hp.
  destruct (legitimize_path _ _ _ _) as [[ok p] st1]. destruct Hp as (Hi & Hn & He).
  destruct ok; cbn [negb].
  - specialize (He eq_refl) as ->. specialize (IH _ _ _ _ Hi).
    destruct (legitimize_saved _ _ _) as [[ok kept] st2]. destruct IH as (Hi2 & Hn2 & Hl & He).
    split_and!; [|congruence|simpl; lia|].
    + eapply inv_perm, Hi2. simpl. by rewrite Permutation_middle.
    + intros ->%He. by destruct s.
  - split_and!; [done|done|simpl; lia|done].
Qed.

Lemma legitimize_links_inv base k l st :
  rcu st = true → walk_inv base k l st →
  let '(ok, st') := legitimize_links E st in
  walk_inv base k ((sv_link <$> nd_stack (wk_nd st')) ++ l) st' ∧ rcu st' = true ∧
  nd_path (wk_nd st') = nd_path (wk_nd st) ∧ nd_seq (wk_nd st') = nd_seq (wk_nd st) ∧
  (ok = true → wk_nd st' = wk_nd st).
Proof.
  intros Hrcu H. unfold legitimize_links.
  pose proof (legitimize_saved_inv (rev (nd_stack (wk_nd st))) _ _ _ _ H) as Hs.
  destruct (legitimize_saved _ _ _) as [[ok kept] st1]. destruct Hs as (Hi & Hn & Hl & He).
  rewrite length_rev in Hl. pose proof Hi as [Hk [Hc Hb] Hg _].
  unfold rcu in *. rewrite <- Hn in Hrcu, Hl. unfold nd_depth in *.
  split_and!; cbn; try (by rewrite Hn || done).
  - eapply inv_move; [done| |done| |done].
    + split; unfold nd_depth; simpl; rewrite length_rev; [lia|]; destruct (nd_alloced _); lia.
    + intros q _. rewrite !held_rcu by done. cbn [app]. rewrite !occurrences_app. f_equal.
      apply occurrences_perm, fmap_Permutation. symmetry. apply Permutation_rev.
  - done.
  - intros ->%He. rewrite Hn, rev_involutive. by destruct (wk_nd st).
Qed.

(** A switch that ends outside rcu-walk, with everything held. *)
Lemma legitimize_root_inv base k l st :
  rcu st = true →
  walk_inv base k (nd_path (wk_nd st) :: (sv_link <$> nd_stack (wk_nd st)) ++ l) st →
  let '(ok, st') := legitimize_root E st in walk_inv base k l (on_nd leave_rcu st').
Proof.
  intros Hrcu H. unfold legitimize_root.
  destruct (negb (has_root (wk_nd st)) || nd_root_preset (wk_nd st)); [by apply inv_leave|].
  set (st1 := on_nd (set_root_grabbed true) st).
  pose proof H as H1.
  unfold legitimize_path. destruct (v_grab E st1 (nd_root (wk_nd st))); cbn [negb];
    pose proof H1 as [Hk [Hn Hb] Hg Hf].
  - apply (inv_get _ _ _ (nd_root (wk_nd st))) in H1.
    refine (inv_move base k _ l (λ _, leave_rcu (set_root (nd_root (wk_nd st))
      (set_root_grabbed true (wk_nd st)))) _ Hk _ _ _ H1); [by split|by rewrite leave_rcu_has|].
    intros q Hq. rewrite held_ref by apply leave_rcu_has. rewrite held_rcu by done.
    count_refs.
  - refine (inv_move base k _ l (λ _, leave_rcu (set_root null_path
      (set_root_grabbed true (wk_nd st)))) st Hk _ _ _ H1); [by split|by rewrite leave_rcu_has|].
    intros q Hq. rewrite held_ref by apply leave_rcu_has. rewrite held_rcu by done.
    count_refs.
Qed.

Lemma inv_leave_null base k l st :
  rcu st = true → walk_inv base k ((sv_link <$> nd_stack (wk_nd st)) ++ l) st →
  walk_inv base k l (on_nd (λ nd, leave_rcu (clear_path nd)) st).
Proof.
  intros Hr H. apply (inv_leave base k l (on_nd clear_path st) Hr). cbn.
  apply inv_null in H. by apply inv_rcu_move.
Qed.
Lemma inv_leave_cached base k l st :
  rcu st = true → walk_inv base k l st →
  walk_inv base k l (on_nd (λ nd, leave_rcu (clear_path (set_stack [] nd))) st).
Proof.
  intros Hr H. pose proof H as [Hk [Hn Hb] Hg _].
  apply (inv_leave base k l (on_nd (λ nd, clear_path (set_stack [] nd)) st) Hr). cbn.
  apply inv_null in H. eapply inv_move, H; [done| |done|].
  - split; unfold nd_depth in *; simpl; [|case_match]; unfold MAXSYMLINKS, EMBEDDED_LEVELS; lia.
  - intros q _. by rewrite !held_rcu.
Qed.

Lemma try_to_unlazy_inv base k l st :
  rcu st = true → walk_inv base k l st →
  let '(ok, st') := try_to_unlazy E st in walk_inv base k l st' ∧ rcu st' = false.
Proof.
  intros Hr H. unfold try_to_unlazy.
  destruct (nd_has LOOKUP_CACHED (wk_nd st)).
  { split; [by apply inv_leave_cached|apply leave_rcu_has]. }
  pose proof (legitimize_links_inv _ _ _ _ Hr H) as Hl.
  destruct (legitimize_links E st) as [ok st1]. destruct Hl as (Hi & Hr1 & _ & _ & _).
  destruct ok; cbn [negb]; [|split; [by apply inv_leave_null|apply leave_rcu_has]].
  pose proof (legitimize_path_inv _ _ _ (nd_path (wk_nd st1)) (nd_seq (wk_nd st1)) _ Hi) as Hp.
  destruct (legitimize_path _ _ _ _) as [[ok p] st2]. destruct Hp as (Hi2 & Hn2 & _).
  rewrite <- Hn2 in Hi2.
  assert (rcu st2 = true) as Hr2 by (unfold rcu in *; by rewrite Hn2).
  assert (walk_inv base k (nd_path (wk_nd (on_nd (set_path p) st2)) ::
    (sv_link <$> nd_stack (wk_nd (on_nd (set_path p) st2))) ++ l) (on_nd (set_path p) st2))
    as Hi3 by by apply inv_rcu_move.
  destruct ok; cbn [negb]; [|split; [by apply inv_leave|apply leave_rcu_has]].
  pose proof (legitimize_root_inv _ _ _ (on_nd (set_path p) st2) Hr2 Hi3) as Hroot.
  destruct (legitimize_root _ _) as [ok st3]. split; [done|apply leave_rcu_has].
Qed.

Lemma try_to_unlazy_next_inv base k l d st :
  rcu st = true → walk_inv base k l st →
  let '(ok, st') := try_to_unlazy_next E d st in walk_inv base k l st' ∧ rcu st' = false.
Proof.
  intros Hr H. unfold try_to_unlazy_next.
  destruct (nd_has LOOKUP_CACHED (wk_nd st)).
  { split; [by apply inv_leave_cached|apply leave_rcu_has]. }
  pose proof (legitimize_links_inv _ _ _ _ Hr H) as Hl.
  destruct (legitimize_links E st) as [ok st1]. destruct Hl as (Hi & Hr1 & _ & _ & _).
  destruct ok; cbn [negb]; [|split; [by apply inv_leave_null|apply leave_rcu_has]].
  destruct (v_grab E st1 _); cbn [negb]; [|split; [by apply inv_leave_null|apply leave_rcu_has]].
  apply (inv_get _ _ _ (nd_path (wk_nd st1))) in Hi.
  set (st2 := get_path (nd_path (wk_nd st1)) st1) in *.
  assert (rcu st2 = true) as Hr2 by done.
  destruct (v_grab_dentry E st2 d); cbn [negb];
    [|split; [by apply inv_leave|apply leave_rcu_has]].
  destruct (v_seq_retry E st2 d _); [split; [by apply inv_leave|apply leave_rcu_has]|].
  pose proof (legitimize_root_inv _ _ _ st2 Hr2 Hi) as Hroot.
  destruct (legitimize_root E st2) as [ok st3]. split; [done|apply leave_rcu_has].
Qed.

(** A successful switch changes only the mode and whether the root is held. *)
Definition unlazied (st st' : walk W) : Prop :=
  (∃ g, wk_nd st' = leave_rcu (set_root_grabbed g (wk_nd st))) ∧
  wk_maps st' = wk_maps st ∧ ts_table (wk_targets st') = ts_table (wk_targets st).

Lemma legitimize_path_ok p seq st :
  let '(ok, p', st') := legitimize_path E p seq st in
  (ok = true → p' = p) ∧ wk_nd st' = wk_nd st ∧ wk_maps st' = wk_maps st ∧
  ts_table (wk_targets st') = ts_table (wk_targets st).
Proof. unfold legitimize_path. by destruct (negb _). Qed.
Lemma legitimize_saved_ok ss : ∀ st,
  let '(ok, kept, st') := legitimize_saved E ss st in
  (ok = true → kept = ss) ∧ wk_nd st' = wk_nd st ∧ wk_maps st' = wk_maps st ∧
  ts_table (wk_targets st') = ts_table (wk_targets st).
Proof.
  induction ss as [|s ss IH]; intros st; simpl; [done|].
  pose proof (legitimize_path_ok (sv_link s) (sv_seq s) st) as Hp.
  destruct (legitimize_path _ _ _ _) as [[ok p] st1]. destruct Hp as (He & Hn & Hm & Ht).
  destruct ok; cbn [negb]; [|by split_and!].
  specialize (He eq_refl) as ->. specialize (IH st1).
  destruct (legitimize_saved _ _ _) as [[ok kept] st2]. destruct IH as (He & ? & ? & ?).
  split_and!; [|congruence..]. intros ->%He. by destruct s.
Qed.
Lemma legitimize_links_ok st :
  let '(ok, st') := legitimize_links E st in
  ok = true → wk_nd st' = wk_nd st ∧ wk_maps st' = wk_maps st ∧
    ts_table (wk_targets st') = ts_table (wk_targets st).
Proof.
  unfold legitimize_links. pose proof (legitimize_saved_ok (rev (nd_stack (wk_nd st))) st) as Hs.
  destruct (legitimize_saved _ _ _) as [[ok kept] st1]. destruct Hs as (He & Hn & ? & ?).
  intros ->%He. cbn. split_and!; [|done..]. rewrite Hn, rev_involutive. by destruct (wk_nd st).
Qed.
Lemma legitimize_root_ok st :
  let '(ok, st') := legitimize_root E st in
  ok = true → unlazied st (on_nd leave_rcu st').
Proof.
  unfold legitimize_root. destruct (_ || _).
  { intros _. split_and!; [|done..]. exists (nd_root_grabbed (wk_nd st)).
    cbn. by destruct (wk_nd st). }
  set (st1 := on_nd _ st).
  pose proof (legitimize_path_ok (nd_root (wk_nd st)) (nd_root_seq (wk_nd st)) st1) as Hp.
  destruct (legitimize_path _ _ _ _) as [[ok p] st2]. destruct Hp as (He & Hn & ? & ?).
  intros ->%He. split_and!; [|done..]. exists true. cbn. rewrite Hn. unfold st1. cbn [on_nd wk_nd]. by destruct (wk_nd st).
Qed.

Lemma try_to_unlazy_ok st :
  let '(ok, st') := try_to_unlazy E st in ok = true → unlazied st st'.
Proof.
  unfold try_to_unlazy. destruct (nd_has _ _); [done|].
  pose proof (legitimize_links_ok st) as Hl.
  destruct (legitimize_links E st) as [ok st1]. destruct ok; cbn [negb]; [|done].
  destruct (Hl eq_refl) as (Hn1 & Hm1 & Ht1).
  pose proof (legitimize_path_ok (nd_path (wk_nd st1)) (nd_seq (wk_nd st1)) st1) as Hp.
  destruct (legitimize_path _ _ _ _) as [[ok p] st2]. destruct Hp as (He & Hn2 & ? & ?).
  destruct ok; cbn [negb]; [|done]. specialize (He eq_refl) as ->.
  set (st3 := on_nd _ st2).
  assert (wk_nd st3 = wk_nd st) as Hn3.
  { cbn. rewrite Hn2, Hn1. by destruct (wk_nd st). }
  pose proof (legitimize_root_ok st3) as Hroot.
  destruct (legitimize_root E st3) as [ok st4]. intros Hok.
  destruct (Hroot Hok) as ([g Hg] & Hm & Ht). split_and!.
  - exists g. by rewrite Hg, Hn3.
  - rewrite Hm. cbn. congruence.
  - rewrite Ht. cbn. congruence.
Qed.

Lemma try_to_unlazy_next_ok d st :
  let '(ok, st') := try_to_unlazy_next E d st in ok = true → unlazied st st'.
Proof.
  unfold try_to_unlazy_next. destruct (nd_has _ _); [done|].
  pose proof (legitimize_links_ok st) as Hl.
  destruct (legitimize_links E st) as [ok st1]. destruct ok; cbn [negb]; [|done].
  destruct (Hl eq_refl) as (Hn1 & Hm1 & Ht1).
  destruct (negb _); [done|]. set (st2 := get_path _ st1).
  destruct (negb _); [done|]. destruct (v_seq_retry E _ _ _); [done|].
  pose proof (legitimize_root_ok st2) as Hroot.
  destruct (legitimize_root E st2) as [ok st3]. intros Hok.
  destruct (Hroot Hok) as ([g Hg] & Hm & Ht). split_and!.
  - exists g. rewrite Hg. change (wk_nd st2) with (wk_nd st1). by rewrite Hn1.
  - by rewrite Hm.
  - by rewrite Ht.
Qed.

(** ** The dentry of the component *)

Lemma lookup_fast_inv base k l st :
  walk_inv base k l st → walk_inv base k l (lookup_fast E st).2.
Proof.
  intros H. unfold lookup_fast. destruct (rcu st) eqn:Hr; [|repeat case_match; exact H].
  destruct (v_d_lookup_rcu E st) as [[d next]|].
  - apply (inv_core _ _ _ (set_next_seq next)) in H; [|done].
    set (st1 := on_nd (set_next_seq next) st) in *. assert (rcu st1 = true) as Hr1 by done.
    destruct (v_seq_retry E st1 _ _); [done|]. destruct (0 <? _); [done|].
    pose proof (try_to_unlazy_next_inv _ _ _ d st1 Hr1 H) as Hu.
    destruct (try_to_unlazy_next E d st1) as [ok st2]. destruct Hu as [Hu _].
    destruct ok; cbn [negb]; [|done]. repeat case_match; done.
  - pose proof (try_to_unlazy_inv _ _ _ st Hr H) as Hu.
    destruct (try_to_unlazy E st) as [ok st2]. by destruct Hu.
Qed.

(** ** The root *)

Lemma set_root_fs_inv base k l st :
  has_root (wk_nd st) = false →
  walk_inv base k l st → walk_inv base k l (set_root_fs E st).2.
Proof.
  intros Hg%negb_false_iff%path_equal_true H. unfold set_root_fs. destruct (scoped E _); [done|].
  destruct (rcu st) eqn:Hr; cbn.
  - by apply inv_rcu_move.
  - apply (inv_get _ _ _ (v_fs_root E)) in H. pose proof H as [Hk [? ?] ? _].
    eapply inv_move, H; [done|by split| |].
    + unfold rcu, nd_has in Hr. cbn. unfold nd_has. cbn. by rewrite Hr.
    + intros q Hq. rewrite !held_ref by done. cbn. rewrite Hg.
      destruct (nd_root_grabbed _); count_refs.
Qed.

Lemma nd_jump_root_inv base k l st :
  walk_inv base k l st → walk_inv base k l (nd_jump_root E st).2.
Proof.
  intros H. unfold nd_jump_root.
  destruct (nd_has LOOKUP_BENEATH _); [done|]. destruct (_ && _ && _); [done|].
  assert (walk_inv base k l
    (if has_root (wk_nd st) then (0, st) else set_root_fs E st).2) as H1.
  { destruct (has_root _) eqn:Hg; [done|by apply set_root_fs_inv]. }
  destruct (if has_root _ then _ else _) as [error st1]. cbn in H1.
  destruct (error =? 0); cbn [negb]; [|done].
  destruct (rcu st1) eqn:Hr.
  - set (st2 := on_nd _ st1). assert (walk_inv base k l st2) as H2 by by apply inv_rcu_move.
    destruct (v_seq_retry E _ _ _); [done|]. by apply inv_core.
  - by apply inv_jump, inv_ref_move.
Qed.

Lemma nd_jump_link_inv base k l p st :
  rcu st = false → walk_inv base k (p :: l) st → walk_inv base k l (nd_jump_link E p st).2.
Proof.
  intros Hr H. unfold nd_jump_link.
  destruct (nd_has _ _); [by apply inv_put|]. destruct (_ && _); [by apply inv_put|].
  destruct (scoped E _); [by apply inv_put|].
  by apply inv_jump, inv_ref_take.
Qed.

(** ** Following a symlink *)

Lemma put_link_inv base k l st : walk_inv base k l st → walk_inv base k l (put_link st).
Proof.
  intros H. unfold put_link. destruct (nd_stack (wk_nd st)) as [|s rest] eqn:Hs; [done|].
  pose proof H as [Hk [Hc Hb] Hg _]. unfold nd_depth in *. rewrite Hs in Hc, Hb. simpl in *.
  assert (∀ l', (∀ q, q ≠ null_path → occurrences q (held (set_stack rest (wk_nd st)) ++ l') =
    occurrences q (held (wk_nd st) ++ l)) → walk_inv base k l' (on_nd (set_stack rest) st)) as Hm.
  { intros l' Ho. apply (inv_move base k l); try done.
    split; unfold nd_depth; simpl; [lia|destruct (nd_alloced _); lia]. }
  change (rcu (on_nd _ st)) with (rcu st). destruct (rcu st) eqn:Hr.
  - apply Hm. intros q _. by rewrite !held_rcu.
  - apply inv_put, Hm. intros q Hq. rewrite !held_ref by done. cbn. rewrite Hs. count_refs.
Qed.

(** Room for one more link, as [reserve_stack] leaves it. *)
Definition room (nd : nameidata) : Prop :=
  nd_total_link_count nd ≤ MAXSYMLINKS ∧ nd_depth nd + 1 ≤ nd_total_link_count nd ∧
  nd_depth nd + 1 ≤ (if nd_alloced nd then MAXSYMLINKS else EMBEDDED_LEVELS).

Lemma push_room nd :
  stack_ok nd → ∀ nd' : nameidata,
  nd_stack nd' = nd_stack nd → nd_total_link_count nd' = nd_total_link_count nd + 1 →
  (MAXSYMLINKS <=? nd_total_link_count nd) = false →
  nd_alloced nd' = true ∨ (nd_alloced nd' = nd_alloced nd ∧
    (nd_alloced nd = false → nd_depth nd ≠ EMBEDDED_LEVELS)) →
  nd_total_link_count nd' = nd_total_link_count nd + 1 ∧ room nd'.
Proof.
  intros [Hc Hb] nd' Hs Ht Hm Ha. unfold room, nd_depth in *. rewrite Ht, Hs. unfold_bools.
  destruct Ha as [->|[-> Ha]]; [lia|]. destruct (nd_alloced nd); [lia|].
  specialize (Ha eq_refl). lia.
Qed.

(** The link is in hand: outside rcu-walk with a reference. *)
Lemma reserve_stack_inv base k l link st :
  walk_inv base k ((if rcu st then [] else [link]) ++ l) st →
  let '(error, link', st') := reserve_stack E link st in
  walk_inv base k ((if rcu st' then [] else [link']) ++ l) st' ∧
  (error = 0 → nd_total_link_count (wk_nd st') = nd_total_link_count (wk_nd st) + 1 ∧
     room (wk_nd st')).
Proof.
  intros H. unfold reserve_stack. pose proof H as [Hk [Hc Hb] Hg _].
  set (count := nd_total_link_count (wk_nd st)) in *.
  set (st1 := on_nd (set_total_link_count (count + 1)) st).
  assert (walk_inv base k ((if rcu st1 then [] else [link]) ++ l) st1) as H1.
  { eapply inv_move, H; [simpl; lia| |done|done]. split; simpl; [|done].
    change (nd_depth (wk_nd st) ≤ count + 1). lia. }
  pose proof (push_room (wk_nd st) (wi_stack _ _ _ _ H)) as Hroom. fold count in Hroom.
  destruct (MAXSYMLINKS <=? count) eqn:Hmax; [done|].
  change (nd_depth (wk_nd st1)) with (nd_depth (wk_nd st)).
  change (nd_alloced (wk_nd st1)) with (nd_alloced (wk_nd st)).
  destruct (nd_depth (wk_nd st) =? EMBEDDED_LEVELS) eqn:Hd; cbn [negb]; unfold_bools;
    [|split; [done|]; intros _; apply Hroom; auto].
  destruct (nd_alloced (wk_nd st)) eqn:Ha; [split; [done|]; intros _; apply Hroom; auto|].
  assert (∀ lk st', walk_inv base k lk st' → nd_depth (wk_nd st') = nd_depth (wk_nd st) →
    walk_inv base k lk (on_nd (set_alloced true) st')) as Halloc.
  { intros lk st' H' Hd'. pose proof H' as [? [? ?] ? _]. eapply inv_move, H'; try done.
    split; [done|]. cbn. change (nd_depth (wk_nd st') ≤ MAXSYMLINKS).
    unfold EMBEDDED_LEVELS, MAXSYMLINKS in *. lia. }
  unfold nd_alloc_stack. destruct (v_alloc_stack E st1).
  { split; [by apply Halloc|]. intros _. apply Hroom; auto. }
  destruct (rcu st1) eqn:Hr; [|by rewrite Hr].
  pose proof (legitimize_path_inv _ _ _ link (nd_next_seq (wk_nd st1)) _ H1) as Hp.
  destruct (legitimize_path _ _ _ _) as [[grabbed link'] st2]. destruct Hp as (Hi & Hn & _).
  assert (rcu st2 = true) as Hr2 by (unfold rcu; by rewrite Hn).
  pose proof (try_to_unlazy_inv _ _ _ _ Hr2 Hi) as Hu. pose proof (try_to_unlazy_ok st2) as Hok.
  destruct (try_to_unlazy E st2) as [ok st3]. destruct Hu as [Hi3 Hr3].
  destruct (negb ok || negb grabbed) eqn:Hb3; [by rewrite Hr3|].
  apply orb_false_iff in Hb3 as [->%negb_false_iff _].
  destruct (Hok eq_refl) as ([g Hg3] & _ & _).
  destruct (v_alloc_stack E st3); [|by rewrite Hr3].
  change (rcu (on_nd (set_alloced true) st3)) with (rcu st3). rewrite Hr3.
  split; [apply Halloc; [done|]|intros _; apply Hroom; try done; [|by cbn; rewrite Hg3, Hn|by left]];
    by cbn; rewrite Hg3, Hn.
Qed.

Lemma link_post_inv base k l (r : link_res * walk W) :
  link_post base k l r → walk_inv base k l r.2.
Proof. destruct r as [[] ?]; cbn; try done. intros [H _]. eapply inv_weaken, H. lia. Qed.

Lemma set_root_fs_count st :
  nd_total_link_count (wk_nd (set_root_fs E st).2) = nd_total_link_count (wk_nd st).
Proof. unfold set_root_fs. by repeat case_match. Qed.
Lemma nd_jump_root_count st :
  nd_total_link_count (wk_nd (nd_jump_root E st).2) = nd_total_link_count (wk_nd st).
Proof.
  unfold nd_jump_root. destruct (nd_has _ _); [done|]. destruct (_ && _ && _); [done|].
  assert (nd_total_link_count (wk_nd (if has_root (wk_nd st) then (0, st)
    else set_root_fs E st).2) = nd_total_link_count (wk_nd st)) as H.
  { destruct (has_root _); [done|apply set_root_fs_count]. }
  destruct (if has_root _ then _ else _) as [error st1]. cbn in H.
  destruct (negb _); [done|]. destruct (rcu st1); [|done].
  by destruct (v_seq_retry E _ _ _).
Qed.

(** A link that has been pushed: its body, counted. *)
Definition body_post base k l st (r : link_res * walk W) : Prop :=
  walk_inv base k l r.2 ∧
  ∀ body, r.1 = PPtr body →
    nd_total_link_count (wk_nd r.2) = nd_total_link_count (wk_nd st) ∧
    cstring body.

Lemma got_link_inv base k l st st' link b :
  walk_inv base k l st' → rcu st' = negb b →
  nd_total_link_count (wk_nd st') = nd_total_link_count (wk_nd st) →
  body_post base k l st
    match v_get_link E st' link b with
    | GetBody s => (PPtr s, st')
    | GetJump p => let '(e, st') := nd_jump_link E p (get_path p st') in
                   (if e =? 0 then PNull else PErr e, st')
    | GetErr e => (PErr e, st')
    end.
Proof.
  intros H Hb Hc. destruct (v_get_link E st' link b) as [body|p|e] eqn:Hg; [| |by split].
  - split; [done|]. intros ? [= <-]. split; [done|]. by eapply (env_get_link _ HE).
  - destruct b; [|by apply (env_jump _ HE) in Hg].
    apply (inv_get _ _ _ p), nd_jump_link_inv in H; [|done].
    destruct (nd_jump_link E p _) as [e st2]. split; [done|]. cbn. by destruct (e =? 0).
Qed.

Lemma read_link_inv base k l link st :
  walk_inv base k l st → body_post base k l st (read_link E link st).
Proof.
  intros H. unfold read_link.
  destruct (v_i_link E (p_dentry link)) as [body|] eqn:Hi.
  { split; [done|]. intros ? [= <-]. split; [done|]. by eapply (env_i_link _ HE). }
  destruct (rcu st) eqn:Hr; [|by apply got_link_inv].
  pose proof (got_link_inv base k l st st (p_dentry link) false H Hr eq_refl) as Hgot.
  destruct (v_get_link E st (p_dentry link) false) as [| |e] eqn:Hg; [done..|].
  destruct (e =? - ECHILD); [|done].
  pose proof (try_to_unlazy_inv _ _ _ _ Hr H) as Hu. pose proof (try_to_unlazy_ok st) as Hok.
  destruct (try_to_unlazy E st) as [[] st1]; destruct Hu as [H1 Hr1]; [|by split].
  destruct (Hok eq_refl) as ([g Hg1] & _). apply got_link_inv; [done|done|by rewrite Hg1].
Qed.

Lemma skip_slashes_length s : (length (skip_slashes s) ≤ length s)%nat.
Proof. induction s as [|c s IH]; simpl; [done|]. case_match; simpl in *; lia. Qed.
Lemma skip_slashes_nul s : 0 ∈ s → 0 ∈ skip_slashes s.
Proof.
  induction s as [|c s IH]; cbn [skip_slashes]; [done|].
  destruct (c =? chr "/") eqn:Hc; [|done].
  intros [<-|Hs]%elem_of_cons; [by vm_compute in Hc|auto].
Qed.
Lemma skip_slashes_cstring s : cstring s → cstring (skip_slashes s).
Proof.
  intros [Hn Hm]. split; [by apply skip_slashes_nul|].
  pose proof (skip_slashes_length s). lia.
Qed.

Lemma start_body_nonempty res st body st' :
  start_body E res st = (PPtr body, st') → at_nul body = false.
Proof.
  unfold start_body. intros H. destruct (at_slash res).
  - destruct (nd_jump_root E st) as [error st1]. destruct (negb (error =? 0)); [done|].
    destruct (at_nul (skip_slashes res)) eqn:Hn; cbn in H; simplify_eq. done.
  - destruct (at_nul res) eqn:Hn; cbn in H; simplify_eq. done.
Qed.

Lemma start_body_inv base k l res st :
  walk_inv base k l st → cstring res → body_post base k l st (start_body E res st).
Proof.
  intros H Hres. unfold start_body.
  assert (∀ res' st', walk_inv base k l st' → cstring res' →
    nd_total_link_count (wk_nd st') = nd_total_link_count (wk_nd st) →
    body_post base k l st
      (if negb (at_nul res') then (PPtr res', st') else (PNull, put_link st'))) as Hfin.
  { intros res' st' H' Hl Hc. destruct (at_nul res'); cbn [negb].
    - split; [by apply put_link_inv|done].
    - split; [done|]. by intros ? [= <-]. }
  destruct (at_slash res); [|by apply Hfin].
  pose proof (nd_jump_root_inv _ _ _ _ H) as Hj. pose proof (nd_jump_root_count st) as Hc.
  destruct (nd_jump_root E st) as [error st1]. cbn in Hj, Hc.
  destruct (negb _); [by split|]. apply Hfin; [done|by apply skip_slashes_cstring|done].
Qed.

(** Pushing the link hands its reference to the stack. *)
Lemma push_link_inv base k l link st :
  walk_inv base k ((if rcu st then [] else [link]) ++ l) st →
  room (wk_nd st) →
  walk_inv base k l
    (on_nd (λ nd, set_stack (mk_saved link (nd_next_seq nd) :: nd_stack nd) nd) st).
Proof.
  intros H (_ & Hc & Hb). pose proof H as [Hk _ Hg _]. eapply inv_move, H; [done| |done|].
  - split; unfold nd_depth in *; simpl; [lia|destruct (nd_alloced _); lia].
  - intros q Hq. destruct (rcu st) eqn:Hr; [by rewrite !held_rcu|].
    rewrite !held_ref by done. count_refs.
Qed.

Lemma follow_body_inv base k l link st :
  walk_inv base k l st → k + 1 ≤ nd_total_link_count (wk_nd st) →
  nd_total_link_count (wk_nd st) ≤ MAXSYMLINKS →
  link_post base k l
    (if negb (v_security_follow_link E (p_dentry link) (rcu st) =? 0)
     then (PErr (v_security_follow_link E (p_dentry link) (rcu st)), st) else
     match read_link E link st with
     | (PErr e, st) => (PErr e, st)
     | (PNull, st) => (PNull, put_link st)
     | (PPtr res, st) => start_body E res st
     end).
Proof.
  intros H Hk Hmax. destruct (negb _); [done|].
  pose proof (read_link_inv _ _ _ link _ H) as [H1 Hc1].
  destruct (read_link E link st) as [[|body|e] st1]; [by apply put_link_inv| |done].
  destruct (Hc1 body eq_refl) as [Hc1' Hlen]. cbn in H1, Hc1'.
  pose proof (start_body_inv _ _ _ body _ H1 Hlen) as [H2 Hc2].
  destruct (start_body E body st1) as [[|body'|e] st2] eqn:Hb; [done| |done].
  destruct (Hc2 body' eq_refl) as [Hc2' Hlen']. cbn in *.
  split_and!; [destruct H2; split; auto; lia|lia|done|by eapply start_body_nonempty].
Qed.

Lemma pick_link_inv base k l link inode flags st :
  walk_inv base k l st → link_post base k l (pick_link E link inode flags st).
Proof.
  intros H. unfold pick_link. destruct (_ && _); [done|].
  set (st0 := if rcu st then st else get_path link st).
  assert (walk_inv base k ((if rcu st0 then [] else [link]) ++ l) st0) as H0.
  { unfold st0. destruct (rcu st) eqn:Hr; [by rewrite Hr|].
    change (rcu (get_path link st)) with (rcu st). rewrite Hr. by apply inv_get. }
  clearbody st0.
  pose proof (reserve_stack_inv _ _ _ _ _ H0) as Hs.
  destruct (reserve_stack E link st0) as [[error link'] st1]. destruct Hs as [H1 Hroom].
  destruct (error =? 0) eqn:He; cbn [negb]; unfold_bools.
  2: { destruct (rcu st1); [done|by apply inv_put]. }
  destruct (Hroom He) as [Hc Hrm]. pose proof Hrm as [Hmax _].
  pose proof (push_link_inv _ _ _ _ _ H1 Hrm) as H2. set (st2 := on_nd _ st1) in *.
  assert (k + 1 ≤ nd_total_link_count (wk_nd st2)) as Hk.
  { pose proof (wi_count _ _ _ _ H0). change (k + 1 ≤ nd_total_link_count (wk_nd st1)). lia. }
  change (nd_total_link_count (wk_nd st1)) with (nd_total_link_count (wk_nd st2)) in Hmax.
  clearbody st2. destruct (negb _); [done|]. destruct (_ || _); [done|].
  destruct (v_atime E st2 link' && rcu st2) eqn:Ha; cbn [negb]; [|by apply follow_body_inv].
  apply andb_true_iff in Ha as [_ Hr2].
  pose proof (try_to_unlazy_inv _ _ _ _ Hr2 H2) as Hu. pose proof (try_to_unlazy_ok st2) as Hok.
  destruct (try_to_unlazy E st2) as [[] st3]; destruct Hu as [H3 _]; cbn [negb]; [|done].
  destruct (Hok eq_refl) as ([g Hg] & _). apply follow_body_inv; by rewrite ?Hg.
Qed.

(** ** Moving to a dentry *)

Lemma handle_mounts_inv base k l dentry st :
  walk_inv base k l st → walk_inv base k l (handle_mounts E dentry st).2.
Proof.
  intros H. unfold handle_mounts.
  assert (∀ st, walk_inv base k l st → walk_inv base k l
    (let '(ret, p, jumped, count) := v_traverse_mounts E st dentry in
     (ret, p, on_nd (λ nd, set_total_link_count count
                (if jumped : bool then set_jumped true nd else nd)) st)).2) as Ht.
  { intros st' H'. pose proof (env_count _ HE st' dentry) as Hc.
    destruct (v_traverse_mounts E st' dentry) as [[[ret p] jumped] count]. cbn in *.
    pose proof H' as [Hk [Hn Hb] Hg _]. eapply inv_move, H'.
    - by destruct jumped; simpl; lia.
    - split; destruct jumped; unfold nd_depth in *; simpl; lia || done.
    - by destruct jumped.
    - by destruct jumped. }
  destruct (rcu st) eqn:Hr; [|by apply Ht]. destruct (negb _); [done|].
  destruct (v_follow_mount_rcu E st dentry) as [[[p seq] jumped]|].
  { apply inv_core; [by destruct jumped|done]. }
  pose proof (try_to_unlazy_next_inv _ _ _ dentry _ Hr H) as Hu.
  destruct (try_to_unlazy_next E dentry st) as [ok st1]. destruct Hu as [H1 _].
  destruct (negb ok); [done|by apply Ht].
Qed.

Lemma arrive_inv base k l p i st :
  walk_inv base k l st → rcu st = true →
  walk_inv base k l (on_nd (λ nd, set_seq (nd_next_seq nd) (move_to p i nd)) st).
Proof. intros H Hr. by apply inv_rcu_move. Qed.

Lemma step_into_inv base k l flags dentry st :
  walk_inv base k l st → link_post base k l (step_into E flags dentry st).
Proof.
  intros H. unfold step_into. destruct (rcu st && _ && _) eqn:Hb.
  { apply andb_true_iff in Hb as [[Hr _]%andb_true_iff _].
    destruct (v_seq_retry E _ _ _); [done|]. case_bool_decide; [done|].
    cbn. by apply inv_rcu_move. }
  clear Hb. unfold step_into_slowpath.
  pose proof (handle_mounts_inv _ _ _ dentry _ H) as H1.
  destruct (handle_mounts E dentry st) as [[err p] st1]. cbn in H1.
  destruct (err <? 0); [done|]. destruct (_ || _ || _); [|by apply pick_link_inv].
  destruct (rcu st1) eqn:Hr.
  - destruct (v_seq_retry E _ _ _); [done|]. case_bool_decide; [done|]. by apply arrive_inv.
  - apply (inv_ref_move _ _ _ p (v_inode E (p_dentry p))) in H1; [|done].
    by apply (inv_core _ _ _ (λ nd, set_seq (nd_next_seq nd) nd)) in H1.
Qed.
End refs.
