(* ===== verification/PathSafe.v ===== *)
(** * The invariant through one component

    Dots, the policy's decision, the target and the redirect keep [walk_inv];
    an error they report is never 0. *)

From S2P Require Import Prelude Abi Kernel Targets Lookup LookupProps Walk WalkProps PathWalk.
From S2P Require Import PathInv PathRefs.

Section safe.
Context {W : Type} (E : vfs W) (HE : env_ok E).
Context (enabled : bool) (managed : path → bool) (buf : namei_ext_redirect).
Implicit Types (st : walk W) (l : list path) (base : path → Z).

(** ** Dots *)

Lemma follow_dotdot_rcu_inv base k l st :
  rcu st = true → walk_inv base k l st → walk_inv base k l (follow_dotdot_rcu E st).2.
Proof.
  intros Hr H. unfold follow_dotdot_rcu.
  assert (∀ st', walk_inv base k l st' → walk_inv base k l
    (if v_mount_retry E st' then (PErr (- ECHILD), st') else
     if nd_has LOOKUP_BENEATH (wk_nd st') then (PErr (- ECHILD), st') else
     (PPtr (p_dentry (nd_path (wk_nd st'))), on_nd (λ nd, set_next_seq (nd_seq nd) nd) st')).2)
    as Hroot by (intros st' H'; repeat case_match; try done; by apply inv_core).
  assert (∀ st', walk_inv base k l st' → walk_inv base k l
    (let old := p_dentry (nd_path (wk_nd st')) in
     let parent := v_parent E old in
     let st' := on_nd (set_next_seq (v_seq E parent)) st' in
     if v_seq_retry E st' old (nd_seq (wk_nd st')) then (PErr (- ECHILD), st') else
     if negb (v_path_connected E (p_mnt (nd_path (wk_nd st'))) parent)
     then (PErr (- ECHILD), st') else (PPtr parent, st')).2) as Hup.
  { intros st' H'. cbv zeta. repeat case_match; by apply inv_core. }
  destruct (path_equal _ _); [by apply Hroot|]. destruct (_ =? _); [|by apply Hup].
  destruct (v_choose_mountpoint_rcu E _ _) as [[p seq]|]; [|by apply Hroot].
  destruct (nd_has _ _); [done|].
  set (st1 := on_nd _ st). assert (walk_inv base k l st1) as H1 by by apply inv_rcu_move.
  destruct (v_mount_retry E st1); [done|by apply Hup].
Qed.

Lemma follow_dotdot_inv base k l st :
  rcu st = false → walk_inv base k l st → walk_inv base k l (follow_dotdot E st).2.
Proof.
  intros Hr H. unfold follow_dotdot.
  destruct (path_equal _ _); [by destruct (nd_has _ _)|].
  destruct (_ =? _); [|by destruct (negb _)].
  destruct (v_choose_mountpoint E _ _) as [p|]; [|by destruct (nd_has _ _)].
  apply (inv_ref_move _ _ _ p (v_inode E (p_dentry p))) in H; [|done].
  destruct (nd_has _ _); [done|]. by destruct (negb _).
Qed.

Lemma link_post_PNull base k l st : walk_inv base k l st → link_post base k l (PNull, st).
Proof. done. Qed.

Lemma handle_dots_inv base k l st :
  walk_inv base k l st → link_post base k l (handle_dots E st).
Proof.
  intros H. unfold handle_dots. destruct (negb _); [done|].
  assert (walk_inv base k l
    (if has_root (wk_nd st) then (0, st) else set_root_fs E st).2) as H1.
  { destruct (has_root _) eqn:Hg; [done|by apply set_root_fs_inv]. }
  destruct (if has_root _ then _ else _) as [error st1]. cbn in H1.
  destruct (negb _); [done|].
  assert (walk_inv base k l (if rcu st1 then follow_dotdot_rcu E st1
                             else follow_dotdot E st1).2) as H2.
  { destruct (rcu st1) eqn:Hr; [by apply follow_dotdot_rcu_inv|by apply follow_dotdot_inv]. }
  destruct (if rcu st1 then _ else _) as [[|d|e] st2]; cbn in H2; [done| |done].
  pose proof (step_into_inv E HE _ _ _ WALK_NOFOLLOW d _ H2) as H3.
  destruct (step_into E WALK_NOFOLLOW d st2) as [[|body|e] st3]; [|done..].
  destruct (_ && _); done.
Qed.

(** ** A component and its policy *)

(** The reference a redirect carries to the target. *)
Definition redirect_held (r : namei_ext_redirect) : list path :=
  if r_target_active r && negb (r_target_borrowed r) then [r_target r] else [].

Lemma fail_unlazied_inv base k l e st :
  walk_inv base k l st → link_post base k l (fail_unlazied (try_to_unlazy E) e st).
Proof.
  intros H. unfold fail_unlazied. destruct (nd_has LOOKUP_RCU (wk_nd st)) eqn:Hr; [|done].
  pose proof (try_to_unlazy_inv E _ _ _ _ Hr H) as Hu.
  destruct (try_to_unlazy E st) as [[] st1]; by destruct Hu.
Qed.

Lemma lookup_redirect bi fh fw (run : W → path → bpf_namei_ext_ctx → Z * W * bpf_namei_ext_ctx)
    p i q ev f w :
  let '(error, r, w') := namei_ext_lookup bi fh fw run p i q ev f buf w in
  r_target_active r = false ∧ r_target_borrowed r = false ∧
  (r_active r = true → r_target_pending r = false).
Proof.
  unfold namei_ext_lookup. destruct (run _ _ _) as [[action w'] c].
  repeat (case_match; simplify_eq/=; try done).
Qed.

Lemma resolve_inv base k l st r :
  r_target_active r = false → r_target_borrowed r = false →
  (r_active r = true → r_target_pending r = false) → walk_inv base k l st →
  let '(error, r', ts) :=
    if r_target_pending r
    then namei_ext_resolve_target (v_hash_min E) r (rcu st) (wk_targets st)
    else (0, r, wk_targets st) in
  walk_inv base k (redirect_held r' ++ l) (mk_walk (wk_nd st) ts (wk_maps st)) ∧
  (error ≠ 0 → redirect_held r' = []) ∧
  (r_target_active r' = true → r_target_borrowed r' = rcu st ∧ r_active r' = false).
Proof.
  intros Ht Hb Hp H. assert (redirect_held r = []) as Hh by (unfold redirect_held; by rewrite Ht).
  assert (walk_inv base k l (mk_walk (wk_nd st) (wk_targets st) (wk_maps st))) as H1
    by by destruct st.
  destruct (r_target_pending r) eqn:Hpe; [|rewrite Hh, Ht; by split_and!].
  unfold namei_ext_resolve_target. rewrite Hpe. cbn [negb].
  assert (r_active r = false) as Hna by (apply not_true_is_false; intros Ha%Hp; congruence).
  unfold namei_ext_get_target. destruct (r_target_id r =? 0); [rewrite Hh, Ht; by split_and!|].
  destruct (rcu st) eqn:Hr;
    (destruct (namei_ext_find_target_rcu _ _ _ _) as [t|]; [|rewrite Hh, Ht; by split_and!]);
    [by split_and!|].
  split_and!; [|done|done]. unfold redirect_held, set_target. cbn. rewrite Hb.
  exact (inv_get _ _ _ (tgt_path t) _ H1).
Qed.

Abbreviation consult := (consult_policy (v_backing_inode E) (v_full_name_hash E)
  (v_flags_word E) (v_run E) (v_hash_min E) (try_to_unlazy E)).

Lemma consult_inv base k l st :
  walk_inv base k l st →
  match consult buf st with
  | inl r => link_post base k l r
  | inr (r, st') =>
      walk_inv base k (redirect_held r ++ l) st' ∧
      (r_target_active r = true → r_target_borrowed r = rcu st')
  end.
Proof.
  intros H. unfold consult_policy.
  pose proof (lookup_redirect (v_backing_inode E) (v_full_name_hash E) (v_flags_word E) (v_run E)
    (nd_path (wk_nd st)) (nd_inode (wk_nd st)) (nd_last (wk_nd st)) BPF_NAMEI_EXT_LOOKUP
    (nd_flags (wk_nd st) ∖ {[LOOKUP_RCU]}) (wk_maps st)) as Hl.
  destruct (namei_ext_lookup _ _ _ _ _ _ _ _ _ _ _) as [[error r] w].
  destruct Hl as (Ht & Hb & Hp). set (st1 := mk_walk (wk_nd st) (wk_targets st) w).
  assert (walk_inv base k l st1) as H1 by by apply inv_targets.
  destruct (negb _); [by apply fail_unlazied_inv|].
  pose proof (resolve_inv _ _ _ _ _ Ht Hb Hp H1) as Hres.
  change (nd_has LOOKUP_RCU (wk_nd st)) with (rcu st1). cbn [wk_targets st1] in Hres |- *.
  destruct (if r_target_pending r then _ else _) as [[error' r'] ts].
  destruct Hres as (H2 & He & Hact). change (wk_maps st1) with w in H2.
  change (wk_nd st1) with (wk_nd st) in H2. set (st2 := mk_walk (wk_nd st) ts w) in *.
  destruct (error' =? 0) eqn:He'; cbn [negb]; unfold_bools.
  2: { rewrite He in H2 by done. by apply fail_unlazied_inv. }
  destruct (r_active r' && rcu st1) eqn:Ha.
  - apply andb_true_iff in Ha as [Ha Hr].
    assert (r_target_active r' = false) as Hta
      by (apply not_true_is_false; intros [_ ?]%Hact; congruence).
    unfold redirect_held in *. rewrite Hta in *. cbn in H2.
    pose proof (try_to_unlazy_inv E _ _ _ st2 Hr H2) as Hu.
    destruct (try_to_unlazy E st2) as [[] st3]; destruct Hu; cbn [negb]; [rewrite Hta; by split|done].
  - split; [done|]. intros [Hbr _]%Hact. done.
Qed.

Lemma apply_target_inv base k l r st :
  r_target_active r = true → r_target_borrowed r = rcu st →
  walk_inv base k (redirect_held r ++ l) st →
  let '(_, _, st') := namei_ext_apply_target (v_scoped E) (v_can_lookup E) (v_seq E) (v_inode E)
                        r st in
  walk_inv base k l st'.
Proof.
  intros Ha Hb H. unfold namei_ext_apply_target, redirect_held in *.
  rewrite Ha, Hb in *. cbn [negb andb] in *.
  assert (walk_inv base k l (if negb (rcu st) then put_path (r_target r) st else st)) as Hrel.
  { destruct (rcu st); [done|by apply inv_put]. }
  destruct (bool_decide _); [done|]. destruct (_ && _); [done|]. destruct (negb (v_can_lookup _ _)); [done|].
  unfold rcu in Hrel, H |- *. destruct (nd_has LOOKUP_RCU (wk_nd st)) eqn:Hr; cbn [negb andb] in *.
  - apply inv_jump. apply (inv_rcu_move _ _ _ (move_to (r_target r) _)); [done|done|].
    by apply inv_core.
  - by apply inv_jump, inv_ref_take.
Qed.

Lemma common_inv base k l flags st :
  walk_inv base k l st →
  link_post base k l
    (walk_component_common (lookup_fast E) (lookup_slow E) put_link (step_into E) flags st).
Proof.
  intros H. unfold walk_component_common.
  assert (∀ d st', walk_inv base k l st' → link_post base k l
    (step_into E flags d
       (if negb (nd_depth (wk_nd st') =? 0) && (Z.land flags WALK_MORE =? 0)
        then put_link st' else st'))) as Hstep.
  { intros d st' H'. apply step_into_inv; [done|]. destruct (_ && _); [by apply put_link_inv|done]. }
  pose proof (lookup_fast_inv E _ _ _ _ H) as H1.
  destruct (lookup_fast E st) as [[|d|e] st1]; cbn in H1; [|by apply Hstep|done].
  unfold lookup_slow. destruct (v_lookup_slow E st1) as [|d|e]; [by apply Hstep..|done].
Qed.

Lemma with_redirect_inv base k l r flags st :
  walk_inv base k l st →
  link_post base k l (with_redirect (v_op_hash E) (v_hash E) r
    (walk_component_common (lookup_fast E) (lookup_slow E) put_link (step_into E) flags) st).
Proof.
  intros H. unfold with_redirect, namei_ext_apply_redirect.
  destruct (negb (r_active r)); [by apply common_inv|].
  unfold namei_ext_hash_redirect. cbn [nd_path set_last nd_last].
  assert (∀ q, walk_inv base k l (on_nd (λ _, set_last q (wk_nd st)) st)) as H1
    by (intros q; by apply (inv_core _ _ _ (set_last q))).
  assert (∀ q, link_post base k l
    (let '(res, st') := walk_component_common (lookup_fast E) (lookup_slow E) put_link (step_into E)
       flags (on_nd (λ _, set_last q (wk_nd st)) st) in
     (res, on_nd (set_last (nd_last (wk_nd st))) st'))) as Hc.
  { intros q. pose proof (common_inv _ _ _ flags _ (H1 q)) as H2.
    destruct (walk_component_common _ _ _ _ _ _) as [[|body|e] st1]; cbn in *;
      [by apply inv_core| |by apply inv_core].
    destruct H2 as (? & ? & ? & ?). split_and!; [by apply inv_core|done..]. }
  destruct (v_op_hash E _); [destruct (v_hash E _ _) as [e q]|]; cbn [Z.ltb Z.compare];
    [|apply (Hc (mk_qstr (r_hash r) (r_len r) (r_name r)))].
  destruct (e <? 0); [|apply (Hc q)].
  cbn. apply (inv_core _ _ _ (set_last (nd_last (wk_nd st)))); [done|apply (H1 q)].
Qed.

Lemma walk_component_inv base k l flags st :
  walk_inv base k l st → link_post base k l (walk_component E enabled managed buf flags st).
Proof.
  intros H. unfold walk_component, Walk.walk_component. destruct (negb _).
  { apply handle_dots_inv. destruct (_ && _); [by apply put_link_inv|done]. }
  destruct (enabled && _); [|by apply common_inv].
  unfold walk_component_namei_ext. pose proof (consult_inv _ _ _ _ H) as Hc.
  destruct (consult buf st) as [r|[r st1]]; [done|]. destruct Hc as [H1 Hb].
  destruct (r_target_active r) eqn:Ha.
  - pose proof (apply_target_inv _ _ _ _ _ Ha (Hb eq_refl) H1) as H2.
    destruct (namei_ext_apply_target _ _ _ _ _ _) as [[error ?] st2]. by destruct (negb _).
  - unfold redirect_held in H1. rewrite Ha in H1. by apply with_redirect_inv.
Qed.

Lemma lookup_last_inv base k l st r :
  walk_inv base k l st → lookup_last E enabled managed buf st = Some r → link_post base k l r.
Proof.
  intros H. unfold lookup_last, Walk.lookup_last. fold (walk_component E enabled managed buf).
  destruct (bool_decide _); [|intros [= <-]; by apply walk_component_inv].
  destruct (trailing_slashes _) as [slash|]; [|done]. intros [= <-].
  apply walk_component_inv. destruct slash; [|done].
  apply inv_core; [|done]. apply core_flags, fl_add.
  by rewrite not_elem_of_union, !not_elem_of_singleton.
Qed.

Lemma may_lookup_inv base k l st :
  walk_inv base k l st → walk_inv base k l (may_lookup E st).2.
Proof.
  intros H. unfold may_lookup. destruct (_ =? 0); [done|]. destruct (rcu st) eqn:Hr; [|done].
  pose proof (try_to_unlazy_inv E _ _ _ _ Hr H) as Hu. cbn [negb].
  destruct (try_to_unlazy E st) as [ok st1]. destruct Hu. by repeat case_match.
Qed.

(** ** Errors are not 0 *)

Definition nonzero {A} (r : ptr_res A) : Prop := r ≠ PErr 0.

Lemma lookup_fast_nonzero st : nonzero (lookup_fast E st).1.
Proof.
  unfold nonzero, lookup_fast. repeat (case_match; simplify_eq/=; try done); unfold_bools; intros ?; simplify_eq.
Qed.

Lemma read_link_nonzero link st : nonzero (read_link E link st).1.
Proof.
  unfold nonzero, read_link.
  repeat (case_match; simplify_eq/=; try done); unfold_bools; intros ?; simplify_eq;
    try done; by eapply env_get_err.
Qed.
Lemma start_body_nonzero res st : nonzero (start_body E res st).1.
Proof. unfold nonzero, start_body. repeat (case_match; simplify_eq/=; try done); unfold_bools; congruence. Qed.
Lemma pick_link_nonzero link i flags st : nonzero (pick_link E link i flags st).1.
Proof.
  unfold nonzero, pick_link. destruct (_ && _); [done|].
  destruct (reserve_stack E _ _) as [[error link'] st1].
  destruct (error =? 0) eqn:He; cbn [negb]; [|unfold_bools; cbn; congruence].
  set (st2 := on_nd _ st1).
  set (e2 := if Z.land flags WALK_TRAILING =? 0 then 0 else may_follow_link E i (wk_nd st2)).
  destruct (e2 =? 0) eqn:He2; cbn [negb]; [|unfold_bools; cbn; congruence].
  destruct (nd_has LOOKUP_NO_SYMLINKS (wk_nd st2) || v_nosymfollow E (p_mnt link')); [done|].
  destruct (if _ && _ then _ else _) as [ok st3]. destruct ok; cbn [negb]; [|done].
  destruct (v_security_follow_link E (p_dentry link') (rcu st3) =? 0) eqn:He3; cbn [negb];
    [|unfold_bools; cbn; congruence].
  pose proof (read_link_nonzero link' st3) as Hr.
  destruct (read_link E link' st3) as [[|body|e] st4]; [done|apply start_body_nonzero|done].
Qed.
Lemma step_into_nonzero flags d st : nonzero (step_into E flags d st).1.
Proof.
  unfold step_into. destruct (_ && _ && _); [by repeat case_match|].
  unfold step_into_slowpath. destruct (handle_mounts E d st) as [[err p] st1].
  destruct (err <? 0) eqn:He; [unfold nonzero; cbn; unfold_bools; intros [= ->]; lia|].
  destruct (_ || _ || _); [by repeat case_match|apply pick_link_nonzero].
Qed.
Lemma set_root_fs_nonpos st : (set_root_fs E st).1 = 0 ∨ (set_root_fs E st).1 < 0.
Proof. unfold set_root_fs. repeat case_match; cbn; unfold ENOTRECOVERABLE; lia. Qed.
Lemma handle_dots_nonzero st : nonzero (handle_dots E st).1.
Proof.
  unfold nonzero, handle_dots. destruct (negb (bool_decide _)); [done|].
  destruct (if has_root _ then _ else _) as [error st1].
  destruct (error =? 0) eqn:He; cbn [negb]; [|unfold_bools; cbn; congruence].
  assert (nonzero (if rcu st1 then follow_dotdot_rcu E st1 else follow_dotdot E st1).1) as Hf.
  { unfold nonzero, follow_dotdot_rcu, follow_dotdot. by repeat case_match. }
  destruct (if rcu st1 then _ else _) as [[|d|e] st2]; [done| |intros [= ->]; by apply Hf].
  pose proof (step_into_nonzero WALK_NOFOLLOW d st2) as Hs.
  destruct (step_into E WALK_NOFOLLOW d st2) as [[|body|e] st3]; [|done..].
  by destruct (_ && _).
Qed.

Lemma common_nonzero flags st :
  nonzero (walk_component_common (lookup_fast E) (lookup_slow E) put_link (step_into E) flags st).1.
Proof.
  unfold walk_component_common. pose proof (lookup_fast_nonzero st) as Hf.
  destruct (lookup_fast E st) as [[|d|e] st1]; [|apply step_into_nonzero|].
  - pose proof (env_lookup_err _ HE st1) as Hl. unfold lookup_slow.
    destruct (v_lookup_slow E st1) as [|d|e] eqn:He; [apply step_into_nonzero..|].
    unfold nonzero. cbn. intros [= ->]. congruence.
  - unfold nonzero in *. cbn in *. intros [= ->]. congruence.
Qed.

Lemma consult_nonzero st r : consult buf st = inl r → nonzero r.1.
Proof.
  unfold consult_policy. destruct (namei_ext_lookup _ _ _ _ _ _ _ _ _ _ _) as [[error rd] w].
  assert (∀ e st', e ≠ 0 → nonzero (fail_unlazied (try_to_unlazy E) e st').1) as Hfail.
  { intros e st' He. unfold fail_unlazied, nonzero.
    destruct (nd_has _ _); [destruct (try_to_unlazy E st') as [[] ?]|]; cbn;
      intros [= ->]; done. }
  destruct (error =? 0) eqn:He; cbn [negb]; unfold_bools; [|intros [= <-]; by apply Hfail].
  destruct (if r_target_pending rd then _ else _) as [[error' rd'] ts].
  destruct (error' =? 0) eqn:He'; cbn [negb]; unfold_bools; [|intros [= <-]; by apply Hfail].
  destruct (_ && _); [|done]. destruct (try_to_unlazy E _) as [[] st1]; cbn; [done|].
  by intros [= <-].
Qed.

Lemma walk_component_nonzero flags st :
  nonzero (walk_component E enabled managed buf flags st).1.
Proof.
  unfold walk_component, Walk.walk_component. destruct (negb _); [apply handle_dots_nonzero|].
  destruct (enabled && _); [|apply common_nonzero]. unfold walk_component_namei_ext.
  destruct (consult buf st) as [r|[r st1]] eqn:Hc; [by eapply consult_nonzero|].
  destruct (r_target_active r).
  - destruct (namei_ext_apply_target _ _ _ _ _ _) as [[error ?] st2].
    destruct (error =? 0) eqn:He; [done|]. unfold_bools. unfold nonzero. cbn. congruence.
  - unfold with_redirect. destruct (namei_ext_apply_redirect _ _) as [[saved nd]|];
      [|apply common_nonzero].
    destruct (namei_ext_hash_redirect _ _ nd) as [e nd']. destruct (e <? 0) eqn:He.
    + unfold_bools. unfold nonzero. cbn. intros [= ->]. lia.
    + pose proof (common_nonzero flags (on_nd (λ _, nd') st1)) as Hn.
      by destruct (walk_component_common _ _ _ _ _ _) as [res st2].
Qed.
End safe.
