(* ===== verification/PathTotal.v ===== *)
(** * A lookup returns, with nothing leaked

    The invariant through whole pathnames and the retries of
    [filename_lookup], and the number of steps a lookup takes at most. *)

From S2P Require Import Prelude Abi Kernel Targets Lookup LookupProps Walk WalkProps PathWalk.
From S2P Require Import PathInv PathRefs PathSafe.

Section total.
Context {W : Type} (E : vfs W) (HE : env_ok E).
Context (enabled : bool) (managed : path → bool) (buf : namei_ext_redirect).
Implicit Types (st : walk W) (l : list path) (base : path → Z).

(** ** Names *)

Definition name_word (last : Z) (comp : list Z) : Z :=
  foldl (λ w c, u64 (Z.shiftl w 8 + c)) last comp.

Lemma hash_name_loop_spec s : ∀ last len, s ≠ [] → ∃ comp rest,
  hash_name_loop last len s = (name_word last comp, len + Z.of_nat (length comp), rest) ∧
  s = comp ++ rest ∧ comp ≠ [] ∧ at_nul rest || at_slash rest = true ∧
  Forall (λ c, c ≠ 0 ∧ c ≠ chr "/") (tail comp).
Proof.
  induction s as [|c s IH]; [done|]. intros last len _. cbn [hash_name_loop].
  destruct (at_nul s || at_slash s) eqn:Hs.
  - exists [c], s. by split_and!.
  - destruct (IH (u64 (Z.shiftl last 8 + c)) (len + 1)) as (comp & rest & -> & -> & Hc & Hr & Hf).
    { by intros ->. }
    exists (c :: comp), rest. split_and!; [f_equal; f_equal; simpl; lia|done..|].
    destruct comp as [|c' comp]; [done|]. simpl in *. apply orb_false_iff in Hs as [? ?].
    unfold_bools. by constructor.
Qed.

(** The component at the head of a string, and the string after it. *)
Lemma hash_name_spec name nd :
  0 ∈ name → at_nul name = false → ∃ comp rest,
  hash_name E name nd = (name_word 0 comp, rest,
    set_last (mk_qstr (v_full_name_hash E (p_dentry (nd_path nd)) comp)
                (Z.of_nat (length comp)) name) nd) ∧
  name = comp ++ rest ∧ comp ≠ [] ∧ at_nul rest || at_slash rest = true ∧
  Forall (λ c, c ≠ 0 ∧ c ≠ chr "/") (tail comp) ∧ 0 ∈ rest.
Proof.
  intros H0 Hn. unfold hash_name.
  destruct (hash_name_loop_spec name 0 0) as (comp & rest & -> & -> & Hc & Hr & Hf).
  { by intros ->. }
  rewrite Z.add_0_l, Nat2Z.id, take_app_length. exists comp, rest. split_and!; [done..|].
  apply elem_of_app in H0 as [H0|H0]; [|done]. destruct comp as [|c comp]; [done|].
  apply elem_of_cons in H0 as [<-|H0]; [done|]. rewrite Forall_forall in Hf.
  by destruct (Hf _ H0).
Qed.

Lemma classify_last w nd :
  q_len (nd_last (classify E w nd).2) = q_len (nd_last nd) ∧
  q_name (nd_last (classify E w nd).2) = q_name (nd_last nd).
Proof.
  unfold classify. destruct (_ =? _); [done|]. destruct (_ =? _); [done|].
  cbn. destruct (v_op_hash E _); [|done].
  pose proof (env_hash _ HE (p_dentry (nd_path nd)) (nd_last nd)) as Hh.
  by destruct (v_hash E _ _) as [err q].
Qed.
Lemma classify_core w nd : core (classify E w nd).2 = core nd.
Proof. unfold classify. repeat case_match; simplify_eq/=; done. Qed.

(** ** The loop over components *)

Definition pending (s : list Z) : Prop := 0 ∈ s ∧ at_nul s = false.

(** What is left to do: bytes to read, and links to follow. *)
Definition bytes_left (name : list Z) (names : list (list Z)) : Z :=
  Z.of_nat (length (name ++ concat names)).
Definition links_left (st : walk W) : Z :=
  Z.max 0 (MAXSYMLINKS - nd_total_link_count (wk_nd st)).
Definition work (name : list Z) (names : list (list Z)) (st : walk W) : Z :=
  bytes_left name names + PATH_MAX * links_left st.

(** After the name of the last component there is a byte to read. *)
Definition last_ok (nd : nameidata) : Prop :=
  nd_last_type nd = LAST_NORM → is_Some (trailing_slashes nd).

Lemma last_ok_intro nd comp rest :
  q_name (nd_last nd) = comp ++ rest → q_len (nd_last nd) = Z.of_nat (length comp) →
  rest ≠ [] → last_ok nd.
Proof.
  intros Hn Hl Hr _. unfold trailing_slashes. rewrite Hn, Hl, Nat2Z.id, lookup_app_r, Nat.sub_diag by done.
  by destruct rest.
Qed.

Lemma links_left_le st k : k ≤ nd_total_link_count (wk_nd st) →
  links_left st ≤ Z.max 0 (MAXSYMLINKS - k).
Proof. unfold links_left. lia. Qed.

Abbreviation loop := (link_path_walk_loop E enabled managed buf).

Definition loop_post base k l (w : Z) (fuel : nat) (r : option (Z * walk W)) : Prop :=
  match r with
  | None => Z.of_nat fuel ≤ w
  | Some (err, st) => walk_inv base k l st ∧ (err = 0 → last_ok (wk_nd st))
  end.

Lemma loop_post_weaken base k k' l w w' fuel fuel' r :
  k' ≤ k → loop_post base k l w fuel r → w - Z.of_nat fuel ≤ w' - Z.of_nat fuel' →
  loop_post base k' l w' fuel' r.
Proof.
  intros Hk Hr Hw. destruct r as [[err st]|]; cbn in *; [|lia].
  destruct Hr as [H Ho]. split; [by eapply inv_weaken|done].
Qed.

(** What the loop does with the result of a component. *)
Lemma loop_next base k l name names fuel r n :
  (∀ k name names st, pending name → Forall pending names → walk_inv base k l st →
     loop_post base k l (work name names st) fuel (loop fuel name names st)) →
  pending name → Forall pending names → bytes_left name names < n →
  link_post base k l r → nonzero r.1 →
  loop_post base k l (n + PATH_MAX * Z.max 0 (MAXSYMLINKS - k)) (S fuel)
    (let '(link, st) := r in
     match link with
     | PErr e => Some (e, st)
     | PPtr body => loop fuel body (name :: names) st
     | PNull =>
         if negb (v_can_lookup E (p_dentry (nd_path (wk_nd st)))) then
           let '(ok, st) := if rcu st then try_to_unlazy E st else (true, st) in
           Some (if negb ok then - ECHILD else - ENOTDIR, st)
         else loop fuel name names st
     end).
Proof.
  intros IH Hname Hnames Hn H Hnz. destruct r as [[|body|e] st]; cbn in H.
  - destruct (negb _).
    + destruct (rcu st) eqn:Hr; [|by split].
      pose proof (try_to_unlazy_inv E _ _ _ _ Hr H) as Hu.
      destruct (try_to_unlazy E st) as [[] st1]; by destruct Hu.
    + eapply loop_post_weaken; [done|by apply IH|]. unfold work.
      pose proof (links_left_le _ _ (wi_count _ _ _ _ H)). unfold PATH_MAX in *. lia.
  - destruct H as (H & Hmax & [Hb0 Hbl] & Hbn).
    eapply (loop_post_weaken _ (k + 1)); [lia|apply IH; [by split|by constructor|done]|].
    pose proof (wi_count _ _ _ _ H). unfold work, bytes_left, links_left, PATH_MAX in *. simpl.
    rewrite !length_app in *. lia.
  - split; [done|]. intros ->. by destruct Hnz.
Qed.

Lemma loop_inv base l fuel : ∀ k name names st,
  pending name → Forall pending names → walk_inv base k l st →
  loop_post base k l (work name names st) fuel (loop fuel name names st).
Proof.
  induction fuel as [|fuel IH]; intros k name names st Hname Hnames H.
  { cbn. unfold work, bytes_left, links_left, PATH_MAX. lia. }
  apply inv_count_weaken in H as [Hk H]. eapply loop_post_weaken; [exact Hk| |done]. clear k Hk.
  cbn [link_path_walk_loop]. pose proof (may_lookup_inv E _ _ _ _ H) as H1.
  destruct (may_lookup E st) as [err st1] eqn:Hml. cbn in H1.
  destruct (err =? 0) eqn:He; cbn [negb]; unfold_bools; [|by split].
  destruct (hash_name_spec name (wk_nd st1)) as (comp & rest & -> & Hsplit & Hc & Hr & _ & H0);
    [apply Hname..|].
  set (nd1 := set_last _ (wk_nd st1)). set (w := name_word 0 comp).
  pose proof (classify_last w nd1) as [Hlen Hq]. pose proof (classify_core w nd1) as Hcore.
  destruct (classify E w nd1) as [err2 nd2]. cbn in Hlen, Hq, Hcore.
  assert (walk_inv base (nd_total_link_count (wk_nd st)) l (on_nd (λ _, nd2) st1)) as H2.
  { apply (inv_core _ _ _ (λ _, nd2)); [by rewrite Hcore|done]. }
  destruct (err2 <? 0) eqn:He2; unfold_bools; [split; [done|lia]|].
  set (name' := if at_nul rest then rest else skip_slashes rest).
  assert (bytes_left name' [] < bytes_left name []) as Hless.
  { unfold bytes_left, name'. pose proof (skip_slashes_length rest). rewrite Hsplit. simpl.
    rewrite !app_nil_r, !length_app. destruct comp; [done|]. simpl. destruct (at_nul rest); lia. }
  assert (at_nul name' = false → pending name') as Hp'.
  { intros Hn. split; [|done]. unfold name'. destruct (at_nul rest); [done|by apply skip_slashes_nul]. }
  assert (∀ names', bytes_left name' names' < bytes_left name names') as Hless'.
  { intros names'. unfold bytes_left in *. simpl in Hless. rewrite !app_nil_r in Hless.
    rewrite !length_app. lia. }
  clearbody name'.
  destruct (at_nul name') eqn:Hn.
  - destruct names as [|name1 names1].
    + split; [apply inv_core; [|done]|].
      2: { intros _. apply (last_ok_intro _ comp rest); [by cbn; rewrite Hq|done|].
           intros ->. by apply not_elem_of_nil in H0. }
      apply (core_flags (set_dir _ _)), fl_drop. by rewrite not_elem_of_singleton.
    + apply Forall_cons in Hnames as [Hn1 Hns1]. apply loop_next; try done.
      * unfold bytes_left. simpl. rewrite !length_app. destruct name; [by destruct Hname|simpl; lia].
      * by apply walk_component_inv.
      * by apply walk_component_nonzero.
  - apply loop_next; auto.
    + by apply walk_component_inv.
    + by apply walk_component_nonzero.
Qed.

(** ** To the last component, and through it *)

Abbreviation lpw := (link_path_walk E enabled managed buf).

Lemma parent_flags_inv base k l st :
  walk_inv base k l st → walk_inv base k l
    (on_nd (λ nd, set_nd_flags (nd_flags nd ∪ {[LOOKUP_PARENT]}) (set_last_type LAST_ROOT nd)) st).
Proof.
  apply inv_core, (core_flags (set_last_type _ _)), fl_add. by rewrite not_elem_of_singleton.
Qed.

Lemma link_path_walk_inv base k l fuel body st :
  0 ∈ body → walk_inv base k l st →
  loop_post base k l (Z.of_nat (length body) + PATH_MAX * links_left st) fuel
    (lpw fuel (PPtr body) st).
Proof.
  intros H0 H%parent_flags_inv. cbn [link_path_walk]. set (st1 := on_nd _ st) in *.
  destruct (at_nul (skip_slashes body)) eqn:Hn; [split; [by apply inv_core|done]|].
  eapply loop_post_weaken; [done|apply loop_inv; [|done..]|].
  - split; [by apply skip_slashes_nul|done].
  - unfold work, bytes_left. simpl. rewrite app_nil_r.
    change (links_left st1) with (links_left st). pose proof (skip_slashes_length body). lia.
Qed.
Lemma link_path_walk_err base k l fuel e st :
  walk_inv base k l st → ∃ st', lpw fuel (PErr e) st = Some (e, st') ∧ walk_inv base k l st'.
Proof. intros H%parent_flags_inv. eexists. by split. Qed.

Lemma lookup_last_returns st :
  last_ok (wk_nd st) → is_Some (lookup_last E enabled managed buf st).
Proof.
  intros Hl. unfold lookup_last, Walk.lookup_last. case_bool_decide as Ht; [|done].
  by destruct (Hl Ht) as [slash ->].
Qed.
Lemma lookup_last_nonzero st r :
  lookup_last E enabled managed buf st = Some r → nonzero r.1.
Proof.
  unfold lookup_last, Walk.lookup_last. fold (walk_component E enabled managed buf).
  destruct (bool_decide _); [|intros [= <-]; by apply walk_component_nonzero].
  destruct (trailing_slashes _); [|done]. intros [= <-]. by apply walk_component_nonzero.
Qed.

(** A pathname or an error. *)
Definition walkable (s : link_res) : Prop :=
  match s with PPtr body => 0 ∈ body | PErr e => e ≠ 0 | PNull => False end.
Definition body_length (s : link_res) : Z :=
  match s with PPtr body => Z.of_nat (length body) | _ => 0 end.

(** Enough fuel, and enough rounds, for what may come. *)
Definition enough_fuel (s : link_res) (st : walk W) : Z :=
  Z.max (body_length s) PATH_MAX + PATH_MAX * links_left st.
Definition enough_rounds (s : link_res) (st : walk W) : Z :=
  links_left st + match s with PPtr _ => 1 | _ => 0 end.

Lemma lookup_loop_inv base l fuel links : ∀ k s st,
  walkable s → walk_inv base k l st →
  match lookup_loop E enabled managed buf links fuel s st with
  | Some (_, st') => walk_inv base k l st'
  | None => Z.of_nat links ≤ enough_rounds s st ∨ Z.of_nat fuel ≤ enough_fuel s st
  end.
Proof.
  induction links as [|links IH]; intros k s st Hs H.
  { left. unfold enough_rounds, links_left. destruct s; lia. }
  apply inv_count_weaken in H as [Hk H]. cbn [lookup_loop].
  destruct s as [|body|e]; [done| |].
  2: { destruct (link_path_walk_err _ _ _ fuel e _ H) as (st1 & -> & H1). simpl.
       destruct (e =? 0) eqn:He; unfold_bools; [done|]. by eapply inv_weaken. }
  pose proof (link_path_walk_inv _ _ _ fuel body _ Hs H) as H1.
  destruct (lpw fuel (PPtr body) st) as [[err st1]|]; cbn in H1 |- *.
  2: { right. unfold enough_fuel, body_length. lia. }
  destruct H1 as [H1 Hlast].
  destruct (err =? 0) eqn:He; cbn [negb]; unfold_bools; [|by eapply inv_weaken].
  destruct (lookup_last_returns st1 (Hlast He)) as [r Hr]. rewrite Hr. cbn.
  pose proof (lookup_last_inv E HE _ _ _ _ _ _ _ _ H1 Hr) as H2.
  pose proof (lookup_last_nonzero _ _ Hr) as Hnz.
  destruct r as [[|body'|e] st2]; cbn in H2.
  - by eapply inv_weaken.
  - destruct H2 as (H2 & Hmax & [Hn Hlen] & _).
    specialize (IH _ (PPtr body') st2 Hn H2). pose proof (wi_count _ _ _ _ H2) as Hc2.
    destruct (lookup_loop _ _ _ _ _ _ _ _) as [[err2 st3]|]; [eapply inv_weaken, IH; lia|].
    unfold enough_rounds, enough_fuel, body_length, links_left, PATH_MAX in *. lia.
  - specialize (IH _ (PErr e) st2 ltac:(intros ->; by apply Hnz) H2).
    pose proof (wi_count _ _ _ _ H2) as Hc2.
    destruct (lookup_loop _ _ _ _ _ _ _ _) as [[err2 st3]|]; [by eapply inv_weaken|].
    unfold enough_rounds, enough_fuel, body_length, links_left, PATH_MAX in *. lia.
Qed.

(** ** Starting and ending *)

(** Between two walks nothing is held. *)
Record idle (nd : nameidata) : Prop := {
  idle_path : nd_path nd = null_path;
  idle_stack : nd_stack nd = [];
  idle_root : nd_root_grabbed nd = false
}.

Lemma idle_inv st :
  idle (wk_nd st) → 0 ≤ nd_total_link_count (wk_nd st) →
  walk_inv (foreign_refs (wk_targets st)) (nd_total_link_count (wk_nd st)) [] st.
Proof.
  intros [Hp Hs Hg] Hc. split; [lia| |done|].
  - split; unfold nd_depth; rewrite Hs; simpl; [lia|].
    unfold MAXSYMLINKS, EMBEDDED_LEVELS. destruct (nd_alloced _); lia.
  - intros q Hq. unfold held. rewrite Hp, Hs, Hg. destruct (nd_has _ _); count_refs.
Qed.

(** From an idle walk, whatever the mode. *)
Lemma idle_move base k l f st :
  idle (wk_nd st) → idle (f (wk_nd st)) →
  nd_total_link_count (f (wk_nd st)) = nd_total_link_count (wk_nd st) →
  walk_inv base k l st → walk_inv base k l (on_nd f st).
Proof.
  intros Hi Hi' Hc H. pose proof H as [Hk [Hn Hb] _ _]. apply (inv_move base k l); [|..|done].
  - by rewrite Hc.
  - split; unfold nd_depth; rewrite (idle_stack _ Hi'); simpl.
    + rewrite Hc. unfold nd_depth in Hn. lia.
    + by destruct (nd_alloced (f (wk_nd st))).
  - intros _. apply Hi'.
  - intros q Hq. rewrite !occurrences_app. unfold held.
    rewrite (idle_path _ Hi), (idle_stack _ Hi), (idle_root _ Hi),
      (idle_path _ Hi'), (idle_stack _ Hi'), (idle_root _ Hi').
    destruct (nd_has _ _), (nd_has _ _); count_refs.
Qed.

Lemma start_at_inv base k l p st :
  nd_path (wk_nd st) = null_path →
  walk_inv base k l st → walk_inv base k l (start_at E p st).
Proof.
  intros Hp H. unfold start_at. destruct (rcu st) eqn:Hr.
  - by apply inv_rcu_move.
  - apply inv_adopt; [done|done|by apply inv_get].
Qed.

Lemma root_at_start_inv base k l s st :
  nd_root_grabbed (wk_nd st) = false →
  walk_inv base k l st → walk_inv base k l (root_at_start E s st).2.
Proof.
  intros Hg H. unfold root_at_start. destruct (negb _); [done|].
  change (rcu (on_nd _ st)) with (rcu st). destruct (rcu st) eqn:Hr; cbn.
  - by apply inv_rcu_move, inv_rcu_move.
  - apply (inv_get _ _ _ (nd_path (wk_nd st))) in H. pose proof H as [Hk [? ?] _ _].
    refine (inv_move base k _ l (λ nd, set_root_grabbed true (set_root (nd_path nd) nd))
      (get_path _ st) _ _ _ _ H); [done|by split| |].
    + unfold rcu, nd_has in Hr. cbn. unfold nd_has. cbn. by rewrite Hr.
    + intros q Hq. rewrite !held_ref by done. cbn. rewrite Hg. count_refs.
Qed.

Lemma start_at_grabbed p st :
  nd_root_grabbed (wk_nd (start_at E p st)) = nd_root_grabbed (wk_nd st).
Proof. unfold start_at. by destruct (rcu st). Qed.

Lemma path_init_inv base k l dfd name flags st :
  idle (wk_nd st) → walk_inv base k l st → walk_inv base k l (path_init E dfd name flags st).2.
Proof.
  intros Hi H. unfold path_init. destruct (_ && _); [done|].
  set (flags' := if at_nul name then _ else _).
  set (st1 := if fl LOOKUP_RCU flags' then st else _).
  assert (walk_inv base k l st1 ∧ idle (wk_nd st1)) as [H1 Hi1].
  { unfold st1. destruct (fl _ _); [done|]. split; [by apply inv_core|by destruct Hi]. }
  clearbody st1. set (st2 := on_nd _ st1).
  assert (walk_inv base k l st2 ∧ idle (wk_nd st2)) as [H2 Hi2].
  { split; [apply idle_move; try done|]; by destruct Hi1. }
  clearbody st2. clear H1 Hi1 st1 H Hi.
  assert (∀ p, walk_inv base k l (start_at E p st2)) as Hstart
    by (intros p; apply start_at_inv; [by apply Hi2|done]).
  destruct (nd_root_preset (wk_nd st2)).
  - destruct (_ && _); [done|]. cbn. destruct (rcu _); [by apply inv_core|done].
  - set (st3 := on_nd (set_root null_path) st2).
    assert (walk_inv base k l st3 ∧ idle (wk_nd st3)) as [H3 Hi3].
    { split; [apply idle_move; try done|]; by destruct Hi2. }
    clearbody st3. assert (∀ p s, walk_inv base k l (root_at_start E s (start_at E p st3)).2) as Hrel.
    { intros p s. apply root_at_start_inv; [rewrite start_at_grabbed; by destruct Hi3|].
      apply start_at_inv; [by destruct Hi3|done]. }
    destruct (at_slash name && _).
    + pose proof (nd_jump_root_inv E _ _ _ _ H3) as Hj.
      destruct (nd_jump_root E st3) as [error st4]. by destruct (negb _).
    + destruct (_ =? _); [apply Hrel|]. destruct (v_fd E dfd) as [p|]; [|done].
      destruct (_ && _); [done|]. destruct (_ && _); [done|apply Hrel].
Qed.

Lemma path_init_walkable dfd name flags st :
  0 ∈ name → walkable (path_init E dfd name flags st).1 ∧
  body_length (path_init E dfd name flags st).1 ≤ Z.of_nat (length name).
Proof.
  intros H0. assert (walkable (PPtr name) ∧ body_length (PPtr name) ≤ Z.of_nat (length name))
    as Hok by (by split).
  assert (∀ e, e ≠ 0 → walkable (PErr e) ∧ body_length (PErr e) ≤ Z.of_nat (length name)) as Herr
    by (intros e He; split; [done|cbn; lia]).
  unfold path_init. destruct (_ && _); [by apply Herr|].
  destruct (nd_root_preset _); [by destruct (_ && _); [apply Herr|]|].
  assert (∀ st', (root_at_start E name st').1 = PPtr name) as Hroot
    by (intros st'; unfold root_at_start; by repeat case_match).
  destruct (at_slash name && _).
  - destruct (nd_jump_root E _) as [error st4].
    destruct (error =? 0) eqn:He; cbn [negb]; unfold_bools; [done|by apply Herr].
  - destruct (_ =? _); [by rewrite Hroot|]. destruct (v_fd E dfd) as [p|]; [|by apply Herr].
    destruct (_ && _); [by apply Herr|]. destruct (_ && _); [by apply Herr|by rewrite Hroot].
Qed.

Lemma handle_lookup_down_inv base k l st :
  walk_inv base k l st →
  walk_inv base k l (handle_lookup_down E st).2.
Proof.
  intros H. unfold handle_lookup_down. set (st1 := on_nd _ st).
  assert (walk_inv base k l st1) as H1 by by apply inv_core.
  pose proof (step_into_inv E HE _ _ _ WALK_NOFOLLOW (p_dentry (nd_path (wk_nd st1))) _ H1) as Hs.
  apply link_post_inv in Hs. by destruct (step_into E _ _ st1) as [[] ?].
Qed.

Lemma complete_walk_inv base k l st :
  walk_inv base k l st →
  let '(err, st') := complete_walk E st in walk_inv base k l st' ∧ (err = 0 → rcu st' = false).
Proof.
  intros H. unfold complete_walk.
  assert (∀ st', walk_inv base k l st' → rcu st' = false → ∀ b : bool,
    let '(err, st'') :=
      if negb b then (- ECHILD, st') else
      let nd := wk_nd st' in
      if scoped E nd && negb (v_path_is_under E (nd_path nd) (nd_root nd)) then (- EXDEV, st') else
      if negb (nd_jumped nd) then (0, st') else
      match v_weak_revalidate E (p_dentry (nd_path (wk_nd st))) with
      | None => (0, st')
      | Some revalidate =>
          let status := revalidate (nd_flags nd) in
          (if 0 <? status then 0 else if status =? 0 then - ESTALE else status, st')
      end in
    walk_inv base k l st'' ∧ (err = 0 → rcu st'' = false)) as Hend.
  { intros st' H' Hr' b. destruct (negb b); [by split|]. cbv zeta. destruct (_ && _); [by split|].
    destruct (negb _); [by split|]. by destruct (v_weak_revalidate E _). }
  destruct (rcu st) eqn:Hr; [|by apply (Hend st H Hr true)].
  set (st1 := on_nd _ st). assert (rcu st1 = true ∧ walk_inv base k l st1) as [Hr1 H1].
  { assert (fl LOOKUP_RCU (nd_flags (wk_nd st) ∖ {[LOOKUP_CACHED]}) = nd_has LOOKUP_RCU (wk_nd st))
      as Hf by (apply fl_drop; by rewrite not_elem_of_singleton).
    set (F := nd_flags (wk_nd st) ∖ {[LOOKUP_CACHED]}) in *. unfold st1, on_nd.
    destruct (negb (nd_root_preset (wk_nd st)) && _);
      (split; [unfold rcu, nd_has in *; cbn; unfold F in *; congruence|]).
    - apply (inv_rcu_move _ _ _ (λ nd, set_nd_flags F (set_root null_path nd))); [done| |done].
      cbn. unfold nd_has in *. cbn. by rewrite Hf.
    - by apply (inv_core _ _ _ (set_nd_flags F)); [apply core_flags|]. }
  pose proof (try_to_unlazy_inv E _ _ _ _ Hr1 H1) as Hu.
  destruct (try_to_unlazy E st1) as [ok st2]. destruct Hu as [H2 Hr2]. by apply Hend.
Qed.

Lemma put_links_inv ss : ∀ base k l st,
  walk_inv base k ((sv_link <$> ss) ++ l) st → walk_inv base k l (put_links ss st).
Proof.
  induction ss as [|s ss IH]; intros base k l st H; simpl in *; [done|].
  by apply IH, inv_put.
Qed.
Lemma put_links_nd ss : ∀ st, wk_nd (put_links ss st) = wk_nd st.
Proof. induction ss as [|s ss IH]; intros st; simpl; [done|]. by rewrite IH. Qed.

Lemma put_links_on_nd ss : ∀ (f : nameidata → nameidata) st,
  put_links ss (on_nd f st) = on_nd f (put_links ss st).
Proof. induction ss as [|s ss IH]; intros f st; simpl; [done|]. by rewrite <- IH. Qed.
Lemma inv_on_nd_ext base k l f g st :
  f (wk_nd st) = g (wk_nd st) → walk_inv base k l (on_nd f st) → walk_inv base k l (on_nd g st).
Proof. unfold on_nd. by intros ->. Qed.

(** Everything the name data hold is given back. *)
Lemma terminate_walk_inv base k l st :
  walk_inv base k l st → walk_inv base k l (terminate_walk st) ∧ idle (wk_nd (terminate_walk st)).
Proof.
  intros H. unfold terminate_walk. set (nd := wk_nd st).
  pose proof H as [Hk [Hc Hb] Hg _]. unfold nd_depth in Hc, Hb. destruct (rcu st) eqn:Hr.
  - split; [|by split; cbn; auto].
    refine (inv_move base k l l (λ nd, clear_path (set_stack [] (leave_rcu nd))) st _ _ _ _ H).
    + done.
    + split; unfold nd_depth; cbn; [lia|by destruct (nd_alloced (wk_nd st))].
    + intros _. cbn. auto.
    + intros q Hq. rewrite (held_rcu (wk_nd st)) by done.
      rewrite held_ref by apply leave_rcu_has. cbn. rewrite Hg by done. count_refs.
  - set (st1 := put_links _ _).
    set (f := λ nd, clear_path (set_stack [] (if nd_root_grabbed nd then set_root_grabbed false nd else nd))).
    assert (walk_inv base k (held nd ++ l) (on_nd f st)) as H1.
    { refine (inv_move base k l _ f st _ _ _ _ H); unfold f.
      - by destruct (nd_root_grabbed _).
      - split; unfold nd_depth; destruct (nd_root_grabbed _); cbn; try lia;
          by destruct (nd_alloced (wk_nd st)).
      - by destruct (nd_root_grabbed _) eqn:Hgr; cbn.
      - intros q Hq. fold nd. rewrite (held_ref nd) by done.
        rewrite held_ref by (unfold rcu in Hr; destruct (nd_root_grabbed _); done).
        destruct (nd_root_grabbed nd) eqn:Hgr; cbn; rewrite ?Hgr; count_refs. }
    rewrite held_ref in H1 by done. cbn [app] in H1. apply inv_put in H1.
    rewrite <- app_assoc in H1.
    apply (inv_perm _ _ _ ((sv_link <$> rev (nd_stack nd)) ++
      (if nd_root_grabbed nd then [nd_root nd] else []) ++ l)) in H1;
      [|by apply Permutation_app_tail, fmap_Permutation, Permutation_rev].
    apply put_links_inv in H1. change (put_path (nd_path nd) (on_nd f st))
      with (on_nd f (put_path (nd_path nd) st)) in H1. rewrite put_links_on_nd in H1. fold st1 in H1.
    assert (wk_nd st1 = nd) as Hnd by (unfold st1; by rewrite put_links_nd).
    destruct (nd_root_grabbed nd) eqn:Hgr.
    + split; [|by split; cbn]. apply inv_put in H1.
      refine (inv_on_nd_ext _ _ _ f (λ nd, clear_path (set_stack [] (set_root_grabbed false nd)))
        (put_path (nd_root nd) st1) _ H1). cbn. unfold f. by rewrite Hnd, Hgr.
    + split; [|split; cbn; by rewrite ?Hnd].
      eapply inv_on_nd_ext, H1. unfold f. by rewrite Hnd, Hgr.
Qed.

Lemma finish_lookupat_inv base k err st :
  walk_inv base k [] st →
  let '(err, p, st') := finish_lookupat E err st in
  walk_inv base k (if err =? 0 then [p] else []) st' ∧ idle (wk_nd st').
Proof.
  intros H. unfold finish_lookupat.
  assert (let '(err', st') := if (err =? 0) && nd_has LOOKUP_MOUNTPOINT (wk_nd st) then
      let '(err, st) := handle_lookup_down E st in (err, on_nd (set_jumped false) st)
    else (err, st) in walk_inv base k [] st') as H1.
  { destruct (_ && _); [|done]. pose proof (handle_lookup_down_inv _ _ _ _ H) as Hd.
    destruct (handle_lookup_down E st) as [e st1]. by apply inv_core. }
  destruct (if (err =? 0) && _ then _ else _) as [err1 st1].
  assert (let '(err', st') := if err1 =? 0 then complete_walk E st1 else (err1, st1) in
    walk_inv base k [] st' ∧ (err' = 0 → rcu st' = false)) as H2.
  { destruct (err1 =? 0) eqn:He; [by apply complete_walk_inv|]. unfold_bools. by split. }
  destruct (if err1 =? 0 then _ else _) as [err2 st2]. destruct H2 as [H2 Hr2].
  set (err3 := if _ && _ then - ENOTDIR else err2).
  assert (err3 = 0 → err2 = 0) as He3 by (unfold err3; by destruct (_ && _)).
  destruct (err3 =? 0) eqn:He; rewrite He; unfold_bools.
  - apply terminate_walk_inv, inv_release; auto.
  - by apply terminate_walk_inv.
Qed.

(** One attempt, in one mode. *)
Lemma path_lookupat_inv base k links fuel dfd name flags st :
  0 ∈ name → idle (wk_nd st) → walk_inv base k [] st →
  match path_lookupat E enabled managed buf links fuel dfd name flags st with
  | Some (err, p, st') =>
      walk_inv base k (if err =? 0 then [p] else []) st' ∧ idle (wk_nd st')
  | None =>
      Z.of_nat links ≤ Z.max 0 (MAXSYMLINKS - k) + 1 ∨
      Z.of_nat fuel ≤ Z.max (Z.of_nat (length name)) PATH_MAX
                      + PATH_MAX * Z.max 0 (MAXSYMLINKS - k)
  end.
Proof.
  intros H0 Hi H. unfold path_lookupat.
  pose proof (path_init_inv _ _ _ dfd name flags _ Hi H) as H1.
  pose proof (path_init_walkable dfd name flags st H0) as [Hs Hl].
  destruct (path_init E dfd name flags st) as [s st1]. cbn in H1, Hs, Hl.
  assert (let '(s', st') := match s with
    | PPtr _ => if fl LOOKUP_DOWN flags then
                  let '(err, st) := handle_lookup_down E st1 in
                  if err <? 0 then (PErr err, st) else (s, st)
                else (s, st1)
    | _ => (s, st1) end in
    walkable s' ∧ body_length s' ≤ Z.of_nat (length name) ∧ walk_inv base k [] st') as H2.
  { destruct s as [|body|e]; [done| |by split_and!]. destruct (fl _ _); [|by split_and!].
    pose proof (handle_lookup_down_inv _ _ _ _ H1) as Hd.
    destruct (handle_lookup_down E st1) as [e st2]. cbn in Hd.
    destruct (e <? 0) eqn:He; unfold_bools; split_and!; try done; cbn; lia. }
  destruct (match s with PPtr _ => _ | _ => _ end) as [s' st2]. destruct H2 as (Hs2 & Hl2 & H2).
  pose proof (lookup_loop_inv base [] fuel links _ _ _ Hs2 H2) as H3.
  destruct (lookup_loop _ _ _ _ _ _ _ _) as [[err st3]|]; cbn.
  - by apply finish_lookupat_inv.
  - pose proof (links_left_le _ _ (wi_count _ _ _ _ H2)).
    unfold enough_rounds, enough_fuel, PATH_MAX in *. destruct s'; lia.
Qed.

Lemma set_nameidata_idle nested root nd : idle (set_nameidata nested root nd).
Proof. by destruct root. Qed.

Lemma filename_lookup_inv links fuel nested dfd name flags root st :
  0 ∈ name → 0 ≤ nested →
  let base := foreign_refs (wk_targets st) in
  match filename_lookup E enabled managed buf links fuel nested dfd name flags root st with
  | Some (err, p, st') =>
      walk_inv base nested (if err =? 0 then [p] else []) st' ∧ idle (wk_nd st')
  | None =>
      Z.of_nat links ≤ MAXSYMLINKS + 1 ∨
      Z.of_nat fuel ≤ Z.max (Z.of_nat (length name)) PATH_MAX + PATH_MAX * MAXSYMLINKS
  end.
Proof.
  intros H0 Hn base. unfold filename_lookup. set (st0 := on_nd _ st).
  assert (idle (wk_nd st0)) as Hi0 by apply set_nameidata_idle.
  assert (nd_total_link_count (wk_nd st0) = nested) as Hc0 by by destruct root.
  pose proof (idle_inv st0 Hi0) as H. rewrite Hc0 in H. specialize (H Hn).
  change (foreign_refs (wk_targets st0)) with base in H.
  pose proof (λ flags st' Hi H, path_lookupat_inv base nested links fuel dfd name flags st' H0 Hi H)
    as Hat.
  assert (Z.max 0 (MAXSYMLINKS - nested) ≤ MAXSYMLINKS) as Hmax by (unfold MAXSYMLINKS; lia).
  assert (Z.of_nat links ≤ Z.max 0 (MAXSYMLINKS - nested) + 1 ∨
    Z.of_nat fuel ≤ Z.max (Z.of_nat (length name)) PATH_MAX
      + PATH_MAX * Z.max 0 (MAXSYMLINKS - nested) →
    Z.of_nat links ≤ MAXSYMLINKS + 1 ∨
    Z.of_nat fuel ≤ Z.max (Z.of_nat (length name)) PATH_MAX + PATH_MAX * MAXSYMLINKS) as Hbound.
  { unfold PATH_MAX in *. lia. }
  clearbody st0. clear Hc0 Hmax.
  pose proof (Hat (flags ∪ {[LOOKUP_RCU]}) st0 Hi0 H) as H1.
  destruct (path_lookupat _ _ _ _ _ _ _ _ _ st0) as [[[err1 p1] st1]|]; cbn; [|auto].
  destruct H1 as [H1 Hi1].
  assert (match (if err1 =? - ECHILD
      then path_lookupat E enabled managed buf links fuel dfd name flags st1
      else Some (err1, p1, st1)) with
    | Some (err, p, st') => walk_inv base nested (if err =? 0 then [p] else []) st' ∧ idle (wk_nd st')
    | None => Z.of_nat links ≤ Z.max 0 (MAXSYMLINKS - nested) + 1 ∨
      Z.of_nat fuel ≤ Z.max (Z.of_nat (length name)) PATH_MAX
      + PATH_MAX * Z.max 0 (MAXSYMLINKS - nested) end) as H2.
  { destruct (err1 =? - ECHILD) eqn:He; [|done]. unfold_bools. subst err1. by apply Hat. }
  destruct (if err1 =? - ECHILD then _ else _) as [[[err2 p2] st2]|]; cbn; [|auto].
  destruct H2 as [H2 Hi2]. destruct (err2 =? - ESTALE) eqn:He; [|done]. unfold_bools. subst err2.
  pose proof (Hat (flags ∪ {[LOOKUP_REVAL]}) st2 Hi2 H2) as H3.
  destruct (path_lookupat _ _ _ _ _ _ _ _ _ st2) as [[[err3 p3] st3]|]; [done|auto].
Qed.

(** C10: A lookup of a pathname balances its references, whatever the policies
    decide and wherever it fails: when it succeeds the caller holds exactly one
    reference more, on the path it found, and when it fails nothing, in rcu-walk
    and in ref-walk, through retries, symlinks, dots, mounts, redirects and
    selected targets. *)
Theorem lookup_refs_balanced links fuel nested dfd name flags root st err p st' :
  0 ∈ name → 0 ≤ nested →
  filename_lookup E enabled managed buf links fuel nested dfd name flags root st
    = Some (err, p, st') →
  ∀ q, q ≠ null_path →
  foreign_refs (wk_targets st') q =
    foreign_refs (wk_targets st) q + (if (err =? 0) && bool_decide (q = p) then 1 else 0).
Proof.
  intros H0 Hn Hl q Hq.
  pose proof (filename_lookup_inv links fuel nested dfd name flags root st H0 Hn) as H.
  rewrite Hl in H. destruct H as [[_ _ _ Hf] [Hp Hs Hg]]. rewrite Hf by done.
  unfold held. rewrite Hp, Hs, Hg.
  destruct (err =? 0), (nd_has _ _); cbn; autorewrite with namei_rw;
    repeat case_decide; repeat case_bool_decide; try done; lia.
Qed.

(** C13: A lookup returns: 42 rounds of the outer loop and 4096 steps of the
    inner one for each of the 40 links it may follow, besides those of the
    pathname, are enough, whatever the policies, the file system and the
    concurrent changes it notices. *)
Theorem lookup_returns links fuel nested dfd name flags root st :
  0 ∈ name → 0 ≤ nested →
  MAXSYMLINKS + 1 < Z.of_nat links →
  Z.max (Z.of_nat (length name)) PATH_MAX + PATH_MAX * MAXSYMLINKS < Z.of_nat fuel →
  is_Some (filename_lookup E enabled managed buf links fuel nested dfd name flags root st).
Proof.
  intros H0 Hn Hlinks Hfuel.
  pose proof (filename_lookup_inv links fuel nested dfd name flags root st H0 Hn) as H.
  revert H. destruct (filename_lookup _ _ _ _ _ _ _ _ _ _ _ _); [done|]. intros [?|?]; lia.
Qed.

(** C14: The stack of symlinks is never written outside its memory: a component,
    and a walk over any number of them, started with a stack that fits the two
    embedded entries or the forty allocated ones leave one that does. *)
Theorem link_stack_in_bounds flags fuel s st :
  stack_ok (wk_nd st) → (rcu st = true → nd_root_grabbed (wk_nd st) = false) → walkable s →
  stack_ok (wk_nd (walk_component E enabled managed buf flags st).2) ∧
  ∀ err st', lpw fuel s st = Some (err, st') → stack_ok (wk_nd st').
Proof.
  intros Hs Hg Hw.
  set (base := λ q, foreign_refs (wk_targets st) q - occurrences q (held (wk_nd st) ++ [])).
  assert (walk_inv base (nd_total_link_count (wk_nd st)) [] st) as H.
  { split; [done..|]. intros q _. unfold base. lia. }
  split.
  - by apply (walk_component_inv E HE enabled managed buf _ _ _ flags), link_post_inv in H as [].
  - intros err st' Hl. destruct s as [|body|e]; [done| |].
    + pose proof (link_path_walk_inv _ _ _ fuel body _ Hw H) as Hp. rewrite Hl in Hp.
      by destruct Hp as [[] _].
    + destruct (link_path_walk_err _ _ _ fuel e _ H) as (st1 & He & []).
      rewrite Hl in He. by simplify_eq.
Qed.
End total.
