(* ===== verification/PathOpenSafe.v ===== *)
(** * What an open holds

    The invariant of a walk through the last component of an open, the file that
    may be opened under the directory's lock, and the checks after it. *)

From S2P Require Import Prelude Abi Kernel Targets Lookup LookupProps Walk WalkProps PathWalk.
From S2P Require Import PathOpen PathInv PathRefs PathSafe PathTotal.

(** The reference of an opened file. *)
Definition file_held (f : file) : list path := if f_opened f then [f_path f] else [].

(** What the open needs of its environment: an error is not 0. *)
Record open_ok {W} (V : vopen W) : Prop := {
  ov_alloc : ∀ st, o_d_alloc_parallel V st ≠ inl 0;
  ov_lookup : ∀ st d, (o_fs_lookup V st d).1 ≠ PErr 0
}.

(** After the last component: an open file, or not; a symlink is followed
    without one. *)
Definition open_post {W} (base : path → Z) (k : Z) (l : list path)
  (r : link_res * file * walk W) : Prop :=
  let '(res, f, st) := r in
  link_post base k (file_held f ++ l) (res, st) ∧
  (∀ body, res = PPtr body → f_opened f = false).

Section safe.
Context {W : Type} (E : vfs W) (HE : env_ok E) (V : vopen W).
Context (enabled : bool) (managed : path → bool) (buf : namei_ext_redirect).
Implicit Types (st : walk W) (l : list path) (base : path → Z) (f : file).

Lemma file_held_closed f : f_opened f = false → file_held f = [].
Proof. unfold file_held. by intros ->. Qed.

(** A call of the file system changes neither what is held nor the name data. *)
Lemma inv_maps base k l w st : walk_inv base k l st → walk_inv base k l (with_maps w st).
Proof. by apply inv_targets. Qed.

Lemma open_post_closed base k l f (r : link_res * walk W) :
  f_opened f = false → link_post base k l r →
  open_post base k l (let '(res, st) := r in (res, f, st)).
Proof. destruct r. cbn. intros Hf H. by rewrite file_held_closed. Qed.

(** ** Under the directory's lock *)

(** The state that the calls under the lock leave: the file has its reference. *)
Definition locked base k l st (r : dentry_res * bool * file * walk W) : Prop :=
  let '(res, delegated, f, st') := r in
  walk_inv base k (file_held f ++ l) st' ∧ wk_nd st' = wk_nd st ∧
  (delegated = true → f_opened f = false).
#[local] Arguments locked : simpl never.

Lemma open_dentry_inv base k l tries : ∀ d st r st',
  walk_inv base k l st → open_dentry E V tries d st = Some (r, st') →
  walk_inv base k l st' ∧ wk_nd st' = wk_nd st.
Proof.
  induction tries as [|tries IH]; [done|]. intros d st r st' H Ho. cbn [open_dentry] in Ho.
  destruct (match d with Some _ => _ | None => _ end) as [e|d']; [by simplify_eq|].
  repeat (case_match; simplify_eq/=; [done|]).
  by apply IH in Ho; [|apply inv_maps].
Qed.

Lemma atomic_open_inv base k l d flag f st :
  walk_inv base k l st →
  let '(_, f', st') := atomic_open V d flag f st in
  walk_inv base k (file_held f' ++ l) st' ∧ wk_nd st' = wk_nd st.
Proof.
  intros H. unfold atomic_open. set (r := o_atomic_open V st d _).
  set (p := mk_path _ _). cbn [f_opened].
  assert (∀ c, walk_inv base k (file_held (mk_file (fo_opened r) c p) ++ l)
    (if fo_opened r then get_path p (with_maps (fo_maps r) st) else with_maps (fo_maps r) st) ∧
    wk_nd (if fo_opened r then get_path p (with_maps (fo_maps r) st)
           else with_maps (fo_maps r) st) = wk_nd st) as Hf.
  { intros c. unfold file_held. cbn. destruct (fo_opened r); split; try done.
    - by apply inv_get, inv_maps.
    - by apply inv_maps. }
  destruct (negb _); [apply Hf|]. destruct (fo_opened r); [apply Hf|].
  destruct (_ =? DENTRY_NOT_SET); apply Hf.
Qed.

Lemma lookup_create_inv base k l d flag ce f st :
  f_opened f = false → walk_inv base k l st → locked base k l st (lookup_create V d flag ce f st).
Proof.
  intros Hf H. unfold lookup_create.
  assert (∀ f' st' r b, f_opened f' = false → walk_inv base k l st' → wk_nd st' = wk_nd st →
    locked base k l st (r, b, f', st')) as Hdone.
  { intros f' st' r b Hf' H' Hn. unfold locked. by rewrite file_held_closed. }
  destruct (o_in_lookup V st d).
  2: { repeat (case_match; simplify_eq/=; try by apply Hdone); (apply Hdone; [done|by apply inv_maps|done]). }
  destruct (o_fs_lookup V st d) as [res w]. set (st1 := with_maps w st).
  assert (walk_inv base k l st1 ∧ wk_nd st1 = wk_nd st) as [H1 Hn1] by by split; [apply inv_maps|].
  clearbody st1.
  repeat (case_match; simplify_eq/=; try by apply Hdone); (apply Hdone; [done|by apply inv_maps|done]).
Qed.

Lemma lookup_open_inv base k l tries op b f st r :
  f_opened f = false → walk_inv base k l st →
  lookup_open E V tries op b f st = Some r → locked base k l st r.
Proof.
  intros Hf H. unfold lookup_open. destruct (o_dead_dir V st).
  { intros [= <-]. unfold locked. by rewrite file_held_closed. }
  destruct (open_dentry E V tries _ st) as [[res st1]|] eqn:Ho; [|done]. cbn.
  apply (open_dentry_inv base k l) in Ho as [H1 Hn]; [|done].
  assert (f_opened (set_created false f) = false) as Hf1 by done.
  destruct res as [e|d]; [intros [= <-]; by unfold locked; rewrite file_held_closed|].
  destruct (negb _); [intros [= <-]; by unfold locked; rewrite file_held_closed|].
  destruct (create_flags V op b d st1) as [flag ce]. destruct (o_has_atomic_open V _).
  - set (flag' := if nd_has _ _ then _ else _).
    pose proof (atomic_open_inv base k l d flag' (set_created false f) st1 H1) as Ha.
    destruct (atomic_open V d flag' _ st1) as [[r1 f1] st2]. intros [= <-].
    destruct Ha as [? Hn2]. unfold locked. by rewrite Hn2.
  - intros [= <-]. pose proof (lookup_create_inv base k l d flag ce _ st1 Hf1 H1) as Hc.
    destruct (lookup_create V d flag ce _ st1) as [[[r1 b1] f1] st2]. unfold locked in *. by rewrite <- Hn.
Qed.

Abbreviation deleg_wait := (λ st, let '(error, w) := o_break_deleg_wait V st in (error, with_maps w st)).
Abbreviation retry tries := (open_retry (o_want_write V) (lookup_open E V tries) deleg_wait).

Lemma open_retry_inv base k l tries n op : ∀ f st r f' st',
  f_opened f = false → walk_inv base k l st →
  retry tries n op f st = Some (r, f', st') →
  walk_inv base k (file_held f' ++ l) st' ∧ wk_nd st' = wk_nd st ∧
  (∀ d, r = NotOpened d → f_opened f' = false).
Proof.
  induction n as [|n IH]; [done|]. intros f st r f' st' Hf H Ho. cbn [open_retry] in Ho.
  set (got := bits _ _ && _) in Ho.
  destruct (lookup_open E V tries op got f st) as [[[[res b] f1] st1]|] eqn:Hl; [|done].
  apply (lookup_open_inv base k l) in Hl as (H1 & Hn1 & Hb); [|done..].
  cbn [mbind option_bind] in Ho.
  assert (∀ d, Some (if f_opened f1 || f_created f1 then Opened d else NotOpened d, f1, st1)
      = Some (r, f', st') →
    walk_inv base k (file_held f' ++ l) st' ∧ wk_nd st' = wk_nd st ∧
    (∀ d, r = NotOpened d → f_opened f' = false)) as Hfound.
  { intros d [= <- <- <-]. split_and!; [done..|]. intros d'. by destruct (f_opened f1). }
  destruct res as [|d|e]; [by apply (Hfound NULL)|by apply (Hfound d)|].
  destruct b; [|by simplify_eq].
  rewrite file_held_closed in H1 by auto. destruct (o_break_deleg_wait V st1) as [error w].
  destruct (error =? 0).
  - apply IH in Ho as (? & Hn & ?); [|auto|by apply inv_maps]. split_and!; [done| |done].
    rewrite Hn. done.
  - simplify_eq. rewrite file_held_closed by auto. by split_and!; [apply inv_maps|..].
Qed.

(** ** The last component *)

Abbreviation finish := (finish_lookup put_link (step_into E)).

Lemma finish_lookup_inv base k l d st :
  walk_inv base k l st → link_post base k l (finish d st).
Proof.
  intros H. unfold finish_lookup. set (st1 := if negb _ then _ else st).
  assert (walk_inv base k l st1) as H1 by (unfold st1; destruct (negb _); [by apply put_link_inv|done]).
  pose proof (step_into_inv E HE _ _ _ WALK_TRAILING d _ H1) as Hs.
  assert (∀ st', walk_inv base k l st' → walk_inv base k l (on_nd (λ nd, set_nd_flags
    (nd_flags nd ∖ {[LOOKUP_OPEN; LOOKUP_CREATE; LOOKUP_EXCL]}) nd) st')) as Hfl.
  { intros st' H'. apply inv_core; [|done]. apply core_flags, fl_drop.
    by rewrite !not_elem_of_union, !not_elem_of_singleton. }
  destruct (step_into E _ _ st1) as [[|body|e] st2]; cbn in *; [done| |by apply Hfl].
  destruct Hs as (H2 & ? & ? & ?). split_and!; try done.
  apply inv_core; [|done]. apply core_flags, fl_drop.
  by rewrite !not_elem_of_union, !not_elem_of_singleton.
Qed.

Lemma follow_directory_inv base k l st :
  walk_inv base k l st → walk_inv base k l (on_nd follow_directory st).
Proof.
  intros H. apply inv_core; [|done]. apply core_flags, fl_add.
  by rewrite not_elem_of_union, !not_elem_of_singleton.
Qed.
Lemma intent_inv base k l op st :
  LOOKUP_RCU ∉ op_intent op → walk_inv base k l st →
  walk_inv base k l (on_nd (λ nd, set_nd_flags (nd_flags nd ∪ op_intent op) nd) st).
Proof. intros Ho H. apply inv_core; [|done]. by apply core_flags, fl_add. Qed.

Abbreviation fast_open := (lookup_fast_for_open (v_inode E) (lookup_fast E)).

Lemma fast_open_inv base k l flag st r :
  walk_inv base k l st → fast_open flag st = Some r →
  walk_inv base k l r.2.
Proof.
  intros H. unfold lookup_fast_for_open. destruct (trailing_slashes _) as [slash|]; [|done].
  cbn. destruct (_ && slash); [by intros [= <-]|]. destruct (_ && _); [by intros [= <-]|].
  set (st1 := if slash then _ else st).
  assert (walk_inv base k l st1) as H1 by (unfold st1; destruct slash; [by apply follow_directory_inv|done]).
  pose proof (lookup_fast_inv E _ _ _ _ H1) as Hf. destruct (lookup_fast E st1) as [[|d|e] st2];
    [by intros [= <-]| |by intros [= <-]]. by destruct (_ && _); intros [= <-].
Qed.

Abbreviation common tries := (open_last_lookups_common (v_inode E) (try_to_unlazy E) (lookup_fast E)
  put_link (step_into E) (handle_dots E) (o_want_write V) (lookup_open E V tries) deleg_wait tries).

Lemma open_common_inv base k l tries op f st r :
  LOOKUP_RCU ∉ op_intent op → f_opened f = false → walk_inv base k l st →
  common tries op f st = Some r → open_post base k l r.
Proof.
  intros Hop Hf H. unfold open_last_lookups_common.
  apply (intent_inv _ _ _ op) in H; [|done]. set (st0 := on_nd _ st) in *. clearbody st0.
  assert (∀ (x : link_res * walk W), link_post base k l x →
    (let '(res, st) := x in Some (res, f, st)) = Some r → open_post base k l r) as Hclosed.
  { intros [res st'] Hx [= <-]. by apply (open_post_closed _ _ _ f (res, st')). }
  destruct (negb (bool_decide _)).
  { apply Hclosed, handle_dots_inv; [done|]. destruct (negb _); [by apply put_link_inv|done]. }
  destruct (fast_open _ st0) as [[res st1]|] eqn:Hfast; [|done]. cbn [mbind option_bind].
  apply (fast_open_inv base k l) in Hfast; [|done]. cbn in Hfast.
  destruct res as [|d|e]; [|by apply Hclosed, finish_lookup_inv|by apply (Hclosed (PErr e, st1))].
  destruct (_ && _); [by apply (Hclosed (PErr (- ECHILD), st1))|].
  change (nd_has LOOKUP_RCU (wk_nd st1)) with (rcu st1).
  assert (walk_inv base k l (if rcu st1 then try_to_unlazy E st1 else (true, st1)).2 ∧
    rcu (if rcu st1 then try_to_unlazy E st1 else (true, st1)).2 = false) as [H2 Hr2].
  { destruct (rcu st1) eqn:Hr; [|done]. pose proof (try_to_unlazy_inv E _ _ _ _ Hr Hfast) as Hu.
    by destruct (try_to_unlazy E st1). }
  destruct (if rcu st1 then _ else _) as [ok st2]. cbn in H2, Hr2.
  destruct (negb ok); [by apply (Hclosed (PErr (- ECHILD), st2))|].
  destruct (retry tries tries op f st2) as [[[x f3] st3]|] eqn:Ho; [|done]. cbn [mbind option_bind].
  apply (open_retry_inv base k l) in Ho as (H3 & Hn3 & Hx); [|done..].
  destruct x as [d|d|e].
  - intros [= <-]. split; [|done]. cbn.
    assert (rcu st3 = false) as Hr3 by (unfold rcu in *; by rewrite Hn3).
    apply (inv_ref_move _ _ _ (mk_path (p_mnt (nd_path (wk_nd st3))) d) (nd_inode (wk_nd st3)) _ Hr3) in H3.
    eapply inv_on_nd_ext, H3. done.
  - pose proof (finish_lookup_inv _ _ _ d _ H3) as Hs. rewrite file_held_closed in Hs by eauto.
    destruct (finish d st3) as [res st4]. intros [= <-].
    apply (open_post_closed _ _ _ f3 (res, st4)); eauto.
  - intros [= <-]. by split.
Qed.

Lemma open_post_last base k l res f st q :
  open_post base k l (res, f, st) → open_post base k l (res, f, on_nd (set_last q) st).
Proof.
  intros [H Hf]. split; [|done]. destruct res; cbn in *; [by apply inv_core| |by apply inv_core].
  destruct H as (? & ? & ? & ?). split_and!; [by apply inv_core|done..].
Qed.

Lemma with_redirect_open_inv base k l tries rd op f st r :
  LOOKUP_RCU ∉ op_intent op → f_opened f = false → walk_inv base k l st →
  with_redirect_open (v_op_hash E) (v_hash E) rd (common tries op) f st = Some r →
  open_post base k l r.
Proof.
  intros Hop Hf H. unfold with_redirect_open, namei_ext_apply_redirect.
  destruct (negb (r_active rd)); [by apply open_common_inv|].
  unfold namei_ext_hash_redirect. cbn [nd_path set_last nd_last].
  set (x := if v_op_hash E _ then _ else _).
  assert (∃ q, x.2 = set_last q (wk_nd st)) as [q Hq].
  { unfold x. destruct (v_op_hash E _); [|eauto]. destruct (v_hash E _ _). by eauto. }
  destruct x as [e nd]. cbn in Hq. subst nd.
  assert (walk_inv base k l (on_nd (λ _, set_last q (wk_nd st)) st)) as H1
    by by apply (inv_core _ _ _ (set_last q)).
  destruct (e <? 0).
  { intros [= <-]. apply (open_post_closed _ _ _ f (PErr e, _)); [done|].
    by apply (inv_core _ _ _ (set_last _)). }
  destruct (common tries op f _) as [[[res f1] st1]|] eqn:Hc; [|done].
  intros [= <-]. apply open_post_last. by eapply open_common_inv.
Qed.

Abbreviation last tries := (PathOpen.open_last_lookups E V enabled managed buf tries).

Lemma open_last_inv base k l tries op f st r :
  LOOKUP_RCU ∉ op_intent op → f_opened f = false → walk_inv base k l st →
  last tries op f st = Some r → open_post base k l r.
Proof.
  intros Hop Hf H. unfold PathOpen.open_last_lookups, Walk.open_last_lookups.
  destruct (enabled && _); [|by apply open_common_inv].
  unfold open_last_lookups_namei_ext.
  apply (intent_inv _ _ _ op) in H; [|done]. set (st0 := on_nd _ st) in *. clearbody st0.
  assert (∀ (x : link_res * walk W), link_post base k l x →
    (let '(res, st) := x in Some (res, f, st)) = Some r → open_post base k l r) as Hclosed.
  { intros [res st'] Hx [= <-]. by apply (open_post_closed _ _ _ f (res, st')). }
  destruct (negb (bool_decide _)).
  { apply Hclosed, handle_dots_inv; [done|]. destruct (negb _); [by apply put_link_inv|done]. }
  pose proof (consult_inv E buf _ _ _ _ H) as Hc.
  destruct (consult_policy _ _ _ _ _ _ buf st0) as [x|[rd st1]]; [by apply Hclosed|].
  destruct Hc as [H1 Hb]. destruct (r_target_active rd) eqn:Ha.
  - destruct (negb _).
    + apply (Hclosed (PErr (- EOPNOTSUPP), _)). cbn. unfold redirect_held in H1.
      rewrite Ha in H1. cbn in H1. destruct (negb _); [by apply inv_put|done].
    + pose proof (apply_target_inv E _ _ _ _ _ Ha (Hb eq_refl) H1) as H2.
      destruct (namei_ext_apply_target _ _ _ _ _ _) as [[error ?] st2].
      destruct (negb _); [by apply (Hclosed (PErr error, st2))|].
      apply (Hclosed (PNull, _)). cbn. destruct (negb _); [by apply put_link_inv|done].
  - unfold redirect_held in H1. rewrite Ha in H1. by apply with_redirect_open_inv.
Qed.
End safe.
