(* ===== verification/PathOpenTotal.v ===== *)
(** * An open returns, with nothing leaked

    The checks of [do_open], temporary files and O_PATH, the attempts of
    [do_file_open]: what the caller holds, and how long it takes. *)

From S2P Require Import Prelude Abi PolicyLib PolicyFacts Kernel Targets Lookup LookupProps.
From S2P Require Import Walk WalkProps PathWalk PathOpen PathInv PathRefs PathSafe PathTotal PathOpenSafe.

Section total.
Context {W : Type} (E : vfs W) (HE : env_ok E) (V : vopen W) (HV : open_ok V).
Context (enabled : bool) (managed : path → bool) (buf : namei_ext_redirect).
Implicit Types (st : walk W) (l : list path) (base : path → Z) (f : file).

(** ** Errors are not 0 *)

Lemma open_dentry_nonzero tries : ∀ d st r,
  open_dentry E V tries d st = Some r → r.1 ≠ inl 0.
Proof.
  induction tries as [|tries IH]; [done|]. intros d st r Ho. cbn [open_dentry] in Ho.
  destruct d as [d|]; [|destruct (o_d_alloc_parallel V st) as [e|d] eqn:Ha].
  2: { simplify_eq. cbn. intros [= ->]. by apply (ov_alloc _ HV) in Ha. }
  all: repeat (case_match; simplify_eq/=; try done); [unfold_bools; congruence|by eapply IH].
Qed.

Lemma atomic_open_nonzero d flag f st : nonzero (atomic_open V d flag f st).1.1.
Proof.
  unfold nonzero, atomic_open. repeat (case_match; simplify_eq/=; try done); unfold_bools; congruence.
Qed.

Lemma lookup_create_nonzero d flag ce f st : nonzero (lookup_create V d flag ce f st).1.1.1.
Proof.
  unfold nonzero, lookup_create. destruct (o_in_lookup V st d).
  - pose proof (ov_lookup _ HV st d) as Hl. destruct (o_fs_lookup V st d) as [res w]. cbn in Hl.
    repeat (case_match; simplify_eq/=; try done); unfold_bools; congruence.
  - repeat (case_match; simplify_eq/=; try done); unfold_bools; congruence.
Qed.

Lemma lookup_open_nonzero tries op b f st r :
  lookup_open E V tries op b f st = Some r → nonzero r.1.1.1.
Proof.
  unfold lookup_open. destruct (o_dead_dir V st); [by intros [= <-]|].
  destruct (open_dentry E V tries _ st) as [[res st1]|] eqn:Ho; [|done]. cbn.
  apply open_dentry_nonzero in Ho. cbn in Ho.
  destruct res as [e|d]; [intros [= <-]; unfold nonzero; cbn; congruence|].
  destruct (negb _); [by intros [= <-]|]. destruct (create_flags V op b d st1) as [flag ce].
  destruct (o_has_atomic_open V _).
  - set (flag' := if nd_has _ _ then _ else _).
    pose proof (atomic_open_nonzero d flag' (set_created false f) st1) as Ha.
    destruct (atomic_open V d flag' _ st1) as [[r1 f1] st2]. intros [= <-].
    unfold nonzero in *. cbn in *. destruct r1 as [| |e]; [done..|].
    destruct (ce =? 0) eqn:Hce; cbn [negb andb]; [done|]. unfold_bools.
    destruct (e =? _); [intros [= ->]; done|done].
  - intros [= <-]. apply lookup_create_nonzero.
Qed.

Abbreviation deleg_wait := (λ st, let '(error, w) := o_break_deleg_wait V st in (error, with_maps w st)).
Abbreviation retry tries := (open_retry (o_want_write V) (lookup_open E V tries) deleg_wait).

Lemma open_retry_nonzero tries n op : ∀ f st r f' st',
  retry tries n op f st = Some (r, f', st') → r ≠ OpenErr 0.
Proof.
  induction n as [|n IH]; [done|]. intros f st r f' st' Ho. cbn [open_retry] in Ho.
  set (got := bits _ _ && _) in Ho.
  destruct (lookup_open E V tries op got f st) as [[[[res b] f1] st1]|] eqn:Hl; [|done].
  apply lookup_open_nonzero in Hl. unfold nonzero in Hl. cbn [mbind option_bind fst] in *.
  destruct res as [|d|e]; [|destruct (_ || _); by simplify_eq|].
  { destruct (_ || _); by simplify_eq. }
  destruct b; [|simplify_eq; congruence].
  destruct (o_break_deleg_wait V st1) as [error w].
  destruct (error =? 0) eqn:He; unfold_bools; [by eapply IH|simplify_eq; congruence].
Qed.

Lemma finish_nonzero d st : nonzero (finish_lookup put_link (step_into E) d st).1.
Proof.
  unfold finish_lookup. set (st1 := if negb _ then _ else st).
  pose proof (step_into_nonzero E HE WALK_TRAILING d st1) as Hs.
  by destruct (step_into E _ _ st1) as [[] ?].
Qed.

Abbreviation fast_open := (lookup_fast_for_open (v_inode E) (lookup_fast E)).
Lemma fast_open_nonzero flag st r : fast_open flag st = Some r → nonzero r.1.
Proof.
  unfold lookup_fast_for_open. destruct (trailing_slashes _) as [slash|]; [|done]. cbn.
  destruct (_ && slash); [by intros [= <-]|]. destruct (_ && _); [by intros [= <-]|].
  set (st1 := if slash then _ else st). pose proof (lookup_fast_nonzero E st1) as Hf.
  destruct (lookup_fast E st1) as [[|d|e] st2]; [by intros [= <-]| |by intros [= <-]].
  by destruct (_ && _); intros [= <-].
Qed.

Abbreviation common tries := (open_last_lookups_common (v_inode E) (try_to_unlazy E) (lookup_fast E)
  put_link (step_into E) (handle_dots E) (o_want_write V) (lookup_open E V tries) deleg_wait tries).

Lemma with_file_nonzero f (x : link_res * walk W) r :
  nonzero x.1 → (let '(res, st) := x in Some (res, f, st)) = Some r → nonzero r.1.1.
Proof. destruct x. by intros ? [= <-]. Qed.

Lemma open_common_nonzero tries op f st r :
  common tries op f st = Some r → nonzero r.1.1.
Proof.
  unfold open_last_lookups_common. set (st0 := on_nd _ st).
  destruct (negb (bool_decide _)); [by apply with_file_nonzero, handle_dots_nonzero|].
  destruct (fast_open _ st0) as [[res st1]|] eqn:Hfast; [|done]. cbn [mbind option_bind].
  apply fast_open_nonzero in Hfast. cbn in Hfast.
  destruct res as [|d|e]; [|apply with_file_nonzero, finish_nonzero|].
  2: { intros [= <-]. unfold nonzero in *. cbn. congruence. }
  destruct (_ && _); [by intros [= <-]|].
  destruct (if nd_has _ _ then _ else _) as [ok st2]. destruct (negb ok); [by intros [= <-]|].
  destruct (retry tries tries op f st2) as [[[x f3] st3]|] eqn:Ho; [|done]. cbn [mbind option_bind].
  apply open_retry_nonzero in Ho. destruct x as [d|d|e]; [by intros [= <-]| |].
  - pose proof (finish_nonzero d st3) as Hs.
    destruct (finish_lookup put_link (step_into E) d st3) as [res st4]. by intros [= <-].
  - intros [= <-]. unfold nonzero. cbn. congruence.
Qed.

Abbreviation last tries := (PathOpen.open_last_lookups E V enabled managed buf tries).

Lemma open_last_nonzero tries op f st r : last tries op f st = Some r → nonzero r.1.1.
Proof.
  unfold PathOpen.open_last_lookups, Walk.open_last_lookups.
  destruct (enabled && _); [|by apply open_common_nonzero].
  unfold open_last_lookups_namei_ext. set (st0 := on_nd _ st).
  destruct (negb (bool_decide _)); [by apply with_file_nonzero, handle_dots_nonzero|].
  destruct (consult_policy _ _ _ _ _ _ buf st0) as [x|[rd st1]] eqn:Hc.
  { apply with_file_nonzero. by eapply consult_nonzero. }
  destruct (r_target_active rd).
  - destruct (negb (nd_has _ _)); [by intros [= <-]|].
    destruct (namei_ext_apply_target _ _ _ _ _ _) as [[error ?] st2].
    destruct (error =? 0) eqn:He; cbn [negb]; intros [= <-]; [done|].
    unfold_bools. unfold nonzero. cbn. congruence.
  - unfold with_redirect_open. destruct (namei_ext_apply_redirect _ _) as [[saved nd]|];
      [|by apply open_common_nonzero].
    destruct (namei_ext_hash_redirect _ _ nd) as [e nd']. destruct (e <? 0) eqn:He.
    + intros [= <-]. unfold_bools. unfold nonzero. cbn. intros [= ->]. lia.
    + destruct (common tries op f _) as [[[res f1] st2]|] eqn:Ho; [|done].
      apply open_common_nonzero in Ho. by intros [= <-].
Qed.

(** ** Interference comes to an end

    [m] counts the dentries that can still be invalidated and the delegations
    that can still have to be broken. *)
Record settles (m : W → nat) (tries : nat) : Prop := {
  se_bound : ∀ w, (m w < tries)%nat;
  se_invalidate : ∀ st d, o_in_lookup V st d = false → v_revalidate E st d = 0 →
    (m (o_invalidate V st d) < m (wk_maps st))%nat;
  se_wait : ∀ st, (o_try_break_deleg V st).2 = true →
    (m (o_break_deleg_wait V st).2 < m (wk_maps st))%nat;
  se_lookup : ∀ st d, (m (o_fs_lookup V st d).2 ≤ m (wk_maps st))%nat
}.

Context (m : W → nat) (tries : nat) (Hm : settles m tries).

Lemma open_dentry_returns n : ∀ d st, (m (wk_maps st) < n)%nat →
  ∃ r st', open_dentry E V n d st = Some (r, st') ∧ (m (wk_maps st') ≤ m (wk_maps st))%nat.
Proof.
  induction n as [|n IH]; [lia|]. intros d st Hn. cbn [open_dentry].
  destruct (match d with Some _ => _ | None => _ end) as [e|d']; [by eexists _, _|].
  destruct (o_in_lookup V st d') eqn:Hi; [by eexists _, _|].
  destruct (0 <? _); [by eexists _, _|].
  destruct (v_revalidate E st d' =? 0) eqn:He; cbn [negb]; [|by eexists _, _]. unfold_bools.
  pose proof (se_invalidate _ _ Hm st d' Hi He) as Hlt.
  destruct (IH None (with_maps (o_invalidate V st d') st)) as (r & st' & -> & Hle); [cbn; lia|].
  eexists _, _. split; [done|]. cbn in Hle. lia.
Qed.

Lemma lookup_create_deleg d flag ce f st :
  let '(res, b, f', st') := lookup_create V d flag ce f st in
  b = true → (o_try_break_deleg V st').2 = true ∧ (m (wk_maps st') ≤ m (wk_maps st))%nat.
Proof.
  unfold lookup_create. pose proof (se_lookup _ _ Hm st d) as Hl.
  destruct (o_in_lookup V st d); [destruct (o_fs_lookup V st d) as [res w]|];
    cbn in Hl; repeat (case_match; simplify_eq/=; try done); intros ->;
    match goal with H : o_try_break_deleg V _ = _ |- _ => by rewrite H end.
Qed.

Lemma lookup_open_returns op b f st :
  ∃ res d f' st', lookup_open E V tries op b f st = Some (res, d, f', st') ∧
    (d = true → (o_try_break_deleg V st').2 = true ∧ (m (wk_maps st') ≤ m (wk_maps st))%nat).
Proof.
  unfold lookup_open. destruct (o_dead_dir V st); [by eexists _, _, _, _|].
  destruct (open_dentry_returns tries (o_d_lookup V st) st (se_bound _ _ Hm _))
    as (r & st1 & -> & Hle). cbn.
  destruct r as [e|d]; [by eexists _, _, _, _|]. destruct (negb _); [by eexists _, _, _, _|].
  destruct (create_flags V op b d st1) as [flag ce]. destruct (o_has_atomic_open V _).
  - destruct (atomic_open V d _ _ st1) as [[r1 f1] st2]. by eexists _, _, _, _.
  - pose proof (lookup_create_deleg d flag ce (set_created false f) st1) as Hd.
    destruct (lookup_create V d flag ce _ st1) as [[[r1 b1] f1] st2].
    eexists _, _, _, _. split; [done|]. intros Hb. destruct (Hd Hb). split; [done|lia].
Qed.

Lemma open_retry_returns op n : ∀ f st, (m (wk_maps st) < n)%nat →
  is_Some (retry tries n op f st).
Proof.
  induction n as [|n IH]; [lia|]. intros f st Hn. cbn [open_retry]. set (got := bits _ _ && _).
  destruct (lookup_open_returns op got f st) as (res & b & f1 & st1 & -> & Hb).
  cbn [mbind option_bind]. destruct res as [|d|e]; [done..|]. destruct b; [|done].
  destruct (Hb eq_refl) as [Ht Hle]. pose proof (se_wait _ _ Hm st1 Ht) as Hlt.
  destruct (o_break_deleg_wait V st1) as [error w]. cbn in Hlt.
  destruct (error =? 0); [|done]. apply IH. cbn. lia.
Qed.

(** ** What returns *)

(** A policy leaves room for a NUL after its replacement. *)
Definition short_redirects : Prop := ∀ w p c,
  length (ctx_redirect_name c) = NAME_MAX_nat →
  let '(action, _, c') := v_run E w p c in
  action = BPF_NAMEI_EXT_REDIRECT →
  length (ctx_redirect_name c') = NAME_MAX_nat ∧
  ctx_redirect_name_len c' < BPF_NAMEI_EXT_NAME_MAX.

Context (Hshort : short_redirects) (Hbuf : length (r_name buf) = NAME_MAX_nat).

(** There is a byte after the replacement. *)
Definition redirect_slash (rd : namei_ext_redirect) : Prop :=
  r_active rd = true → is_Some (r_name rd !! Z.to_nat (r_len rd)).

Lemma lookup_slash p i q F w :
  let '(_, rd, _) := namei_ext_lookup (v_backing_inode E) (v_full_name_hash E) (v_flags_word E)
    (v_run E) p i q BPF_NAMEI_EXT_LOOKUP F buf w in redirect_slash rd.
Proof.
  unfold namei_ext_lookup. set (c := namei_ext_init_ctx _ _ _ _ _ _).
  pose proof (Hshort w p c eq_refl) as Hs. destruct (v_run E w p c) as [[action w'] c'].
  destruct (action <? 0); [done|]. destruct (action =? BPF_NAMEI_EXT_PASS); [done|].
  destruct (action =? BPF_NAMEI_EXT_REDIRECT) eqn:Ha; unfold_bools.
  - destruct (fl _ _); [done|]. destruct (negb _); [done|]. destruct (Hs Ha) as [Hn Hl].
    intros _. unfold namei_ext_fill_redirect, memcpy. cbn [r_name r_len clear_flags].
    unfold BPF_NAMEI_EXT_NAME_MAX, NAME_MAX_nat in *.
    apply lookup_lt_is_Some. rewrite length_app, length_take, length_drop. lia.
  - destruct (_ =? _); [done|]. destruct (_ =? _); [|done].
    destruct (fl _ _); [done|]. by destruct (_ && _).
Qed.

Lemma resolve_slash rd b ts :
  redirect_slash rd → redirect_slash (namei_ext_resolve_target (v_hash_min E) rd b ts).1.2.
Proof.
  intros Hr. unfold namei_ext_resolve_target. by repeat (case_match; simplify_eq/=).
Qed.

Lemma consult_slash st rd st1 :
  consult_policy (v_backing_inode E) (v_full_name_hash E) (v_flags_word E) (v_run E)
    (v_hash_min E) (try_to_unlazy E) buf st = inr (rd, st1) → redirect_slash rd.
Proof.
  unfold consult_policy.
  pose proof (lookup_slash (nd_path (wk_nd st)) (nd_inode (wk_nd st)) (nd_last (wk_nd st))
    (nd_flags (wk_nd st) ∖ {[LOOKUP_RCU]}) (wk_maps st)) as Hl.
  destruct (namei_ext_lookup _ _ _ _ _ _ _ _ _ _ _) as [[error rd0] w].
  destruct (negb _); [done|]. cbn [wk_targets].
  pose proof (resolve_slash rd0 (nd_has LOOKUP_RCU (wk_nd st)) (wk_targets st) Hl) as Hr.
  destruct (r_target_pending rd0).
  - destruct (namei_ext_resolve_target _ _ _ _) as [[error' rd1] ts]. cbn in Hr.
    destruct (negb _); [done|]. destruct (_ && _); [|by intros [= <- _]].
    destruct (try_to_unlazy E _) as [[] st2]; cbn [negb]; [by intros [= <- _]|done].
  - cbn [negb Z.eqb]. destruct (_ && _); [|by intros [= <- _]].
    destruct (try_to_unlazy E _) as [[] st2]; cbn [negb]; [by intros [= <- _]|done].
Qed.

Lemma consult_last st rd st1 :
  consult_policy (v_backing_inode E) (v_full_name_hash E) (v_flags_word E) (v_run E)
    (v_hash_min E) (try_to_unlazy E) buf st = inr (rd, st1) →
  nd_last (wk_nd st1) = nd_last (wk_nd st) ∧ nd_last_type (wk_nd st1) = nd_last_type (wk_nd st).
Proof.
  unfold consult_policy.
  destruct (namei_ext_lookup _ _ _ _ _ _ _ _ _ _ _) as [[error rd0] w].
  destruct (negb _); [done|]. destruct (if r_target_pending rd0 then _ else _) as [[error' rd1] ts].
  destruct (negb _); [done|]. destruct (_ && _); [|by intros [= _ <-]].
  pose proof (try_to_unlazy_ok E (mk_walk (wk_nd st) ts w)) as Hu.
  destruct (try_to_unlazy E _) as [[] st2]; cbn [negb]; [|done]. intros [= _ <-].
  destruct (Hu eq_refl) as ([g Hg] & _). by rewrite Hg.
Qed.

Lemma fast_open_returns flag st :
  is_Some (trailing_slashes (wk_nd st)) → is_Some (fast_open flag st).
Proof.
  unfold lookup_fast_for_open. intros [slash ->]. cbn. destruct (_ && slash); [done|].
  destruct (_ && _); [done|]. destruct (lookup_fast E _) as [[] ?]; [done| |done].
  by destruct (_ && _).
Qed.

Lemma open_common_returns op f st :
  last_ok (wk_nd st) → is_Some (common tries op f st).
Proof.
  intros Hl. unfold open_last_lookups_common. set (st0 := on_nd _ st).
  destruct (negb (bool_decide _)) eqn:Ht; [by destruct (handle_dots E _)|].
  destruct (fast_open_returns (op_open_flag op) st0) as [[res st1] ->].
  { apply Hl. apply negb_false_iff, bool_decide_eq_true in Ht. done. }
  cbn [mbind option_bind]. destruct res as [|d|e]; [|by destruct (finish_lookup _ _ _ _)|done].
  destruct (_ && _); [done|]. destruct (if nd_has _ _ then _ else _) as [ok st2].
  destruct (negb ok); [done|].
  destruct (open_retry_returns op tries f st2 (se_bound _ _ Hm _)) as [[[x f3] st3] ->].
  cbn [mbind option_bind]. destruct x; [done|by destruct (finish_lookup _ _ _ _)|done].
Qed.

Lemma open_last_returns op f st : last_ok (wk_nd st) → is_Some (last tries op f st).
Proof.
  intros Hl. unfold PathOpen.open_last_lookups, Walk.open_last_lookups.
  destruct (enabled && _); [|by apply open_common_returns].
  unfold open_last_lookups_namei_ext. set (st0 := on_nd _ st).
  destruct (negb (bool_decide _)) eqn:Ht; [by destruct (handle_dots E _)|].
  apply negb_false_iff, bool_decide_eq_true in Ht.
  destruct (consult_policy _ _ _ _ _ _ buf st0) as [[res st1]|[rd st1]] eqn:Hc; [done|].
  pose proof (consult_slash _ _ _ Hc) as Hs. pose proof (consult_last _ _ _ Hc) as [Hla Hty].
  destruct (r_target_active rd).
  - destruct (negb (nd_has _ _)); [done|].
    destruct (namei_ext_apply_target _ _ _ _ _ _) as [[error ?] st2]. by destruct (negb _).
  - unfold with_redirect_open, namei_ext_apply_redirect.
    destruct (r_active rd) eqn:Ha; cbn [negb].
    + unfold namei_ext_hash_redirect. cbn [nd_path set_last nd_last].
      set (x := if v_op_hash E _ then _ else _).
      assert (∃ q, x.2 = set_last q (wk_nd st1) ∧ q_len q = r_len rd ∧ q_name q = r_name rd)
        as (q & Hq & Hql & Hqn).
      { unfold x. destruct (v_op_hash E _); [|by eexists].
        pose proof (env_hash _ HE (p_dentry (nd_path (wk_nd st1)))
          (mk_qstr (r_hash rd) (r_len rd) (r_name rd))) as Hh.
        destruct (v_hash E _ _). by eexists. }
      destruct x as [e nd]. cbn in Hq. subst nd. destruct (e <? 0); [done|].
      destruct (open_common_returns op f (on_nd (λ _, set_last q (wk_nd st1)) st1)) as [[[]] ->];
        [|done]. intros _. unfold trailing_slashes. cbn. rewrite Hql, Hqn.
      by destruct (Hs Ha) as [b ->].
    + apply open_common_returns. intros _. unfold trailing_slashes. rewrite Hla. by apply Hl.
Qed.
End total.
