(* ===== verification/PathOpenProps.v ===== *)
(** * Whole opens

    [path_openat] and its attempts keep the invariant of a walk: an open leaves
    its caller the file's reference or nothing, and it returns. *)

From S2P Require Import Prelude Abi Kernel Targets Lookup LookupProps Walk WalkProps PathWalk.
From S2P Require Import PathOpen PathInv PathRefs PathSafe PathTotal PathOpenSafe PathOpenTotal.

Section props.
Context {W : Type} (E : vfs W) (HE : env_ok E) (V : vopen W) (HV : open_ok V).
Context (enabled : bool) (managed : path → bool) (buf : namei_ext_redirect).
Context (fuel tries : nat) (op : open_flags) (Hop : LOOKUP_RCU ∉ op_intent op).
Implicit Types (st : walk W) (l : list path) (base : path → Z) (f : file).

Abbreviation last := (PathOpen.open_last_lookups E V enabled managed buf tries op).
Abbreviation loop := (open_loop E V enabled managed buf fuel tries).

(** The last component of an open returns where there is one. *)
Definition last_returns : Prop := ∀ f st, last_ok (wk_nd st) → is_Some (last f st).

(** ** The loop *)

Lemma open_loop_inv base rounds : ∀ k s f st,
  walkable s → f_opened f = false → walk_inv base k [] st →
  match loop rounds op s f st with
  | Some (_, f', st') => walk_inv base k (file_held f') st'
  | None => last_returns → Z.of_nat rounds ≤ enough_rounds s st ∨ Z.of_nat fuel ≤ enough_fuel s st
  end.
Proof.
  induction rounds as [|rounds IH]; intros k s f st Hs Hf H.
  { left. unfold enough_rounds, links_left. destruct s; lia. }
  apply inv_count_weaken in H as [Hk H]. cbn [open_loop].
  destruct s as [|body|e]; [done| |].
  2: { destruct (link_path_walk_err E enabled managed buf _ _ _ fuel e _ H) as (st1 & -> & H1). simpl.
       destruct (e =? 0) eqn:He; unfold_bools; [done|]. cbn. rewrite file_held_closed by done.
       by eapply inv_weaken. }
  pose proof (link_path_walk_inv E HE enabled managed buf _ _ _ fuel body _ Hs H) as H1.
  destruct (link_path_walk _ _ _ _ fuel (PPtr body) st) as [[err st1]|]; cbn in H1 |- *.
  2: { right. unfold enough_fuel, body_length. lia. }
  destruct H1 as [H1 Hlast].
  destruct (err =? 0) eqn:He; cbn [negb]; unfold_bools.
  2: { cbn. rewrite file_held_closed by done. by eapply inv_weaken. }
  destruct (last f st1) as [r|] eqn:Hr.
  2: { intros Hret. destruct (Hret f st1 (Hlast He)) as [? Hx]. congruence. }
  pose proof (open_last_inv E HE V enabled managed buf _ _ _ _ _ _ _ _ Hop Hf H1 Hr) as H2.
  pose proof (open_last_nonzero E HE V HV enabled managed buf _ _ _ _ _ Hr) as Hnz.
  destruct r as [[[|body'|e] f2] st2]; destruct H2 as [H2 Hf2]; cbn in H2, Hnz |- *;
    rewrite app_nil_r in H2.
  - by eapply inv_weaken.
  - destruct H2 as (H2 & Hmax & [Hn Hlen] & _). specialize (Hf2 body' eq_refl).
    rewrite file_held_closed in H2 by done.
    specialize (IH _ (PPtr body') f2 st2 Hn Hf2 H2). pose proof (wi_count _ _ _ _ H2) as Hc2.
    destruct (loop rounds op _ f2 st2) as [[[err2 f3] st3]|]; [eapply inv_weaken, IH; lia|].
    intros Hret. specialize (IH Hret).
    unfold enough_rounds, enough_fuel, body_length, links_left, PATH_MAX in *. lia.
  - destruct rounds as [|rounds]; [intros _; left; unfold enough_rounds, links_left; lia|].
    cbn [open_loop].
    destruct (link_path_walk_err E enabled managed buf _ _ _ fuel e _ H2) as (st3 & -> & H3). simpl.
    destruct (e =? 0) eqn:He2; unfold_bools; [subst e; by destruct Hnz|]. by eapply inv_weaken.
Qed.

(** ** After the walk *)

Lemma vfs_open_inv base k l p f st :
  f_opened f = false → walk_inv base k l st →
  let '(_, f', st') := vfs_open V p f st in
  walk_inv base k (file_held f' ++ l) st' ∧ wk_nd st' = wk_nd st.
Proof.
  intros Hf H. unfold vfs_open. destruct (o_dentry_open V st p) as [[error b] w].
  apply (inv_maps _ _ _ w) in H. unfold file_held. cbn. destruct b; [|done].
  split; [by apply inv_get|done].
Qed.

Lemma open_checked_inv base k l b acc flag f st :
  walk_inv base k (file_held f ++ l) st →
  let '(_, f', st') := open_checked V b acc flag f st in walk_inv base k (file_held f' ++ l) st'.
Proof.
  intros H. unfold open_checked.
  set (u := if _ && negb (f_opened f) then _ else _).
  assert (let '(_, f', st') := u in walk_inv base k (file_held f' ++ l) st') as H1.
  { unfold u. destruct (_ && _) eqn:Hb; [|done]. apply andb_true_iff in Hb as [_ Hf%negb_true_iff].
    rewrite file_held_closed in H by done.
    pose proof (vfs_open_inv _ _ _ (nd_path (wk_nd st)) _ _ Hf H) as Hv.
    destruct (vfs_open V _ f st) as [[e f'] st']. apply Hv. }
  destruct u as [[e f1] st1]. set (e2 := if e =? 0 then _ else _).
  destruct (_ && b); [|done]. unfold handle_truncate.
  destruct (negb _); [done|]. destruct (negb _); [done|].
  destruct (o_truncate V st1 _) as [e3 w]. by apply inv_maps.
Qed.

Lemma open_file_inv base k l f st :
  walk_inv base k (file_held f ++ l) st →
  let '(_, f', st') := open_file V op f st in walk_inv base k (file_held f' ++ l) st'.
Proof.
  intros H. unfold open_file. destruct (f_created f); [by apply open_checked_inv|].
  destruct (_ && _); [destruct (negb _); [done|]|]; by apply open_checked_inv.
Qed.
Lemma do_open_inv base k l f st :
  walk_inv base k (file_held f ++ l) st →
  let '(_, f', st') := do_open E V op f st in walk_inv base k (file_held f' ++ l) st'.
Proof.
  intros H. unfold do_open.
  assert (walk_inv base k (file_held f ++ l)
    (if negb (f_opened f || f_created f) then complete_walk E st else (0, st)).2) as H1.
  { destruct (negb _); [|done]. pose proof (complete_walk_inv E _ _ _ _ H) as Hc.
    destruct (complete_walk E st). apply Hc. }
  destruct (if negb _ then complete_walk E st else _) as [error st1]. cbn in H1.
  destruct (negb _); [done|]. destruct (negb _); [done|]. destruct (_ && _); [done|].
  by apply open_file_inv.
Qed.

Lemma vfs_tmpfile_inv base k l p flag f st :
  f_opened f = false → walk_inv base k l st →
  let '(_, f', st') := vfs_tmpfile V p flag f st in
  walk_inv base k (file_held f' ++ l) st' ∧ wk_nd st' = wk_nd st.
Proof.
  intros Hf H. unfold vfs_tmpfile. pose proof (file_held_closed f Hf) as Hh.
  destruct (negb _); [by rewrite Hh|]. destruct (negb _); [by rewrite Hh|].
  destruct (o_d_alloc V st p) as [child|]; [|by rewrite Hh].
  set (r := o_tmpfile V st _). unfold file_held. cbn. destruct (fo_opened r); cbn.
  - split; [|done]. by apply inv_get, inv_maps.
  - split; [|done]. by apply inv_maps.
Qed.

Lemma fput_close_inv base k l f st :
  walk_inv base k (file_held f ++ l) st → walk_inv base k l (fput_close f st).
Proof. unfold file_held, fput_close. destruct (f_opened f); [by apply inv_put|done]. Qed.
Lemma fput_close_nd f st : wk_nd (fput_close f st) = wk_nd st.
Proof. unfold fput_close. by destruct (f_opened f). Qed.

(** ** An attempt *)

Context (rounds : nat) (dfd : Z) (name : list Z) (H0 : 0 ∈ name).

(** Too little, for [links] symlinks. *)
Definition short_of (k : Z) : Prop :=
  Z.of_nat rounds ≤ Z.max 0 (MAXSYMLINKS - k) + 1 ∨
  Z.of_nat fuel ≤ Z.max (Z.of_nat (length name)) PATH_MAX + PATH_MAX * Z.max 0 (MAXSYMLINKS - k).

(** A file that may be open, and nothing else. *)
Definition attempted base k (r : option (Z * file * walk W)) : Prop :=
  match r with
  | Some (_, f, st) => walk_inv base k (file_held f) st ∧ idle (wk_nd st)
  | None => last_returns → short_of k
  end.

Lemma do_tmpfile_inv base k flags f st :
  f_opened f = false → idle (wk_nd st) → walk_inv base k [] st →
  attempted base k (do_tmpfile E V enabled managed buf rounds fuel dfd name op flags f st).
Proof.
  intros Hf Hi H. unfold do_tmpfile.
  pose proof (path_lookupat_inv E HE enabled managed buf base k rounds fuel dfd name
    (flags ∪ {[LOOKUP_DIRECTORY]}) st H0 Hi H) as Hp.
  destruct (path_lookupat _ _ _ _ _ _ _ _ _ st) as [[[error p] st1]|]; cbn; [|by intros _].
  destruct Hp as [H1 Hi1]. destruct (error =? 0); cbn [negb].
  2: { cbn. by rewrite file_held_closed. }
  destruct (o_want_write V st1 (p_mnt p) =? 0) eqn:Hw; cbn [negb].
  - pose proof (vfs_tmpfile_inv _ _ _ p (op_open_flag op) _ _ Hf H1) as Ht.
    destruct (vfs_tmpfile V p _ f st1) as [[e f2] st2]. destruct Ht as [H2 Hn]. cbn. rewrite Hn.
    split; [|done]. apply inv_put. eapply inv_perm, H2. by rewrite (Permutation_app_comm _ [p]).
  - cbn. split; [|done]. rewrite file_held_closed by done. by apply inv_put.
Qed.

Lemma do_o_path_inv base k flags f st :
  f_opened f = false → idle (wk_nd st) → walk_inv base k [] st →
  attempted base k (do_o_path E V enabled managed buf rounds fuel dfd name flags f st).
Proof.
  intros Hf Hi H. unfold do_o_path.
  pose proof (path_lookupat_inv E HE enabled managed buf base k rounds fuel dfd name
    flags st H0 Hi H) as Hp.
  destruct (path_lookupat _ _ _ _ _ _ _ _ _ st) as [[[error p] st1]|]; cbn; [|by intros _].
  destruct Hp as [H1 Hi1]. destruct (error =? 0); cbn [negb].
  2: { cbn. by rewrite file_held_closed. }
  pose proof (vfs_open_inv _ _ _ p _ _ Hf H1) as Ht.
  destruct (vfs_open V p f st1) as [[e f2] st2]. destruct Ht as [H2 Hn]. cbn. rewrite Hn.
  split; [|done]. apply inv_put. eapply inv_perm, H2. by rewrite (Permutation_app_comm _ [p]).
Qed.

Lemma do_walk_inv base k flags f st :
  f_opened f = false → idle (wk_nd st) → walk_inv base k [] st →
  attempted base k
    (let '(s, st) := path_init E dfd name flags st in
     '(error, f, st) ← loop rounds op s f st;
     let '(error, f, st) := if error =? 0 then do_open E V op f st else (error, f, st) in
     Some (error, f, terminate_walk st)).
Proof.
  intros Hf Hi H. pose proof (path_init_inv E _ _ _ dfd name flags _ Hi H) as H1.
  pose proof (path_init_walkable E dfd name flags st H0) as [Hs Hl].
  destruct (path_init E dfd name flags st) as [s st1]. cbn in H1, Hs, Hl.
  pose proof (open_loop_inv base rounds k s f st1 Hs Hf H1) as H2.
  destruct (loop rounds op s f st1) as [[[error f2] st2]|]; cbn.
  - assert (let '(_, f', st') := if error =? 0 then do_open E V op f2 st2 else (error, f2, st2) in
      walk_inv base k (file_held f') st') as H3.
    { destruct (error =? 0); [|done]. pose proof (do_open_inv base k [] f2 st2) as Hd.
      rewrite app_nil_r in Hd. specialize (Hd H2).
      destruct (do_open E V op f2 st2) as [[e f3] st3]. by rewrite app_nil_r in Hd. }
    destruct (if error =? 0 then _ else _) as [[e f3] st3]. by apply terminate_walk_inv.
  - intros Hret. specialize (H2 Hret). pose proof (links_left_le _ _ (wi_count _ _ _ _ H1)).
    unfold short_of, enough_rounds, enough_fuel, PATH_MAX in *. destruct s; lia.
Qed.

(** What an attempt leaves: the open file, or nothing. *)
Definition opened_or_not base k (r : option (Z * file * walk W)) : Prop :=
  match r with
  | Some (err, f, st) =>
      walk_inv base k (if err =? 0 then [f_path f] else []) st ∧ idle (wk_nd st) ∧
      f_opened f = (err =? 0)
  | None => last_returns → short_of k
  end.

Lemma path_openat_inv base k flags st :
  idle (wk_nd st) → walk_inv base k [] st →
  opened_or_not base k (path_openat E V enabled managed buf rounds fuel tries dfd name op flags st).
Proof.
  intros Hi H. unfold path_openat. set (f := mk_file false false null_path).
  destruct (o_alloc_file V st =? 0) eqn:Ha; cbn [negb].
  2: { cbn. by rewrite Ha. }
  set (r := if bits O_TMPFILE _ then _ else _).
  assert (attempted base k r) as Hr.
  { unfold r. destruct (bits _ _); [by apply do_tmpfile_inv|].
    destruct (bits _ _); [by apply do_o_path_inv|by apply do_walk_inv]. }
  destruct r as [[[error f2] st2]|]; cbn; [|done]. destruct Hr as [H2 Hi2].
  destruct ((error =? 0) && f_opened f2) eqn:Hok.
  - apply andb_true_iff in Hok as [_ Hf]. unfold file_held in H2. by rewrite Hf in H2.
  - set (e1 := if error =? 0 then _ else _). set (e2 := if e1 =? _ then _ else _).
    assert ((e2 =? 0) = false) as He.
    { unfold e2, e1. destruct (error =? 0) eqn:He; [done|].
      destruct (error =? - EOPENSTALE); [by destruct (fl _ _)|done]. }
    cbn. rewrite He, fput_close_nd. split_and!; [|done..].
    apply fput_close_inv. by rewrite app_nil_r.
Qed.

Lemma open_attempts_inv base k st :
  idle (wk_nd st) → walk_inv base k [] st →
  opened_or_not base k (open_attempts E V enabled managed buf rounds fuel tries dfd name op st).
Proof.
  intros Hi H. unfold open_attempts. pose proof (path_openat_inv base k) as Hat.
  assert (∀ r (g : Z * file * walk W → option (Z * file * walk W)), opened_or_not base k r →
    (∀ err f st, opened_or_not base k (Some (err, f, st)) → opened_or_not base k (g (err, f, st))) →
    opened_or_not base k (r ≫= g)) as Hbind.
  { intros [[[err f] st1]|] g Hr Hg; cbn; [by apply Hg|done]. }
  apply Hbind; [by apply Hat|]. intros err f st1 H1. apply Hbind.
  - destruct (err =? - ECHILD) eqn:He; [|done]. unfold_bools. subst err.
    destruct H1 as (? & ? & ?). by apply Hat.
  - clear H1. intros err' f' st2 H1. destruct (err' =? - ESTALE) eqn:He; [|done]. unfold_bools. subst err'.
    destruct H1 as (? & ? & ?). by apply Hat.
Qed.
End props.

(** ** Opens *)

Section opens.
Context {W : Type} (E : vfs W) (HE : env_ok E) (V : vopen W) (HV : open_ok V).
Context (enabled : bool) (managed : path → bool) (buf : namei_ext_redirect).
Context (rounds fuel tries : nat) (nested dfd : Z) (name : list Z) (op : open_flags).
Context (H0 : 0 ∈ name) (Hnested : 0 ≤ nested) (Hop : LOOKUP_RCU ∉ op_intent op).
Implicit Types (st : walk W).

Abbreviation open := (do_file_open E V enabled managed buf rounds fuel tries nested dfd name op).
Abbreviation open_root root :=
  (do_file_open_root E V enabled managed buf rounds fuel tries nested root name op).

(** The file is open and its reference is the only one more, or nothing is. *)
Definition balanced st (r : Z * file * walk W) : Prop :=
  let '(err, f, st') := r in
  f_opened f = (err =? 0) ∧
  ∀ q, q ≠ null_path → foreign_refs (wk_targets st') q =
    foreign_refs (wk_targets st) q + (if (err =? 0) && bool_decide (q = f_path f) then 1 else 0).

Lemma attempts_from root dfd' st :
  opened_or_not E V enabled managed buf fuel tries op rounds name
    (foreign_refs (wk_targets st)) nested
    (open_attempts E V enabled managed buf rounds fuel tries dfd' name op
       (on_nd (set_nameidata nested root) st)).
Proof.
  pose proof (set_nameidata_idle nested root (wk_nd st)) as Hi.
  apply (open_attempts_inv E HE V HV); [done..|].
  assert (nd_total_link_count (wk_nd (on_nd (set_nameidata nested root) st)) = nested) as Hc
    by by destruct root.
  pose proof (idle_inv (on_nd (set_nameidata nested root) st) Hi) as H. rewrite Hc in H. by apply H.
Qed.

Lemma opened_balanced st r :
  opened_or_not E V enabled managed buf fuel tries op rounds name
    (foreign_refs (wk_targets st)) nested (Some r) → balanced st r.
Proof.
  destruct r as [[err f] st']. intros ([_ _ _ Hf] & [Hp Hs Hg] & Ho). split; [done|].
  intros q Hq. rewrite Hf by done. unfold held. rewrite Hp, Hs, Hg.
  destruct (err =? 0), (nd_has _ _); cbn; autorewrite with namei_rw;
    repeat case_decide; repeat case_bool_decide; try done; lia.
Qed.

(** C8: An open balances its references, by a pathname or below a given root,
    whatever the policies decide and wherever it fails: when it succeeds the
    file is open and holds one reference more, on its own path, and when it
    fails nothing is held, although the file may have been created or opened
    before a later check refused it. *)
Theorem open_refs_balanced st :
  (∀ r, open st = Some r → balanced st r) ∧
  (∀ root r, open_root root st = Some r → balanced st r).
Proof.
  split.
  - intros r Ho. apply opened_balanced. rewrite <- Ho. apply attempts_from.
  - intros root r. unfold do_file_open_root. destruct (_ && _).
    + intros [= <-]. split; [done|]. intros q _. change (- ELOOP =? 0) with false. cbn [andb]. lia.
    + intros Ho. apply opened_balanced. rewrite <- Ho. apply attempts_from.
Qed.

(** C9: An open returns: with the bounds of a lookup, and [tries] that exceed the
    dentries that are still to be invalidated and the delegations still to be
    broken, it ends, whatever the policies answer as long as they leave room
    for a NUL after a replacement. *)
Theorem open_returns (m : W → nat) st :
  settles E V m tries → short_redirects E → length (r_name buf) = NAME_MAX_nat →
  MAXSYMLINKS + 1 < Z.of_nat rounds →
  Z.max (Z.of_nat (length name)) PATH_MAX + PATH_MAX * MAXSYMLINKS < Z.of_nat fuel →
  is_Some (open st) ∧ ∀ root, is_Some (open_root root st).
Proof.
  intros Hm Hs Hb Hr Hf.
  assert (last_returns E V enabled managed buf tries op) as Hl
    by (intros f st1; by eapply open_last_returns).
  assert (∀ root dfd', is_Some (open_attempts E V enabled managed buf rounds fuel tries dfd' name op
    (on_nd (set_nameidata nested root) st))) as Ha.
  { intros root dfd'. pose proof (attempts_from root dfd' st) as Ho.
    destruct (open_attempts _ _ _ _ _ _ _ _ _ _ _ _); [done|]. specialize (Ho Hl).
    unfold short_of, MAXSYMLINKS, PATH_MAX in *. lia. }
  split; [apply Ha|]. intros root. unfold do_file_open_root. destruct (_ && _); [done|apply Ha].
Qed.
End opens.
