(* ===== verification/PathFrame.v ===== *)
(** * What a lookup or an open leaves alone

    No step of a walk changes the registered targets, nor the root that its
    caller has set, wherever it fails: each attempt of [filename_lookup] and of
    [do_file_open] starts like the first.  The rest of the state it changes only by running
    policies. *)

From S2P Require Import Prelude Abi Kernel Targets Lookup Walk PathWalk PathOpen.

(** What running a policy may do to the rest of the state. *)
Definition runs_in {W} (E : vfs W) (R : W → W → Prop) : Prop :=
  ∀ w p c, R w (v_run E w p c).1.2.

Definition anything {W : Type} : W → W → Prop := λ _ _, True.
Lemma anything_run {W} (E : vfs W) : runs_in E anything.
Proof. done. Qed.

(** Roots of which something is known that is true of the process's. *)
Record roots {W} (E : vfs W) := mk_roots {
  good :> path → Prop;
  good_null : good null_path;
  good_fs : good (v_fs_root E)
}.
Arguments mk_roots {W E} _ _ _.
Arguments good {W E} _ _.
Arguments good_null {W E} _.
Arguments good_fs {W E} _.
Definition any_root {W} (E : vfs W) : roots E := mk_roots (λ _, True) I I.
Arguments any_root : simpl never.
Arguments good : simpl never.

Section frame.
Context {W : Type} (R : W → W → Prop) (Q : path → Prop).
Implicit Types (st : walk W).

Record framed st st' : Prop := {
  fr_maps : rtc R (wk_maps st) (wk_maps st');
  fr_good : Q (nd_root (wk_nd st)) → Q (nd_root (wk_nd st'));
  fr_table : ts_table (wk_targets st') = ts_table (wk_targets st);
  fr_preset : nd_root_preset (wk_nd st') = nd_root_preset (wk_nd st);
  fr_root : nd_root_preset (wk_nd st) = true → has_root (wk_nd st) = true →
    nd_root (wk_nd st') = nd_root (wk_nd st)
}.

#[export] Instance framed_preorder : PreOrder framed.
Proof.
  split; [by split|]. intros st1 st2 st3 [Hm1 Hg1 Ht1 Hp1 Hr1] [Hm2 Hg2 Ht2 Hp2 Hr2].
  split; [by etrans|auto|congruence..|]. intros Hp Hr. rewrite Hr2; [auto|congruence|]. unfold has_root. by rewrite Hr1.
Qed.

Lemma framed_nd st st' f :
  framed st st' →
  (nd_root_preset (f (wk_nd st')) = nd_root_preset (wk_nd st') ∧
   (nd_root (f (wk_nd st')) = nd_root (wk_nd st') ∨
    (nd_root_preset (wk_nd st') = false ∨ has_root (wk_nd st') = false) ∧
    (Q (nd_root (wk_nd st')) → Q (nd_root (f (wk_nd st')))))) →
  framed st (on_nd f st').
Proof.
  intros H [Hp Hr]. etrans; [exact H|]. split; [done|..|done|done|].
  - cbn. destruct Hr as [-> | [_ ?]]; auto.
  - intros Hpre Hroot. destruct Hr as [?|[[?|?] _]]; [done|congruence..].
Qed.
Lemma framed_get st st' p : framed st st' → framed st (get_path p st').
Proof. by intros [?????]. Qed.
Lemma framed_put st st' p : framed st st' → framed st (put_path p st').
Proof. by intros [?????]. Qed.
Lemma framed_maps st st' ts w :
  R (wk_maps st') w → ts_table ts = ts_table (wk_targets st') → framed st st' →
  framed st (mk_walk (wk_nd st') ts w).
Proof. intros Hm Ht [?????]. split; [by eapply rtc_r|done|cbn; congruence|done..]. Qed.
Lemma framed_eq {A} (x : A * walk W) a st st' : x = (a, st') → framed st x.2 → framed st st'.
Proof. by intros ->. Qed.

Lemma framed_put_link st st' : framed st st' → framed st (put_link st').
Proof.
  intros H. unfold put_link. destruct (nd_stack _); [done|].
  assert (framed st (on_nd (set_stack l) st')) by (apply framed_nd; auto).
  destruct (rcu _); [done|by apply framed_put].
Qed.
End frame.

Create HintDb framed discriminated.

(** Destruct a body; use what is known of the functions it calls. *)
Ltac framing_end :=
  repeat first
    [ reflexivity | assumption
    | apply framed_get | apply framed_put | apply framed_put_link
    | apply framed_nd; [|split; [reflexivity|by auto]]
    | match goal with H : framed _ _ ?a ?s |- framed _ _ _ ?s => etrans; [|exact H]; clear H end
    | etrans; [|solve [eauto 1 with framed nocore]] ].
Ltac framing :=
  repeat (case_match; simplify_eq/=);
  lazymatch goal with |- framed ?R ?Q _ _ =>
    repeat match goal with
    | H : ?x = (?a, ?s) |- _ =>
        lazymatch type of s with walk _ => idtac end;
        let F := fresh "F" in
        eassert (framed R Q _ s) as F
          by (apply (framed_eq _ _ _ _ _ _ H); eauto 1 with framed nocore);
        clear H
    end
  end;
  framing_end.

Section steps.
Context {W : Type} (E : vfs W) {R : W → W → Prop} {Q : roots E}.
Implicit Types (st : walk W).

Abbreviation framed := (framed R Q).

Lemma legitimize_path_framed p seq st : framed st (legitimize_path E p seq st).2.
Proof. unfold legitimize_path. framing. Qed.
#[local] Hint Resolve legitimize_path_framed : framed.
Lemma legitimize_saved_framed ss : ∀ st, framed st (legitimize_saved E ss st).2.
Proof. induction ss as [|s ss IH]; intros st; cbn [legitimize_saved]; framing. Qed.
#[local] Hint Resolve legitimize_saved_framed : framed.
Lemma legitimize_links_framed st : framed st (legitimize_links E st).2.
Proof. unfold legitimize_links. framing. Qed.
#[local] Hint Resolve legitimize_links_framed : framed.
Lemma legitimize_root_framed st : framed st (legitimize_root E st).2.
Proof.
  unfold legitimize_root. destruct (negb (has_root _) || _) eqn:Hr; [done|].
  apply orb_false_iff in Hr as [_ Hr]. set (st1 := on_nd _ st).
  assert (framed st st1) as H1 by by apply framed_nd; [|split; [|left]].
  unfold legitimize_path. destruct (negb (v_grab E st1 _)).
  - apply framed_nd; [done|]. split; [done|right]. split; [auto|]. intros _. apply good_null.
  - apply framed_nd; [by apply framed_get|]. split; [done|by left].
Qed.
#[local] Hint Resolve legitimize_root_framed : framed.
Lemma try_to_unlazy_framed st : framed st (try_to_unlazy E st).2.
Proof. unfold try_to_unlazy. framing. Qed.
#[local] Hint Resolve try_to_unlazy_framed : framed.
Lemma try_to_unlazy_next_framed d st : framed st (try_to_unlazy_next E d st).2.
Proof. unfold try_to_unlazy_next. framing. Qed.
#[local] Hint Resolve try_to_unlazy_next_framed : framed.
Lemma lookup_fast_framed st : framed st (lookup_fast E st).2.
Proof. unfold lookup_fast. framing. Qed.
#[local] Hint Resolve lookup_fast_framed : framed.
Lemma set_root_fs_framed st : has_root (wk_nd st) = false → framed st (set_root_fs E st).2.
Proof.
  intros Hr. unfold set_root_fs. destruct (scoped E _); [done|].
  assert (∀ st', framed st st' → has_root (wk_nd st') = false → ∀ f,
    nd_root_preset (f (wk_nd st')) = nd_root_preset (wk_nd st') →
    nd_root (f (wk_nd st')) = v_fs_root E → framed st (on_nd f st')) as Hs.
  { intros st' F Hr' f Hp Hf. apply framed_nd; [done|]. split; [done|right]. split; [auto|].
    intros _. rewrite Hf. apply good_fs. }
  destruct (rcu st); by apply Hs.
Qed.
Lemma with_root_framed st :
  framed st (if has_root (wk_nd st) then (0, st) else set_root_fs E st).2.
Proof. destruct (has_root _) eqn:Hr; [done|by apply set_root_fs_framed]. Qed.
#[local] Hint Resolve with_root_framed : framed.
Lemma nd_jump_root_framed st : framed st (nd_jump_root E st).2.
Proof.
  unfold nd_jump_root. destruct (nd_has _ _); [done|]. destruct (_ && _); [done|].
  pose proof (with_root_framed st) as F. destruct (if has_root _ then _ else _) as [error st1].
  cbn in F. framing.
Qed.
#[local] Hint Resolve nd_jump_root_framed : framed.
Lemma nd_jump_link_framed p st : framed st (nd_jump_link E p st).2.
Proof. unfold nd_jump_link. framing. Qed.
#[local] Hint Resolve nd_jump_link_framed : framed.
Lemma reserve_stack_framed link st : framed st (reserve_stack E link st).2.
Proof. unfold reserve_stack, nd_alloc_stack. framing. Qed.
#[local] Hint Resolve reserve_stack_framed : framed.
Lemma read_link_framed link st : framed st (read_link E link st).2.
Proof. unfold read_link. framing. Qed.
#[local] Hint Resolve read_link_framed : framed.
Lemma start_body_framed s st : framed st (start_body E s st).2.
Proof. unfold start_body. framing. Qed.
#[local] Hint Resolve start_body_framed : framed.
Lemma pick_link_framed link i flags st : framed st (pick_link E link i flags st).2.
Proof. unfold pick_link. framing. Qed.
#[local] Hint Resolve pick_link_framed : framed.
Lemma handle_mounts_framed d st : framed st (handle_mounts E d st).2.
Proof. unfold handle_mounts. framing. Qed.
#[local] Hint Resolve handle_mounts_framed : framed.
Lemma step_into_framed flags d st : framed st (step_into E flags d st).2.
Proof. unfold step_into, step_into_slowpath. framing. Qed.
#[local] Hint Resolve step_into_framed : framed.
Lemma follow_dotdot_rcu_framed st : framed st (follow_dotdot_rcu E st).2.
Proof. unfold follow_dotdot_rcu. framing. Qed.
#[local] Hint Resolve follow_dotdot_rcu_framed : framed.
Lemma follow_dotdot_framed st : framed st (follow_dotdot E st).2.
Proof. unfold follow_dotdot. framing. Qed.
#[local] Hint Resolve follow_dotdot_framed : framed.
Lemma handle_dots_framed st : framed st (handle_dots E st).2.
Proof.
  unfold handle_dots. destruct (negb _); [done|]. pose proof (with_root_framed st) as F.
  destruct (if has_root _ then _ else _) as [error st1]. cbn in F.
  destruct (negb _); [done|]. etrans; [exact F|]. clear F. framing.
Qed.
#[local] Hint Resolve handle_dots_framed : framed.

(** ** A component *)

Lemma resolve_target_table r b ts :
  ts_table (namei_ext_resolve_target (v_hash_min E) r b ts).2 = ts_table ts.
Proof. unfold namei_ext_resolve_target, namei_ext_get_target. by repeat case_match; simplify_eq/=. Qed.

Context (HR : runs_in E R).
Context (enabled : bool) (managed : path → bool) (buf : namei_ext_redirect).

Lemma lookup_run (ctx_parent : path) i q ev F r (w : W) :
  R w (namei_ext_lookup (v_backing_inode E) (v_full_name_hash E) (v_flags_word E) (v_run E)
         ctx_parent i q ev F r w).2.
Proof.
  unfold namei_ext_lookup. set (c := namei_ext_init_ctx _ _ _ _ _ _).
  pose proof (HR w ctx_parent c) as H. destruct (v_run E w ctx_parent c) as [[a w'] c'].
  cbn in H. by repeat case_match.
Qed.

Lemma fail_unlazied_framed e st : framed st (fail_unlazied (try_to_unlazy E) e st).2.
Proof. unfold fail_unlazied. framing. Qed.

Abbreviation consult := (consult_policy (v_backing_inode E) (v_full_name_hash E) (v_flags_word E) (v_run E)
    (v_hash_min E) (try_to_unlazy E)).
Lemma consult_framed st :
  match consult buf st with inl r => framed st r.2 | inr (_, st') => framed st st' end.
Proof.
  unfold consult_policy.
  pose proof (lookup_run (nd_path (wk_nd st)) (nd_inode (wk_nd st)) (nd_last (wk_nd st))
    BPF_NAMEI_EXT_LOOKUP (nd_flags (wk_nd st) ∖ {[LOOKUP_RCU]}) buf (wk_maps st)) as Hw.
  destruct (namei_ext_lookup _ _ _ _ _ _ _ _ _ _ _) as [[error r] w]. cbn in Hw.
  assert (framed st (mk_walk (wk_nd st) (wk_targets st) w)) as F1 by by apply framed_maps.
  destruct (negb _); [etrans; [exact F1|apply fail_unlazied_framed]|].
  assert (ts_table (if r_target_pending r
    then namei_ext_resolve_target (v_hash_min E) r (nd_has LOOKUP_RCU (wk_nd st)) (wk_targets st)
    else (0, r, wk_targets st)).2 = ts_table (wk_targets st)) as Ht
    by (destruct (r_target_pending r); [apply resolve_target_table|done]).
  cbn [wk_targets]. destruct (if r_target_pending r then _ else _) as [[error' r'] ts]. cbn in Ht.
  assert (framed st (mk_walk (wk_nd st) ts w)) as F2 by by apply framed_maps.
  destruct (negb _); [etrans; [exact F2|apply fail_unlazied_framed]|].
  destruct (_ && _); [|done]. pose proof (try_to_unlazy_framed (mk_walk (wk_nd st) ts w)) as F3.
  destruct (try_to_unlazy E _) as [[] st1]; cbn in *; by etrans.
Qed.

Abbreviation common := (walk_component_common (lookup_fast E) (lookup_slow E) put_link (step_into E)).
Lemma common_framed flags st : framed st (common flags st).2.
Proof. unfold walk_component_common, lookup_slow. framing. Qed.
#[local] Hint Resolve common_framed : framed.

Lemma walk_component_framed flags st :
  framed st (walk_component E enabled managed buf flags st).2.
Proof.
  unfold walk_component, Walk.walk_component. destruct (negb _).
  { destruct (_ && _); [|apply handle_dots_framed].
    etrans; [by apply framed_put_link|apply handle_dots_framed]. }
  destruct (enabled && _); [|apply common_framed]. unfold walk_component_namei_ext.
  pose proof (consult_framed st) as F. destruct (consult buf st) as [r|[r st1]]; [done|].
  etrans; [exact F|]. clear F st. destruct (r_target_active r).
  - unfold namei_ext_apply_target. framing.
  - unfold with_redirect, namei_ext_hash_redirect, namei_ext_apply_redirect. framing.
Qed.
#[local] Hint Resolve walk_component_framed : framed.

(** ** A pathname *)

Lemma may_lookup_framed st : framed st (may_lookup E st).2.
Proof. unfold may_lookup. framing. Qed.
#[local] Hint Resolve may_lookup_framed : framed.

Lemma classify_framed w name st :
  framed st (on_nd (λ _, (classify E w (set_last name (wk_nd st))).2) st).
Proof. apply framed_nd; [done|]. unfold classify. repeat (case_match; simplify_eq/=); auto. Qed.

Lemma loop_framed fuel : ∀ name names st r,
  link_path_walk_loop E enabled managed buf fuel name names st = Some r → framed st r.2.
Proof.
  induction fuel as [|fuel IH]; [done|]. intros name names st r. cbn [link_path_walk_loop].
  pose proof (may_lookup_framed st) as F. destruct (may_lookup E st) as [err st1]. cbn in F.
  destruct (negb _); [by intros [= <-]|]. unfold hash_name.
  destruct (hash_name_loop 0 0 name) as [[w len] rest]. set (q := mk_qstr _ _ _).
  pose proof (classify_framed w q st1) as F2.
  destruct (classify E w _) as [err' nd]. cbn in F2. set (st2 := on_nd (λ _, nd) st1) in *.
  assert (framed st st2) as F3 by by etrans. clearbody st2. clear F F2.
  destruct (_ <? 0); [by intros [= <-]|].
  assert (∀ name names r', framed st r'.2 →
    (let '(link, st) := r' in
     match link with
     | PErr e => Some (e, st)
     | PPtr body => link_path_walk_loop E enabled managed buf fuel body (name :: names) st
     | PNull =>
         if negb (v_can_lookup E (p_dentry (nd_path (wk_nd st)))) then
           let '(ok, st) := if rcu st then try_to_unlazy E st else (true, st) in
           Some (if negb ok then - ECHILD else - ENOTDIR, st)
         else link_path_walk_loop E enabled managed buf fuel name names st
     end) = Some r → framed st r.2) as Hnext.
  { intros name' names' [[|body|e] st'] F; cbn in F.
    - destruct (negb _); [|intros Hr; etrans; [exact F|by eapply IH]].
      pose proof (try_to_unlazy_framed st') as F'. destruct (rcu st'); [|by intros [= <-]].
      destruct (try_to_unlazy E st') as [ok st'']. intros [= <-]. by etrans.
    - intros Hr. etrans; [exact F|by eapply IH].
    - by intros [= <-]. }
  destruct (at_nul _).
  - destruct names as [|name' names']; [intros [= <-]; by apply framed_nd; auto|].
    apply Hnext. etrans; [exact F3|apply walk_component_framed].
  - apply Hnext. etrans; [exact F3|apply walk_component_framed].
Qed.
Lemma link_path_walk_framed fuel s st r :
  link_path_walk E enabled managed buf fuel s st = Some r → framed st r.2.
Proof.
  unfold link_path_walk. set (st1 := on_nd _ st).
  assert (framed st st1) as F by (apply framed_nd; auto; done). clearbody st1.
  destruct s as [|body|e]; [intros [= <-]; by apply framed_nd; auto| |by intros [= <-]].
  destruct (at_nul _); [intros [= <-]; by apply framed_nd; auto|].
  intros Hr. etrans; [exact F|by eapply loop_framed].
Qed.

Lemma lookup_last_framed st r : lookup_last E enabled managed buf st = Some r → framed st r.2.
Proof.
  unfold lookup_last, Walk.lookup_last.
  assert (∀ st', framed st st' → framed st (walk_component E enabled managed buf WALK_TRAILING st').2)
    as Hgo by (intros st' F; etrans; [exact F|apply walk_component_framed]).
  case_bool_decide; [|by intros [= <-]; apply Hgo].
  destruct (trailing_slashes _) as [slash|]; [|done]. intros [= <-]. apply Hgo.
  destruct slash; [by apply framed_nd; auto|done].
Qed.

Lemma lookup_loop_framed fuel links : ∀ s st r,
  lookup_loop E enabled managed buf links fuel s st = Some r → framed st r.2.
Proof.
  induction links as [|links IH]; [done|]. intros s st r. cbn [lookup_loop].
  destruct (link_path_walk _ _ _ _ _ _ st) as [[err st1]|] eqn:H1; [|done].
  apply link_path_walk_framed in H1. cbn in H1 |- *. destruct (negb _); [by intros [= <-]|].
  destruct (lookup_last _ _ _ _ st1) as [[link st2]|] eqn:H2; [|done].
  apply lookup_last_framed in H2. cbn in H2 |- *. destruct link as [|body|e].
  - intros [= <-]. by etrans.
  - intros Hr. etrans; [exact H1|]. etrans; [exact H2|]. by eapply IH.
  - intros Hr. etrans; [exact H1|]. etrans; [exact H2|]. by eapply IH.
Qed.

Lemma start_at_framed p st st' : framed st st' → framed st (start_at E p st').
Proof.
  intros F. unfold start_at. destruct (rcu st'); apply framed_nd; auto. by apply framed_get.
Qed.

Lemma root_at_start_framed s st st' :
  nd_root_preset (wk_nd st') = false → Q (nd_path (wk_nd st')) → framed st st' →
  framed st (root_at_start E s st').2.
Proof.
  intros Hp Hq F. unfold root_at_start. destruct (negb _); [done|].
  set (st1 := on_nd _ st').
  assert (framed st st1) as F1 by (apply framed_nd; [done|]; split; [done|right; auto]).
  destruct (rcu st1); cbn; apply framed_nd; auto. by apply framed_get.
Qed.

(** Where a walk may start, it may have its root. *)
Record good_starts (dfd : Z) (name : list Z) : Prop := {
  gs_pwd : Q (v_pwd E);
  gs_fd : ∀ p, v_fd E dfd = Some p → negb (at_nul name) && negb (v_can_lookup E (p_dentry p)) = false →
    Q p
}.

Lemma path_init_framed dfd name flags st :
  good_starts dfd name → framed st (path_init E dfd name flags st).2.
Proof.
  intros Hgs. unfold path_init. destruct (_ && _); [done|].
  set (flags' := if at_nul name then _ else _).
  set (st1 := if fl LOOKUP_RCU flags' then st else _).
  assert (framed st st1) as F1 by (unfold st1; destruct (fl _ _); [done|apply framed_nd; auto; done]).
  clearbody st1. set (st2 := on_nd _ st1).
  assert (framed st st2) as F2 by (apply framed_nd; auto). clearbody st2. clear F1 st1.
  destruct (nd_root_preset (wk_nd st2)) eqn:Hp.
  - destruct (_ && _); [done|]. pose proof (start_at_framed (nd_root (wk_nd st2)) _ _ F2) as F3.
    cbn. destruct (rcu _); [apply framed_nd; auto|done].
  - set (st3 := on_nd (set_root null_path) st2).
    assert (framed st st3) as F3.
    { apply framed_nd; [done|]. split; [done|right]. split; [auto|]. intros _. apply good_null. }
    assert (nd_root_preset (wk_nd st3) = false) as Hp3 by done. clearbody st3.
    assert (∀ p, Q p → framed st (root_at_start E name (start_at E p st3)).2) as Hat.
    { intros p Hq. apply root_at_start_framed; [..|by apply start_at_framed];
        unfold start_at; by destruct (rcu st3). }
    destruct (_ && _).
    + pose proof (nd_jump_root_framed st3) as F. destruct (nd_jump_root E st3) as [error st4].
      cbn in F. destruct (negb _); by etrans.
    + destruct (_ =? _); [apply Hat, (gs_pwd _ _ Hgs)|].
      destruct (v_fd E dfd) as [p|] eqn:Hfd; [|done].
      destruct (_ && _); [done|]. destruct (_ && _) eqn:Hc; [done|].
      by apply Hat, (gs_fd _ _ Hgs).
Qed.

Lemma handle_lookup_down_framed st : framed st (handle_lookup_down E st).2.
Proof. unfold handle_lookup_down. framing. Qed.

Lemma complete_walk_framed st : framed st (complete_walk E st).2.
Proof.
  unfold complete_walk. set (u := if rcu st then _ else _).
  assert (framed st u.2) as F.
  { unfold u. destruct (rcu st); [|done]. etrans; [|apply try_to_unlazy_framed].
    apply framed_nd; [done|]. destruct (nd_root_preset (wk_nd st)) eqn:Hp; cbn; [auto|].
    destruct (negb _); [|auto]. split; [done|right]. split; [auto|]. intros _. apply good_null. }
  clearbody u. destruct u as [ok st1]. cbn in F. framing.
Qed.

Lemma put_links_framed ss : ∀ st st', framed st st' → framed st (put_links ss st').
Proof. induction ss as [|s ss IH]; [done|]. intros st st' F. by apply IH, framed_put. Qed.

Lemma terminate_walk_framed st : framed st (terminate_walk st).
Proof.
  unfold terminate_walk. apply framed_nd; [|auto]. destruct (rcu st); [apply framed_nd; auto; done|].
  set (st1 := put_links _ _).
  assert (framed st st1) as F by (by apply put_links_framed, framed_put).
  destruct (nd_root_grabbed _); [|done]. apply framed_nd; auto. by apply framed_put.
Qed.

Lemma finish_lookupat_framed err st : framed st (finish_lookupat E err st).2.
Proof.
  unfold finish_lookupat. set (u := if (err =? 0) && _ then _ else _).
  assert (framed st u.2) as F1.
  { unfold u. destruct (_ && _); [|done]. pose proof (handle_lookup_down_framed st) as F.
    destruct (handle_lookup_down E st) as [e st1]. apply framed_nd; auto. }
  clearbody u. destruct u as [err1 st1]. cbn in F1.
  set (v := if err1 =? 0 then _ else _).
  assert (framed st v.2) as F2.
  { unfold v. destruct (err1 =? 0); [|done]. etrans; [exact F1|apply complete_walk_framed]. }
  clearbody v. destruct v as [err2 st2]. cbn in F2.
  destruct (_ =? 0); (etrans; [|apply terminate_walk_framed]); [apply framed_nd; auto|done].
Qed.

Lemma path_lookupat_framed links fuel dfd name flags st r :
  good_starts dfd name →
  path_lookupat E enabled managed buf links fuel dfd name flags st = Some r → framed st r.2.
Proof.
  intros Hgs. unfold path_lookupat. pose proof (path_init_framed dfd name flags st Hgs) as F1.
  destruct (path_init E dfd name flags st) as [s st1]. cbn in F1.
  set (u := match s with PPtr _ => _ | _ => _ end).
  assert (framed st u.2) as F2.
  { unfold u. destruct s; [done| |done]. destruct (fl _ _); [|done].
    pose proof (handle_lookup_down_framed st1) as F.
    destruct (handle_lookup_down E st1) as [e st2]. cbn in F. destruct (e <? 0); by etrans. }
  clearbody u. destruct u as [s' st2]. cbn in F2.
  destruct (lookup_loop _ _ _ _ _ _ _ st2) as [[err st3]|] eqn:Hl; [|done].
  apply lookup_loop_framed in Hl. cbn. intros [= <-]. etrans; [exact F2|]. etrans; [exact Hl|].
  apply finish_lookupat_framed.
Qed.
End steps.

#[export] Hint Resolve try_to_unlazy_framed lookup_fast_framed step_into_framed handle_dots_framed
  complete_walk_framed : framed.

Lemma any_starts {W} (E : vfs W) dfd name : good_starts E (Q:=any_root E) dfd name.
Proof. by split. Qed.
#[export] Hint Resolve any_starts : namei.

(** ** Opens

    Neither the calls of a file system under the directory's lock nor the checks
    of [do_open] are different. *)

Section open_frame.
Context {W : Type} (E : vfs W) (V : vopen W).
Context (enabled : bool) (managed : path → bool) (buf : namei_ext_redirect).
Implicit Types (st : walk W) (f : file).

Abbreviation framed := (framed anything (any_root E)).

Lemma with_maps_framed w st st' : framed st st' → framed st (with_maps w st').
Proof. by apply framed_maps. Qed.

Lemma open_dentry_framed tries : ∀ d st r st',
  open_dentry E V tries d st = Some (r, st') → framed st st'.
Proof.
  induction tries as [|tries IH]; [done|]. intros d st r st' Ho. cbn [open_dentry] in Ho.
  repeat (case_match; simplify_eq/=; try done).
  all: apply IH in Ho; etrans; [|exact Ho]; by apply with_maps_framed.
Qed.

Lemma lookup_open_framed tries op b f st res d f' st' :
  lookup_open E V tries op b f st = Some (res, d, f', st') → framed st st'.
Proof.
  unfold lookup_open. destruct (o_dead_dir V st); [by intros [= <- <- <- <-]|].
  destruct (open_dentry E V tries _ st) as [[r st1]|] eqn:Ho; [|done]. cbn.
  apply open_dentry_framed in Ho. destruct r as [e|d1]; [by intros [= <- <- <- <-]|].
  destruct (negb _); [by intros [= <- <- <- <-]|].
  destruct (create_flags V op b d1 st1) as [flag ce]. destruct (o_has_atomic_open V _).
  - unfold atomic_open. set (r := o_atomic_open V st1 d1 _). set (p := mk_path _ _). cbn [f_opened].
    assert (framed st (if fo_opened r then get_path p (with_maps (fo_maps r) st1)
      else with_maps (fo_maps r) st1)) as F.
    { destruct (fo_opened r); [apply framed_get|]; by apply with_maps_framed. }
    set (st2 := if fo_opened r then _ else _) in *. clearbody st2.
    repeat (case_match; simplify_eq/=); intros ?; by simplify_eq.
  - unfold lookup_create.
    repeat (case_match; simplify_eq/=); intros ?; simplify_eq; repeat apply with_maps_framed; done.
Qed.

Abbreviation deleg_wait := (λ st, let '(error, w) := o_break_deleg_wait V st in (error, with_maps w st)).
Abbreviation retry tries := (open_retry (o_want_write V) (lookup_open E V tries) deleg_wait).

Lemma open_retry_framed tries n op : ∀ f st r f' st',
  retry tries n op f st = Some (r, f', st') → framed st st'.
Proof.
  induction n as [|n IH]; [done|]. intros f st r f' st' Ho. cbn [open_retry] in Ho.
  set (got := bits _ _ && _) in Ho.
  destruct (lookup_open E V tries op got f st) as [[[[res b] f1] st1]|] eqn:Hl; [|done].
  apply lookup_open_framed in Hl. cbn in Ho. destruct res as [|d|e]; [by simplify_eq..|].
  destruct b; [|by simplify_eq]. destruct (o_break_deleg_wait V st1) as [error w].
  destruct (error =? 0); [|by simplify_eq; apply with_maps_framed].
  apply IH in Ho. etrans; [|exact Ho]. by apply with_maps_framed.
Qed.

Lemma finish_lookup_framed d st : framed st (finish_lookup put_link (step_into E) d st).2.
Proof. unfold finish_lookup. framing. Qed.
#[local] Hint Resolve finish_lookup_framed : framed.

Lemma fast_open_framed flag st r :
  lookup_fast_for_open (v_inode E) (lookup_fast E) flag st = Some r → framed st r.2.
Proof.
  unfold lookup_fast_for_open. destruct (trailing_slashes _) as [slash|]; [|done]. cbn.
  destruct (_ && slash); [by intros [= <-]|]. destruct (_ && _); [by intros [= <-]|].
  set (st1 := if slash then _ else st).
  assert (framed st st1) as F by (unfold st1; destruct slash; [apply framed_nd; auto; done|done]).
  pose proof (lookup_fast_framed E (R:=anything) (Q:=any_root E) st1) as F2. clearbody st1.
  destruct (lookup_fast E st1) as [[|d|e] st2]; cbn in F2;
    [intros [= <-]; by etrans| |intros [= <-]; by etrans].
  destruct (_ && _); intros [= <-]; by etrans.
Qed.

Abbreviation common tries := (open_last_lookups_common (v_inode E) (try_to_unlazy E) (lookup_fast E)
  put_link (step_into E) (handle_dots E) (o_want_write V) (lookup_open E V tries) deleg_wait tries).

Lemma with_file_framed f st (x : link_res * walk W) r :
  framed st x.2 → (let '(res, st) := x in Some (res, f, st)) = Some r → framed st r.2.
Proof. destruct x. by intros ? [= <-]. Qed.

Lemma intent_framed op st : framed st (on_nd (λ nd, set_nd_flags (nd_flags nd ∪ op_intent op) nd) st).
Proof. apply framed_nd; auto; done. Qed.

Lemma dots_framed st : framed st
  (handle_dots E (if negb (nd_depth (wk_nd st) =? 0) then put_link st else st)).2.
Proof.
  destruct (negb _); [|apply handle_dots_framed].
  etrans; [by apply framed_put_link|apply handle_dots_framed].
Qed.

Lemma open_common_framed tries op f st r : common tries op f st = Some r → framed st r.2.
Proof.
  unfold open_last_lookups_common. pose proof (intent_framed op st) as F0. set (st0 := on_nd _ st) in *.
  destruct (negb (bool_decide _)).
  { apply with_file_framed. etrans; [exact F0|apply dots_framed]. }
  destruct (lookup_fast_for_open _ _ _ st0) as [[res st1]|] eqn:Hfast; [|done]. cbn [mbind option_bind].
  apply fast_open_framed in Hfast. cbn in Hfast. assert (framed st st1) as F1 by by etrans.
  clear F0 Hfast. clearbody st0.
  destruct res as [|d|e]; [| |by intros [= <-]].
  2: { apply with_file_framed. etrans; [exact F1|apply finish_lookup_framed]. }
  destruct (_ && _); [by intros [= <-]|]. set (u := if nd_has _ _ then _ else _).
  assert (framed st u.2) as F2.
  { unfold u. destruct (nd_has _ _); [|done]. etrans; [exact F1|apply try_to_unlazy_framed]. }
  clearbody u. destruct u as [ok st2]. cbn in F2. destruct (negb ok); [by intros [= <-]|].
  destruct (retry tries tries op f st2) as [[[x f3] st3]|] eqn:Ho; [|done]. cbn [mbind option_bind].
  apply open_retry_framed in Ho. assert (framed st st3) as F3 by by etrans. destruct x as [d|d|e].
  - intros [= <-]. apply framed_nd; auto. by apply framed_get, framed_put.
  - apply with_file_framed. etrans; [exact F3|apply finish_lookup_framed].
  - by intros [= <-].
Qed.

Lemma open_last_framed tries op f st r :
  PathOpen.open_last_lookups E V enabled managed buf tries op f st = Some r → framed st r.2.
Proof.
  unfold PathOpen.open_last_lookups, Walk.open_last_lookups.
  destruct (enabled && _); [|by apply open_common_framed].
  unfold open_last_lookups_namei_ext. pose proof (intent_framed op st) as F0.
  set (st0 := on_nd _ st) in *. clearbody st0. destruct (negb (bool_decide _)).
  { apply with_file_framed. etrans; [exact F0|apply dots_framed]. }
  pose proof (consult_framed E (Q:=any_root E) (anything_run E) buf st0) as F1.
  destruct (consult_policy _ _ _ _ _ _ buf st0) as [x|[rd st1]].
  { apply with_file_framed. by etrans. }
  assert (framed st st1) as F2 by by etrans. clear F0 F1 st0.
  destruct (r_target_active rd).
  - destruct (negb (nd_has _ _)); [intros [= <-]; cbn; destruct (negb _); [by apply framed_put|done]|].
    unfold namei_ext_apply_target.
    repeat (case_match; simplify_eq/=); intros ?; simplify_eq/=; framing_end.
  - unfold with_redirect_open. destruct (namei_ext_apply_redirect _ _) as [[saved nd]|] eqn:Ha;
      [|intros Hc; apply open_common_framed in Hc; by etrans].
    unfold namei_ext_apply_redirect in Ha. destruct (negb _); [done|]. injection Ha as <- <-.
    unfold namei_ext_hash_redirect. set (q0 := mk_qstr _ _ _).
    assert (∃ q e, (if v_op_hash E (p_dentry (nd_path (set_last q0 (wk_nd st1))))
      then let '(e, q) := v_hash E (p_dentry (nd_path (set_last q0 (wk_nd st1))))
             (nd_last (set_last q0 (wk_nd st1))) in (e, set_last q (set_last q0 (wk_nd st1)))
      else (0, set_last q0 (wk_nd st1))) = (e, set_last q (wk_nd st1))) as (q & e & ->).
    { destruct (v_op_hash E _); [|by eexists _, _]. destruct (v_hash E _ _) as [e q].
      by eexists _, _. }
    set (st2 := on_nd _ st1). assert (framed st st2) as F3 by (apply framed_nd; auto).
    destruct (e <? 0); [intros [= <-]; cbn; apply framed_nd; auto|].
    destruct (common tries op f st2) as [[[res f1] st3]|] eqn:Ho; [|done].
    apply open_common_framed in Ho. intros [= <-]. cbn in *. apply framed_nd; auto. by etrans.
Qed.

(** ** A whole open *)

Lemma open_checked_framed b acc flag f st : framed st (open_checked V b acc flag f st).2.
Proof.
  unfold open_checked, vfs_open, handle_truncate.
  repeat (case_match; simplify_eq/=); repeat first [apply with_maps_framed|apply framed_get]; done.
Qed.

Lemma do_open_framed op f st : framed st (do_open E V op f st).2.
Proof.
  unfold do_open, open_file. pose proof (complete_walk_framed E (R:=anything) (Q:=any_root E) st) as F.
  set (u := if negb (_ || _) then _ else _).
  assert (framed st u.2) as F1 by (unfold u; by destruct (negb _)).
  clearbody u. destruct u as [error st1]. cbn in F1. destruct (negb _); [done|].
  destruct (negb _); [done|]. destruct (_ && _); [done|].
  assert (∀ b acc flag, framed st (open_checked V b acc flag f st1).2) as F2
    by (intros; etrans; [exact F1|apply open_checked_framed]).
  destruct (f_created f); [done|]. destruct (_ && _); [|done]. by destruct (negb _).
Qed.

Lemma fput_close_framed f st : framed st (fput_close f st).
Proof. unfold fput_close. destruct (f_opened f); [by apply framed_put|done]. Qed.
Context (fuel tries : nat).

Lemma open_loop_framed rounds op : ∀ s f st r,
  open_loop E V enabled managed buf fuel tries rounds op s f st = Some r → framed st r.2.
Proof.
  induction rounds as [|rounds IH]; [done|]. intros s f st r. cbn [open_loop].
  destruct (link_path_walk _ _ _ _ _ _ st) as [[err st1]|] eqn:H1; [|done].
  apply (link_path_walk_framed E (Q:=any_root E) (anything_run E)) in H1. cbn in H1 |- *. destruct (negb _); [by intros [= <-]|].
  destruct (PathOpen.open_last_lookups E V _ _ _ _ op f st1) as [[[link f2] st2]|] eqn:H2; [|done].
  apply open_last_framed in H2. cbn in H2 |- *.
  destruct link as [|body|e]; [intros [= <-]; by etrans|..];
    (intros Hr; etrans; [exact H1|]; etrans; [exact H2|]; by eapply IH).
Qed.

Lemma path_openat_framed rounds dfd name op flags st r :
  bits O_TMPFILE (op_open_flag op) = false → bits O_PATH (op_open_flag op) = false →
  path_openat E V enabled managed buf rounds fuel tries dfd name op flags st = Some r → framed st r.2.
Proof.
  intros Ht Hp. unfold path_openat. set (f := mk_file false false null_path).
  destruct (negb _); [by intros [= <-]|]. rewrite Ht, Hp.
  pose proof (path_init_framed E (R:=anything) dfd name flags st (any_starts E dfd name)) as F1.
  destruct (path_init E dfd name flags st) as [s st1]. cbn in F1.
  destruct (open_loop _ _ _ _ _ _ _ _ _ s f st1) as [[[e f2] st2]|] eqn:Hl; [|done].
  apply open_loop_framed in Hl. cbn in Hl |- *. set (u := if e =? 0 then _ else _).
  assert (framed st u.2) as F2.
  { unfold u. etrans; [exact F1|]. etrans; [exact Hl|]. destruct (e =? 0); [apply do_open_framed|done]. }
  clearbody u. destruct u as [[e3 f3] st3]. cbn in F2 |- *.
  assert (framed st (terminate_walk st3)) as F3 by (etrans; [exact F2|apply terminate_walk_framed]).
  destruct (_ && _); intros [= <-]; [done|]. etrans; [exact F3|apply fput_close_framed].
Qed.
End open_frame.
