(* ===== verification/PathExact.v ===== *)
(** * Skipping the policy along a whole pathname

    The static key and the prefilter decide at every component whether to
    consult the policy; a lookup cannot tell. *)

From S2P Require Import Prelude Abi PolicyLib Kernel Targets Scopes ScopeApi ScopeSystem Cgroups.
From S2P Require Import CgroupFacts Dispatch System Lookup Walk WalkProps SystemProps PathWalk.
From S2P Require Import PathOpen.

Section exact.
Context {W : Type} (E : vfs W) (buf : namei_ext_redirect).

(** Components that walk alike make lookups alike. *)
Section ext.
Context (e1 e2 : bool) (m1 m2 : path → bool).
Context (Hcomp : ∀ flags (st : walk W),
  walk_component E e1 m1 buf flags st = walk_component E e2 m2 buf flags st).

Lemma loop_ext fuel : ∀ name names st,
  link_path_walk_loop E e1 m1 buf fuel name names st =
    link_path_walk_loop E e2 m2 buf fuel name names st.
Proof.
  induction fuel as [|fuel IH]; intros name names st; [done|]. cbn [link_path_walk_loop].
  destruct (may_lookup E st) as [err st1]. destruct (negb _); [done|].
  destruct (hash_name E name (wk_nd st1)) as [[w rest] nd].
  destruct (classify E w nd) as [err2 nd2]. destruct (err2 <? 0); [done|].
  set (name' := if at_nul rest then _ else _).
  destruct (at_nul name'); [destruct names as [|name1 names1]; [done|]|];
    rewrite Hcomp; destruct (walk_component E e2 m2 buf _ _) as [[|body|e] st2]; try done;
    by destruct (negb _).
Qed.

Lemma link_path_walk_ext fuel s st :
  link_path_walk E e1 m1 buf fuel s st = link_path_walk E e2 m2 buf fuel s st.
Proof. unfold link_path_walk. destruct s; [done| |done]. by rewrite loop_ext. Qed.

Lemma lookup_last_ext st : lookup_last E e1 m1 buf st = lookup_last E e2 m2 buf st.
Proof.
  pose proof (Hcomp WALK_TRAILING) as Hc. unfold walk_component in Hc.
  unfold lookup_last, Walk.lookup_last. destruct (bool_decide _); [|by rewrite Hc].
  destruct (trailing_slashes _); [|done]. cbn. by rewrite Hc.
Qed.

Lemma lookup_loop_ext links fuel : ∀ s st,
  lookup_loop E e1 m1 buf links fuel s st = lookup_loop E e2 m2 buf links fuel s st.
Proof.
  induction links as [|links IH]; intros s st; [done|]. cbn [lookup_loop].
  rewrite link_path_walk_ext. destruct (link_path_walk _ _ _ _ _ _ _) as [[err st1]|]; [|done].
  cbn. destruct (negb _); [done|]. rewrite lookup_last_ext.
  destruct (lookup_last _ _ _ _ _) as [[[|body|e] st2]|]; cbn; done.
Qed.

Lemma path_lookupat_ext links fuel dfd name flags st :
  path_lookupat E e1 m1 buf links fuel dfd name flags st =
    path_lookupat E e2 m2 buf links fuel dfd name flags st.
Proof.
  unfold path_lookupat. destruct (path_init E dfd name flags st) as [s st1].
  destruct (match s with PPtr _ => _ | _ => _ end) as [s' st2]. by rewrite lookup_loop_ext.
Qed.

Lemma filename_lookup_ext links fuel nested dfd name flags root st :
  filename_lookup E e1 m1 buf links fuel nested dfd name flags root st =
    filename_lookup E e2 m2 buf links fuel nested dfd name flags root st.
Proof.
  unfold filename_lookup. rewrite path_lookupat_ext.
  destruct (path_lookupat _ _ _ _ _ _ _ _ _ _) as [[[err p] st1]|]; [|done]. cbn.
  rewrite path_lookupat_ext. destruct (if err =? - ECHILD then _ else _) as [[[err2 p2] st2]|]; [|done].
  cbn. by rewrite path_lookupat_ext.
Qed.

Lemma filename_parentat_ext fuel nested dfd name flags root st :
  filename_parentat E e1 m1 buf fuel nested dfd name flags root st =
    filename_parentat E e2 m2 buf fuel nested dfd name flags root st.
Proof.
  assert (∀ flags st, path_parentat E e1 m1 buf fuel dfd name flags st =
    path_parentat E e2 m2 buf fuel dfd name flags st) as Hat.
  { intros f st'. unfold path_parentat. destruct (path_init E dfd name f st') as [s st1].
    by rewrite link_path_walk_ext. }
  unfold filename_parentat. rewrite Hat.
  destruct (path_parentat _ _ _ _ _ _ _ _ _) as [[[err p] st1]|]; [|done]. cbn.
  rewrite Hat. destruct (if err =? - ECHILD then _ else _) as [[[err2 p2] st2]|]; [|done].
  cbn. by rewrite Hat.
Qed.

(** So do last components that open alike. *)
Context (V : vopen W) (rounds fuel tries : nat) (op : open_flags).
Context (Hlast : ∀ f (st : walk W),
  PathOpen.open_last_lookups E V e1 m1 buf tries op f st =
    PathOpen.open_last_lookups E V e2 m2 buf tries op f st).

Lemma open_loop_ext n : ∀ s f st,
  open_loop E V e1 m1 buf fuel tries n op s f st = open_loop E V e2 m2 buf fuel tries n op s f st.
Proof.
  induction n as [|n IH]; intros s f st; [done|]. cbn [open_loop].
  rewrite link_path_walk_ext. destruct (link_path_walk _ _ _ _ _ _ _) as [[err st1]|]; [|done].
  cbn. destruct (negb _); [done|]. rewrite Hlast.
  destruct (PathOpen.open_last_lookups _ _ _ _ _ _ _ _ _) as [[[[|body|e] f2] st2]|]; cbn; done.
Qed.

Lemma path_openat_ext dfd name flags st :
  path_openat E V e1 m1 buf rounds fuel tries dfd name op flags st =
    path_openat E V e2 m2 buf rounds fuel tries dfd name op flags st.
Proof.
  unfold path_openat, do_tmpfile, do_o_path. rewrite !path_lookupat_ext.
  destruct (path_init E dfd name flags st) as [s st1]. by rewrite open_loop_ext.
Qed.

Lemma open_attempts_ext dfd name st :
  open_attempts E V e1 m1 buf rounds fuel tries dfd name op st =
    open_attempts E V e2 m2 buf rounds fuel tries dfd name op st.
Proof.
  unfold open_attempts. rewrite path_openat_ext.
  destruct (path_openat _ _ _ _ _ _ _ _ _ _ _ _ _) as [[[err f] st1]|]; [|done]. cbn.
  rewrite path_openat_ext. destruct (if err =? - ECHILD then _ else _) as [[[err2 f2] st2]|]; [|done].
  cbn. by rewrite path_openat_ext.
Qed.
End ext.

(** A component whose policy would pass is walked as without the extension. *)
Lemma component_skip enabled managed flags (st : walk W) :
  (∀ p, enabled = false ∨ managed p = false →
     ∀ w c, v_run E w p c = (BPF_NAMEI_EXT_PASS, w, c)) →
  walk_component E enabled managed buf flags st = walk_component E true (λ _, true) buf flags st.
Proof.
  intros Hp. unfold walk_component. destruct enabled.
  - apply walk_prefilter. auto.
  - symmetry. apply walk_pass_plain. auto.
Qed.

Lemma open_skip V enabled managed tries op f (st : walk W) :
  (∀ p, enabled = false ∨ managed p = false →
     ∀ w c, v_run E w p c = (BPF_NAMEI_EXT_PASS, w, c)) →
  PathOpen.open_last_lookups E V enabled managed buf tries op f st =
    PathOpen.open_last_lookups E V true (λ _, true) buf tries op f st.
Proof.
  intros Hp. unfold PathOpen.open_last_lookups. destruct enabled.
  - apply open_prefilter. auto.
  - symmetry. apply open_pass_plain. auto.
Qed.
End exact.

(** ** The lookups of a running system *)

Section system.
Context (hash_min : Z → nat) (hash_min_lt : ∀ k, (hash_min k < scope_buckets)%nat).
Context (bpf_link_by_id bpf_link_get_from_fd bpf_prog_by_id bpf_prog_get : Z → Z + Z).
Context (delete_safe_at : bpf_array → nat → bpf_array).
Context {W : Type} (bpf_prog_run : Z → bpf_program W) (cgroup_id : Z → Z) (E : vfs W).

Lemma system_lookup_skips st current buf :
  sys_reachable hash_min bpf_link_by_id bpf_link_get_from_fd bpf_prog_by_id bpf_prog_get
    delete_safe_at st →
  live st current →
  v_run E = policy_of hash_min bpf_prog_run cgroup_id st current →
  let managed := namei_ext_parent_maybe_managed hash_min (gs_scopes st) in
  ∀ fl w, walk_component E (key_enabled st) managed buf fl w =
    walk_component E true (λ _, true) buf fl w.
Proof.
  intros Hr Hl Hrun managed fl w. apply component_skip. intros p Hp w' c. rewrite Hrun.
  by eapply skipped_passes.
Qed.

Lemma system_open_skips st current buf V tries op :
  sys_reachable hash_min bpf_link_by_id bpf_link_get_from_fd bpf_prog_by_id bpf_prog_get
    delete_safe_at st →
  live st current →
  v_run E = policy_of hash_min bpf_prog_run cgroup_id st current →
  let managed := namei_ext_parent_maybe_managed hash_min (gs_scopes st) in
  ∀ f w, PathOpen.open_last_lookups E V (key_enabled st) managed buf tries op f w =
    PathOpen.open_last_lookups E V true (λ _, true) buf tries op f w.
Proof.
  intros Hr Hl Hrun managed f w. apply open_skip. intros p Hp w' c. rewrite Hrun.
  by eapply skipped_passes.
Qed.

End system.
