(* ===== verification/PathView.v ===== *)
(** * The name space a policy makes

    A reference for pathname resolution under a policy: directories, a view of
    their names, and one recursive function over the components of a pathname,
    without modes, reference counts, stacks or caches.  [PathResolve] proves
    that [filename_lookup] computes it. *)

From S2P Require Import Prelude Abi PolicyLib PolicyFacts Kernel.
From S2P Require Import Targets Lookup LookupProps Walk PathWalk.

(** ** Pathnames *)

Definition flush (cur : list Z) : list (list Z) := match cur with [] => [] | _ => [cur] end.

(** The components of a string, up to its NUL. *)
Fixpoint components (cur s : list Z) : list (list Z) :=
  match s with
  | [] => flush cur
  | c :: s' =>
      if c =? 0 then flush cur else
      if c =? chr "/" then flush cur ++ components [] s' else components (cur ++ [c]) s'
  end.

(** Whether it ends with a slash. *)
Fixpoint ends_in_slash (last : bool) (s : list Z) : bool :=
  match s with
  | [] => last
  | c :: s' => if c =? 0 then last else ends_in_slash (c =? chr "/") s'
  end.

Inductive token := TDot | TDotDot | TName (n : list Z).

Definition token_of (c : list Z) : token :=
  if bool_decide (c = [chr "."]) then TDot else
  if bool_decide (c = [chr "."; chr "."]) then TDotDot else TName c.

Definition is_name (t : token) : bool := match t with TName _ => true | _ => false end.

(** ** Policies

    What a policy makes of a name in a directory; of a target it selects, the
    path, or why there is none. *)
Inductive decision := DPass | DName (n : list Z) | DFail (e : Z) | DTarget (t : Z + path).

(** The decision in the answer of a policy, for the registry [ts]. *)
Definition decision_of (hash_min : Z → nat) (ts : targets_state) (action : Z)
  (c : bpf_namei_ext_ctx) : decision :=
  if action <? 0 then DFail action else
  if action =? BPF_NAMEI_EXT_PASS then DPass else
  if action =? BPF_NAMEI_EXT_REDIRECT then
    if namei_ext_redirect_valid c then DName (ctx_redirect c) else DFail (- EINVAL)
  else if action =? BPF_NAMEI_EXT_HIDE then DFail (- ENOENT)
  else if action =? BPF_NAMEI_EXT_SELECT_TARGET then
    DTarget (if ctx_target_id c =? 0 then inl (- EINVAL) else
      match namei_ext_find_target_rcu hash_min (ctx_cgroup_id c) (ctx_target_id c) ts with
      | Some t => inr (tgt_path t)
      | None => inl (- ENOENT)
      end)
  else DFail (- EINVAL).

(** ** A tree

    [child] is the dentry of a name in a directory, [cross] where one gets on
    from a directory to a dentry, mounts on it included, [body] the body of a
    symlink. *)
Record tree := mk_tree {
  child : path → list Z → Z;
  cross : path → Z → path;
  body : Z → list Z;
  view : path → list Z → decision
}.

Section resolve.
Context {W : Type} (E : vfs W) (T : tree) (root : path).

(** What a component does: fail, move, or follow a symlink, whose body is a
    path to jump to or has components of its own. *)
Inductive move :=
  | MErr (e : Z) | MTo (p : path) | MJump (p : path) | MLink (dir : path) (s : list Z).

(** Whether [may_follow_link] forbids a trailing symlink. *)
Definition link_forbidden (dir link : path) : bool :=
  let dir_inode := v_inode E (p_dentry dir) in
  let inode := v_inode E (p_dentry link) in
  v_protected_symlinks E && negb (v_owner_is_fsuid E (p_mnt dir) inode) &&
  v_sticky_world_writable E dir_inode && negb (v_same_owner E dir_inode inode).

Definition follow_link (links : nat) (trailing : bool) (dir link : path) : move :=
  if (links =? 0)%nat then MErr (- ELOOP) else
  if trailing && link_forbidden dir link then MErr (- EACCES) else
  if v_nosymfollow E (p_mnt link) then MErr (- ELOOP) else
  let error := v_security_follow_link E (p_dentry link) false in
  if negb (error =? 0) then MErr error else
  let s := body T (p_dentry link) in
  let dir := if at_slash s then root else dir in
  let s := skip_slashes s in
  if at_nul s then MJump dir else MLink dir s.

Definition enter (links : nat) (trailing follow : bool) (dir : path) (d : Z) : move :=
  let p := cross T dir d in
  if bool_decide (v_inode E (p_dentry p) = None) then MErr (- ENOENT) else
  if v_is_symlink E (p_dentry p) && follow then follow_link links trailing dir p else MTo p.

Definition enter_target (t : Z + path) : move :=
  match t with
  | inl e => MErr e
  | inr p => if v_can_lookup E (p_dentry p) then MTo p else MErr (- ENOTDIR)
  end.

Definition step_name (links : nat) (trailing follow : bool) (dir : path) (n : list Z) : move :=
  match view T dir n with
  | DPass => enter links trailing (negb trailing || follow) dir (child T dir n)
  | DName n' => enter links trailing (negb trailing || follow) dir (child T dir n')
  | DFail e => MErr e
  | DTarget t => enter_target t
  end.

(** The parent, not above the root; mounts on it are crossed. *)
Definition step_dotdot (dir : path) : move :=
  let arrive := enter 0 false false in
  if path_equal dir root then arrive dir (p_dentry dir) else
  if p_dentry dir =? v_mnt_root E (p_mnt dir) then
    match v_choose_mountpoint E (p_mnt dir) root with
    | None => arrive dir (p_dentry dir)
    | Some q => arrive q (v_parent E (p_dentry q))
    end
  else arrive dir (v_parent E (p_dentry dir)).

Definition step (links : nat) (trailing follow : bool) (dir : path) (c : list Z) : move :=
  match token_of c with
  | TDot => MTo dir
  | TDotDot => step_dotdot dir
  | TName n => step_name links trailing follow dir n
  end.

(** What the caller wants of the last component: follow a symlink; a
    directory; and whether the pathname being walked ends with a slash. *)
Record wish := mk_wish { w_follow : bool; w_directory : bool; w_slash : bool }.

Definition at_last (w : wish) (c : list Z) : wish :=
  let s := w_slash w && is_name (token_of c) in
  mk_wish (w_follow w || s) (w_directory w || s) (w_slash w).

Definition arrived (w : wish) (p : path) : Z + path :=
  if w_directory w && negb (v_can_lookup E (p_dentry p)) then inl (- ENOTDIR) else inr p.

(** The last component of a lookup: what is then wished, and the move. *)
Definition final_lookup (links : nat) (w : wish) (dir : path) (c : list Z) : wish * move :=
  let w := at_last w c in (w, step links true (w_follow w) dir c).

(** [links] more symlinks may be followed; [final] is the last component. *)
Variable final : nat → wish → path → list Z → wish * move.

Fixpoint resolve_with (links : nat) : wish → path → list (list Z) → Z + path :=
  fix walk (w : wish) (dir : path) (cs : list (list Z)) {struct cs} : Z + path :=
  match cs with
  | [] => arrived w dir
  | c :: cs' =>
      let err := v_may_exec E (v_inode E (p_dentry dir)) false in
      if negb (err =? 0) then inl err else
      let trailing := match cs' with [] => true | _ => false end in
      let '(w, m) := if trailing then final links w dir c
                     else (w, step links false (w_follow w) dir c) in
      match m with
      | MErr e => inl e
      | MTo p =>
          if trailing then arrived w p else
          if negb (v_can_lookup E (p_dentry p)) then inl (- ENOTDIR) else walk w p cs'
      | MJump p =>
          match links with
          | O => inl (- ELOOP)
          | S links' =>
              if trailing then arrived w p else
              if negb (v_can_lookup E (p_dentry p)) then inl (- ENOTDIR)
              else resolve_with links' w p cs'
          end
      | MLink dir' s =>
          match links with
          | O => inl (- ELOOP)
          | S links' =>
              let w := if trailing
                       then mk_wish (w_follow w) (w_directory w) (ends_in_slash false s)
                       else w in
              resolve_with links' w dir' (components [] s ++ cs')
          end
      end
  end.

(** The path a pathname starts at; [ro] is a root given by the caller. *)
Definition start_path (ro : option path) (dfd : Z) (name : list Z) (flags : flags_t) : Z + path :=
  match ro with
  | Some r => if negb (at_nul name) && negb (v_can_lookup E (p_dentry r)) then inl (- ENOTDIR)
              else inr r
  | None =>
      if at_slash name then inr (v_fs_root E) else
      if dfd =? AT_FDCWD then inr (v_pwd E) else
      match v_fd E dfd with
      | None => inl (- EBADF)
      | Some p =>
          if fl LOOKUP_LINKAT_EMPTY flags && negb (v_fd_search E dfd) then inl (- ENOENT) else
          if negb (at_nul name) && negb (v_can_lookup E (p_dentry p)) then inl (- ENOTDIR)
          else inr p
      end
  end.
End resolve.

(** What a pathname resolves to. *)
Definition pathname_with {W} (E : vfs W) (T : tree)
  (final : path → nat → wish → path → list Z → wish * move) (links : nat) (ro : option path)
  (dfd : Z) (name : list Z) (flags : flags_t) : Z + path :=
  match start_path E ro dfd name flags with
  | inl e => inl e
  | inr p =>
      let root := default (v_fs_root E) ro in
      resolve_with E T root (final root) links
        (mk_wish (fl LOOKUP_FOLLOW flags) (fl LOOKUP_DIRECTORY flags) (ends_in_slash false name))
        p (components [] name)
  end.

Abbreviation resolve E T root := (resolve_with E T root (final_lookup E T root)).
Abbreviation resolve_pathname E T := (pathname_with E T (final_lookup E T)).

(** What the caller gets. *)
Definition answers (r : Z + path) (err : Z) (p : path) : Prop :=
  match r with
  | inl e => err = e ∧ p = null_path
  | inr q => err = 0 ∧ p = q
  end.
