(* ===== verification/PathNames.v ===== *)
(** * Pathnames as strings and as components

    What the loop of [link_path_walk] reads of a string is its next component;
    the word of its last eight bytes tells dots from names. *)

From S2P Require Import Prelude Abi Kernel Targets Lookup Walk.
From S2P Require Import PathWalk PathInv PathRefs PathTotal PathView.

(** Bytes of a component. *)
Definition letter (c : Z) : Prop := c ≠ 0 ∧ c ≠ chr "/".

(** ** The word of a component *)

Lemma Forall_snoc {A} (P : A → Prop) l x : Forall P (l ++ [x]) ↔ Forall P l ∧ P x.
Proof. by rewrite Forall_app, Forall_singleton. Qed.

Lemma name_word_snoc l c comp :
  name_word l (comp ++ [c]) = u64 (Z.shiftl (name_word l comp) 8 + c).
Proof. unfold name_word. by rewrite foldl_app. Qed.

(** A word whose bytes above its [n] low ones are 0, of a component of bytes
    that are not 0: the component has at most [n] bytes, if [n] is less than 8. *)
Lemma word_digits c x w :
  is_byte x → u64 (Z.shiftl w 8 + x) = c →
  x = c mod 256 ∧ w mod 2 ^ 56 = c / 256.
Proof.
  intros [Hx1 Hx2] <-. unfold u64, wrap. rewrite Z.shiftl_mul_pow2 by lia.
  change (2 ^ 64) with (256 * 2 ^ 56). change (2 ^ 8) with 256 in *.
  rewrite Z.rem_mul_r by lia.
  replace ((w * 256 + x) mod 256) with x by (rewrite Z.add_comm, Z_mod_plus_full, Z.mod_small; lia).
  replace ((w * 256 + x) / 256) with w by (rewrite Z.div_add_l, Z.div_small; lia).
  split.
  - rewrite Z.mul_comm, Z_mod_plus_full, Z.mod_small; lia.
  - rewrite Z.mul_comm, Z.div_add, Z.div_small; lia.
Qed.

Lemma name_word_zero comp n :
  Forall is_byte comp → Forall letter comp → 8 ≤ n ≤ 64 →
  name_word 0 comp mod 2 ^ n = 0 → comp = [].
Proof.
  intros Hb Hl Hn Hw. destruct comp as [|c comp _] using rev_ind; [done|].
  apply Forall_snoc in Hb as [_ Hb], Hl as [_ [Hl _]]. rewrite name_word_snoc in Hw. exfalso. apply Hl.
  assert (u64 (Z.shiftl (name_word 0 comp) 8 + c) mod 256 = 0) as H0.
  { apply Z.mod_divide in Hw; [|lia]. apply Z.mod_divide; [lia|].
    etrans; [|exact Hw]. exists (2 ^ (n - 8)). change 256 with (2 ^ 8).
    rewrite <- Z.pow_add_r by lia. f_equal. lia. }
  destruct (word_digits _ c (name_word 0 comp) Hb eq_refl) as [Hc _]. congruence.
Qed.

Lemma word_is_dot comp :
  Forall is_byte comp → Forall letter comp →
  name_word 0 comp = LAST_WORD_IS_DOT ↔ comp = [chr "."].
Proof.
  intros Hb Hl. split; [|by intros ->].
  destruct comp as [|c comp _] using rev_ind; [done|]. rewrite name_word_snoc. intros Hw.
  apply Forall_snoc in Hb as [Hb Hc], Hl as [Hl _].
  destruct (word_digits _ _ _ Hc Hw) as [-> H0].
  by rewrite (name_word_zero comp 56).
Qed.

Lemma word_is_dotdot comp :
  Forall is_byte comp → Forall letter comp →
  name_word 0 comp = LAST_WORD_IS_DOTDOT ↔ comp = [chr "."; chr "."].
Proof.
  intros Hb Hl. split; [|by intros ->].
  destruct comp as [|c comp _] using rev_ind; [done|]. rewrite name_word_snoc. intros Hw.
  apply Forall_snoc in Hb as [Hb Hc], Hl as [Hl _].
  destruct (word_digits _ _ _ Hc Hw) as [-> H0].
  destruct comp as [|d comp _] using rev_ind; [done|]. rewrite name_word_snoc in H0.
  apply Forall_snoc in Hb as [Hb Hd], Hl as [Hl _].
  assert (u64 (Z.shiftl (name_word 0 comp) 8 + d) mod 2 ^ 56 = chr ".") as H1 by done.
  unfold u64, wrap in H1. rewrite Z.mod_mod_divide in H1 by (by exists (2 ^ 8)).
  rewrite Z.shiftl_mul_pow2 in H1 by lia. destruct Hd as [Hd1 Hd2].
  change (2 ^ 56) with (256 * 2 ^ 48) in H1. change (2 ^ 8) with 256 in *.
  rewrite Z.rem_mul_r in H1 by lia.
  replace ((name_word 0 comp * 256 + d) mod 256) with d in H1
    by (rewrite Z.add_comm, Z_mod_plus_full, Z.mod_small; lia).
  replace ((name_word 0 comp * 256 + d) / 256) with (name_word 0 comp) in H1
    by (rewrite Z.div_add_l, Z.div_small; lia).
  assert (name_word 0 comp mod 2 ^ 48 = 0 ∧ d = chr ".") as [Hz ->].
  { pose proof (Z.mod_pos_bound (name_word 0 comp) (2 ^ 48) ltac:(lia)).
    change (chr ".") with 46 in *. lia. }
  by rewrite (name_word_zero comp 48).
Qed.

(** What [classify] makes of a component. *)
Definition type_of (t : token) : last_type :=
  match t with TDot => LAST_DOT | TDotDot => LAST_DOTDOT | TName _ => LAST_NORM end.

Lemma classify_token {W} (E : vfs W) comp nd :
  Forall is_byte comp → Forall letter comp → (∀ d, v_op_hash E d = false) →
  ∃ nd', classify E (name_word 0 comp) nd = (0, nd') ∧
    nd_last_type nd' = type_of (token_of comp) ∧ nd_last nd' = nd_last nd ∧
    (nd_path nd', nd_inode nd', nd_flags nd', nd_root nd', nd_total_link_count nd') =
    (nd_path nd, nd_inode nd, nd_flags nd, nd_root nd, nd_total_link_count nd).
Proof.
  intros Hb Hl Hh. unfold classify, token_of.
  rewrite (bool_decide_ext _ _ (symmetry (word_is_dot comp Hb Hl))),
    (bool_decide_ext _ _ (symmetry (word_is_dotdot comp Hb Hl))).
  destruct (_ =? LAST_WORD_IS_DOTDOT) eqn:H2; unfold_bools.
  { rewrite H2, bool_decide_false, bool_decide_true by done. by eexists. }
  rewrite (bool_decide_false (_ = LAST_WORD_IS_DOTDOT)) by done.
  destruct (_ =? LAST_WORD_IS_DOT) eqn:H1; unfold_bools.
  { rewrite H1, bool_decide_true by done. by eexists. }
  rewrite bool_decide_false by done. rewrite Hh. by eexists.
Qed.

Lemma token_name comp n : token_of comp = TName n → n = comp.
Proof. unfold token_of. repeat case_bool_decide; by intros [=]. Qed.

(** ** Strings and components *)

Lemma components_skip s : components [] (skip_slashes s) = components [] s.
Proof.
  induction s as [|c s IH]; [done|]. cbn [skip_slashes components].
  destruct (c =? chr "/") eqn:Hc; [|cbn [components]; by rewrite Hc].
  unfold_bools. subst c. exact IH.
Qed.

Lemma components_word comp rest : ∀ cur,
  Forall letter comp → cur ++ comp ≠ [] → at_nul rest || at_slash rest = true →
  components cur (comp ++ rest) = (cur ++ comp) :: components [] (skip_slashes rest).
Proof.
  induction comp as [|c comp IH]; intros cur Hl Hne Hr; simpl app in *.
  - rewrite app_nil_r in *. rewrite components_skip.
    destruct rest as [|c rest]; [by destruct cur|]. cbn in *.
    destruct (c =? 0); [by destruct cur|]. simpl in Hr. rewrite Hr. by destruct cur.
  - apply Forall_cons in Hl as [[H0 Hs] Hl]. cbn [components].
    rewrite (proj2 (Z.eqb_neq _ _) H0), (proj2 (Z.eqb_neq _ _) Hs).
    rewrite IH by (done || by rewrite <- app_assoc). by rewrite <- app_assoc.
Qed.

Lemma ends_word comp rest : ∀ b,
  Forall letter comp → ends_in_slash b (comp ++ rest) =
    ends_in_slash (match comp with [] => b | _ => false end) rest.
Proof.
  induction comp as [|c comp IH]; intros b Hl; [done|].
  apply Forall_cons in Hl as [[H0 Hs] Hl]. cbn [ends_in_slash app].
  rewrite (proj2 (Z.eqb_neq _ _) H0), (proj2 (Z.eqb_neq _ _) Hs), IH by done. by destruct comp.
Qed.

(** Trailing slashes are what is left before the NUL. *)
Lemma ends_rest rest : ∀ b,
  0 ∈ rest → at_nul (skip_slashes rest) = true → ends_in_slash b rest = b || negb (at_nul rest).
Proof.
  induction rest as [|c rest IH]; intros b H0 Hn; [by apply not_elem_of_nil in H0|].
  cbn [skip_slashes ends_in_slash at_nul] in *. destruct (c =? 0) eqn:Hc; [by rewrite orb_false_r|].
  destruct (c =? chr "/") eqn:Hs; [|cbn in Hn; congruence]. rewrite orb_true_r.
  apply elem_of_cons in H0 as [<-|H0]; [done|]. by rewrite IH.
Qed.
Lemma ends_skip rest : ∀ b b',
  at_nul (skip_slashes rest) = false → ends_in_slash b rest = ends_in_slash b' (skip_slashes rest).
Proof.
  induction rest as [|c rest IH]; intros b b' Hn; [done|]. cbn [skip_slashes] in *.
  destruct (c =? chr "/") eqn:Hs.
  - cbn [ends_in_slash]. rewrite Hs. unfold_bools. subst c. by apply IH.
  - cbn [at_nul ends_in_slash] in *. by rewrite Hn, Hs.
Qed.
Lemma skip_at_slash s : at_slash (skip_slashes s) = false.
Proof. induction s as [|c s IH]; [done|]. cbn [skip_slashes]. by destruct (c =? chr "/") eqn:Hc. Qed.
Lemma skip_at_nul s : at_nul s = true → skip_slashes s = s.
Proof. destruct s as [|c s]; [done|]. cbn. intros H. unfold_bools. by subst c. Qed.
Lemma skip_bytes s : Forall is_byte s → Forall is_byte (skip_slashes s).
Proof.
  induction s as [|c s IH]; [done|]. intros H. cbn. destruct (_ =? _); [|done].
  apply Forall_cons in H as [_ H]. auto.
Qed.

(** A string the loop may be at. *)
Record at_word (s : list Z) : Prop := {
  aw_string : cstring s;
  aw_more : at_nul s = false;
  aw_slash : at_slash s = false;
  aw_bytes : Forall is_byte s
}.

Lemma skip_at_word s :
  cstring s → Forall is_byte s → at_nul (skip_slashes s) = false → at_word (skip_slashes s).
Proof.
  intros H0 Hb Hn. split; [by apply skip_slashes_cstring|done|apply skip_at_slash|by apply skip_bytes].
Qed.

(** Reading a component. *)
Lemma hash_name_word {W} (E : vfs W) name nd :
  at_word name → ∃ comp rest,
  hash_name E name nd = (name_word 0 comp, rest,
    set_last (mk_qstr (v_full_name_hash E (p_dentry (nd_path nd)) comp)
                (Z.of_nat (length comp)) name) nd) ∧
  name = comp ++ rest ∧ Forall letter comp ∧ Forall is_byte comp ∧ Forall is_byte rest ∧ cstring rest ∧
  Z.of_nat (length comp) ≤ PATH_MAX ∧
  components [] name = comp :: components [] (skip_slashes rest) ∧
  ends_in_slash false name = ends_in_slash false rest.
Proof.
  intros [[H0 Hmax] Hn Hs Hb]. destruct (hash_name_spec E name nd H0 Hn)
    as (comp & rest & Hh & -> & Hc & Hr & Hf & H0').
  apply Forall_app in Hb as [Hb1 Hb2].
  assert (Forall letter comp) as Hl.
  { destruct comp as [|c comp]; [done|]. cbn in *. unfold_bools. by constructor. }
  rewrite length_app in Hmax. exists comp, rest. split_and!; try done.
  - split; [done|lia].
  - lia.
  - by apply components_word.
  - rewrite ends_word by done. by destruct comp.
Qed.
