(* ===== verification/PathViewFacts.v ===== *)
(** * One component against the name space of a policy

    A file system that does not change under the lookup, a policy that means a
    view, and the proof that each function of the walk does the reference's
    move, in either mode: in rcu-walk it may instead give up with ECHILD. *)

From S2P Require Import Prelude Abi PolicyLib PolicyFacts Kernel Targets Lookup LookupProps Walk.
From S2P Require Import WalkProps PathWalk PathInv PathRefs PathSafe PathView.

(** ** Laws

    The environment shows the tree [T]: lookups find the children, mounts are
    where [cross] says, symlinks have their bodies; a check in rcu-walk gives
    the answer of ref-walk or asks for ref-walk. *)
Record shows {W} (E : vfs W) (T : tree) : Prop := {
  sh_lookup_rcu : ∀ st d seq, v_d_lookup_rcu E st = Some (d, seq) →
    d = child T (nd_path (wk_nd st)) (q_bytes (nd_last (wk_nd st)));
  sh_lookup : ∀ st d, v_d_lookup E st = Some d →
    d = child T (nd_path (wk_nd st)) (q_bytes (nd_last (wk_nd st)));
  sh_slow : ∀ st, v_lookup_slow E st =
    PPtr (child T (nd_path (wk_nd st)) (q_bytes (nd_last (wk_nd st))));
  sh_revalidate : ∀ st d,
    0 < v_revalidate E st d ∨ (rcu st = true ∧ v_revalidate E st d = - ECHILD);
  sh_cross : ∀ p d, v_managed E d = false → cross T p d = mk_path (p_mnt p) d;
  sh_follow_mount : ∀ st d p seq jumped, v_follow_mount_rcu E st d = Some (p, seq, jumped) →
    p = cross T (nd_path (wk_nd st)) d;
  sh_traverse : ∀ st d, let p := cross T (nd_path (wk_nd st)) d in ∃ jumped,
    v_traverse_mounts E st d =
      (if bool_decide (v_inode E (p_dentry p) = None) then - ENOENT else 0,
       p, jumped, nd_total_link_count (wk_nd st));
  sh_bytes : ∀ d, Forall is_byte (body T d);
  sh_symlink : ∀ d, v_is_symlink E d = true → v_inode E d ≠ None;
  sh_i_link : ∀ d s, v_i_link E d = Some s → s = body T d;
  sh_get_link : ∀ st d, v_get_link E st d true = GetBody (body T d);
  sh_get_link_rcu : ∀ st d,
    v_get_link E st d false = GetBody (body T d) ∨ v_get_link E st d false = GetErr (- ECHILD);
  sh_alloc : ∀ st, v_alloc_stack E st = true;
  sh_exec : ∀ i, v_may_exec E i true = v_may_exec E i false ∨ v_may_exec E i true = - ECHILD;
  sh_security : ∀ d, v_security_follow_link E d true = v_security_follow_link E d false ∨
    v_security_follow_link E d true = - ECHILD;
  sh_hash : ∀ d, v_op_hash E d = false;
  sh_weak : ∀ d, v_weak_revalidate E d = None;
  sh_mountpoint : ∀ m r, fst <$> v_choose_mountpoint_rcu E m r = v_choose_mountpoint E m r;
  sh_connected : ∀ m d, v_path_connected E m d = true;
  sh_scoped : v_scoped E = {[LOOKUP_BENEATH; LOOKUP_IN_ROOT]}
}.

(** The policy means the view of [T], for the registry [ts]; a context that comes
    back with a redirect is one the verifier has let through. *)
Definition means {W} (E : vfs W) (T : tree) (ts : targets_state) : Prop :=
  ∀ w p f q, name_ok q → let '(action, _, c) := v_run E w p
    (namei_ext_init_ctx (v_backing_inode E) (Some p) (v_inode E (p_dentry p))
       BPF_NAMEI_EXT_LOOKUP (v_flags_word E f) q) in
  view T p (q_bytes q) = decision_of (v_hash_min E) ts action c ∧
  (action = BPF_NAMEI_EXT_REDIRECT → ctx_wf c ∧ 0 ≤ ctx_redirect_name_len c).

(** Flags that confine the walk or change what it does; flags that say that the
    last component is opened or created. *)
Definition confining_flags : flags_t :=
  {[LOOKUP_CACHED; LOOKUP_NO_XDEV; LOOKUP_BENEATH; LOOKUP_IN_ROOT; LOOKUP_NO_SYMLINKS;
    LOOKUP_DOWN; LOOKUP_MOUNTPOINT]}.
Definition special_flags : flags_t :=
  {[LOOKUP_CREATE; LOOKUP_OPEN; LOOKUP_EXCL]} ∪ confining_flags.
Definition unconfined (F : flags_t) : Prop := F ## confining_flags.
(** Those of a lookup. *)
Definition ordinary (F : flags_t) : Prop := F ## special_flags.

Lemma ordinary_unconfined F : ordinary F → unconfined F.
Proof. intros HF f Hf Hc. apply (HF f); [done|]. apply elem_of_union. by right. Qed.

(** The flags that say what is looked up, without those of the walk itself. *)
Definition wanted (F : flags_t) : flags_t := F ∖ {[LOOKUP_RCU; LOOKUP_PARENT]}.

Section facts.
Context {W : Type} (E : vfs W) (HE : env_ok E) (T : tree) (HT : shows E T).
Context (table : list (list namei_ext_target)) (root : path) (Hroot : root ≠ null_path).
Context (buf : namei_ext_redirect) (Hbuf : length (r_name buf) = NAME_MAX_nat).
Implicit Types (st : walk W).

(** The walk is at [p], with [links] symlinks left, for the flags [F]. *)
Record here (p : path) (links : nat) (F : flags_t) st : Prop := {
  h_path : nd_path (wk_nd st) = p;
  h_inode : nd_inode (wk_nd st) = v_inode E (p_dentry p);
  h_flags : wanted (nd_flags (wk_nd st)) = F;
  h_root : nd_root (wk_nd st) = root ∨ (nd_root (wk_nd st) = null_path ∧ root = v_fs_root E);
  h_links : Z.to_nat (MAXSYMLINKS - nd_total_link_count (wk_nd st)) = links;
  h_table : ts_table (wk_targets st) = table
}.

(** [r] does the move [m] from [st]. *)
Definition does (links : nat) (F : flags_t) (m : move) st (r : link_res * walk W) : Prop :=
  (rcu r.2 = true → rcu st = true) ∧
  ((rcu st = true ∧ r.1 = PErr (- ECHILD)) ∨
   match m with
   | MErr e => r.1 = PErr e
   | MTo p => r.1 = PNull ∧ here p links F r.2
   | MJump p => r.1 = PNull ∧ (links ≠ 0)%nat ∧ here p (pred links) F r.2
   | MLink p s => r.1 = PPtr s ∧ (links ≠ 0)%nat ∧ here p (pred links) F r.2
   end).

Lemma unconfined_lacks F f : unconfined F → f ∈ confining_flags → fl f F = false.
Proof. intros HF Hf. apply bool_decide_eq_false. intros H. by apply (HF f). Qed.
Lemma wanted_fl F f : f ≠ LOOKUP_RCU → f ≠ LOOKUP_PARENT → fl f (wanted F) = fl f F.
Proof. intros H1 H2. apply fl_drop. by rewrite not_elem_of_union, !not_elem_of_singleton. Qed.
Lemma wanted_lacks F f : unconfined (wanted F) → f ∈ confining_flags → fl f F = false.
Proof.
  intros HF Hf. rewrite <- (wanted_fl F) by (intros ->; by revert Hf; vm_compute).
  by apply unconfined_lacks.
Qed.
Lemma here_has p links F st f :
  here p links F st → f ≠ LOOKUP_RCU → f ≠ LOOKUP_PARENT → nd_has f (wk_nd st) = fl f F.
Proof. intros H H1 H2. rewrite <- (h_flags _ _ _ _ H). by rewrite wanted_fl. Qed.
Lemma here_lacks p links F st f :
  unconfined F → here p links F st → f ∈ confining_flags → nd_has f (wk_nd st) = false.
Proof.
  intros HF H Hf. rewrite (here_has p links F) by (done || by intros ->; revert Hf; vm_compute).
  by apply unconfined_lacks.
Qed.

(** Fields that a step other than a component leaves alone. *)
Definition keeps st st' : Prop :=
  nd_last (wk_nd st') = nd_last (wk_nd st) ∧ nd_dir (wk_nd st') = nd_dir (wk_nd st) ∧
  (rcu st' = true → rcu st = true).

Lemma keeps_trans st1 st2 st3 : keeps st1 st2 → keeps st2 st3 → keeps st1 st3.
Proof. intros (H1 & H2 & H3) (H4 & H5 & H6). split_and!; [congruence|congruence|auto]. Qed.

(** Fields that matter for [here]. *)
Lemma here_nd p links F st f :
  (nd_path (f (wk_nd st)), nd_inode (f (wk_nd st)), nd_flags (f (wk_nd st)),
   nd_root (f (wk_nd st)), nd_total_link_count (f (wk_nd st))) =
  (nd_path (wk_nd st), nd_inode (wk_nd st), nd_flags (wk_nd st),
   nd_root (wk_nd st), nd_total_link_count (wk_nd st)) →
  here p links F st → here p links F (on_nd f st).
Proof. intros He [????? ?]. injection He as ?????. split; cbn; congruence. Qed.
Lemma here_get p links F q st : here p links F st → here p links F (get_path q st).
Proof. by intros [????? ?]. Qed.
Lemma here_put p links F q st : here p links F st → here p links F (put_path q st).
Proof. by intros [????? ?]. Qed.
Lemma here_put_link p links F st : here p links F st → here p links F (put_link st).
Proof.
  intros H. unfold put_link. destruct (nd_stack (wk_nd st)) as [|s rest]; [done|].
  assert (here p links F (on_nd (set_stack rest) st)) by by apply here_nd.
  destruct (rcu _); [done|by apply here_put].
Qed.
Lemma put_link_keeps st : keeps st (put_link st).
Proof. unfold put_link. destruct (nd_stack _); [done|]. by destruct (rcu (on_nd _ st)) eqn:?. Qed.

Lemma put_link_type st : nd_last_type (wk_nd (put_link st)) = nd_last_type (wk_nd st).
Proof. unfold put_link. destruct (nd_stack _); [done|]. by destruct (rcu (on_nd _ st)). Qed.

Lemma wanted_leave F : wanted (F ∖ {[LOOKUP_RCU]}) = wanted F.
Proof.
  apply set_eq. intros f. unfold wanted.
  rewrite !elem_of_difference, elem_of_union, !elem_of_singleton. tauto.
Qed.

Lemma here_unlazied p links F st st' : unlazied st st' → here p links F st → here p links F st'.
Proof.
  intros ([g Hg] & _ & Ht) [????? ?]. split; rewrite ?Hg, ?Ht; cbn; try done.
  by rewrite wanted_leave.
Qed.
Lemma unlazied_keeps st st' : unlazied st st' → rcu st' = false → keeps st st'.
Proof. intros ([g Hg] & _ & _) Hr. split_and!; [by rewrite Hg..|congruence]. Qed.

Lemma try_to_unlazy_rcu st : rcu (try_to_unlazy E st).2 = false.
Proof.
  unfold try_to_unlazy. destruct (nd_has _ _); [apply leave_rcu_has|].
  destruct (legitimize_links E st) as [[] st1]; cbn; [|apply leave_rcu_has].
  destruct (legitimize_path E _ _ st1) as [[[] p] st2]; cbn; [|apply leave_rcu_has].
  destruct (legitimize_root E _) as [ok st3]. apply leave_rcu_has.
Qed.
Lemma try_to_unlazy_next_rcu d st : rcu (try_to_unlazy_next E d st).2 = false.
Proof.
  unfold try_to_unlazy_next. destruct (nd_has _ _); [apply leave_rcu_has|].
  destruct (legitimize_links E st) as [[] st1]; cbn; [|apply leave_rcu_has].
  destruct (negb _); [apply leave_rcu_has|]. destruct (negb _); [apply leave_rcu_has|].
  destruct (v_seq_retry E _ _ _); [apply leave_rcu_has|].
  destruct (legitimize_root E _) as [ok st3]. apply leave_rcu_has.
Qed.

(** Switching to ref-walk. *)
Lemma unlazy_here p links F st :
  here p links F st →
  let '(ok, st') := try_to_unlazy E st in
  rcu st' = false ∧ (ok = true → here p links F st' ∧ keeps st st').
Proof.
  intros H. pose proof (try_to_unlazy_ok E st) as Hok. pose proof (try_to_unlazy_rcu st) as Hr.
  destruct (try_to_unlazy E st) as [ok st']. cbn in Hr. split; [done|].
  intros ->. specialize (Hok eq_refl). split; [by eapply here_unlazied|by apply unlazied_keeps].
Qed.
Lemma unlazy_next_here p links F d st :
  here p links F st →
  let '(ok, st') := try_to_unlazy_next E d st in
  rcu st' = false ∧ (ok = true → here p links F st' ∧ keeps st st').
Proof.
  intros H. pose proof (try_to_unlazy_next_ok E d st) as Hok.
  pose proof (try_to_unlazy_next_rcu d st) as Hr.
  destruct (try_to_unlazy_next E d st) as [ok st']. cbn in Hr. split; [done|].
  intros ->. specialize (Hok eq_refl). split; [by eapply here_unlazied|by apply unlazied_keeps].
Qed.

(** ** Finding the dentry *)

Lemma lookup_fast_here p links F st :
  here p links F st →
  let '(r, st') := lookup_fast E st in
  (rcu st' = true → rcu st = true) ∧
  ((rcu st = true ∧ r = PErr (- ECHILD)) ∨
   (here p links F st' ∧ keeps st st' ∧
    (r = PNull ∨ r = PPtr (child T p (q_bytes (nd_last (wk_nd st))))))).
Proof.
  intros H. unfold lookup_fast. destruct (rcu st) eqn:Hr.
  - destruct (v_d_lookup_rcu E st) as [[d seq]|] eqn:Hd.
    + apply (sh_lookup_rcu _ _ HT) in Hd. rewrite (h_path _ _ _ _ H) in Hd. subst d.
      set (st1 := on_nd (set_next_seq seq) st).
      assert (here p links F st1) as H1 by by apply here_nd.
      destruct (v_seq_retry E st1 _ _); [by split; [|left]|].
      destruct (0 <? v_revalidate E st1 _) eqn:Hv; [split; [done|by right; split_and!; [..|right]]|].
      pose proof (unlazy_next_here p links F (child T p (q_bytes (nd_last (wk_nd st)))) st1 H1) as Hu.
      destruct (try_to_unlazy_next E _ st1) as [[] st2]; destruct Hu as [Hr2 Hu]; cbn [negb].
      2: { by split; [|left]. }
      destruct (Hu eq_refl) as [H2 Hk].
      assert (v_revalidate E st1 (child T p (q_bytes (nd_last (wk_nd st)))) = - ECHILD) as ->.
      { unfold_bools. destruct (sh_revalidate _ _ HT st1 (child T p (q_bytes (nd_last (wk_nd st)))))
          as [?|[_ ?]]; [lia|done]. }
      rewrite Z.eqb_refl.
      destruct (sh_revalidate _ _ HT st2 (child T p (q_bytes (nd_last (wk_nd st)))))
        as [Hpos|[? _]]; [|congruence].
      rewrite (proj2 (Z.leb_gt _ _)) by done. split; [done|]. right.
      by split_and!; [|apply Hk..|right].
    + pose proof (unlazy_here p links F st H) as Hu.
      destruct (try_to_unlazy E st) as [[] st1]; destruct Hu as [Hr1 Hu];
        (split; [done|]); [right|by left].
      destruct (Hu eq_refl) as [? ?]. by split_and!; [| |left].
  - destruct (v_d_lookup E st) as [d|] eqn:Hd.
    2: { split; [congruence|]. right. by split_and!; [..|left]. }
    apply (sh_lookup _ _ HT) in Hd. rewrite (h_path _ _ _ _ H) in Hd. subst d.
    destruct (sh_revalidate _ _ HT st (child T p (q_bytes (nd_last (wk_nd st)))))
      as [Hpos|[? _]]; [|congruence].
    rewrite (proj2 (Z.leb_gt _ _)) by done. split; [congruence|]. right. by split_and!; [..|right].
Qed.

(** ** The root *)

Lemma scoped_none nd : unconfined (wanted (nd_flags nd)) → scoped E nd = false.
Proof.
  intros HF. unfold scoped. rewrite (sh_scoped _ _ HT). apply bool_decide_eq_false.
  intros Hne. apply Hne, set_eq. intros f. rewrite elem_of_intersection. split; [|done].
  intros [Hf Hs]. assert (f ∈ confining_flags) as Hsp.
  { apply elem_of_union in Hs as [->%elem_of_singleton| ->%elem_of_singleton]; by vm_compute. }
  pose proof (wanted_lacks _ _ HF Hsp) as Hl. by apply bool_decide_eq_false in Hl.
Qed.

Lemma here_scoped p links F st : unconfined F → here p links F st → scoped E (wk_nd st) = false.
Proof. intros HF [? _ Hf _ _ _]. apply scoped_none. by rewrite Hf. Qed.

(** After the root has been fetched. *)
Lemma with_root p links F st :
  unconfined F → here p links F st →
  let '(error, st') := if has_root (wk_nd st) then (0, st) else set_root_fs E st in
  error = 0 ∧ here p links F st' ∧ keeps st st' ∧ nd_root (wk_nd st') = root.
Proof.
  intros HF H. unfold has_root. destruct (path_equal (nd_root (wk_nd st)) null_path) eqn:Hr.
  - apply path_equal_true in Hr. pose proof H as [????? ?].
    assert (root = v_fs_root E) as Hfs by (destruct h_root0 as [?|[_ ?]]; congruence).
    cbn [negb]. unfold set_root_fs. rewrite (here_scoped _ _ _ _ HF H).
    destruct (rcu st) eqn:Hrcu; split_and!; try done;
      by split; cbn; rewrite ?Hfs; auto.
  - cbn [negb]. split_and!; try done. destruct (h_root _ _ _ _ H) as [?|[Hn _]]; [done|].
    rewrite Hn in Hr. by rewrite path_equal_refl in Hr.
Qed.

Lemma jump_root_here p links F st :
  unconfined F → here p links F st →
  let '(error, st') := nd_jump_root E st in
  (rcu st' = true → rcu st = true) ∧
  ((rcu st = true ∧ error = - ECHILD) ∨ (error = 0 ∧ here root links F st')).
Proof.
  intros HF H. unfold nd_jump_root.
  rewrite !(here_lacks p links F st) by (done || by vm_compute). cbn [andb].
  pose proof (with_root _ _ _ _ HF H) as Hw.
  destruct (if has_root _ then _ else _) as [error st1]. destruct Hw as (-> & H1 & (_ & _ & Hk) & Hr).
  cbn [negb Z.eqb]. destruct (rcu st1) eqn:Hr1.
  - set (st2 := on_nd _ st1). destruct (v_seq_retry E st2 _ _); [split; [auto|left; auto]|].
    split; [auto|right]. split; [done|]. destruct H1 as [????? ?]. split; cbn; rewrite ?Hr; auto.
  - assert (rcu (on_nd (jump_to (nd_root (wk_nd st1)) (v_inode E (p_dentry (nd_root (wk_nd st1)))))
      (get_path (nd_root (wk_nd st1)) (put_path (nd_path (wk_nd st1)) st1))) = false) as Hr2 by done.
    split; [congruence|right]. split; [done|].
    destruct H1 as [????? ?]. split; cbn; rewrite ?Hr; auto.
Qed.

(** ** Following a symlink *)

Lemma reserve_here p links F link st :
  here p links F st →
  let '(error, link', st') := reserve_stack E link st in
  rcu st' = rcu st ∧ nd_dir (wk_nd st') = nd_dir (wk_nd st) ∧
  if (links =? 0)%nat then error = - ELOOP
  else error = 0 ∧ link' = link ∧ here p (pred links) F st'.
Proof.
  intros H. unfold reserve_stack. pose proof (h_links _ _ _ _ H) as Hlinks.
  set (st1 := on_nd _ st). destruct (links =? 0)%nat eqn:Hl.
  { apply Nat.eqb_eq in Hl. rewrite (proj2 (Z.leb_le _ _)) by lia. by cbn. }
  apply Nat.eqb_neq in Hl. rewrite (proj2 (Z.leb_gt _ _)) by lia.
  assert (here p (pred links) F st1) as H1.
  { destruct H as [????? ?]. split; try done. cbn. lia. }
  destruct (negb _); [done|]. destruct (nd_alloced (wk_nd st1)); [done|].
  unfold nd_alloc_stack. rewrite (sh_alloc _ _ HT). split_and!; [done..|by apply here_nd].
Qed.

Lemma read_link_here p links F link st :
  here p links F st →
  let '(r, st') := read_link E link st in
  (rcu st' = true → rcu st = true) ∧
  ((rcu st = true ∧ r = PErr (- ECHILD)) ∨
   (r = PPtr (body T (p_dentry link)) ∧ here p links F st')).
Proof.
  intros H. unfold read_link. destruct (v_i_link E (p_dentry link)) as [s|] eqn:Hi.
  { apply (sh_i_link _ _ HT) in Hi as ->. auto. }
  destruct (rcu st) eqn:Hr.
  - destruct (sh_get_link_rcu _ _ HT st (p_dentry link)) as [-> | ->]; [auto|].
    rewrite Z.eqb_refl. pose proof (unlazy_here _ _ _ _ H) as Hu.
    destruct (try_to_unlazy E st) as [[] st1]; destruct Hu as [Hr1 Hu].
    + rewrite (sh_get_link _ _ HT). destruct (Hu eq_refl). auto.
    + auto.
  - rewrite (sh_get_link _ _ HT). rewrite Hr. auto.
Qed.

Lemma start_body_here p links F link st :
  unconfined F → here p links F st →
  let s := body T (p_dentry link) in
  let dir := if at_slash s then root else p in
  let s' := skip_slashes s in
  let '(r, st') := start_body E s st in
  (rcu st' = true → rcu st = true) ∧
  ((rcu st = true ∧ r = PErr (- ECHILD)) ∨
   (here dir links F st' ∧ r = if at_nul s' then PNull else PPtr s')).
Proof.
  intros HF H s dir s'. unfold start_body.
  assert (∀ st1, here dir links F st1 → (rcu st1 = true → rcu st = true) →
    let '(r, st') := if negb (at_nul s') then (PPtr s', st1) else (PNull, put_link st1) in
    (rcu st' = true → rcu st = true) ∧
    ((rcu st = true ∧ r = PErr (- ECHILD)) ∨
     (here dir links F st' ∧ r = if at_nul s' then PNull else PPtr s'))) as Hfin.
  { intros st1 H1 Hr1. destruct (at_nul s'); cbn [negb]; [|auto].
    destruct (put_link_keeps st1) as (_ & _ & Hk). split; [auto|right].
    split; [by apply here_put_link|done]. }
  unfold dir in *. destruct (at_slash s) eqn:Hs.
  - pose proof (jump_root_here _ _ _ _ HF H) as Hj.
    destruct (nd_jump_root E st) as [error st1]. destruct Hj as [Hr [[Hc ->]|[-> H1]]].
    + change (negb (- ECHILD =? 0)) with true. cbv iota beta. auto.
    + cbn [negb Z.eqb]. by apply Hfin.
  - assert (s' = s) as Hss. { unfold s'. destruct s as [|c s0]; [done|]. cbn in *. by rewrite Hs. }
    rewrite <- Hss. by apply Hfin.
Qed.

Lemma does_retry links F m st st' :
  (rcu st' = true → rcu st = true) → rcu st = true → does links F m st (PErr (- ECHILD), st').
Proof. intros H1 H2. split; [done|by left]. Qed.
Lemma does_error links F e st st' :
  (rcu st' = true → rcu st = true) → does links F (MErr e) st (PErr e, st').
Proof. intros H1. split; [done|by right]. Qed.

(** A step from a state reached in the same or a weaker mode. *)
Lemma does_from links F m st st1 r :
  (rcu st1 = true → rcu st = true) → does links F m st1 r → does links F m st r.
Proof. intros Hr [H1 [[H2 H3]|H2]]; split; auto. Qed.

Lemma follow_body_does p links F link st :
  unconfined F → (links ≠ 0)%nat → here p (pred links) F st →
  does links F
    (let error := v_security_follow_link E (p_dentry link) false in
     if negb (error =? 0) then MErr error else
     let s := body T (p_dentry link) in
     let dir := if at_slash s then root else p in
     let s := skip_slashes s in
     if at_nul s then MJump dir else MLink dir s) st
    (let error := v_security_follow_link E (p_dentry link) (rcu st) in
     if negb (error =? 0) then (PErr error, st) else
     match read_link E link st with
     | (PErr e, st) => (PErr e, st)
     | (PNull, st) => (PNull, put_link st)
     | (PPtr res, st) => start_body E res st
     end).
Proof.
  intros HF Hl H. cbv zeta.
  assert (v_security_follow_link E (p_dentry link) (rcu st) =
      v_security_follow_link E (p_dentry link) false ∨
    (rcu st = true ∧ v_security_follow_link E (p_dentry link) (rcu st) = - ECHILD))
    as [-> | [Hr ->]].
  { destruct (rcu st); [|auto]. destruct (sh_security _ _ HT (p_dentry link)); auto. }
  2: { change (negb (- ECHILD =? 0)) with true. by apply does_retry. }
  destruct (v_security_follow_link E (p_dentry link) false =? 0) eqn:He; cbn [negb];
    [|by apply does_error].
  pose proof (read_link_here _ _ _ link _ H) as Hr.
  destruct (read_link E link st) as [r st1]. destruct Hr as [Hr1 [[Hc ->]|[-> H1]]].
  { by apply does_retry. }
  apply (does_from _ _ _ _ st1); [done|].
  pose proof (start_body_here _ _ _ link _ HF H1) as Hs. cbv zeta in Hs |- *.
  destruct (start_body E (body T (p_dentry link)) st1) as [r st2].
  destruct Hs as [Hr2 [[Hc ->]|[H2 ->]]]; [by apply does_retry|].
  destruct (at_nul _); (split; [done|right]; by split_and!).
Qed.

Lemma pick_link_does p links F link flags st :
  unconfined F → here p links F st →
  let trailing := negb (Z.land flags WALK_TRAILING =? 0) in
  (trailing = true → nd_dir (wk_nd st) = v_inode E (p_dentry p)) →
  does links F (follow_link E T root links trailing p link) st
    (pick_link E link (v_inode E (p_dentry link)) flags st).
Proof.
  intros HF H trailing Hdir. unfold pick_link.
  destruct (rcu st && v_seq_retry E st _ _) eqn:Hret.
  { apply andb_true_iff in Hret as [Hr _]. by apply does_retry. }
  set (st0 := if rcu st then st else get_path link st).
  assert (here p links F st0 ∧ rcu st0 = rcu st ∧ nd_dir (wk_nd st0) = nd_dir (wk_nd st))
    as (H0 & Hr0 & Hd0).
  { unfold st0. destruct (rcu st) eqn:Hr; [done|]. by split_and!; [apply here_get|..]. }
  clearbody st0. rewrite <- Hd0 in Hdir. apply (does_from _ _ _ _ st0); [by rewrite Hr0|].
  clear Hret Hr0 Hd0 H. pose proof (reserve_here _ _ _ link _ H0) as Hres.
  destruct (reserve_stack E link st0) as [[error link'] st1]. destruct Hres as (Hr1 & Hd1 & Hres).
  unfold follow_link. destruct (links =? 0)%nat eqn:Hl.
  { subst error. change (negb (- ELOOP =? 0)) with true. cbv iota beta. apply does_error.
    destruct (rcu st1) eqn:Hr1'; [congruence|]. change (rcu (put_path link' st1)) with (rcu st1).
    congruence. }
  apply Nat.eqb_neq in Hl. destruct Hres as (-> & -> & H1). cbn [negb Z.eqb].
  set (st2 := on_nd _ st1). assert (here p (pred links) F st2) as H2 by by apply here_nd.
  assert (rcu st2 = rcu st1 ∧ nd_dir (wk_nd st2) = nd_dir (wk_nd st1)) as [Hr2 Hd2] by done.
  clearbody st2. rewrite <- Hd1, <- Hd2 in Hdir. rewrite <- Hr2 in Hr1.
  clear Hd1 Hd2 Hr2 H1 st1 H0. apply (does_from _ _ _ _ st2); [congruence|]. clear Hr1 st0.
  assert ((if Z.land flags WALK_TRAILING =? 0 then 0
    else may_follow_link E (v_inode E (p_dentry link)) (wk_nd st2)) =
    (if trailing && link_forbidden E p link
     then (if rcu st2 then - ECHILD else - EACCES) else 0)) as ->.
  { unfold trailing in *. destruct (Z.land flags WALK_TRAILING =? 0); [done|]. cbn [negb andb].
    unfold may_follow_link, link_forbidden. rewrite Hdir, (h_path _ _ _ _ H2) by done.
    unfold rcu. by destruct (v_protected_symlinks E), (v_owner_is_fsuid E _ _),
      (v_sticky_world_writable E _), (v_same_owner E _ _), (nd_has LOOKUP_RCU (wk_nd st2)). }
  destruct (trailing && link_forbidden E p link).
  { destruct (rcu st2) eqn:Hr; [by apply does_retry|by apply does_error]. }
  cbn [negb Z.eqb]. rewrite (here_lacks p (pred links) F st2) by (done || by vm_compute).
  cbn [orb]. destruct (v_nosymfollow E (p_mnt link)); [by apply does_error|].
  destruct (v_atime E st2 link && rcu st2) eqn:Ha; cbn [negb]; [|by apply follow_body_does].
  apply andb_true_iff in Ha as [_ Hr]. pose proof (unlazy_here _ _ _ _ H2) as Hu.
  destruct (try_to_unlazy E st2) as [[] st3]; destruct Hu as [Hr3 Hu]; cbn [negb].
  - destruct (Hu eq_refl) as [H3 (_ & _ & Hk)]. apply (does_from _ _ _ _ st3); [done|].
    by apply follow_body_does.
  - by apply does_retry.
Qed.

(** ** Moving to a dentry *)

Lemma handle_mounts_here p links F d st :
  here p links F st →
  let '(err, p', st') := handle_mounts E d st in
  (rcu st' = true → rcu st = true) ∧
  ((rcu st = true ∧ err = - ECHILD) ∨
   (here p links F st' ∧ nd_dir (wk_nd st') = nd_dir (wk_nd st) ∧ p' = cross T p d ∧
    (err = 0 ∨ (err = - ENOENT ∧ v_inode E (p_dentry p') = None)) ∧
    (rcu st' = false → v_inode E (p_dentry p') = None → err = - ENOENT))).
Proof.
  intros H. unfold handle_mounts.
  assert (∀ st1, here p links F st1 → nd_dir (wk_nd st1) = nd_dir (wk_nd st) →
    (rcu st1 = true → rcu st = true) →
    let '(err, p', st') :=
      let '(ret, p, jumped, count) := v_traverse_mounts E st1 d in
      (ret, p, on_nd (λ nd, set_total_link_count count
                 (if jumped : bool then set_jumped true nd else nd)) st1) in
    (rcu st' = true → rcu st = true) ∧
    ((rcu st = true ∧ err = - ECHILD) ∨
     (here p links F st' ∧ nd_dir (wk_nd st') = nd_dir (wk_nd st) ∧ p' = cross T p d ∧
      (err = 0 ∨ (err = - ENOENT ∧ v_inode E (p_dentry p') = None)) ∧
      (rcu st' = false → v_inode E (p_dentry p') = None → err = - ENOENT)))) as Ht.
  { intros st1 H1 Hd1 Hr1. destruct (sh_traverse _ _ HT st1 d) as [jumped ->].
    rewrite (h_path _ _ _ _ H1). split; [by destruct jumped|right]. split_and!.
    - by destruct jumped; apply here_nd.
    - by destruct jumped.
    - done.
    - case_bool_decide; auto.
    - intros _ Hn. by rewrite bool_decide_true. }
  destruct (rcu st) eqn:Hr.
  - rewrite (h_path _ _ _ _ H). destruct (v_managed E d) eqn:Hm; cbn [negb].
    + destruct (v_follow_mount_rcu E st d) as [[[p' seq] jumped]|] eqn:Hf.
      * apply (sh_follow_mount _ _ HT) in Hf. rewrite (h_path _ _ _ _ H) in Hf.
        split; [done|right]. split_and!; [by destruct jumped; apply here_nd|by destruct jumped|done|by left|].
        assert (rcu (on_nd (λ nd, set_next_seq seq
          (if jumped then set_jumped true nd else nd)) st) = rcu st) as -> by by destruct jumped.
        congruence.
      * pose proof (unlazy_next_here _ _ _ d _ H) as Hu.
        destruct (try_to_unlazy_next E d st) as [[] st1]; destruct Hu as [Hr1 Hu]; cbn [negb].
        -- destruct (Hu eq_refl) as [H1 (_ & Hd1 & _)]. apply Ht; auto.
        -- auto.
    + split; [done|right]. rewrite (sh_cross _ _ HT) by done. split_and!; auto. congruence.
  - apply Ht; auto. congruence.
Qed.

(** Whether a step follows a symlink. *)
Definition follows (flags : Z) (F : flags_t) : bool :=
  (Z.land flags WALK_NOFOLLOW =? 0) &&
  ((Z.land flags WALK_TRAILING =? 0) || fl LOOKUP_FOLLOW F).

Lemma step_into_does p links F flags d st :
  unconfined F → here p links F st →
  let trailing := negb (Z.land flags WALK_TRAILING =? 0) in
  (trailing = true → nd_dir (wk_nd st) = v_inode E (p_dentry p)) →
  does links F (enter E T root links trailing (follows flags F) p d) st (step_into E flags d st).
Proof.
  intros HF H trailing Hdir. unfold step_into, enter.
  assert (∀ st1 q, here p links F st1 → v_inode E (p_dentry q) ≠ None →
    here q links F (on_nd (λ nd, set_seq (nd_next_seq nd) (move_to q (v_inode E (p_dentry q)) nd)) st1))
    as Hgo by by intros st1 q [????? ?] Hi.
  destruct (rcu st && _ && _) eqn:Hb.
  { apply andb_true_iff in Hb as [[Hr Hm]%andb_true_iff Hs]. unfold_bools.
    rewrite (sh_cross _ _ HT) by done. cbn [p_dentry]. rewrite Hs. cbn [andb].
    destruct (v_seq_retry E _ _ _); [by apply does_retry|].
    case_bool_decide as Hi; [by apply does_error|].
    split; [done|right]. split; [done|]. cbn [snd]. unfold on_nd. rewrite (h_path _ _ _ _ H).
    by apply (Hgo st (mk_path (p_mnt p) d)). }
  clear Hb. unfold step_into_slowpath.
  pose proof (handle_mounts_here _ _ _ d _ H) as Hm.
  destruct (handle_mounts E d st) as [[err p'] st1].
  destruct Hm as [Hr1 [[Hc ->]|(H1 & Hd1 & -> & Herr & Hneg)]].
  { change (- ECHILD <? 0) with true. by apply does_retry. }
  rewrite <- Hd1 in Hdir. apply (does_from _ _ _ _ st1); [done|].
  destruct Herr as [->|[-> Hi]].
  2: { change (- ENOENT <? 0) with true. rewrite bool_decide_true by done. by apply does_error. }
  change (0 <? 0) with false. cbv iota beta.
  set (q := cross T p d) in *. rewrite (here_has _ _ _ _ LOOKUP_FOLLOW H1) by done.
  assert (negb (v_is_symlink E (p_dentry q)) ||
     (negb (Z.land flags WALK_TRAILING =? 0) && negb (fl LOOKUP_FOLLOW F)) ||
     negb (Z.land flags WALK_NOFOLLOW =? 0) =
     negb (v_is_symlink E (p_dentry q) && follows flags F)) as ->.
  { unfold follows. by destruct (v_is_symlink E _), (Z.land flags WALK_TRAILING =? 0),
      (fl LOOKUP_FOLLOW F), (Z.land flags WALK_NOFOLLOW =? 0). }
  destruct (v_is_symlink E (p_dentry q) && follows flags F) eqn:Hs; cbn [negb].
  - apply andb_true_iff in Hs as [Hs _]. rewrite bool_decide_false by by apply (sh_symlink _ _ HT).
    by apply pick_link_does.
  - destruct (rcu st1) eqn:Hr.
    + destruct (v_seq_retry E _ _ _); [by apply does_retry|].
      case_bool_decide; [by apply does_error|].
      split; [done|right]. split; [done|]. by apply Hgo.
    + rewrite bool_decide_false by (intros Hn; by apply Hneg in Hn).
      split; [done|right]. split; [done|]. apply Hgo; [by apply here_get, here_put|].
      intros Hn. by apply Hneg in Hn.
Qed.

(** ** Dots *)

Lemma here_next_seq p links F st seq : here p links F st → here p links F (on_nd (set_next_seq seq) st).
Proof. by apply here_nd. Qed.

Lemma follow_dotdot_here p links F st :
  unconfined F → here p links F st → nd_root (wk_nd st) = root →
  let '(r, st') := if rcu st then follow_dotdot_rcu E st else follow_dotdot E st in
  (rcu st' = true → rcu st = true) ∧
  ((rcu st = true ∧ r = PErr (- ECHILD)) ∨
   ∃ q d, r = PPtr d ∧ here q links F st' ∧
     step_dotdot E T root p = enter E T root 0 false false q d).
Proof.
  intros HF H Hr. unfold step_dotdot, follow_dotdot_rcu, follow_dotdot.
  rewrite !(here_lacks p links F st) by (done || by vm_compute).
  rewrite (h_path _ _ _ _ H), Hr. destruct (rcu st) eqn:Hrcu.
  - rewrite <- (sh_mountpoint _ _ HT).
    destruct (path_equal p root); [|destruct (p_dentry p =? _);
      [destruct (v_choose_mountpoint_rcu E _ _) as [[q seq]|]|]]; cbn [fmap option_fmap option_map fst].
    + destruct (v_mount_retry E st); [auto|]. split; [auto|right].
      eexists _, _. split_and!; [done| |done]. by apply here_nd.
    + set (st1 := on_nd _ st).
      assert (here q links F st1) as H1.
      { destruct H as [????? ?]. split; cbn; auto. }
      destruct (v_mount_retry E st1); [auto|].
      rewrite (h_path _ _ _ _ H1), (sh_connected _ _ HT). cbn [negb].
      destruct (v_seq_retry E _ _ _); [auto|]. split; [auto|right].
      eexists _, _. split_and!; [done| |done]. by apply here_next_seq.
    + destruct (v_mount_retry E st); [auto|]. split; [auto|right].
      eexists _, _. split_and!; [done| |done]. by apply here_nd.
    + rewrite (sh_connected _ _ HT). cbn [negb].
      destruct (v_seq_retry E _ _ _); [auto|]. split; [auto|right].
      eexists _, _. split_and!; [done| |done]. by apply here_next_seq.
  - destruct (path_equal p root); [|destruct (p_dentry p =? _);
      [destruct (v_choose_mountpoint E _ _) as [q|]|]].
    + split; [congruence|right]. by eexists _, _.
    + set (st1 := on_nd _ _).
      assert (here q links F st1) as H1.
      { destruct H as [????? ?]. split; cbn; auto. }
      rewrite (h_path _ _ _ _ H1), (sh_connected _ _ HT). cbn [negb].
      split; [|right; by eexists _, _]. change (rcu st1) with (rcu st). congruence.
    + split; [congruence|right]. by eexists _, _.
    + rewrite (sh_connected _ _ HT). cbn [negb].
      split; [congruence|right]. by eexists _, _.
Qed.

Lemma handle_dots_does p links F st :
  unconfined F → here p links F st → nd_last_type (wk_nd st) = LAST_DOTDOT →
  does links F (step_dotdot E T root p) st (handle_dots E st).
Proof.
  intros HF H Ht. unfold handle_dots. rewrite bool_decide_true by done. cbn [negb].
  pose proof (with_root _ _ _ _ HF H) as Hw.
  destruct (if has_root _ then _ else _) as [error st1].
  destruct Hw as (-> & H1 & (_ & _ & Hk) & Hr). cbn [negb Z.eqb].
  apply (does_from _ _ _ _ st1); [done|]. clear Hk H Ht st.
  pose proof (follow_dotdot_here _ _ _ _ HF H1 Hr) as Hf.
  destruct (if rcu st1 then _ else _) as [r st2].
  destruct Hf as [Hk [[Hc ->]|(q & d & -> & H2 & ->)]]; [by apply does_retry|].
  apply (does_from _ _ _ _ st2); [done|].
  pose proof (step_into_does q links F WALK_NOFOLLOW d st2 HF H2 ltac:(done)) as Hs.
  replace (enter E T root 0 false false q d) with
    (enter E T root links (negb (Z.land WALK_NOFOLLOW WALK_TRAILING =? 0))
       (follows WALK_NOFOLLOW F) q d)
    by (unfold enter; change (follows WALK_NOFOLLOW F) with false; by rewrite andb_false_r).
  destruct (step_into E WALK_NOFOLLOW d st2) as [[|s|e] st3] eqn:Hst; [|done..].
  assert (scoped E (wk_nd st3) = false) as ->; [|done].
  destruct Hs as [_ [[_ [=]]|Hs]].
  destruct (enter _ _ _ _ _ _ _ _) as [e|q'|q'|q' s]; cbn in Hs;
    [done|destruct Hs as [_ Hs]|destruct Hs as (_ & _ & Hs)|by destruct Hs];
    by eapply here_scoped.
Qed.

(** ** A component *)

Abbreviation common := (walk_component_common (lookup_fast E) (lookup_slow E) put_link (step_into E)).

Lemma common_does p links F flags st :
  unconfined F → here p links F st →
  let trailing := negb (Z.land flags WALK_TRAILING =? 0) in
  (trailing = true → nd_dir (wk_nd st) = v_inode E (p_dentry p)) →
  does links F (enter E T root links trailing (follows flags F) p
                  (child T p (q_bytes (nd_last (wk_nd st))))) st (common flags st).
Proof.
  intros HF H trailing Hdir. unfold walk_component_common.
  set (d := child T p (q_bytes (nd_last (wk_nd st)))).
  assert (∀ st1, here p links F st1 → keeps st st1 → does links F
    (enter E T root links trailing (follows flags F) p d) st
    (step_into E flags d
       (if negb (nd_depth (wk_nd st1) =? 0) && (Z.land flags WALK_MORE =? 0)
        then put_link st1 else st1))) as Hgo.
  { intros st1 H1 Hk1.
    set (st2 := if _ && _ then put_link st1 else st1).
    assert (here p links F st2 ∧ keeps st st2) as [H2 (Hl2 & Hd2 & Hk2)].
    { unfold st2. destruct (_ && _); [|done].
      split; [by apply here_put_link|]. eapply keeps_trans, put_link_keeps. done. }
    apply (does_from _ _ _ _ st2); [done|]. apply step_into_does; [done..|].
    by rewrite Hd2. }
  pose proof (lookup_fast_here _ _ _ _ H) as Hf.
  destruct (lookup_fast E st) as [r st1].
  destruct Hf as [Hr [[Hc ->]|(H1 & Hk1 & [-> | ->])]]; [by apply does_retry| |by apply Hgo].
  unfold lookup_slow. rewrite (sh_slow _ _ HT), (h_path _ _ _ _ H1).
  destruct Hk1 as (Hl1 & ? & ?). rewrite Hl1. by apply Hgo.
Qed.

Lemma does_set_last links F m q st r :
  does links F m st r → does links F m st (r.1, on_nd (set_last q) r.2).
Proof.
  assert (∀ p n, here p n F r.2 → here p n F (on_nd (set_last q) r.2)) as Hh
    by (intros; by apply here_nd).
  intros [Hr [?|Hm]]; split; [done|by left|done|right].
  destruct m; cbn in *; destruct_and?; split_and?; auto.
Qed.

(** The redirected step. *)
Lemma redirect_does p links F flags c st h :
  unconfined F → here p links F st → Z.land flags WALK_NOFOLLOW = 0 →
  let trailing := negb (Z.land flags WALK_TRAILING =? 0) in
  (trailing = true → nd_dir (wk_nd st) = v_inode E (p_dentry p)) →
  ctx_wf c → 0 ≤ ctx_redirect_name_len c → namei_ext_redirect_valid c = true →
  does links F (enter E T root links trailing (follows flags F) p (child T p (ctx_redirect c))) st
    (with_redirect (v_op_hash E) (v_hash E)
       (namei_ext_fill_redirect h p c (clear_flags buf)) (common flags) st).
Proof.
  intros HF H Hnf trailing Hdir Hwf Hlen Hv.
  unfold with_redirect, namei_ext_apply_redirect, namei_ext_fill_redirect. cbn [r_active negb].
  unfold namei_ext_hash_redirect. rewrite (sh_hash _ _ HT). cbn [Z.ltb Z.compare].
  set (q := mk_qstr _ _ _). set (st1 := on_nd _ _).
  assert (here p links F st1) as H1 by by destruct H.
  pose proof (common_does _ _ _ flags st1 HF H1 Hdir) as Hc.
  assert (q_bytes (nd_last (wk_nd st1)) = ctx_redirect c) as Hq.
  { cbn. unfold q, q_bytes. cbn [q_len q_name r_len r_name]. by apply redirect_buffer_bytes. }
  rewrite Hq in Hc. apply (does_set_last _ _ _ (nd_last (wk_nd st))) in Hc.
  apply (does_from _ _ _ _ st1); [done|]. by destruct (common flags st1).
Qed.

(** The policy's side. *)
Context (Hmeans : means E T (mk_targets table ∅)).

Lemma fail_does links F e st st' :
  rcu st' = rcu st → does links F (MErr e) st (fail_unlazied (try_to_unlazy E) e st').
Proof.
  intros Hr. unfold fail_unlazied. change (nd_has LOOKUP_RCU (wk_nd st')) with (rcu st').
  destruct (rcu st') eqn:Hr'; [|apply does_error; congruence].
  pose proof (try_to_unlazy_rcu st') as Hu.
  destruct (try_to_unlazy E st') as [[] st1]; cbn in Hu |- *;
    [apply does_error|apply does_retry]; congruence.
Qed.

Lemma here_maps p links F st w : here p links F st → here p links F (mk_walk (wk_nd st) (wk_targets st) w).
Proof. by intros [????? ?]. Qed.

(** Resolving a target, in either mode. *)
Lemma resolve_here p links F st cg tid :
  here p links F st →
  ∃ ts, ts_table ts = table ∧
  namei_ext_resolve_target (v_hash_min E) (set_pending cg tid (clear_flags buf)) (rcu st)
      (wk_targets st) =
    (if tid =? 0 then (- EINVAL, set_pending cg tid (clear_flags buf), ts) else
     match namei_ext_find_target_rcu (v_hash_min E) cg tid (mk_targets table ∅) with
     | Some t => (0, set_target (tgt_path t) (rcu st) (set_pending cg tid (clear_flags buf)), ts)
     | None => (- ENOENT, set_pending cg tid (clear_flags buf), ts)
     end).
Proof.
  intros H. unfold namei_ext_resolve_target, set_pending. cbn.
  unfold namei_ext_get_target. pose proof (h_table _ _ _ _ H) as Ht.
  assert (namei_ext_find_target_rcu (v_hash_min E) cg tid (wk_targets st) =
    namei_ext_find_target_rcu (v_hash_min E) cg tid (mk_targets table ∅)) as ->.
  { unfold namei_ext_find_target_rcu, chain_of. by rewrite Ht. }
  destruct (tid =? 0); [|destruct (namei_ext_find_target_rcu _ _ _ _) as [t|], (rcu st)];
    by eexists; (split; [|done]).
Qed.

Lemma target_does p links F q r st st0 :
  unconfined F → here p links F st → (rcu st = true → rcu st0 = true) →
  r_target_active r = true → r_target_borrowed r = rcu st → r_target r = q →
  does links F (if v_can_lookup E (p_dentry q) then MTo q else MErr (- ENOTDIR)) st0
    (let '(error, _, st') := namei_ext_apply_target (v_scoped E) (v_can_lookup E) (v_seq E)
                               (v_inode E) r st in
     if negb (error =? 0) then (PErr error, st') else (PNull, st')).
Proof.
  intros HF H Hr0 Ha Hb Hq. unfold namei_ext_apply_target. rewrite Ha, Hb, Hq. cbn [negb].
  pose proof (here_scoped _ _ _ _ HF H) as Hs. unfold scoped in Hs. rewrite Hs.
  rewrite (here_lacks p links F st) by (done || by vm_compute). cbn [andb].
  change (nd_has LOOKUP_RCU (wk_nd st)) with (rcu st).
  destruct (v_can_lookup E (p_dentry q)); cbn [negb].
  - destruct (rcu st) eqn:Hr; cbn [negb andb Z.eqb].
    + split; [auto|right]. split; [done|]. destruct H as [????? ?]. by split.
    + split; [change (rcu st = true → rcu st0 = true); congruence|right].
      split; [done|]. destruct H as [????? ?]. by split.
  - change (negb (- ENOTDIR =? 0)) with true. apply does_error.
    by destruct (rcu st) eqn:Hr; [auto|change (rcu st = true → rcu st0 = true); congruence].
Qed.

(** What a selected target is to flags: an open takes only directories. *)
Definition selected (G : flags_t) (t : Z + path) : Z + path :=
  if fl LOOKUP_OPEN G && negb (fl LOOKUP_DIRECTORY G) then inl (- EOPNOTSUPP) else t.

(** The policy has decided [d]: an error, or the redirect record of [d]. *)
Definition consults (links : nat) (G : flags_t) (p : path) (d : decision) st
  (r : (link_res * walk W) + (namei_ext_redirect * walk W)) : Prop :=
  match r with
  | inl (res, st') => (rcu st' = true → rcu st = true) ∧
      ((rcu st = true ∧ res = PErr (- ECHILD)) ∨
       ∃ e, res = PErr e ∧ (d = DFail e ∨ ∃ t, d = DTarget t ∧ selected G t = inl e))
  | inr (rd, st') => here p links G st' ∧ keeps st st' ∧
      nd_last_type (wk_nd st') = nd_last_type (wk_nd st) ∧
      match d with
      | DPass => r_active rd = false ∧ r_target_active rd = false
      | DName n => ∃ h c, rd = namei_ext_fill_redirect h p c (clear_flags buf) ∧ n = ctx_redirect c ∧
          ctx_wf c ∧ 0 ≤ ctx_redirect_name_len c ∧ namei_ext_redirect_valid c = true
      | DFail _ => False
      | DTarget t => ∃ q, selected G t = inr q ∧ r_target_active rd = true ∧
          r_target_borrowed rd = rcu st' ∧ r_target rd = q
      end
  end.

Lemma consult_fails links G p d e st st' :
  rcu st' = rcu st → (d = DFail e ∨ ∃ t, d = DTarget t ∧ selected G t = inl e) →
  consults links G p d st (inl (fail_unlazied (try_to_unlazy E) e st')).
Proof.
  intros Hr Hd. pose proof (fail_does links G e st st' Hr) as [H1 H2]. unfold consults.
  destruct (fail_unlazied _ _ _) as [res st1]. split; [done|]. destruct H2; [by left|right; eauto].
Qed.

Abbreviation consult := (consult_policy (v_backing_inode E) (v_full_name_hash E) (v_flags_word E)
  (v_run E) (v_hash_min E) (try_to_unlazy E) buf).

Lemma consult_does p links G st :
  unconfined G → fl LOOKUP_CREATE G = false → here p links G st → name_ok (nd_last (wk_nd st)) →
  consults links G p (view T p (q_bytes (nd_last (wk_nd st)))) st (consult st).
Proof.
  intros HG Hcreate H Hfit. unfold consult_policy, namei_ext_lookup.
  rewrite (h_path _ _ _ _ H), (h_inode _ _ _ _ H).
  pose proof (Hmeans (wk_maps st) p (nd_flags (wk_nd st) ∖ {[LOOKUP_RCU]}) _ Hfit) as Hd.
  destruct (v_run E _ p _) as [[action w] c]. set (st1 := mk_walk (wk_nd st) (wk_targets st) w).
  assert (here p links G st1) as H1 by by apply here_maps.
  assert (∀ f, f ≠ LOOKUP_RCU → f ≠ LOOKUP_PARENT →
    fl f (nd_flags (wk_nd st) ∖ {[LOOKUP_RCU]}) = fl f G) as Hfl.
  { intros f Hf1 Hf2. rewrite fl_drop by by rewrite elem_of_singleton.
    rewrite <- (h_flags _ _ _ _ H). by rewrite wanted_fl. }
  destruct Hd as [-> Hwf]. unfold decision_of. rewrite !Hfl, Hcreate by done.
  destruct (action <? 0) eqn:Ha.
  { unfold_bools. rewrite (proj2 (Z.eqb_neq action 0)) by lia. by apply consult_fails; [|left]. }
  clear Ha. destruct (action =? BPF_NAMEI_EXT_PASS).
  { cbn [negb Z.eqb clear_flags r_target_pending r_active andb consults]. by split_and!. }
  destruct (action =? BPF_NAMEI_EXT_REDIRECT) eqn:Ha; unfold_bools.
  { destruct (Hwf Ha) as [Hc Hlen]. clear Hwf Ha.
    destruct (namei_ext_redirect_valid c) eqn:Hv; cbn [negb]; [|by apply consult_fails; [|left]].
    cbn [negb Z.eqb namei_ext_fill_redirect clear_flags r_target_pending r_active andb wk_targets].
    fold st1. change (nd_has LOOKUP_RCU (wk_nd st)) with (rcu st1).
    destruct (rcu st1) eqn:Hr.
    2: { split_and!; [done..|]. by do 2 eexists; split_and!. }
    pose proof (try_to_unlazy_ok E st1) as Hok. pose proof (unlazy_here _ _ _ _ H1) as Hu.
    destruct (try_to_unlazy E st1) as [[] st2]; destruct Hu as [Hr2 Hu]; cbn [negb].
    - destruct (Hu eq_refl) as (H2 & Hk). destruct (Hok eq_refl) as ([g Hg] & _).
      split_and!; [done..|by rewrite Hg|]. by do 2 eexists; split_and!.
    - split; [congruence|by left]. }
  clear Hwf Ha. destruct (action =? BPF_NAMEI_EXT_HIDE); [by apply consult_fails; [|left]|].
  destruct (action =? BPF_NAMEI_EXT_SELECT_TARGET); [|by apply consult_fails; [|left]].
  destruct (fl LOOKUP_OPEN G && negb (fl LOOKUP_DIRECTORY G)) eqn:Hopen.
  { apply consult_fails; [done|right]. eexists. split; [done|]. unfold selected. by rewrite Hopen. }
  cbn [negb Z.eqb andb]. change (r_target_pending (set_pending _ _ _)) with true.
  cbn [wk_targets wk_nd]. change (nd_has LOOKUP_RCU (wk_nd st)) with (rcu st).
  destruct (resolve_here p links G st (ctx_cgroup_id c) (ctx_target_id c) H) as (ts & Hts & ->).
  assert (∀ t, selected G t = t) as Hsel by (intros t; unfold selected; by rewrite Hopen).
  destruct (ctx_target_id c =? 0); [apply consult_fails; [done|right]; by eexists|].
  destruct (namei_ext_find_target_rcu _ _ _ _) as [t|];
    [|apply consult_fails; [done|right]; by eexists].
  cbn [negb Z.eqb set_target set_pending clear_flags r_active andb].
  assert (here p links G (mk_walk (wk_nd st) ts w)) as H2 by (destruct H as [????? ?]; by split).
  split_and!; [done..|]. by exists (tgt_path t).
Qed.

Lemma component_does p links F flags st :
  ordinary F → here p links F st → nd_last_type (wk_nd st) = LAST_NORM →
  name_ok (nd_last (wk_nd st)) → Z.land flags WALK_NOFOLLOW = 0 →
  let trailing := negb (Z.land flags WALK_TRAILING =? 0) in
  (trailing = true → nd_dir (wk_nd st) = v_inode E (p_dentry p)) →
  does links F
    (step_name E T root links trailing (fl LOOKUP_FOLLOW F) p (q_bytes (nd_last (wk_nd st)))) st
    (walk_component E true (λ _, true) buf flags st).
Proof.
  intros HF H Hty Hfit Hnf trailing Hdir.
  unfold walk_component, Walk.walk_component. rewrite bool_decide_true by done. cbn [negb andb].
  unfold walk_component_namei_ext.
  assert (∀ f, f ∈ special_flags → fl f F = false) as Hno
    by (intros f Hf; apply bool_decide_eq_false; intros Hin; by apply (HF f)).
  pose proof (consult_does p links F st (ordinary_unconfined _ HF)) as Hc.
  specialize (Hc (Hno LOOKUP_CREATE ltac:(by vm_compute)) H Hfit).
  assert (∀ t, selected F t = t) as Hsel
    by (intros t; unfold selected; by rewrite (Hno LOOKUP_OPEN) by by vm_compute).
  apply ordinary_unconfined in HF. unfold step_name.
  assert (follows flags F = negb trailing || fl LOOKUP_FOLLOW F) as <-.
  { unfold follows, trailing. rewrite Hnf. by rewrite negb_involutive. }
  destruct (consult st) as [[res st1]|[rd st1]]; cbn [consults] in Hc.
  { destruct Hc as [Hr [[Hc ->]|(e & -> & Hd)]]; [by apply does_retry|].
    destruct Hd as [-> |(t & -> & Ht)]; [by apply does_error|]. rewrite Hsel in Ht. subst t.
    by apply does_error. }
  destruct Hc as (H1 & (Hl & Hdi & Hk) & _ & Hd). rewrite <- Hdi in Hdir. rewrite <- Hl in *.
  apply (does_from _ _ _ _ st1); [done|]. clear Hk Hl Hdi.
  destruct (view T p _) as [|n|e|t].
  - destruct Hd as [Ha ->]. unfold with_redirect, namei_ext_apply_redirect. rewrite Ha.
    by apply common_does.
  - destruct Hd as (h & c & -> & -> & Hwf & Hlen & Hv).
    cbn [namei_ext_fill_redirect clear_flags r_target_active]. by apply redirect_does.
  - done.
  - destruct Hd as (q & Hq & Ha & Hb & Ht). rewrite Hsel in Hq. subst t. rewrite Ha.
    by apply (target_does p links F).
Qed.
End facts.
