(* ===== verification/PathViewProps.v ===== *)
(** * A lookup computes the name space of a policy

    The loop over components and the loop over trailing symlinks against
    [resolve], for one attempt in either mode. *)

From S2P Require Import Prelude Abi PolicyLib PolicyFacts Kernel.
From S2P Require Import Targets Lookup LookupProps Walk.
From S2P Require Import WalkProps PathWalk PathInv PathRefs PathSafe.
From S2P Require Import PathTotal PathView PathNames PathViewFacts.

Section props.
Context {W : Type} (E : vfs W) (HE : env_ok E) (T : tree) (HT : shows E T).
Context (table : list (list namei_ext_target)) (root : path) (Hroot : root ≠ null_path).
Context (buf : namei_ext_redirect) (Hbuf : length (r_name buf) = NAME_MAX_nat).
Context (Hmeans : means E T (mk_targets table ∅)).
Implicit Types (st : walk W).

Abbreviation here := (here E table root).
Abbreviation does := (does E table root).
Abbreviation component := (walk_component E true (λ _, true) buf).
Abbreviation loop := (link_path_walk_loop E true (λ _, true) buf).
Abbreviation step := (step E T root).

(** How the last component is taken. *)
Context (final : nat → wish → path → list Z → wish * move).
Abbreviation resolve := (resolve_with E T root final).

(** ** A component, a check, a string *)

(** The last component read is [c]. *)
Record reads (c : list Z) (nd : nameidata) : Prop := {
  rd_type : nd_last_type nd = type_of (token_of c);
  rd_name : q_bytes (nd_last nd) = c;
  rd_fits : name_ok (nd_last nd)
}.

Lemma component_step p links F flags st c :
  ordinary F → here p links F st → reads c (wk_nd st) → Z.land flags WALK_NOFOLLOW = 0 →
  let trailing := negb (Z.land flags WALK_TRAILING =? 0) in
  (trailing = true → nd_dir (wk_nd st) = v_inode E (p_dentry p)) →
  does links F (step links trailing (fl LOOKUP_FOLLOW F) p c) st (component flags st).
Proof.
  intros HF H [Ht Hc Hfit] Hnf trailing Hdir. unfold PathView.step.
  destruct (token_of c) as [| |n] eqn:Htok; cbn [type_of] in Ht.
  3: { apply token_name in Htok as ->. rewrite <- Hc. by apply component_does. }
  all: unfold walk_component, Walk.walk_component; rewrite Ht, bool_decide_false by done; cbn [negb];
    set (st1 := if negb (nd_depth _ =? 0) && _ then put_link st else st);
    assert (here p links F st1 ∧ keeps st st1 ∧ nd_last_type (wk_nd st1) = nd_last_type (wk_nd st))
      as (H1 & (_ & _ & Hk) & Ht1)
      by (unfold st1; destruct (_ && _); [|done]; split_and!; [by apply here_put_link|
          apply put_link_keeps|apply put_link_type]);
    apply (does_from _ _ _ _ _ _ _ st1); [done|]; rewrite Ht in Ht1; clearbody st1.
  - unfold handle_dots. rewrite Ht1, bool_decide_false by done. cbn [negb].
    split; [done|by right].
  - pose proof (ordinary_unconfined _ HF) as HU.
    by apply (handle_dots_does E T HT table root Hroot buf).
Qed.

Lemma may_lookup_here p links F st :
  here p links F st →
  let '(err, st') := may_lookup E st in
  (rcu st' = true → rcu st = true) ∧
  ((rcu st = true ∧ err = - ECHILD) ∨
   (err = v_may_exec E (v_inode E (p_dentry p)) false ∧ (err = 0 → here p links F st'))).
Proof.
  intros H. unfold may_lookup. rewrite (h_inode _ _ _ _ _ _ _ H).
  set (i := v_inode E (p_dentry p)). destruct (rcu st) eqn:Hr; cbn [negb].
  2: { destruct (_ =? 0) eqn:He; unfold_bools; (split; [congruence|right]); rewrite ?He; auto. }
  destruct (v_may_exec E i true =? 0) eqn:He; unfold_bools.
  { destruct (sh_exec _ _ HT i) as [Hx|Hx]; [|by rewrite He in Hx].
    split; [done|right]. by rewrite <- Hx. }
  pose proof (unlazy_here _ _ _ _ _ _ _ H) as Hu.
  destruct (try_to_unlazy E st) as [[] st1]; destruct Hu as [Hr1 Hu]; cbn [negb]; [|auto].
  destruct (Hu eq_refl) as [H1 _]. rewrite (h_inode _ _ _ _ _ _ _ H1). fold i.
  destruct (sh_exec _ _ HT i) as [Hx|Hx]; rewrite Hx in *.
  - destruct (_ =? - ECHILD); cbn [negb]; (split; [done|right]); auto.
  - cbn [negb Z.eqb]. rewrite Z.eqb_refl. cbn [negb]. auto.
Qed.

(** A symlink to follow has components. *)
Lemma body_word st d : cstring (body T d) ∧ Forall is_byte (body T d).
Proof.
  split; [|by apply (sh_bytes _ _ HT)].
  exact (env_get_link _ HE st d true (body T d) (sh_get_link _ _ HT st d)).
Qed.

Lemma enter_link st n t f p d q s : enter E T root n t f p d = MLink q s → at_word s.
Proof.
  unfold enter, follow_link. cbv zeta.
  destruct (bool_decide _); [done|]. destruct (_ && f); [|done].
  destruct (n =? 0)%nat; [done|]. destruct (t && _); [done|].
  destruct (v_nosymfollow _ _); [done|]. destruct (negb _); [done|].
  destruct (at_nul _) eqn:Hn; [done|]. intros [= _ <-]. by apply skip_at_word; [apply (body_word st)..|].
Qed.

Lemma step_link st links trailing follow p c q s :
  step links trailing follow p c = MLink q s → at_word s.
Proof.
  unfold PathView.step, step_name, step_dotdot, enter_target.
  repeat (case_match; try done); eauto using enter_link.
Qed.

(** ** The loop over components *)

(** The components left, and the string that the last of them is in. *)
Definition to_walk (name : list Z) (names : list (list Z)) : list (list Z) :=
  components [] name ++ concat (components [] <$> names).
Fixpoint bottom (name : list Z) (names : list (list Z)) : list Z :=
  match names with [] => name | name :: names => bottom name names end.

Lemma to_walk_cons (nd : nameidata) name names : at_word name → to_walk name names ≠ [].
Proof.
  intros Hn. unfold to_walk.
  by destruct (hash_name_word E name nd Hn) as (c & rest & _ & _ & _ & _ & _ & _ & _ & -> & _).
Qed.

Lemma resolve_cons links w dir c cs :
  resolve links w dir (c :: cs) =
  let err := v_may_exec E (v_inode E (p_dentry dir)) false in
  if negb (err =? 0) then inl err else
  let trailing := match cs with [] => true | _ => false end in
  let '(w, m) := if trailing then final links w dir c
                 else (w, step links false (w_follow w) dir c) in
  match m with
  | MErr e => inl e
  | MTo p =>
      if trailing then arrived E w p else
      if negb (v_can_lookup E (p_dentry p)) then inl (- ENOTDIR) else resolve links w p cs
  | MJump p =>
      match links with
      | O => inl (- ELOOP)
      | S links' =>
          if trailing then arrived E w p else
          if negb (v_can_lookup E (p_dentry p)) then inl (- ENOTDIR) else resolve links' w p cs
      end
  | MLink dir' s =>
      match links with
      | O => inl (- ELOOP)
      | S links' =>
          let w := if trailing
                   then mk_wish (w_follow w) (w_directory w) (ends_in_slash false s) else w in
          resolve links' w dir' (components [] s ++ cs)
      end
  end.
Proof. by destruct links. Qed.

(** With fewer symlinks to follow, the same or ELOOP. *)
Lemma step_links n m trailing follow p c :
  (n ≤ m)%nat → step n trailing follow p c = step m trailing follow p c ∨
  (n = 0%nat ∧ step n trailing follow p c = MErr (- ELOOP)).
Proof.
  intros Hnm. assert (∀ p d f, enter E T root n trailing f p d = enter E T root m trailing f p d ∨
    (n = 0%nat ∧ enter E T root n trailing f p d = MErr (- ELOOP))) as He.
  { clear p. intros p d f. unfold enter, follow_link. destruct (bool_decide _); [auto|].
    destruct (_ && f); [|auto]. destruct n; [auto|]. destruct m; [(clear - Hnm; lia)|auto]. }
  unfold PathView.step, step_name. destruct (token_of c); auto.
  destruct (view T p n0); auto.
Qed.

(** So does the last component. *)
Definition fewer_links : Prop := ∀ n m w p c, (n ≤ m)%nat →
  final n w p c = final m w p c ∨ (n = 0%nat ∧ (final n w p c).2 = MErr (- ELOOP)).

Lemma resolve_links n m w p cs : fewer_links →
  (n ≤ m)%nat → resolve n w p cs = resolve m w p cs ∨ resolve n w p cs = inl (- ELOOP).
Proof.
  intros Hfinal. revert m w p cs. induction n as [|n IHn]; intros m w p cs Hnm; revert w p;
    (induction cs as [|c cs IH]; intros w p; [left; by destruct m|]);
    rewrite !resolve_cons; cbv zeta; (destruct (negb _); [auto|]);
    assert (∀ n m, (n ≤ m)%nat →
      let x n := if match cs with [] => true | _ => false end then final n w p c
                 else (w, step n false (w_follow w) p c) in
      x n = x m ∨ (n = 0%nat ∧ (x n).2 = MErr (- ELOOP))) as Hx
      by (intros n1 m1 Hnm1; cbv zeta; destruct cs; [by apply Hfinal|];
          destruct (step_links n1 m1 false (w_follow w) p c Hnm1) as [-> | [? ->]]; auto);
    specialize (Hx _ _ Hnm); cbv zeta in Hx.
  - destruct Hx as [-> | [_ Hx]].
    2: { right. destruct (if match cs with [] => true | _ => false end then _ else _) as [w1 m1].
         cbn in Hx. by subst m1. }
    destruct (if match cs with [] => true | _ => false end then _ else _) as [w1 m1].
    destruct m1 as [e|q|q|q s]; auto. destruct cs as [|c' cs]; [auto|]. destruct (negb _); auto.
  - destruct m as [|m]; [(clear - Hnm; lia)|]. destruct Hx as [-> | [? _]]; [|done].
    destruct (if match cs with [] => true | _ => false end then _ else _) as [w1 m1].
    destruct m1 as [e|q|q|q s]; auto.
    + destruct cs as [|c' cs]; [auto|]. destruct (negb _); auto.
    + destruct cs as [|c' cs]; [auto|]. destruct (negb _); [auto|]. apply IHn; (clear - Hnm; lia).
    + apply IHn; (clear - Hnm; lia).
Qed.

(** The flags say what is wished. *)
Record wants (F : flags_t) (w : wish) : Prop := {
  wa_follow : w_follow w = fl LOOKUP_FOLLOW F;
  wa_directory : w_directory w = fl LOOKUP_DIRECTORY F
}.

(** Before the last component, [c]. *)
Record ready (w : wish) (p : path) (c : list Z) st : Prop := {
  re_reads : reads c (wk_nd st);
  re_dir : nd_dir (wk_nd st) = v_inode E (p_dentry p);
  re_exec : v_may_exec E (v_inode E (p_dentry p)) false = 0;
  re_slash : trailing_slashes (wk_nd st) = Some (w_slash w)
}.

(** Give up, fail, or be ready for the last component, as the reference. *)
Definition walks links F w p cs st (r : Z * walk W) : Prop :=
  (rcu r.2 = true → rcu st = true) ∧
  ((rcu st = true ∧ r.1 = - ECHILD) ∨
   (r.1 ≠ 0 ∧ resolve links w p cs = inl r.1) ∨
   (r.1 = 0 ∧ ∃ q n c, here q n F r.2 ∧ ready w q c r.2 ∧
      resolve links w p cs = resolve n w q [c])).

Lemma walks_from links F w p cs links' p' cs' st st' r :
  (rcu st' = true → rcu st = true) → resolve links w p cs = resolve links' w p' cs' →
  walks links' F w p' cs' st' r → walks links F w p cs st r.
Proof. intros Hr He [H1 H2]. rewrite <- He in H2. split; [auto|]. destruct H2 as [[]|H2]; auto. Qed.

(** What the loop does with the result of a component that is not the last. *)
Definition go_on (fuel : nat) (name : list Z) (names : list (list Z)) (r : link_res * walk W)
  : option (Z * walk W) :=
  let '(link, st) := r in
   match link with
   | PErr e => Some (e, st)
   | PPtr body => loop fuel body (name :: names) st
   | PNull =>
       if negb (v_can_lookup E (p_dentry (nd_path (wk_nd st)))) then
         let '(ok, st) := if rcu st then try_to_unlazy E st else (true, st) in
         Some (if negb ok then - ECHILD else - ENOTDIR, st)
       else loop fuel name names st
   end.

Lemma loop_next_does fuel links F w p c name names st r res :
  (∀ name names p links st res, at_word name → Forall at_word names →
     w_slash w = ends_in_slash false (bottom name names) → here p links F st →
     loop fuel name names st = Some res → walks links F w p (to_walk name names) st res) →
  at_word name → Forall at_word names → w_slash w = ends_in_slash false (bottom name names) →
  v_may_exec E (v_inode E (p_dentry p)) false = 0 →
  does links F (step links false (w_follow w) p c) st r → nonzero r.1 →
  go_on fuel name names r = Some res →
  walks links F w p (c :: to_walk name names) st res.
Proof.
  unfold go_on. intros IH Hname Hnames Hw Hx Hd Hnz Hres.
  pose proof (to_walk_cons (wk_nd st) name names Hname) as Hcs.
  pose proof (resolve_cons links w p c (to_walk name names)) as Hrc.
  rewrite Hx in Hrc. cbn [negb Z.eqb] in Hrc.
  destruct (to_walk name names) as [|c' cs'] eqn:Hleft; [done|]. rewrite <- Hleft in *. clear Hcs.
  destruct r as [link st1]. destruct Hd as [Hr [[Hc [= ->]]|Hm]]; cbn [fst snd] in *.
  { simplify_eq. split; [done|by left]. }
  (* at a directory, or at something else *)
  assert (∀ q n, here q n F st1 → link = PNull →
    resolve links w p (c :: to_walk name names) =
      (if negb (v_can_lookup E (p_dentry q)) then inl (- ENOTDIR)
       else resolve n w q (to_walk name names)) →
    walks links F w p (c :: to_walk name names) st res) as Hgo.
  { intros q n H1 -> He. rewrite (h_path _ _ _ _ _ _ _ H1) in Hres.
    destruct (v_can_lookup E (p_dentry q)); cbn [negb] in *.
    - eapply walks_from; [exact Hr|exact He|by eapply IH].
    - destruct (rcu st1) eqn:Hr1.
      + pose proof (try_to_unlazy_rcu E st1) as Hu.
        destruct (try_to_unlazy E st1) as [[] st2]; cbn in Hu, Hres; simplify_eq;
          (split; [cbn; congruence|]); [by right; left|by left; auto].
      + simplify_eq. split; [cbn; congruence|]. by right; left. }
  destruct (step links false (w_follow w) p c) as [e|q|q|q s] eqn:Hstep.
  - subst link. simplify_eq. split; [done|right; left]. cbn. split; [by intros ->; apply Hnz|done].
  - destruct Hm as [-> H1]. by apply (Hgo q links).
  - destruct Hm as (-> & Hl & H1). destruct links as [|links]; [done|]. by apply (Hgo q links).
  - destruct Hm as (-> & Hl & H1). destruct links as [|links]; [done|].
    eapply walks_from; [exact Hr|exact Hrc|].
    apply (IH s (name :: names)); [by eapply step_link|by constructor|done..].
Qed.
Lemma last_component_here p links F st :
  here p links F st → here p links F (on_nd last_component st).
Proof.
  intros [????? ?]. split; try done. cbn. rewrite <- h_flags. apply set_eq. intros f.
  unfold wanted. rewrite !elem_of_difference, elem_of_union, !elem_of_singleton. tauto.
Qed.

Lemma rcu_last_component st : rcu (on_nd last_component st) = rcu st.
Proof. unfold rcu, nd_has. cbn. by apply fl_drop; rewrite not_elem_of_singleton. Qed.

Lemma slash_after nd comp rest :
  q_name (nd_last nd) = comp ++ rest → q_len (nd_last nd) = Z.of_nat (length comp) → 0 ∈ rest →
  trailing_slashes nd = Some (negb (at_nul rest)).
Proof.
  intros Hn Hl H0. unfold trailing_slashes. rewrite Hn, Hl, Nat2Z.id, lookup_app_r, Nat.sub_diag by done.
  destruct rest; [by apply not_elem_of_nil in H0|done].
Qed.

Lemma loop_does F w : ordinary F → wants F w → ∀ fuel name names p links st res,
  at_word name → Forall at_word names → w_slash w = ends_in_slash false (bottom name names) →
  here p links F st → loop fuel name names st = Some res →
  walks links F w p (to_walk name names) st res.
Proof.
  intros HF Hwa. induction fuel as [|fuel IH]; [done|].
  intros name names p links st res Hname Hnames Hw H Hres. cbn [link_path_walk_loop] in Hres.
  pose proof (may_lookup_here _ _ _ _ H) as Hm. destruct (may_lookup E st) as [err st1].
  destruct (hash_name_word E name (wk_nd st1) Hname)
    as (comp & rest & Hh & Hsplit & Hl & Hb & Hbr & [H0 Hrest] & Hlen & Hcs & Hends).
  assert (to_walk name names = comp :: components [] (skip_slashes rest) ++ concat (components [] <$> names))
    as Hleft by (unfold to_walk; by rewrite Hcs).
  destruct Hm as [Hr1 [[Hc ->]|[He H1]]].
  { simplify_eq/=. split; [done|by left]. }
  destruct (err =? 0) eqn:Herr; cbn [negb] in Hres; unfold_bools.
  2: { simplify_eq. split; [done|right; left]. split; [done|]. rewrite Hleft, resolve_cons.
       cbv zeta. cbn [fst]. by rewrite (proj2 (Z.eqb_neq _ _)) by done. }
  specialize (H1 Herr). rewrite Herr in He. symmetry in He. clear Herr err.
  rewrite Hh in Hres. set (nd1 := set_last _ _) in Hres.
  destruct (classify_token E comp nd1 Hb Hl (sh_hash _ _ HT)) as (nd2 & Hcl & Hty & Hla & Hsame).
  rewrite Hcl in Hres. cbn [Z.ltb Z.compare] in Hres.
  set (st2 := on_nd (λ _, nd2) st1) in Hres.
  assert (here p links F st2) as H2 by by apply here_nd.
  assert (reads comp (wk_nd st2)) as Hread.
  { split; [done|cbn; rewrite Hla..].
    - unfold q_bytes. cbn. by rewrite Nat2Z.id, Hsplit, take_app_length.
    - unfold name_ok, in_width. cbn. rewrite Hsplit, length_app. unfold PATH_MAX in Hlen. lia. }
  assert (rcu st2 = true → rcu st = true) as Hr2.
  { intros Hr. apply Hr1. injection Hsame as _ _ Hf _ _. unfold rcu, nd_has in *. cbn in Hr.
    by rewrite Hf in Hr. }
  assert (nd_last (wk_nd st2) = nd_last nd1) as Hlast by done.
  assert (∀ flags, Z.land flags WALK_NOFOLLOW = 0 → Z.land flags WALK_TRAILING = 0 →
    does links F (step links false (w_follow w) p comp) st2 (component flags st2)) as Hd.
  { intros flags Hnf Htr. pose proof (component_step p links F flags st2 comp HF H2 Hread Hnf) as Hd.
    rewrite Htr in Hd. rewrite (wa_follow _ _ Hwa). by apply Hd. }
  clearbody st2. clear Hcl Hty Hla Hsame nd2 H1 Hr1 Hh.
  assert ((if at_nul rest then rest else skip_slashes rest) = skip_slashes rest) as Hskip.
  { destruct (at_nul rest) eqn:Hn; [|done]. by rewrite skip_at_nul. }
  rewrite Hskip in Hres. clear Hskip.
  assert (∀ flags name names, Z.land flags WALK_NOFOLLOW = 0 → Z.land flags WALK_TRAILING = 0 →
    at_word name → Forall at_word names → w_slash w = ends_in_slash false (bottom name names) →
    go_on fuel name names (component flags st2) = Some res →
    walks links F w p (comp :: to_walk name names) st res) as Hnext.
  { intros flags name' names' Hnf Htr Hname' Hnames' Hw' Hn.
    apply (walks_from _ _ _ _ _ links p (comp :: to_walk name' names') _ st2); [done|done|].
    eapply loop_next_does; [|exact Hname'|exact Hnames'|exact Hw'|exact He|by apply (Hd flags)
      |by apply walk_component_nonzero|exact Hn]. auto. }
  destruct (at_nul (skip_slashes rest)) eqn:Hn.
  - assert (components [] (skip_slashes rest) = []) as Hnil.
    { destruct (skip_slashes rest) as [|c s]; [done|]. cbn in *. by rewrite Hn. }
    rewrite Hnil in Hleft. destruct names as [|name1 names].
    + simplify_eq. split; [by cbn; rewrite rcu_last_component|right; right].
      split; [done|]. exists p, links, comp.
      split_and!; [by apply last_component_here| |by rewrite Hleft]. split; try done.
      * by destruct Hread.
      * cbn. by apply (h_inode _ _ _ _ _ _ _ H2).
      * cbn in Hw. rewrite Hw, Hends, ends_rest by done. cbn [orb].
        apply (slash_after _ comp); [cbn; by rewrite Hlast|cbn; by rewrite Hlast|done].
    + apply Forall_cons in Hnames as [Hn1 Hns1]. rewrite Hleft. by apply (Hnext 0).
  - rewrite Hleft. apply (Hnext WALK_MORE); try done; [by apply skip_at_word|].
    destruct names; [|done]. cbn in *. rewrite Hw, Hends. by apply ends_skip.
Qed.
(** ** The last component *)

Lemma wanted_more F : wanted (F ∪ {[LOOKUP_FOLLOW; LOOKUP_DIRECTORY]}) =
  wanted F ∪ {[LOOKUP_FOLLOW; LOOKUP_DIRECTORY]}.
Proof.
  unfold wanted. by rewrite difference_union_distr_l_L.
Qed.

Lemma follow_directory_here p links F st :
  here p links F st →
  here p links (F ∪ {[LOOKUP_FOLLOW; LOOKUP_DIRECTORY]}) (on_nd follow_directory st).
Proof.
  intros [????? ?]. split; try done. cbn. rewrite <- h_flags. apply wanted_more.
Qed.
Lemma ordinary_more F : ordinary F → ordinary (F ∪ {[LOOKUP_FOLLOW; LOOKUP_DIRECTORY]}).
Proof.
  intros HF f [Hf|Hf]%elem_of_union Hs; [by apply (HF f)|].
  apply elem_of_union in Hf as [->%elem_of_singleton| ->%elem_of_singleton]; by revert Hs; vm_compute.
Qed.

(** The flags and the wishes at the last component. *)
Lemma lookup_last_does p links F w c st r :
  ordinary F → wants F w → here p links F st → ready w p c st →
  lookup_last E true (λ _, true) buf st = Some r →
  ∃ F', ordinary F' ∧ wants F' (at_last w c) ∧
    does links F' (step links true (w_follow (at_last w c)) p c) st r.
Proof.
  intros HF [Hf Hdi] H [[Ht Hc Hfit] Hdir Hx Hs] Hl. unfold lookup_last, Walk.lookup_last in Hl.
  assert (∀ F' st', ordinary F' → here p links F' st' → w_follow (at_last w c) = fl LOOKUP_FOLLOW F' →
    wk_nd st' = wk_nd st ∨ wk_nd st' = follow_directory (wk_nd st) → rcu st' = rcu st →
    does links F' (step links true (w_follow (at_last w c)) p c) st (component WALK_TRAILING st')) as Hgo.
  { intros F' st' HF' H' -> Hnd Hr. apply (does_from _ _ _ _ _ _ _ st'); [by rewrite Hr|].
    assert (nd_last (wk_nd st') = nd_last (wk_nd st) ∧ nd_dir (wk_nd st') = nd_dir (wk_nd st) ∧
      nd_last_type (wk_nd st') = nd_last_type (wk_nd st)) as (Hla & Hd & Hty)
      by by destruct Hnd as [-> | ->].
    apply (component_step p links F' WALK_TRAILING st' c); try done; [split|]; congruence. }
  assert (is_name (token_of c) = false →
    ∃ F', ordinary F' ∧ wants F' (at_last w c) ∧ does links F'
      (step links true (w_follow (at_last w c)) p c) st (component WALK_TRAILING st)) as Hsame.
  { intros Hn. assert (at_last w c = w) as Hw.
    { unfold at_last. rewrite Hn, andb_false_r, !orb_false_r. by destruct w. }
    exists F. split_and!; [done|by rewrite Hw|]. apply Hgo; auto. by rewrite Hw. }
  rewrite Ht in Hl. destruct (token_of c) as [| |n] eqn:Htok; cbn [type_of] in Hl.
  1, 2: rewrite bool_decide_false in Hl by done; injection Hl as <-; auto.
  rewrite bool_decide_true, Hs in Hl by done. cbn in Hl. injection Hl as <-.
  unfold at_last. rewrite Htok. cbn [is_name w_follow]. rewrite andb_true_r.
  unfold at_last in Hgo. rewrite Htok in Hgo. cbn [is_name w_follow] in Hgo. rewrite andb_true_r in Hgo.
  destruct (w_slash w).
  - exists (F ∪ {[LOOKUP_FOLLOW; LOOKUP_DIRECTORY]}).
    assert (∀ f, f ∈ ({[LOOKUP_FOLLOW; LOOKUP_DIRECTORY]} : flags_t) →
      fl f (F ∪ {[LOOKUP_FOLLOW; LOOKUP_DIRECTORY]}) = true) as Hfl.
    { intros f Hin. apply bool_decide_eq_true, elem_of_union. by right. }
    split_and!; [by apply ordinary_more|split; cbn; by rewrite orb_true_r, Hfl by (by vm_compute)|].
    apply Hgo; [by apply ordinary_more|by apply follow_directory_here| |by right|].
    + by rewrite orb_true_r, Hfl by by vm_compute.
    + unfold rcu, nd_has. cbn. apply fl_add. by vm_compute.
  - exists F. rewrite !orb_false_r in *. split_and!; [done|by split|]. apply Hgo; auto.
Qed.
End props.

Lemma fewer_links_lookup {W} (E : vfs W) T root : fewer_links (final_lookup E T root).
Proof.
  intros n m w p c Hnm. unfold final_lookup.
  destruct (step_links E T root n m true (w_follow (at_last w c)) p c Hnm) as [-> | [? ->]]; auto.
Qed.
