(* ===== verification/PathResolve.v ===== *)
(** * A lookup resolves its pathname

    One attempt of [path_lookupat] and the three of [filename_lookup] against
    [resolve_pathname]. *)

From S2P Require Import Prelude Abi PolicyLib PolicyFacts Kernel.
From S2P Require Import Targets Lookup LookupProps Walk.
From S2P Require Import WalkProps PathWalk PathInv PathRefs PathSafe PathTotal.
From S2P Require Import PathView PathNames PathFrame PathViewFacts PathViewProps.

Section props.
Context {W : Type} (E : vfs W) (HE : env_ok E) (T : tree) (HT : shows E T).
Context (table : list (list namei_ext_target)) (root : path) (Hroot : root ≠ null_path).
Context (buf : namei_ext_redirect) (Hbuf : length (r_name buf) = NAME_MAX_nat).
Context (Hmeans : means E T (mk_targets table ∅)).
Implicit Types (st : walk W).

Abbreviation here := (here E table root).
Abbreviation does := (does E table root).
Abbreviation walks := (walks E T table root (final_lookup E T root)).
Abbreviation step := (step E T root).
Abbreviation resolve := (resolve E T root).

(** ** Symlinks at the end *)

(** Give up, fail, or arrive, as the reference. *)
Definition looks links w p cs st (r : Z * walk W) : Prop :=
  (rcu r.2 = true → rcu st = true) ∧
  ((rcu st = true ∧ r.1 = - ECHILD) ∨
   (r.1 ≠ 0 ∧ resolve links w p cs = inl r.1) ∨
   (r.1 = 0 ∧ ∃ q n F w', here q n F r.2 ∧ ordinary F ∧ wants F w' ∧
      resolve links w p cs = arrived E w' q)).

Lemma looks_from links w p cs links' w' p' cs' st st' r :
  (rcu st' = true → rcu st = true) → resolve links w p cs = resolve links' w' p' cs' →
  looks links' w' p' cs' st' r → looks links w p cs st r.
Proof. intros Hr He [H1 H2]. rewrite <- He in H2. split; [auto|]. destruct H2 as [[]|H2]; auto. Qed.

Abbreviation link_path_walk := (link_path_walk E true (λ _, true) buf).
Abbreviation lookup_last := (lookup_last E true (λ _, true) buf).
Abbreviation lookup_loop := (lookup_loop E true (λ _, true) buf).

(** A pathname without components. *)
Lemma lookup_none p links F st :
  here p links F st → nd_last_type (wk_nd st) = LAST_ROOT →
  ∃ st', lookup_last st = Some (PNull, st') ∧ here p links F st' ∧ (rcu st' = true → rcu st = true).
Proof.
  intros H Ht. unfold PathWalk.lookup_last, Walk.lookup_last, Walk.walk_component.
  rewrite Ht, !bool_decide_false by done. cbn [negb].
  set (st1 := if _ && _ then _ else st).
  assert (here p links F st1 ∧ keeps st st1 ∧ nd_last_type (wk_nd st1) = nd_last_type (wk_nd st))
    as (H1 & (_ & _ & Hk) & Ht1).
  { unfold st1. destruct (_ && _); [|done]. split_and!; [by apply here_put_link|apply put_link_keeps|].
    apply put_link_type. }
  exists st1. unfold handle_dots. rewrite Ht1, Ht, bool_decide_false by done. done.
Qed.

Lemma parent_flags_here p links F f st :
  nd_flags (f (wk_nd st)) = nd_flags (wk_nd st) ∪ {[LOOKUP_PARENT]} →
  (nd_path (f (wk_nd st)), nd_inode (f (wk_nd st)), nd_root (f (wk_nd st)),
   nd_total_link_count (f (wk_nd st))) =
  (nd_path (wk_nd st), nd_inode (wk_nd st), nd_root (wk_nd st), nd_total_link_count (wk_nd st)) →
  here p links F st → here p links F (on_nd f st) ∧ rcu (on_nd f st) = rcu st.
Proof.
  intros Hf He [????? ?]. injection He as ????. split.
  - split; cbn; try congruence. rewrite <- h_flags, Hf. unfold wanted.
    rewrite difference_union_distr_l_L.
    replace ({[LOOKUP_PARENT]} ∖ _ : flags_t) with (∅ : flags_t) by done.
    by rewrite union_empty_r_L.
  - unfold rcu, nd_has. cbn. rewrite Hf. apply fl_add. by rewrite not_elem_of_singleton.
Qed.
Lemma lookup_loop_err rounds fuel e st res :
  e ≠ 0 → lookup_loop rounds fuel (PErr e) st = Some res → res.1 = e ∧ rcu res.2 = rcu st.
Proof.
  intros He. destruct rounds as [|rounds]; [done|]. cbn.
  rewrite (proj2 (Z.eqb_neq _ _)) by done. cbn [negb]. intros [= <-]. split; [done|].
  unfold rcu, nd_has. cbn. apply fl_add. by rewrite not_elem_of_singleton.
Qed.

(** After the last component. *)
Lemma after_last rounds fuel links F w p c st r res :
  (∀ F w n p s st res, ordinary F → wants F w → w_slash w = ends_in_slash false s → cstring s →
     Forall is_byte s → here p n F st → lookup_loop rounds fuel (PPtr s) st = Some res →
     looks n w p (components [] s) st res) →
  ordinary F → wants F (at_last w c) → v_may_exec E (v_inode E (p_dentry p)) false = 0 →
  does links F (step links true (w_follow (at_last w c)) p c) st r → nonzero r.1 →
  match r.1 with PNull => Some (0, r.2) | s => lookup_loop rounds fuel s r.2 end = Some res →
  looks links w p [c] st res.
Proof.
  intros IH HF Hw Hx Hd Hnz Hres. pose proof (resolve_cons E T root (final_lookup E T root) links w p c []) as Hrc.
  unfold final_lookup at 2 in Hrc.
  rewrite Hx in Hrc. cbv zeta in Hrc. cbn [negb Z.eqb] in Hrc. destruct Hd as [Hr Hd].
  assert (∀ e, r.1 = PErr e → res.1 = e ∧ (rcu res.2 = true → rcu st = true) ∧ e ≠ 0) as Herr.
  { intros e He. rewrite He in *. assert (e ≠ 0) as He0 by (intros ->; by apply Hnz).
    destruct (lookup_loop_err _ _ _ _ _ He0 Hres) as [? Hrr]. by rewrite Hrr. }
  destruct Hd as [[Hc He]|Hm]; [destruct (Herr _ He) as (? & ? & ?); split; auto|].
  destruct (step links true _ p c) as [e|q|q|q s] eqn:Hstep.
  - destruct (Herr _ Hm) as (He & ? & Hne). split; [done|]. rewrite He. auto.
  - destruct Hm as [He H1]. rewrite He in Hres. simplify_eq. split; [done|right; right].
    split; [done|]. by exists q, links, F, (at_last w c).
  - destruct Hm as (He & Hl & H1). rewrite He in Hres. simplify_eq. split; [done|right; right].
    split; [done|]. exists q, (pred links), F, (at_last w c). by destruct links.
  - destruct Hm as (He & Hl & H1). rewrite He in Hres. destruct links as [|links]; [done|].
    destruct (step_link E HE T HT root st _ _ _ _ _ _ _ Hstep) as [H0 _ _ Hb].
    rewrite app_nil_r in Hrc. eapply looks_from; [exact Hr|exact Hrc|].
    eapply IH; [exact HF|by destruct Hw|done..].
Qed.

Lemma lookup_loop_does fuel rounds : ∀ F w n p s st res,
  ordinary F → wants F w → w_slash w = ends_in_slash false s → cstring s → Forall is_byte s →
  here p n F st → lookup_loop rounds fuel (PPtr s) st = Some res →
  looks n w p (components [] s) st res.
Proof.
  induction rounds as [|rounds IH]; [done|].
  intros F w n p s st res HF Hw Hs H0 Hb H Hres. cbn [PathWalk.lookup_loop] in Hres.
  unfold PathWalk.link_path_walk in Hres. set (st0 := on_nd _ st) in Hres.
  destruct (parent_flags_here p n F (λ nd, set_nd_flags (nd_flags nd ∪ {[LOOKUP_PARENT]})
    (set_last_type LAST_ROOT nd)) st) as [Hh0 Hr0]; [done..|]. fold st0 in Hh0, Hr0.
  destruct (at_nul (skip_slashes s)) eqn:Hn.
  - cbn in Hres. destruct (lookup_none p n F (on_nd (set_dir None) st0)) as (st' & Hl & H' & Hr');
      [by apply here_nd|done|]. rewrite Hl in Hres. cbn in Hres. simplify_eq.
    split; [cbn; intros Hr; rewrite <- Hr0; exact (Hr' Hr)|right; right]. split; [done|].
    exists p, n, F, w. split_and!; try done.
    rewrite <- components_skip. destruct (skip_slashes s) as [|c s']; cbn in *; [by destruct n|].
    rewrite Hn. by destruct n.
  - destruct (link_path_walk_loop _ _ _ _ _ _ _ st0) as [[err st1]|] eqn:Hloop; [|done].
    cbn [mbind option_bind] in Hres.
    pose proof (loop_does E HE T HT table root Hroot buf Hbuf Hmeans (final_lookup E T root) F w HF Hw fuel (skip_slashes s) []
      p n st0 (err, st1)) as Hwalk.
    assert (to_walk (skip_slashes s) [] = components [] s) as Hleft.
    { unfold to_walk. simpl. by rewrite app_nil_r, components_skip. }
    rewrite Hleft in Hwalk. destruct Hwalk as [Hr1 Hm]; try done.
    { by apply skip_at_word. } { rewrite Hs. by apply ends_skip. }
    cbn [fst snd] in *. rewrite Hr0 in Hr1, Hm.
    destruct Hm as [[Hc ->]|[[He Hrc]|(-> & q & n' & c & H1 & Hready & Hrc)]].
    + change (negb (- ECHILD =? 0)) with true in Hres. injection Hres as <-. split; [done|by left].
    + rewrite (proj2 (Z.eqb_neq _ _)) in Hres by done. cbn in Hres. simplify_eq.
      split; [done|right; left]. done.
    + cbn [negb Z.eqb] in Hres. destruct (lookup_last st1) as [r|] eqn:Hlast; [|done].
      destruct (lookup_last_does E T HT table root Hroot buf Hbuf Hmeans _ _ _ _ _ _ _ HF Hw H1 Hready Hlast)
        as (F' & HF' & Hw' & Hd).
      eapply looks_from; [exact Hr1|exact Hrc|].
      eapply after_last; [exact IH|exact HF'|exact Hw'|by destruct Hready|exact Hd| |].
      * by eapply (lookup_last_nonzero E HE).
      * cbn in Hres. by destruct r as [[] st2].
Qed.
(** ** The start *)

Context (ro : option path) (Hro : root = default (v_fs_root E) ro).

(** Before an attempt, the caller's root is in place. *)
Record starts (n : nat) st : Prop := {
  so_preset : nd_root_preset (wk_nd st) = match ro with Some _ => true | None => false end;
  so_root : ∀ r, ro = Some r → nd_root (wk_nd st) = r;
  so_links : Z.to_nat (MAXSYMLINKS - nd_total_link_count (wk_nd st)) = n;
  so_table : ts_table (wk_targets st) = table
}.

(** What [here] says but for the position. *)
Record looking (n : nat) (F : flags_t) st : Prop := {
  lk_flags : wanted (nd_flags (wk_nd st)) = F;
  lk_root : nd_root (wk_nd st) = root ∨ (nd_root (wk_nd st) = null_path ∧ root = v_fs_root E);
  lk_links : Z.to_nat (MAXSYMLINKS - nd_total_link_count (wk_nd st)) = n;
  lk_table : ts_table (wk_targets st) = table
}.

Lemma start_at_here p n F st :
  looking n F st → here p n F (start_at E p st) ∧ rcu (start_at E p st) = rcu st.
Proof. intros [????]. unfold start_at. destruct (rcu st) eqn:Hr; by split. Qed.

(** An absolute pathname. *)
Lemma jump_start n F st :
  unconfined F → looking n F st → nd_root (wk_nd st) = null_path → root = v_fs_root E →
  let '(error, st') := nd_jump_root E st in
  (rcu st' = true → rcu st = true) ∧
  ((rcu st = true ∧ error = - ECHILD) ∨ (error = 0 ∧ here root n F st')).
Proof.
  intros HF H Hn Hfs. unfold nd_jump_root, has_root. pose proof H as [Hf _ ??].
  assert (∀ f, f ∈ confining_flags → nd_has f (wk_nd st) = false) as Hno.
  { intros f. apply wanted_lacks. by rewrite Hf. }
  rewrite !Hno by by vm_compute. cbn [andb]. rewrite Hn, path_equal_refl. cbn [negb].
  unfold set_root_fs. rewrite (scoped_none E T HT) by by rewrite Hf. destruct (rcu st) eqn:Hr; cbn [negb Z.eqb].
  - set (st1 := on_nd _ st). change (rcu st1) with (rcu st). rewrite Hr.
    set (st2 := on_nd _ st1). destruct (v_seq_retry E st2 _ _); [auto|].
    split; [done|right]. split; [done|]. split; cbn; rewrite <- ?Hfs; auto.
  - set (st1 := on_nd _ _). change (rcu st1) with (rcu st). rewrite Hr.
    split; [change (rcu st = true → false = true); congruence|right].
    split; [done|]. split; cbn; rewrite <- ?Hfs; auto.
Qed.

Lemma path_init_here dfd name flags n st :
  unconfined (wanted flags) → starts n st →
  let '(s, st') := path_init E dfd name flags st in
  (rcu st' = true → fl LOOKUP_RCU flags = true) ∧
  ((fl LOOKUP_RCU flags = true ∧ s = PErr (- ECHILD)) ∨
   match start_path E ro dfd name flags with
   | inl e => s = PErr e
   | inr p => s = PPtr name ∧ here p n (wanted flags) st'
   end).
Proof.
  intros HF [Hpre Hroot' Hlinks Htable]. unfold path_init.
  rewrite (wanted_lacks flags LOOKUP_CACHED), andb_false_r by (done || by vm_compute).
  set (flags' := if at_nul name then _ else flags).
  assert (wanted flags' = wanted flags) as Hw by (unfold flags'; destruct (at_nul _); [apply wanted_leave|done]).
  assert (fl LOOKUP_RCU flags' = true → fl LOOKUP_RCU flags = true) as Hr.
  { unfold flags', fl. destruct (at_nul _); [|done]. rewrite !bool_decide_eq_true, elem_of_difference. tauto. }
  assert (fl LOOKUP_LINKAT_EMPTY flags' = fl LOOKUP_LINKAT_EMPTY flags) as Hle.
  { by rewrite <- (wanted_fl flags'), Hw, wanted_fl. }
  rewrite (wanted_lacks flags' LOOKUP_IN_ROOT) by (rewrite ?Hw; done || by vm_compute).
  set (st1 := if fl LOOKUP_RCU flags' then st else _).
  set (st2 := on_nd _ st1).
  assert (nd_root_preset (wk_nd st2) = nd_root_preset (wk_nd st) ∧ nd_root (wk_nd st2) = nd_root (wk_nd st) ∧
    nd_total_link_count (wk_nd st2) = nd_total_link_count (wk_nd st) ∧
    ts_table (wk_targets st2) = ts_table (wk_targets st) ∧ nd_flags (wk_nd st2) = flags')
    as (Hp2 & Hr2 & Hl2 & Ht2 & Hf2) by (unfold st2, st1; by destruct (fl _ _)).
  assert (rcu st2 = fl LOOKUP_RCU flags') as Hrcu by (unfold rcu, nd_has; by rewrite Hf2).
  clearbody st2. clear st1. rewrite <- Hrcu in Hr. clear Hrcu.
  rewrite Hp2, Hpre. unfold start_path. destruct ro as [r|]; simpl in Hro.
  - subst r. rewrite Hr2, (Hroot' root) by done. destruct (_ && _); [split; auto|].
    destruct (start_at_here root n (wanted flags) st2) as [Hs Hsr].
    { split; rewrite ?Hr2, ?Hl2, ?Ht2, ?Hf2; auto. }
    rewrite Hsr. destruct (rcu st2) eqn:Hr2'; (split; [|right; split; [done|]]); auto.
    + by apply here_nd.
    + congruence.
  - set (st3 := on_nd (set_root null_path) st2).
    assert (looking n (wanted flags) st3) as H3 by (split; cbn; rewrite ?Hl2, ?Ht2, ?Hf2; auto).
    assert (rcu st3 = rcu st2) as Hr3 by done. assert (nd_root (wk_nd st3) = null_path) as Hn3 by done.
    clearbody st3. rewrite <- Hr3 in Hr. clear Hr3.
    assert (∀ p, let '(s, st') := root_at_start E name (start_at E p st3) in
      (rcu st' = true → fl LOOKUP_RCU flags = true) ∧ s = PPtr name ∧ here p n (wanted flags) st') as Hat.
    { intros p. destruct (start_at_here p _ _ _ H3) as [Hs Hsr]. unfold root_at_start.
      rewrite (here_scoped E T HT table root _ _ _ _ HF Hs). cbn [negb]. by rewrite Hsr. }
    rewrite andb_true_r. destruct (at_slash name).
    { pose proof (jump_start _ _ _ HF H3 Hn3 Hro) as Hj. rewrite <- Hro.
      destruct (nd_jump_root E st3) as [error st4]. destruct Hj as [Hr4 [[Hc ->]|[-> H4]]].
      - change (negb (- ECHILD =? 0)) with true. cbv iota. split; auto.
      - cbn [negb Z.eqb]. split; auto. }
    destruct (_ =? _).
    { specialize (Hat (v_pwd E)). destruct (root_at_start E name _). destruct Hat. auto. }
    destruct (v_fd E dfd) as [p|]; [|split; auto]. rewrite Hle.
    destruct (_ && negb (v_fd_search E dfd)); [split; auto|].
    destruct (_ && _); [split; auto|].
    specialize (Hat p). destruct (root_at_start E name _). destruct Hat. auto.
Qed.
(** ** The end *)

Lemma finish_error err st : err ≠ 0 →
  let '(err', p, _) := finish_lookupat E err st in err' = err ∧ p = null_path.
Proof.
  intros He. apply Z.eqb_neq in He. unfold finish_lookupat. rewrite He. cbv beta iota zeta delta [andb].
  by rewrite !He.
Qed.

(** The walk is over, in ref-walk, and keeps its position and its flags. *)
Lemma complete_walk_here q n F st :
  unconfined F → here q n F st →
  let '(err, st') := complete_walk E st in
  (rcu st = true ∧ err = - ECHILD) ∨
  (err = 0 ∧ nd_path (wk_nd st') = q ∧ wanted (nd_flags (wk_nd st')) = F).
Proof.
  intros HF H. unfold complete_walk. set (u := if rcu st then _ else _).
  assert (let '(ok, st') := u in (ok = false → rcu st = true) ∧ (ok = true → nd_path (wk_nd st') = q ∧
    wanted (nd_flags (wk_nd st')) = F)) as Hu.
  { unfold u. destruct (rcu st) eqn:Hr; [|split; [done|]; intros _; destruct H; eauto].
    set (st1 := on_nd _ st).
    assert (nd_path (wk_nd st1) = q ∧ nd_flags (wk_nd st1) = nd_flags (wk_nd st) ∖ {[LOOKUP_CACHED]})
      as [Hp1 Hf1] by (destruct H; unfold st1, on_nd; cbn; by destruct (_ && _)).
    clearbody st1. pose proof (try_to_unlazy_ok E st1) as Hok.
    destruct (try_to_unlazy E st1) as [ok st2]. split; [done|]. intros ->.
    destruct (Hok eq_refl) as ([g Hg] & _ & _). rewrite Hg. cbn. rewrite Hp1, Hf1.
    split; [done|]. rewrite wanted_leave, <- (h_flags _ _ _ _ _ _ _ H).
    assert (LOOKUP_CACHED ∉ nd_flags (wk_nd st)) as Hno.
    { pose proof (here_lacks E table root q n F st LOOKUP_CACHED HF H) as Hl.
      apply (proj1 (bool_decide_eq_false _)), Hl. by vm_compute. }
    f_equal. apply difference_disjoint_L. by intros f Hf ->%elem_of_singleton. }
  clearbody u. destruct u as [[] st1]; cbn [negb]; [|left; destruct Hu as [Hu _]; auto].
  destruct Hu as [_ Hu]. destruct (Hu eq_refl) as [Hp HF1].
  rewrite (scoped_none E T HT) by by rewrite HF1. cbn [andb].
  replace (if negb (nd_jumped (wk_nd st1)) then _ else _) with (0, st1)
    by (rewrite (sh_weak _ _ HT); by destruct (nd_jumped _)). by right.
Qed.

Lemma finish_here q n F w st :
  unconfined F → wants F w → here q n F st →
  let '(err, p, _) := finish_lookupat E 0 st in
  (rcu st = true ∧ err = - ECHILD ∧ p = null_path) ∨ answers (arrived E w q) err p.
Proof.
  intros HF Hw H. unfold finish_lookupat.
  rewrite (here_lacks E table root q n F st) by (done || by vm_compute). cbn [Z.eqb andb].
  pose proof (complete_walk_here q n F st HF H) as Hc. destruct (complete_walk E st) as [err st1].
  destruct Hc as [[Hr ->]|(-> & Hp & HF1)].
  { do 2 (change (- ECHILD =? 0) with false; cbv beta iota zeta delta [andb]). by left. }
  cbn [Z.eqb andb]. rewrite Hp. unfold arrived, nd_has.
  rewrite <- (wanted_fl (nd_flags _)), HF1, <- (wa_directory _ _ Hw) by done.
  destruct (w_directory w && _); right; [|done]. by split.
Qed.
(** ** An attempt *)

Lemma start_path_error dfd name flags e : start_path E ro dfd name flags = inl e → e ≠ 0.
Proof. unfold start_path. repeat (case_match; try done); by intros [= <-]. Qed.

Lemma attempt_does rounds fuel dfd name flags n st err p st' :
  cstring name → Forall is_byte name → ordinary (wanted flags) → starts n st →
  path_lookupat E true (λ _, true) buf rounds fuel dfd name flags st = Some (err, p, st') →
  (fl LOOKUP_RCU flags = true ∧ err = - ECHILD ∧ p = null_path) ∨
  answers (resolve_pathname E T n ro dfd name flags) err p.
Proof.
  intros H0 Hb HF Hst Hl. unfold path_lookupat in Hl.
  pose proof (ordinary_unconfined _ HF) as HU.
  pose proof (path_init_here dfd name flags n st HU Hst) as Hi.
  destruct (path_init E dfd name flags st) as [s st1]. destruct Hi as [Hr Hi].
  rewrite (wanted_lacks flags LOOKUP_DOWN) in Hl by (done || by vm_compute).
  replace (match s with PPtr _ => (s, st1) | _ => (s, st1) end) with (s, st1) in Hl by by destruct s.
  destruct (lookup_loop rounds fuel s st1) as [[e st2]|] eqn:Hloop; [|done]. cbn in Hl.
  assert (e ≠ 0 → err = e ∧ p = null_path) as Herr.
  { intros He. pose proof (finish_error e st2 He) as Hf. destruct (finish_lookupat E e st2) as [[]].
    by simplify_eq. }
  unfold pathname_with. destruct Hi as [[Hc ->]|Hi].
  { apply lookup_loop_err in Hloop as [? _]; [|done]. simpl in *. subst e.
    left. destruct Herr; auto. }
  destruct (start_path E ro dfd name flags) as [e'|q] eqn:Hsp.
  - subst s. apply start_path_error in Hsp. apply lookup_loop_err in Hloop as [? _]; [|done].
    simpl in *. subst e. right. by apply Herr.
  - destruct Hi as [-> H1]. rewrite <- Hro. set (w := mk_wish _ _ _).
    assert (wants (wanted flags) w) as Hw by (split; cbn; by rewrite wanted_fl).
    destruct (lookup_loop_does _ _ _ _ _ _ _ _ _ HF Hw eq_refl H0 Hb H1 Hloop)
      as [Hr2 [[Hc He]|[[He Hrs]|(He & q' & n' & F' & w' & H2 & HF' & Hw' & Hrs)]]]; cbn in *.
    + subst e. left. destruct Herr; auto.
    + rewrite Hrs. right. by apply Herr.
    + subst e. rewrite Hrs. pose proof (finish_here _ _ _ _ _ (ordinary_unconfined _ HF') Hw' H2) as Hf.
      destruct (finish_lookupat E 0 st2) as [[]]. simplify_eq.
      destruct Hf as [(? & ? & ?)|?]; auto.
Qed.
End props.

(** ** All attempts *)

(** A lookup as its callers start it: a root that is there, a pathname from
    [getname], flags that neither confine the walk nor create; with enough
    rounds and steps. *)
Record request {W} (E : vfs W) (ro : option path) (name : list Z) (flags : flags_t) (nested : Z)
  (rounds fuel : nat) : Prop := {
  rq_root : default (v_fs_root E) ro ≠ null_path;
  rq_string : cstring name;
  rq_bytes : Forall is_byte name;
  rq_flags : ordinary (wanted flags);
  rq_mode : fl LOOKUP_RCU flags = false;
  rq_nested : 0 ≤ nested;
  rq_rounds : MAXSYMLINKS + 1 < Z.of_nat rounds;
  rq_fuel : Z.max (Z.of_nat (length name)) PATH_MAX + PATH_MAX * MAXSYMLINKS < Z.of_nat fuel
}.

Section lookup.
Context {W : Type} (E : vfs W) (HE : env_ok E) (T : tree) (HT : shows E T).
Context (buf : namei_ext_redirect) (Hbuf : length (r_name buf) = NAME_MAX_nat).
Context (ro : option path) (Hroot : default (v_fs_root E) ro ≠ null_path).
Implicit Types (st : walk W).

Lemma pathname_links final n m dfd name flags :
  (∀ root, fewer_links (final root)) → (n ≤ m)%nat →
  pathname_with E T final n ro dfd name flags = pathname_with E T final m ro dfd name flags ∨
  pathname_with E T final n ro dfd name flags = inl (- ELOOP).
Proof.
  intros Hf Hnm. unfold pathname_with. destruct (start_path _ _ _ _ _) as [e|q]; [auto|].
  cbv zeta. by apply resolve_links.
Qed.

(** The flags that distinguish the attempts. *)
Lemma wanted_attempt flags f : f ∈ ({[LOOKUP_RCU; LOOKUP_REVAL]} : flags_t) →
  ordinary (wanted flags) → ordinary (wanted (flags ∪ {[f]})) ∧
  ∀ final n dfd name, pathname_with E T final n ro dfd name (flags ∪ {[f]}) =
    pathname_with E T final n ro dfd name flags.
Proof.
  intros Hf HF.
  assert (∀ g, g ≠ LOOKUP_RCU → g ≠ LOOKUP_REVAL → fl g (flags ∪ {[f]}) = fl g flags) as Hg.
  { intros g H1 H2. apply fl_add. rewrite not_elem_of_singleton. intros ->.
    by apply elem_of_union in Hf as [?%elem_of_singleton|?%elem_of_singleton]. }
  split.
  - intros g Hgf Hs. apply (HF g); [|done]. unfold wanted in *.
    apply elem_of_difference in Hgf as [H1 H2]. apply elem_of_difference. split; [|done].
    enough (fl g flags = true) as Hg1 by (unfold fl in Hg1; by apply bool_decide_eq_true in Hg1).
    rewrite <- Hg by (intros ->; by revert Hs; vm_compute).
    unfold fl. by apply bool_decide_eq_true.
  - intros final n dfd name. unfold pathname_with, start_path. by rewrite !Hg.
Qed.

(** Before each attempt. *)
Record attempt base nested (table : list (list namei_ext_target)) st : Prop := {
  at_idle : idle (wk_nd st);
  at_inv : walk_inv base nested [] st;
  at_starts : starts table ro (Z.to_nat (MAXSYMLINKS - nd_total_link_count (wk_nd st))) st
}.

Lemma attempt_first nested table st :
  0 ≤ nested → ts_table (wk_targets st) = table →
  attempt (foreign_refs (wk_targets st)) nested table (on_nd (set_nameidata nested ro) st).
Proof.
  intros Hn Ht. assert (nd_total_link_count (set_nameidata nested ro (wk_nd st)) = nested) as Hc
    by by destruct ro.
  split; [apply set_nameidata_idle| |].
  - pose proof (idle_inv (on_nd (set_nameidata nested ro) st) (set_nameidata_idle nested ro _)) as H.
    change (wk_nd (on_nd _ st)) with (set_nameidata nested ro (wk_nd st)) in H.
    rewrite Hc in H. by apply H.
  - split; [by destruct ro|by intros r ->|done|done].
Qed.

(** The answer, with at most [n] symlinks: those that the attempts given up have
    followed count. *)
Definition answered n dfd name flags err p : Prop :=
  ∃ k, (k ≤ n)%nat ∧ answers (resolve_pathname E T k ro dfd name flags) err p.

(** It is the answer with [n], or ELOOP. *)
Lemma answered_full n dfd name flags err p :
  answered n dfd name flags err p →
  answers (resolve_pathname E T n ro dfd name flags) err p ∨ (err = - ELOOP ∧ p = null_path).
Proof.
  intros (k & Hk & Ha). destruct (pathname_links (final_lookup E T) k n dfd name flags) as [He|He];
    [by intros root; apply fewer_links_lookup|done|left; by rewrite <- He|].
  rewrite He in Ha. by right.
Qed.

Context (rounds fuel : nat) (dfd : Z) (name : list Z) (H0 : cstring name) (Hb : Forall is_byte name).
Context (nested : Z) (Hn : 0 ≤ nested).
Context (Hrounds : MAXSYMLINKS + 1 < Z.of_nat rounds).
Context (Hfuel : Z.max (Z.of_nat (length name)) PATH_MAX + PATH_MAX * MAXSYMLINKS < Z.of_nat fuel).

Abbreviation path_lookupat := (path_lookupat E true (λ _, true) buf rounds fuel dfd name).

Lemma attempt_answers base table flags st :
  means E T (mk_targets table ∅) → ordinary (wanted flags) → attempt base nested table st →
  ∃ err p st', path_lookupat flags st = Some (err, p, st') ∧
    (err ≠ 0 → attempt base nested table st') ∧
    ((fl LOOKUP_RCU flags = true ∧ err = - ECHILD) ∨
     answered (Z.to_nat (MAXSYMLINKS - nested)) dfd name flags err p).
Proof.
  intros Hm HF [Hi Hinv Hst].
  pose proof (path_lookupat_inv E HE true (λ _, true) buf base nested rounds fuel dfd name flags st
    (cstring_nul _ H0) Hi Hinv) as Hp.
  destruct (path_lookupat flags st) as [[[err p] st']|] eqn:Hl.
  2: { exfalso. assert (Z.max 0 (MAXSYMLINKS - nested) ≤ MAXSYMLINKS) by (unfold MAXSYMLINKS; lia).
       unfold PATH_MAX in *. lia. }
  exists err, p, st'. split; [done|]. destruct Hp as [Hinv' Hi']. split.
  - intros He. rewrite (proj2 (Z.eqb_neq _ _)) in Hinv' by done. split; [done..|].
    apply (path_lookupat_framed E (Q:=any_root E) (anything_run E)) in Hl as [_ _ Ht Hpre Hr];
      [|apply any_starts]. destruct Hst as [H1 H2 _ H4].
    split; cbn in *; [congruence| |done|congruence]. intros r Hro. rewrite Hr; auto.
    + by rewrite H1, Hro.
    + unfold has_root. rewrite (H2 _ Hro). rewrite Hro in Hroot. cbn in Hroot.
      by destruct (path_equal r null_path) eqn:Hq; [apply path_equal_true in Hq|].
  - destruct (attempt_does E HE T HT table _ Hroot buf Hbuf Hm ro eq_refl _ _ _ _ _ _ _ _ _ _ H0 Hb HF Hst Hl)
      as [(? & ? & ?)|Ha]; [by left|right]. apply wi_count in Hinv.
    eexists. split; [|exact Ha]. unfold MAXSYMLINKS. lia.
Qed.

Lemma lookup_resolves flags st :
  means E T (mk_targets (ts_table (wk_targets st)) ∅) →
  ordinary (wanted flags) → fl LOOKUP_RCU flags = false →
  ∃ err p st',
    filename_lookup E true (λ _, true) buf rounds fuel nested dfd name flags ro st
      = Some (err, p, st') ∧
    answered (Z.to_nat (MAXSYMLINKS - nested)) dfd name flags err p.
Proof.
  intros Hm HF Hnr. unfold filename_lookup.
  pose proof (attempt_first nested _ st Hn eq_refl) as A0. set (st0 := on_nd _ st) in *.
  destruct (wanted_attempt flags LOOKUP_RCU) as [HF1 Hrp1]; [by vm_compute|done|].
  destruct (wanted_attempt flags LOOKUP_REVAL) as [HF3 Hrp3]; [by vm_compute|done|].
  destruct (attempt_answers _ _ _ _ Hm HF1 A0) as (err1 & p1 & st1 & -> & A1 & H1). cbn.
  unfold answered in H1. setoid_rewrite Hrp1 in H1.
  assert (∃ err2 p2 st2, (if err1 =? - ECHILD then path_lookupat flags st1 else Some (err1, p1, st1))
      = Some (err2, p2, st2) ∧
    (err2 ≠ 0 → attempt (foreign_refs (wk_targets st)) nested (ts_table (wk_targets st)) st2) ∧
    answered (Z.to_nat (MAXSYMLINKS - nested)) dfd name flags err2 p2) as (err2 & p2 & st2 & -> & A2 & H2).
  { destruct (err1 =? - ECHILD) eqn:He; unfold_bools.
    - destruct (attempt_answers (foreign_refs (wk_targets st)) _ flags st1 Hm HF) as (err2 & p2 & st2 & -> & A2 & H2);
        [apply A1; by rewrite He|]. exists err2, p2, st2. split_and!; [done..|].
      rewrite Hnr in H2. by destruct H2 as [[??]|].
    - exists err1, p1, st1. split_and!; [done..|]. by destruct H1 as [[??]|]. }
  cbn. destruct (err2 =? - ESTALE) eqn:He; unfold_bools; [|by exists err2, p2, st2].
  destruct (attempt_answers (foreign_refs (wk_targets st)) _ _ st2 Hm HF3) as (err3 & p3 & st3 & -> & A3 & H3);
    [apply A2; by rewrite He|]. exists err3, p3, st3. split; [done|].
  unfold answered in H3. setoid_rewrite Hrp3 in H3. destruct H3 as [[Hc _]|]; [|done].
  revert Hc. unfold fl in *. rewrite bool_decide_eq_true, elem_of_union. apply bool_decide_eq_false in Hnr.
  intros [?|?%elem_of_singleton]; done.
Qed.
End lookup.

(** C2: A lookup computes the name space its policy makes. On a file system that
    does not change, under a policy that means the view of a tree, a pathname
    resolves to what the recursive reference resolves it to, or fails with its
    error, through rcu-walk, ref-walk and every switch between them; when an
    attempt had to be given up, the symlinks it followed still count. *)
Theorem lookup_is_resolution {W} (E : vfs W) T buf ro rounds fuel dfd name flags nested st :
  env_ok E → shows E T → means E T (mk_targets (ts_table (wk_targets st)) ∅) →
  length (r_name buf) = NAME_MAX_nat → request E ro name flags nested rounds fuel →
  ∃ err p st',
    filename_lookup E true (λ _, true) buf rounds fuel nested dfd name flags ro st
      = Some (err, p, st') ∧
    answered E T ro (Z.to_nat (MAXSYMLINKS - nested)) dfd name flags err p.
Proof. intros HE HT Hm Hb []. by apply lookup_resolves. Qed.
