(* ===== verification/PathOpenView.v ===== *)
(** * The last component of an open in the name space of a policy

    What the reference does at the last component of an open, the laws of a file
    system that does not change while it is opened, and the proof that
    [open_last_lookups] does the reference's move. *)

From S2P Require Import Prelude Abi PolicyLib PolicyFacts Kernel Targets Lookup LookupProps Walk.
From S2P Require Import WalkProps PathWalk PathOpen PathInv PathRefs PathSafe PathTotal PathOpenTotal.
From S2P Require Import PathView PathNames PathViewFacts PathViewProps.

(** ** The reference

    A selected directory is entered only where a directory is wanted, and a
    trailing slash does not say so.  After a redirect the slash of the pathname
    is not read: the byte of the redirect record after the replacement, [junk]
    before the consultation, stands for it. *)
Section reference.
Context {W : Type} (E : vfs W) (T : tree) (junk : list Z) (root : path).

Definition slashed (s : bool) (w : wish) : wish :=
  mk_wish (w_follow w || s) (w_directory w || s) (w_slash w).

Lemma slashed_false w : slashed false w = w.
Proof. unfold slashed. rewrite !orb_false_r. by destruct w. Qed.

Definition final_open (links : nat) (w : wish) (dir : path) (c : list Z) : wish * move :=
  match token_of c with
  | TName n =>
      match view T dir n with
      | DName n' =>
          let w := slashed (negb (junk !!! length n' =? 0)) w in
          (w, enter E T root links true (w_follow w) dir (child T dir n'))
      | DTarget t => (w, if w_directory w then enter_target E t else MErr (- EOPNOTSUPP))
      | _ => final_lookup E T root links w dir c
      end
  | _ => final_lookup E T root links w dir c
  end.

Lemma fewer_links_open : fewer_links final_open.
Proof.
  intros n m w p c Hnm. pose proof (fewer_links_lookup E T root n m w p c Hnm) as Hl.
  unfold final_open. destruct (token_of c) as [| |x] eqn:Ht; [done..|].
  destruct (view T p x) as [|x'|e|t] eqn:Hv; [done| |done|by left].
  set (w' := slashed _ w). cbn [fst snd].
  unfold enter, follow_link. destruct (bool_decide _); [auto|]. destruct (_ && _); [|auto].
  destruct n; [auto|]. destruct m; [(clear - Hnm; lia)|auto].
Qed.
End reference.

(** ** Laws

    Under the directory's lock the environment shows the same tree and creates
    nothing; what it says of permissions and of opening a path does not depend
    on the walk, and a file is open when opening it gave no error. *)
Record shows_open {W} (E : vfs W) (V : vopen W) (T : tree) : Prop := {
  so_dead : ∀ st, o_dead_dir V st = false;
  so_d_lookup : ∀ st d, o_d_lookup V st = Some d →
    d = child T (nd_path (wk_nd st)) (q_bytes (nd_last (wk_nd st)));
  so_alloc : ∀ st, o_d_alloc_parallel V st =
    inr (child T (nd_path (wk_nd st)) (q_bytes (nd_last (wk_nd st))));
  so_inode : ∀ st d, o_inode V st d = v_inode E d;
  so_fs_lookup : ∀ st d, (o_fs_lookup V st d).1 = PNull ∨ (o_fs_lookup V st d).1 =
    PPtr (child T (nd_path (wk_nd st)) (q_bytes (nd_last (wk_nd st))));
  so_atomic : ∀ d, o_has_atomic_open V d = false;
  so_file : ∀ st, o_alloc_file V st = 0;
  so_is_reg : ∀ st st' d, o_is_reg V st d = o_is_reg V st' d;
  so_permission : ∀ st st' p m, o_inode_permission V st p m = o_inode_permission V st' p m;
  so_want_write : ∀ st st' m, o_want_write V st m = o_want_write V st' m;
  so_dentry_open : ∀ st st' p, (o_dentry_open V st p).1 = (o_dentry_open V st' p).1;
  so_opens : ∀ st p, (o_dentry_open V st p).1.1 = 0 → (o_dentry_open V st p).1.2 = true;
  so_post_open : ∀ st st' f, o_security_file_post_open V st f = o_security_file_post_open V st' f;
  so_write_access : ∀ st st' p, o_get_write_access V st p = o_get_write_access V st' p;
  so_security_truncate : ∀ st st' f,
    o_security_file_truncate V st f = o_security_file_truncate V st' f;
  so_truncate : ∀ st st' p, (o_truncate V st p).1 = (o_truncate V st' p).1
}.

(** A file before it is opened. *)
Definition closed (f : file) : Prop := f_opened f = false ∧ f_created f = false.

Definition with_open (F : flags_t) : flags_t := F ∪ {[LOOKUP_OPEN]}.

Section facts.
Context {W : Type} (E : vfs W) (HE : env_ok E) (T : tree) (HT : shows E T).
Context (V : vopen W) (op : open_flags) (HV : shows_open E V T).
Context (Hintent : op_intent op = {[LOOKUP_OPEN]}) (Hcreat : bits O_CREAT (op_open_flag op) = false).
Context (table : list (list namei_ext_target)) (root : path) (Hroot : root ≠ null_path).
Context (buf : namei_ext_redirect) (Hbuf : length (r_name buf) = NAME_MAX_nat).
Implicit Types (st : walk W) (f : file).

Abbreviation here := (here E table root).
Abbreviation does := (does E table root).

(** ** Flags *)

Lemma fl_open F g : g ≠ LOOKUP_OPEN → fl g (with_open F) = fl g F.
Proof. intros Hg. apply fl_add. by rewrite not_elem_of_singleton. Qed.
Lemma unconfined_open F : ordinary F → unconfined (with_open F).
Proof.
  intros HF g [Hg| ->%elem_of_singleton]%elem_of_union Hc; [by apply (ordinary_unconfined _ HF g)|].
  by revert Hc; vm_compute.
Qed.
Lemma intent_here p links F st :
  here p links F st ∨ here p links (with_open F) st →
  here p links (with_open F) (on_nd (λ nd, set_nd_flags (nd_flags nd ∪ op_intent op) nd) st).
Proof.
  assert (∀ F', wanted (F' ∪ {[LOOKUP_OPEN]}) = wanted F' ∪ {[LOOKUP_OPEN]}) as Hw.
  { intros F'. unfold wanted. by rewrite difference_union_distr_l_L. }
  intros [[????? ?]|[????? ?]]; split; try done; cbn; rewrite Hintent, Hw, h_flags; [done|].
  unfold with_open. by rewrite <- (assoc_L (∪)), (idemp_L (∪)).
Qed.
Lemma intent_rcu st :
  rcu (on_nd (λ nd, set_nd_flags (nd_flags nd ∪ op_intent op) nd) st) = rcu st.
Proof. unfold rcu, nd_has. cbn. rewrite Hintent. apply fl_add. by rewrite not_elem_of_singleton. Qed.

(** Following a symlink, the open is no longer at its last component. *)
Lemma drop_open_here p links F st :
  ordinary F → here p links (with_open F) st →
  here p links F (on_nd (λ nd, set_nd_flags
    (nd_flags nd ∖ {[LOOKUP_OPEN; LOOKUP_CREATE; LOOKUP_EXCL]}) nd) st) ∧
  rcu (on_nd (λ nd, set_nd_flags
    (nd_flags nd ∖ {[LOOKUP_OPEN; LOOKUP_CREATE; LOOKUP_EXCL]}) nd) st) = rcu st.
Proof.
  intros HF [????? ?]. split.
  - split; try done. cbn. apply set_eq. intros g.
    assert (g ∈ with_open F ↔ g ∈ wanted (nd_flags (wk_nd st))) as Hg by by rewrite h_flags.
    unfold wanted, with_open in *. rewrite !elem_of_difference in *.
    rewrite !elem_of_union, !elem_of_singleton in *. split; [tauto|]. intros Hin.
    assert (g ∉ special_flags) as Hsp by (intros Hsp; by apply (HF g)).
    assert (g ≠ LOOKUP_OPEN ∧ g ≠ LOOKUP_CREATE ∧ g ≠ LOOKUP_EXCL) as (? & ? & ?)
      by (split_and!; intros ->; apply Hsp; by vm_compute). tauto.
  - unfold rcu, nd_has. cbn. apply fl_drop.
    by rewrite !not_elem_of_union, !not_elem_of_singleton.
Qed.

(** ** Moves *)

(** [r] does the move [m] from [st]; at the end the walk is still at the last
    component of an open. *)
Definition open_does (links : nat) (F : flags_t) (m : move) st (r : link_res * file * walk W) : Prop :=
  let '(res, f, st') := r in
  closed f ∧ (rcu st' = true → rcu st = true) ∧
  ((rcu st = true ∧ res = PErr (- ECHILD)) ∨
   match m with
   | MErr e => res = PErr e
   | MTo p => res = PNull ∧ here p links (with_open F) st'
   | MJump p => res = PNull ∧ (links ≠ 0)%nat ∧ here p (pred links) (with_open F) st'
   | MLink p s => res = PPtr s ∧ (links ≠ 0)%nat ∧ here p (pred links) F st'
   end).

Lemma open_does_from links F m st st1 r :
  (rcu st1 = true → rcu st = true) → open_does links F m st1 r → open_does links F m st r.
Proof. destruct r as [[res f] st']. intros Hr (Hf & H1 & [[H2 H3]|H2]); split_and!; auto. Qed.
Lemma open_does_error links F e st f st' :
  closed f → (rcu st' = true → rcu st = true) →
  open_does links F (MErr e) st (PErr e, f, st').
Proof. intros Hf Hr. split_and!; auto. Qed.
Lemma open_does_retry links F m st f st' :
  closed f → (rcu st' = true → rcu st = true) → rcu st = true →
  open_does links F m st (PErr (- ECHILD), f, st').
Proof. intros Hf Hr Hc. split_and!; auto. Qed.

(** A step that neither follows nor is at a symlink. *)
Lemma does_open links F m st f (r : link_res * walk W) :
  (∀ p s, m ≠ MLink p s) → closed f → does links (with_open F) m st r →
  open_does links F m st (let '(res, st') := r in (res, f, st')).
Proof.
  destruct r as [res st']. intros Hm Hf [Hr Hd]. split_and!; [done..|].
  destruct Hd as [?|Hd]; [by left|right]. destruct m; try done. by destruct (Hm dir s).
Qed.

Lemma finish_does p links F d st f :
  ordinary F → closed f → here p links (with_open F) st →
  nd_dir (wk_nd st) = v_inode E (p_dentry p) →
  open_does links F (enter E T root links true (fl LOOKUP_FOLLOW F) p d) st
    (let '(res, st') := finish_lookup put_link (step_into E) d st in (res, f, st')).
Proof.
  intros HF Hf H Hdir. unfold finish_lookup. set (st1 := if negb _ then _ else st).
  assert (here p links (with_open F) st1 ∧ keeps st st1) as [H1 (_ & Hd1 & Hk1)].
  { unfold st1. destruct (negb _); [|done]. split; [by apply here_put_link|apply put_link_keeps]. }
  apply (open_does_from _ _ _ _ st1); [done|]. rewrite <- Hd1 in Hdir. clearbody st1.
  pose proof (step_into_does E T HT table root Hroot buf Hbuf _ _ _ WALK_TRAILING d st1
    (unconfined_open _ HF) H1 (λ _, Hdir)) as Hs.
  change (negb (Z.land WALK_TRAILING WALK_TRAILING =? 0)) with true in Hs.
  replace (follows WALK_TRAILING (with_open F)) with (fl LOOKUP_FOLLOW F) in Hs
    by (symmetry; by apply fl_open).
  destruct (step_into E WALK_TRAILING d st1) as [res st2].
  assert (∀ p n, here p n (with_open F) st2 → here p n F (on_nd (λ nd, set_nd_flags
    (nd_flags nd ∖ {[LOOKUP_OPEN; LOOKUP_CREATE; LOOKUP_EXCL]}) nd) st2)) as Hdrop
    by (intros p' n Hh; by apply drop_open_here).
  assert (rcu (on_nd (λ nd, set_nd_flags
    (nd_flags nd ∖ {[LOOKUP_OPEN; LOOKUP_CREATE; LOOKUP_EXCL]}) nd) st2) = rcu st2) as Hr2.
  { unfold rcu, nd_has. cbn. apply fl_drop. by rewrite !not_elem_of_union, !not_elem_of_singleton. }
  destruct Hs as [Hr Hs]. cbn [fst snd] in Hr, Hs.
  destruct (enter _ _ _ _ _ _ _ _) as [e|q|q|q s]; destruct Hs as [[Hc ->]|Hs].
  all: try (cbn; split_and!; rewrite ?Hr2; by auto).
  - subst res. cbn. split_and!; rewrite ?Hr2; by auto.
  - destruct Hs as [-> Hh]. cbn. split_and!; by auto.
  - destruct Hs as (-> & Hl & Hh). cbn. split_and!; by auto.
  - destruct Hs as (-> & Hl & Hh). cbn. split_and!; rewrite ?Hr2; auto.
Qed.

(** ** Under the directory's lock *)

Lemma set_created_closed f : closed f → closed (set_created false f).
Proof. by intros [? _]. Qed.
#[local] Hint Resolve set_created_closed : core.

(** Nothing is created and nothing is opened. *)
Lemma lookup_open_here p links F tries got st f :
  here p links F st → rcu st = false → closed f →
  ∃ w, lookup_open E V (S tries) op got f st =
    Some (PPtr (child T p (q_bytes (nd_last (wk_nd st)))), false, set_created false f,
          with_maps w st).
Proof.
  intros H Hr Hf. unfold lookup_open. rewrite (so_dead _ _ _ HV).
  set (d := child T p (q_bytes (nd_last (wk_nd st)))).
  assert (open_dentry E V (S tries) (o_d_lookup V st) st = Some (inr d, st)) as Hd.
  { cbn [open_dentry]. replace (match o_d_lookup V st with Some _ => _ | None => _ end)
      with (inr d : Z + Z); [|destruct (o_d_lookup V st) as [d'|] eqn:Hd].
    - destruct (o_in_lookup V st d); [done|].
      destruct (sh_revalidate _ _ HT st d) as [Hv|[? _]]; [|congruence].
      by rewrite (proj2 (Z.ltb_lt _ _)).
    - apply (so_d_lookup _ _ _ HV) in Hd. rewrite (h_path _ _ _ _ _ _ _ H) in Hd. by rewrite Hd.
    - by rewrite (so_alloc _ _ _ HV), (h_path _ _ _ _ _ _ _ H). }
  assert (with_maps (wk_maps st) st = st) as Hw by by destruct st.
  rewrite Hd. cbn [mbind option_bind].
  destruct (negative V st d) eqn:Hn; cbn [negb]; [|exists (wk_maps st); by rewrite Hw].
  unfold create_flags. set (flag := if negb got then _ else _).
  assert (bits O_CREAT flag = false) as Hc.
  { unfold flag. destruct got; cbn [negb]; [done|]. unfold bits in *. apply negb_false_iff in Hcreat.
    apply negb_false_iff. unfold_bools. apply Z.eqb_eq. apply Z.bits_inj'. intros i Hi.
    apply (f_equal (λ z, Z.testbit z i)) in Hcreat.
    rewrite Z.land_spec, Z.bits_0 in Hcreat |- *. rewrite Z.ldiff_spec.
    by destruct (Z.testbit (op_open_flag op) i), (Z.testbit O_TRUNC i), (Z.testbit O_CREAT i). }
  rewrite Hc, (so_atomic _ _ _ HV). unfold lookup_create.
  assert (∀ w, (let finish := λ d' f' (st' : walk W), (if negb (0 =? 0) && negative V st' d' then PErr 0
      else PPtr d', false, f', st') in
    if negative V (with_maps w st) d && bits O_CREAT flag then
      let '(error, delegated) := o_try_break_deleg V (with_maps w st) in
      if negb (error =? 0) then (PErr error, delegated, set_created false f, with_maps w st) else
      let f' := set_created true (set_created false f) in
      if negb (o_has_create V (p_dentry (nd_path (wk_nd (with_maps w st)))))
      then (PErr (- EACCES), false, f', with_maps w st) else
      let '(error, w') := o_create V (with_maps w st) d (bits O_EXCL flag) in
      let st' := with_maps w' (with_maps w st) in
      if negb (error =? 0) then (PErr error, false, f', st') else finish d f' st'
    else finish d (set_created false f) (with_maps w st)) =
    (PPtr d, false, set_created false f, with_maps w st)) as Hfin
    by (intros w; rewrite Hc, andb_false_r; done).
  destruct (o_in_lookup V st d).
  - pose proof (so_fs_lookup _ _ _ HV st d) as Hl.
    destruct (o_fs_lookup V st d) as [res w]. cbn in Hl.
    rewrite (h_path _ _ _ _ _ _ _ H) in Hl. fold d in Hl.
    exists w. rewrite <- Hfin. by destruct Hl as [-> | ->].
  - exists (wk_maps st). rewrite <- Hfin. by rewrite Hw.
Qed.

Abbreviation deleg_wait := (λ st, let '(error, w) := o_break_deleg_wait V st in (error, with_maps w st)).
Abbreviation retry tries := (open_retry (o_want_write V) (lookup_open E V tries) deleg_wait).

Lemma open_retry_here p links F tries n st f :
  here p links F st → rcu st = false → closed f →
  ∃ w, retry (S tries) (S n) op f st =
    Some (NotOpened (child T p (q_bytes (nd_last (wk_nd st)))), set_created false f, with_maps w st).
Proof.
  intros H Hr Hf. cbn [open_retry]. set (got := bits _ _ && _).
  destruct (lookup_open_here _ _ _ tries got _ _ H Hr Hf) as [w ->]. cbn [mbind option_bind].
  exists w. destruct (set_created_closed f Hf) as [-> ->]. done.
Qed.

(** ** The last component *)

Abbreviation common tries := (open_last_lookups_common (v_inode E) (try_to_unlazy E) (lookup_fast E)
  put_link (step_into E) (handle_dots E) (o_want_write V) (lookup_open E V tries) deleg_wait tries).

(** The flags for a wish. *)
Lemma wants_slashed F w s :
  ordinary F → wants F w →
  let F' := if s : bool then F ∪ {[LOOKUP_FOLLOW; LOOKUP_DIRECTORY]} else F in
  ordinary F' ∧ wants F' (slashed s w).
Proof.
  intros HF [Hf Hd]. unfold slashed. destruct s; cbn.
  - split; [by apply ordinary_more|].
    assert (∀ g, g ∈ ({[LOOKUP_FOLLOW; LOOKUP_DIRECTORY]} : flags_t) →
      fl g (F ∪ {[LOOKUP_FOLLOW; LOOKUP_DIRECTORY]}) = true) as Hfl.
    { intros g Hg. apply bool_decide_eq_true, elem_of_union. by right. }
    split; cbn; by rewrite orb_true_r, Hfl by by vm_compute.
  - split; [done|]. by split; cbn; rewrite orb_false_r.
Qed.

Lemma follow_directory_open p links F s st :
  here p links (with_open F) st →
  let st' := if s : bool then on_nd follow_directory st else st in
  here p links (with_open (if s then F ∪ {[LOOKUP_FOLLOW; LOOKUP_DIRECTORY]} else F)) st' ∧
  rcu st' = rcu st.
Proof.
  intros H. destruct s; [|done]. cbn. split.
  - replace (with_open (F ∪ _)) with (with_open F ∪ {[LOOKUP_FOLLOW; LOOKUP_DIRECTORY]})
      by (unfold with_open; by rewrite <- !(assoc_L (∪)), (comm_L (∪) {[LOOKUP_OPEN]})).
    by apply follow_directory_here.
  - unfold rcu, nd_has. cbn. apply fl_add. by vm_compute.
Qed.

Lemma common_open_does tries p links F w s st f :
  ordinary F → wants F w → closed f → here p links F st ∨ here p links (with_open F) st →
  nd_last_type (wk_nd st) = LAST_NORM → nd_dir (wk_nd st) = v_inode E (p_dentry p) →
  trailing_slashes (wk_nd st) = Some s →
  ∃ F' r, ordinary F' ∧ wants F' (slashed s w) ∧ common (S tries) op f st = Some r ∧
    open_does links F' (enter E T root links true (w_follow (slashed s w)) p
                          (child T p (q_bytes (nd_last (wk_nd st))))) st r.
Proof.
  intros HF Hw Hf H Hty Hdir Hs. destruct (wants_slashed F w s HF Hw) as [HF' Hw'].
  set (F' := if s then _ else F) in *. exists F'.
  unfold open_last_lookups_common. apply intent_here in H. pose proof (intent_rcu st) as Hr.
  set (st1 := on_nd _ st) in *.
  replace (nd_last (wk_nd st)) with (nd_last (wk_nd st1)) by done.
  replace (nd_dir (wk_nd st)) with (nd_dir (wk_nd st1)) in Hdir by done.
  replace (trailing_slashes (wk_nd st)) with (trailing_slashes (wk_nd st1)) in Hs by done.
  replace (nd_last_type (wk_nd st)) with (nd_last_type (wk_nd st1)) in Hty by done.
  clearbody st1. rewrite bool_decide_true by done. cbn [negb].
  unfold lookup_fast_for_open. rewrite Hs, Hcreat. cbn [mbind option_bind andb negb].
  destruct (follow_directory_open _ _ _ s _ H) as [H2 Hr2]. fold F' in H2.
  set (st2 := if s then _ else st1) in *.
  replace (nd_last (wk_nd st1)) with (nd_last (wk_nd st2)) by by destruct s.
  replace (nd_dir (wk_nd st1)) with (nd_dir (wk_nd st2)) in Hdir by by destruct s.
  clearbody st2. clear Hty Hs H. rewrite Hr in Hr2. clear Hr st1.
  pose proof (lookup_fast_here E T HT table root buf Hbuf _ _ _ _ H2) as Hfast.
  assert (∀ r, (∃ r', r = Some r' ∧ open_does links F' (enter E T root links true
      (w_follow (slashed s w)) p (child T p (q_bytes (nd_last (wk_nd st2))))) st r') →
    ∃ r', ordinary F' ∧ wants F' (slashed s w) ∧ r = Some r' ∧ open_does links F' (enter E T root
      links true (w_follow (slashed s w)) p (child T p (q_bytes (nd_last (wk_nd st2))))) st r') as Hgo
    by (intros r (r' & ? & ?); by exists r').
  rewrite (wa_follow _ _ Hw') in Hgo |- *. apply Hgo. clear Hgo.
  destruct (lookup_fast E st2) as [res st3].
  destruct Hfast as [Hr3 [[Hc ->]|(H3 & (Hl3 & Hd3 & _) & Hres)]].
  { eexists. split; [done|]. by apply open_does_retry; rewrite <- ?Hr2; auto. }
  rewrite <- Hd3 in Hdir.
  assert (∀ st4 g, here p links (with_open F') st4 → closed g → nd_dir (wk_nd st4) = nd_dir (wk_nd st3) →
    (rcu st4 = true → rcu st = true) →
    open_does links F' (enter E T root links true (fl LOOKUP_FOLLOW F') p
      (child T p (q_bytes (nd_last (wk_nd st2))))) st
      (let '(res, st') := finish_lookup put_link (step_into E)
         (child T p (q_bytes (nd_last (wk_nd st2)))) st4 in (res, g, st'))) as Hfin.
  { intros st4 g H4 Hg Hd4 Hr4. apply (open_does_from _ _ _ _ st4); [done|].
    apply finish_does; try done. by rewrite Hd4. }
  destruct Hres as [-> | ->]; cbn [mbind option_bind].
  - change (nd_has LOOKUP_RCU (wk_nd st3)) with (rcu st3). cbn [negb andb].
    destruct (rcu st3) eqn:Hrc.
    { eexists. split; [done|]. by apply open_does_retry; rewrite <- ?Hr2; auto. }
    cbn [negb]. destruct (open_retry_here p links _ tries tries st3 f H3 Hrc Hf) as [u ->].
    cbn [mbind option_bind]. rewrite Hl3.
    specialize (Hfin (with_maps u st3) (set_created false f)).
    destruct (finish_lookup put_link _ _ (with_maps u st3)) as [res st5].
    eexists. split; [done|]. apply Hfin; [by apply here_maps|auto|done|].
    change (rcu (with_maps u st3)) with (rcu st3). congruence.
  - specialize (Hfin st3 f). destruct (finish_lookup put_link _ _ st3) as [res st5].
    eexists. split; [done|]. apply Hfin; auto. rewrite <- Hr2. auto.
Qed.

Context (Hmeans : means E T (mk_targets table ∅)) (Hshort : short_redirects E).

Lemma open_does_set_last links F m q st res f st' :
  open_does links F m st (res, f, st') → open_does links F m st (res, f, on_nd (set_last q) st').
Proof.
  assert (∀ p n F, here p n F st' → here p n F (on_nd (set_last q) st')) as Hh
    by (intros; by apply here_nd).
  intros (Hf & Hr & [?|Hm]); split_and!; [done..|by left|done|done|right].
  destruct m; cbn in *; destruct_and?; split_and?; auto.
Qed.

Lemma step_dotdot_link p q s : step_dotdot E T root p ≠ MLink q s.
Proof.
  unfold step_dotdot, enter. repeat case_match; try done; by rewrite andb_false_r in *.
Qed.

Lemma redirect_open_does tries p links F w st f c h :
  ordinary F → wants F w → closed f → here p links (with_open F) st →
  nd_last_type (wk_nd st) = LAST_NORM → nd_dir (wk_nd st) = v_inode E (p_dentry p) →
  ctx_wf c → 0 ≤ ctx_redirect_name_len c → namei_ext_redirect_valid c = true →
  redirect_slash (namei_ext_fill_redirect h p c (clear_flags buf)) →
  let w' := slashed (negb (r_name buf !!! length (ctx_redirect c) =? 0)) w in
  ∃ F' r, ordinary F' ∧ wants F' w' ∧
    with_redirect_open (v_op_hash E) (v_hash E)
      (namei_ext_fill_redirect h p c (clear_flags buf)) (common (S tries) op) f st = Some r ∧
    open_does links F' (enter E T root links true (w_follow w') p (child T p (ctx_redirect c))) st r.
Proof.
  intros HF Hw Hf H Hty Hdir Hwf Hlen Hv Hs w'.
  unfold with_redirect_open, namei_ext_apply_redirect. cbn [namei_ext_fill_redirect r_active negb].
  unfold namei_ext_hash_redirect. rewrite (sh_hash _ _ HT). cbn [Z.ltb Z.compare].
  set (q := mk_qstr _ _ _). set (st1 := on_nd _ st).
  assert (q_bytes (nd_last (wk_nd st1)) = ctx_redirect c) as Hq.
  { cbn. unfold q, q_bytes. cbn [q_len q_name r_len r_name namei_ext_fill_redirect clear_flags].
    by apply redirect_buffer_bytes. }
  assert (trailing_slashes (wk_nd st1) = Some (negb (r_name buf !!! length (ctx_redirect c) =? 0))) as Ht.
  { specialize (Hs eq_refl) as [b Hb].
    unfold trailing_slashes. cbn [st1 on_nd wk_nd set_last nd_last q q_name q_len].
    rewrite Hb. cbn [namei_ext_fill_redirect r_name r_len clear_flags] in Hb.
    rewrite redirect_buffer_after in Hb by done. pose proof (lookup_lt_Some _ _ _ Hb) as Hlt.
    unfold ctx_redirect. rewrite length_take, (wf_redirect_name c Hwf).
    unfold NAME_MAX_nat in *. rewrite Nat.min_l by lia. by rewrite (list_lookup_total_correct _ _ _ Hb). }
  assert (here p links (with_open F) st1) as H1 by by apply here_nd.
  destruct (common_open_does tries p links F w _ st1 f HF Hw Hf (or_intror H1) Hty Hdir Ht)
    as (F' & [[res f'] st'] & HF' & Hw' & -> & Hd).
  rewrite Hq in Hd. exists F'. eexists. split_and!; [done..|].
  by apply open_does_set_last, (open_does_from _ _ _ _ st1).
Qed.

(** A selected directory. *)
Lemma target_open_does p links F rd st f :
  ordinary F → closed f → here p links (with_open F) st →
  r_target_active rd = true → r_target_borrowed rd = rcu st →
  ∃ r, (let '(error, _, st') := namei_ext_apply_target (v_scoped E) (v_can_lookup E) (v_seq E)
                                  (v_inode E) rd st in
        if negb (error =? 0) then Some (PErr error, f, st') else
        let st' := if negb (nd_depth (wk_nd st') =? 0) then put_link st' else st' in
        Some (PNull, f, st')) = Some r ∧
  open_does links F (enter_target E (inr (r_target rd))) st r.
Proof.
  intros HF Hf H Ha Hb.
  pose proof (target_does E T HT table root p links _ _ rd st st (unconfined_open _ HF) H ltac:(done)
    Ha Hb eq_refl) as [Hr Hd].
  cbn [enter_target]. destruct (namei_ext_apply_target _ _ _ _ _ _) as [[error ?] st1].
  destruct (negb (error =? 0)) eqn:He; (eexists; split; [done|]); cbn in Hr, Hd.
  - apply negb_true_iff, Z.eqb_neq in He. split_and!; [done..|].
    destruct Hd as [[? [= ->]]|Hd]; [by left|right]. destruct (v_can_lookup E _); [by destruct Hd|done].
  - set (st2 := if negb (_ =? 0) then _ else st1).
    assert ((rcu st2 = true → rcu st1 = true) ∧
      ∀ p n G, here p n G st1 → here p n G st2) as [Hk Hh].
    { unfold st2. destruct (nd_depth (wk_nd st1) =? 0); cbn [negb]; [auto|].
      split; [apply put_link_keeps|]. intros. by apply here_put_link. }
    split_and!; [done|auto|right]. destruct Hd as [[_ [=]]|Hd].
    destruct (v_can_lookup E _); [|done]. destruct Hd. split; auto.
Qed.

Abbreviation last tries := (PathOpen.open_last_lookups E V true (λ _, true) buf tries op).

Lemma last_open_does tries p links F w c st f :
  ordinary F → wants F w → closed f → here p links F st → ready E w p c st →
  let '(w', m) := final_open E T (r_name buf) root links w p c in
  ∃ F' r, ordinary F' ∧ wants F' w' ∧ last (S tries) f st = Some r ∧ open_does links F' m st r.
Proof.
  intros HF Hw Hf H [[Ht Hc Hfit] Hdir Hx Hs].
  unfold PathOpen.open_last_lookups, Walk.open_last_lookups. cbn [andb].
  unfold open_last_lookups_namei_ext.
  assert (here p links (with_open F) (on_nd (λ nd, set_nd_flags (nd_flags nd ∪ op_intent op) nd) st))
    as H1 by (apply intent_here; by left).
  pose proof (intent_rcu st) as Hr1. set (st1 := on_nd _ st) in *.
  replace (nd_last_type (wk_nd st)) with (nd_last_type (wk_nd st1)) in Ht by done.
  replace (nd_last (wk_nd st)) with (nd_last (wk_nd st1)) in Hc, Hfit by done.
  replace (nd_dir (wk_nd st)) with (nd_dir (wk_nd st1)) in Hdir by done.
  replace (trailing_slashes (wk_nd st)) with (trailing_slashes (wk_nd st1)) in Hs by done.
  assert (∀ links F m r, open_does links F m st1 r → open_does links F m st r) as Hfrom
    by (intros l F0 m r; apply open_does_from; by rewrite Hr1).
  clearbody st1.
  destruct (bool_decide (nd_last_type (wk_nd st1) = LAST_NORM)) eqn:Hty; cbn [negb].
  2: { (* dots *)
    apply bool_decide_eq_false in Hty. rewrite Ht in Hty.
    set (st2 := if negb (_ =? 0) then _ else st1).
    assert (here p links (with_open F) st2 ∧ keeps st1 st2 ∧
      nd_last_type (wk_nd st2) = nd_last_type (wk_nd st1)) as (H2 & (_ & _ & Hk) & Ht2).
    { unfold st2. destruct (negb _); [|done]. split_and!; [by apply here_put_link|
        apply put_link_keeps|apply put_link_type]. }
    rewrite <- Ht2 in Ht. clearbody st2.
    assert (∃ m, m = step E T root links true (w_follow w) p c ∧ (∀ q s, m ≠ MLink q s) ∧
      does links (with_open F) m st2 (handle_dots E st2)) as (m & Hm & Hlink & Hd).
    { eexists; split; [done|]. unfold step. destruct (token_of c); cbn [type_of] in *; [| |done].
      - split; [done|]. unfold handle_dots. rewrite Ht, bool_decide_false by done.
        split; [done|by right].
      - split; [apply step_dotdot_link|].
        apply (handle_dots_does E T HT table root Hroot buf Hbuf); [by apply unconfined_open|done..]. }
    assert (final_open E T (r_name buf) root links w p c = (w, m)) as ->.
    { assert (final_lookup E T root links w p c = (w, m)) as Hfin; [|unfold final_open].
      - unfold final_lookup, at_last. rewrite Hm. destruct (token_of c); [..|done]; cbn [is_name];
          rewrite andb_false_r, !orb_false_r; by destruct w.
      - by destruct (token_of c). }
    exists F, (let '(res, st') := handle_dots E st2 in (res, f, st')).
    split_and!; [done..|by destruct (handle_dots E st2)|].
    apply Hfrom, (open_does_from _ _ _ _ st2); [done|]. by apply does_open. }
  apply bool_decide_eq_true in Hty. rewrite Ht in Hty.
  destruct (token_of c) as [| |n] eqn:Htok; [done..|]. apply token_name in Htok as Hn. subst n.
  destruct (wants_slashed F w (w_slash w) HF Hw) as [HF2 Hw2].
  assert (at_last w c = slashed (w_slash w) w) as Hlast.
  { unfold at_last, slashed. by rewrite Htok, andb_true_r. }
  pose proof (consult_does E T table root buf Hbuf Hmeans p links (with_open F) st1
    (unconfined_open _ HF)) as Hcon.
  specialize (Hcon ltac:(rewrite fl_open by done; apply bool_decide_eq_false; intros ?;
    by apply (HF LOOKUP_CREATE)) H1 Hfit). rewrite Hc in Hcon.
  pose proof (consult_slash E buf Hshort Hbuf st1) as Hsl.
  assert (∀ t, selected (with_open F) t = if w_directory w then t else inl (- EOPNOTSUPP)) as Hsel.
  { intros t. unfold selected. rewrite (wa_directory _ _ Hw), (fl_open F LOOKUP_DIRECTORY) by done.
    replace (fl LOOKUP_OPEN (with_open F)) with true; [by destruct (fl LOOKUP_DIRECTORY F)|].
    symmetry. apply bool_decide_eq_true, elem_of_union. right. by apply elem_of_singleton. }
  unfold final_open, final_lookup, step. rewrite Hlast, Htok. unfold step_name.
  destruct (consult_policy _ _ _ _ _ _ buf st1) as [[res st2]|[rd st2]]; cbn [consults] in Hcon.
  { (* an error *)
    destruct Hcon as [Hr Hcon].
    assert (∀ s m, (∀ e, view T p c = DFail e → m = MErr e) →
      (∀ t e, view T p c = DTarget t → selected (with_open F) t = inl e → m = MErr e) →
      ∃ F' r, ordinary F' ∧ wants F' (slashed s w) ∧ Some (res, f, st2) = Some r ∧
        open_does links F' m st r) as Herr.
    { intros s m Hm1 Hm2. destruct (wants_slashed F w s HF Hw). eexists _, _. split_and!; [done..|].
      apply Hfrom. split_and!; [done..|].
      destruct Hcon as [?|(e & -> & [Hd|(t & Hd & Ht2)])]; [by left|right..]; [by rewrite (Hm1 e)|].
      by rewrite (Hm2 t e). }
    destruct (view T p c) as [|n|e|t]; [by apply Herr|by apply Herr| |].
    - apply Herr; [by intros ? [= ->]|done].
    - specialize (Herr false). rewrite slashed_false in Herr.
      apply Herr; [done|]. intros t' e [= <-]. rewrite Hsel.
      destruct (w_directory w); [by intros ->|by intros [= ->]]. }
  destruct Hcon as (H2 & (Hl2 & Hd2 & Hk2) & Ht2 & Hcon). specialize (Hsl _ _ eq_refl).
  assert (∀ links F m r, open_does links F m st2 r → open_does links F m st r) as Hfrom2.
  { intros l F0 m r Hd. by apply Hfrom, (open_does_from _ _ _ _ st2). }
  rewrite <- Hd2 in Hdir. rewrite <- Ht2 in Ht. cbn [type_of] in Ht.
  destruct (view T p c) as [|n|e|t]; [..|done|].
  - destruct Hcon as [Ha ->]. unfold with_redirect_open, namei_ext_apply_redirect. rewrite Ha. cbn [negb].
    assert (trailing_slashes (wk_nd st2) = Some (w_slash w)) as Hs2
      by (unfold trailing_slashes in *; by rewrite Hl2).
    destruct (common_open_does tries p links F w _ st2 f HF Hw Hf (or_intror H2) Ht Hdir Hs2)
      as (F' & r & HF' & Hw' & Hr & Hd). rewrite Hl2, Hc in Hd. exists F', r. auto.
  - destruct Hcon as (h & c' & -> & -> & Hwf & Hlen & Hv).
    cbn [namei_ext_fill_redirect clear_flags r_target_active].
    destruct (redirect_open_does tries p links F w st2 f c' h HF Hw Hf H2 Ht Hdir Hwf Hlen Hv Hsl)
      as (F' & r & HF' & Hw' & Hr & Hd). exists F', r. auto.
  - destruct Hcon as (q & Hq & Ha & Hb & Hrt). rewrite Ha, Hsel in *.
    rewrite (here_has E table root p links _ st2 LOOKUP_DIRECTORY H2), fl_open by done.
    rewrite <- (wa_directory _ _ Hw). destruct (w_directory w); [|done]. cbn [negb].
    subst t q. destruct (target_open_does p links F rd st2 f HF Hf H2 Ha Hb) as (r & Hr & Hd).
    exists F, r. auto.
Qed.

(** A symlink to follow has components. *)
Lemma final_open_link st links w p c w' q s :
  final_open E T (r_name buf) root links w p c = (w', MLink q s) → at_word s.
Proof.
  unfold final_open, final_lookup.
  destruct (token_of c) as [| |n] eqn:Htok;
    [..|destruct (view T p n) as [|n'|e|t] eqn:Hv; [|intros [= _ He]; by eapply enter_link| |]].
  5: by unfold enter_target; repeat case_match.
  all: intros [= _ He]; by eapply (step_link E HE T HT root st).
Qed.
End facts.
