(* ===== verification/PathOpenResolve.v ===== *)
(** * An open resolves its pathname

    The loop of [path_openat], the checks of [do_open] and the three attempts of
    [do_file_open] against [pathname_with final_open]. *)

From S2P Require Import Prelude Abi PolicyLib PolicyFacts Kernel Targets Lookup LookupProps Walk.
From S2P Require Import WalkProps PathWalk PathOpen PathInv PathRefs PathSafe PathTotal PathOpenSafe PathOpenTotal PathOpenProps.
From S2P Require Import PathView PathNames PathFrame PathViewFacts PathViewProps PathResolve PathOpenView.

Section verdict.
Context {W : Type} (E : vfs W) (V : vopen W) (T : tree) (HV : shows_open E V T) (op : open_flags).
Implicit Types (st : walk W) (f : file).

(** What opening [q] says, as [open_file] does it. *)
Definition verdict (q : path) st : Z :=
  (open_file V op (mk_file false false null_path) (on_nd (set_path q) st)).1.1.

Lemma may_open_still p acc flag st st' : may_open V p acc flag st = may_open V p acc flag st'.
Proof.
  unfold may_open. rewrite !(so_inode _ _ _ HV). destruct (v_inode E (p_dentry p)) as [i|]; [|done].
  destruct (may_open_type V p i acc flag) as [error flag'].
  by rewrite (so_permission _ _ _ HV st st').
Qed.

Lemma open_checked_still b acc flag f g st st' :
  closed f → closed g → nd_path (wk_nd st) = nd_path (wk_nd st') →
  let '(err, f', _) := open_checked V b acc flag f st in
  let '(err', _, _) := open_checked V b acc flag g st' in
  err = err' ∧ (err = 0 → f_opened f' = true ∧ f_path f' = nd_path (wk_nd st)).
Proof.
  intros [Hf1 Hf2] [Hg1 Hg2] Hp. unfold open_checked. rewrite <- Hp, Hf1, Hg1.
  set (p := nd_path (wk_nd st)). rewrite (may_open_still p acc flag st st').
  destruct (may_open V p acc flag st' =? 0) eqn:Hm; cbn [andb negb].
  2: { rewrite !Hm. cbn [andb]. unfold_bools. destruct (0 <? _); by split. }
  unfold vfs_open. rewrite Hf2, Hg2. pose proof (so_opens _ _ _ HV st p) as Ho.
  pose proof (so_dentry_open _ _ _ HV st st' p) as Hd.
  destruct (o_dentry_open V st p) as [[err b1] w1], (o_dentry_open V st' p) as [[err' b1'] w2].
  cbn in Ho, Hd. injection Hd as <- <-. destruct (err =? 0) eqn:He; unfold_bools.
  2: { rewrite !(proj2 (Z.eqb_neq err 0)) by done. cbn [andb]. destruct (0 <? err); by split. }
  rewrite (Ho He). cbn [f_opened f_created f_path]. set (f1 := mk_file true false p).
  set (st1 := get_path p (with_maps w1 st)). set (st2 := get_path p (with_maps w2 st')).
  rewrite (so_post_open _ _ _ HV st1 st2). set (e := o_security_file_post_open V st2 f1).
  destruct ((e =? 0) && b); [|by destruct (0 <? e)].
  unfold handle_truncate. rewrite (so_write_access _ _ _ HV st1 st2).
  destruct (negb _); [by destruct (0 <? _)|]. rewrite (so_security_truncate _ _ _ HV st1 st2).
  destruct (negb _); [by destruct (0 <? _)|].
  pose proof (so_truncate _ _ _ HV st1 st2 (f_path f1)) as Ht.
  destruct (o_truncate V st1 _) as [e1 u1], (o_truncate V st2 _) as [e2 u2]. cbn in Ht. subst e2.
  by destruct (0 <? e1).
Qed.

(** The verdict does not depend on where the walk came from. *)
Lemma open_file_verdict f st st0 :
  closed f → let '(err, f', _) := open_file V op f st in
  err = verdict (nd_path (wk_nd st)) st0 ∧
  (err = 0 → f_opened f' = true ∧ f_path f' = nd_path (wk_nd st)).
Proof.
  intros Hf. unfold verdict, open_file. rewrite (proj2 Hf). cbn [f_created].
  set (g := mk_file _ _ _). set (st1 := on_nd _ st0).
  assert (closed g) as Hg by done. assert (nd_path (wk_nd st) = nd_path (wk_nd st1)) as Hp by done.
  rewrite <- Hp, (so_is_reg _ _ _ HV st st1), (so_want_write _ _ _ HV st st1).
  assert (∀ b acc flag, let '(err, f', _) := open_checked V b acc flag f st in
    err = (open_checked V b acc flag g st1).1.1 ∧
    (err = 0 → f_opened f' = true ∧ f_path f' = nd_path (wk_nd st))) as Hc.
  { intros b acc flag. pose proof (open_checked_still b acc flag f g st st1 Hf Hg Hp) as Hc.
    destruct (open_checked V b acc flag f st) as [[err f'] st'].
    by destruct (open_checked V b acc flag g st1) as [[err' g'] st1']. }
  destruct (_ && _); [|apply Hc]. destruct (negb _) eqn:Hw; [|apply Hc].
  apply negb_true_iff, Z.eqb_neq in Hw. by split.
Qed.
End verdict.

Section props.
Context {W : Type} (E : vfs W) (HE : env_ok E) (T : tree) (HT : shows E T).
Context (V : vopen W) (op : open_flags) (HO : open_ok V) (HV : shows_open E V T).
Context (Hintent : op_intent op = {[LOOKUP_OPEN]}) (Hcreat : bits O_CREAT (op_open_flag op) = false).
Context (table : list (list namei_ext_target)) (root : path) (Hroot : root ≠ null_path).
Context (buf : namei_ext_redirect) (Hbuf : length (r_name buf) = NAME_MAX_nat).
Context (Hmeans : means E T (mk_targets table ∅)) (Hshort : short_redirects E).
Implicit Types (st : walk W) (f : file).

Abbreviation final := (final_open E T (r_name buf)).
Abbreviation resolve := (resolve_with E T root (final root)).
Abbreviation here := (here E table root).
Abbreviation loop := (open_loop E V true (λ _, true) buf).
Abbreviation last tries := (PathOpen.open_last_lookups E V true (λ _, true) buf tries op).

(** ** Symlinks at the end *)

(** Give up, fail, or arrive, as the reference. *)
Definition opens links w p cs st (r : Z * file * walk W) : Prop :=
  let '(err, f, st') := r in
  closed f ∧ (rcu st' = true → rcu st = true) ∧
  ((rcu st = true ∧ err = - ECHILD) ∨
   (err ≠ 0 ∧ resolve links w p cs = inl err) ∨
   (err = 0 ∧ ∃ q n F w', here q n (with_open F) st' ∧ ordinary F ∧ wants F w' ∧
      resolve links w p cs = arrived E w' q)).

Lemma opens_from links w p cs links' w' p' cs' st st' r :
  (rcu st' = true → rcu st = true) → resolve links w p cs = resolve links' w' p' cs' →
  opens links' w' p' cs' st' r → opens links w p cs st r.
Proof.
  destruct r as [[err f] st1]. intros Hr He (Hf & H1 & H2). rewrite <- He in H2.
  split_and!; [done|auto|]. destruct H2 as [[]|H2]; auto.
Qed.

Lemma open_loop_err rounds fuel tries e f st res :
  e ≠ 0 → loop fuel tries rounds op (PErr e) f st = Some res →
  res.1 = (e, f) ∧ rcu res.2 = rcu st.
Proof.
  intros He. destruct rounds as [|rounds]; [done|]. cbn.
  rewrite (proj2 (Z.eqb_neq _ _)) by done. cbn [negb]. intros [= <-]. split; [done|].
  unfold rcu, nd_has. cbn. apply fl_add. by rewrite not_elem_of_singleton.
Qed.

(** A pathname without components. *)
Lemma open_none tries p links F st f :
  here p links F st → nd_last_type (wk_nd st) = LAST_ROOT →
  ∃ st', last tries f st = Some (PNull, f, st') ∧ here p links (with_open F) st' ∧
    (rcu st' = true → rcu st = true).
Proof.
  intros H Ht. unfold PathOpen.open_last_lookups, Walk.open_last_lookups. cbn [andb].
  unfold open_last_lookups_namei_ext.
  assert (here p links (with_open F) (on_nd (λ nd, set_nd_flags (nd_flags nd ∪ op_intent op) nd) st))
    as H1 by (by apply (intent_here E op Hintent); left).
  pose proof (intent_rcu op Hintent st) as Hr1. set (st1 := on_nd _ st) in *.
  replace (nd_last_type (wk_nd st)) with (nd_last_type (wk_nd st1)) in Ht by done. clearbody st1.
  rewrite Ht, bool_decide_false by done. cbn [negb]. set (st2 := if negb _ then _ else st1).
  assert (here p links (with_open F) st2 ∧ keeps st1 st2 ∧
    nd_last_type (wk_nd st2) = nd_last_type (wk_nd st1)) as (H2 & (_ & _ & Hk) & Ht2).
  { unfold st2. destruct (negb _); [|done]. split_and!; [by apply here_put_link|apply put_link_keeps|].
    apply put_link_type. }
  exists st2. unfold handle_dots. rewrite Ht2, Ht, bool_decide_false by done.
  split_and!; [done..|]. rewrite <- Hr1. auto.
Qed.

Lemma after_open rounds fuel tries links F w p c w' m st r res :
  (∀ F w n p s f st res, ordinary F → wants F w → w_slash w = ends_in_slash false s → cstring s →
     Forall is_byte s → closed f → here p n F st →
     loop fuel tries rounds op (PPtr s) f st = Some res → opens n w p (components [] s) st res) →
  ordinary F → wants F w' → v_may_exec E (v_inode E (p_dentry p)) false = 0 →
  final root links w p c = (w', m) → open_does E table root links F m st r → nonzero r.1.1 →
  match r.1.1 with
  | PNull => Some (0, r.1.2, r.2)
  | s => loop fuel tries rounds op s r.1.2 r.2
  end = Some res →
  opens links w p [c] st res.
Proof.
  intros IH HF Hw Hx Hfin Hd Hnz Hres.
  pose proof (resolve_cons E T root (final root) links w p c []) as Hrc.
  rewrite Hx, Hfin in Hrc. cbv zeta in Hrc. cbn [negb Z.eqb] in Hrc.
  destruct r as [[s f] st1]. destruct Hd as (Hf & Hr & Hd). cbn [fst snd] in *.
  assert (∀ e, s = PErr e → res.1 = (e, f) ∧ (rcu res.2 = true → rcu st = true) ∧ e ≠ 0) as Herr.
  { intros e ->. assert (e ≠ 0) as He0 by (intros ->; by apply Hnz).
    destruct (open_loop_err _ _ _ _ _ _ _ He0 Hres) as [? Hrr]. by rewrite Hrr. }
  destruct res as [[err f'] st']. cbn [fst snd] in Herr.
  assert (s = PNull → err = 0 ∧ f' = f ∧ st' = st1) as Hnull by (intros ->; by simplify_eq).
  destruct Hd as [[Hc ->]|Hm].
  { unfold opens. destruct (Herr _ eq_refl) as ([= -> ->] & ? & _). auto. }
  destruct m as [e|q|q|q body]; [unfold opens..|].
  - subst s. destruct (Herr _ eq_refl) as ([= -> ->] & ? & ?). split_and!; auto.
  - destruct Hm as [-> H1]. destruct (Hnull eq_refl) as (-> & -> & ->). split_and!; [done..|].
    right; right. split; [done|]. by exists q, links, F, w'.
  - destruct Hm as (-> & Hl & H1). destruct (Hnull eq_refl) as (-> & -> & ->). split_and!; [done..|].
    right; right. split; [done|]. exists q, (pred links), F, w'. by destruct links.
  - destruct Hm as (-> & Hl & H1). destruct links as [|links]; [done|].
    destruct (final_open_link E HE T HT root buf st _ _ _ _ _ _ _ Hfin) as [H0 _ _ Hb].
    rewrite app_nil_r in Hrc. eapply opens_from; [exact Hr|exact Hrc|].
    eapply IH; [exact HF|by destruct Hw|done..].
Qed.

Lemma open_loop_does fuel tries rounds : ∀ F w n p s f st res,
  ordinary F → wants F w → w_slash w = ends_in_slash false s → cstring s → Forall is_byte s →
  closed f → here p n F st → loop fuel (S tries) rounds op (PPtr s) f st = Some res →
  opens n w p (components [] s) st res.
Proof.
  induction rounds as [|rounds IH]; [done|].
  intros F w n p s f st res HF Hw Hs H0 Hb Hf H Hres. cbn [open_loop] in Hres.
  unfold PathWalk.link_path_walk in Hres. set (st0 := on_nd _ st) in Hres.
  destruct (parent_flags_here E table root p n F (λ nd, set_nd_flags (nd_flags nd ∪ {[LOOKUP_PARENT]})
    (set_last_type LAST_ROOT nd)) st) as [Hh0 Hr0]; [done..|]. fold st0 in Hh0, Hr0.
  destruct (at_nul (skip_slashes s)) eqn:Hn.
  - cbn [mbind option_bind negb Z.eqb] in Hres.
    destruct (open_none (S tries) p n F (on_nd (set_dir None) st0) f)
      as (st' & Hl & H' & Hr'); [by apply here_nd|done|].
    rewrite Hl in Hres. cbn in Hres. simplify_eq.
    split_and!; [done|intros Hr; rewrite <- Hr0; exact (Hr' Hr)|right; right]. split; [done|].
    exists p, n, F, w. split_and!; try done.
    rewrite <- components_skip. destruct (skip_slashes s) as [|c s']; cbn in *; [by destruct n|].
    rewrite Hn. by destruct n.
  - destruct (link_path_walk_loop _ _ _ _ _ _ _ st0) as [[err st1]|] eqn:Hloop; [|done].
    cbn [mbind option_bind] in Hres.
    pose proof (loop_does E HE T HT table root Hroot buf Hbuf Hmeans (final root) F w HF Hw fuel
      (skip_slashes s) [] p n st0 (err, st1)) as Hwalk.
    assert (to_walk (skip_slashes s) [] = components [] s) as Hleft.
    { unfold to_walk. simpl. by rewrite app_nil_r, components_skip. }
    rewrite Hleft in Hwalk. destruct Hwalk as [Hr1 Hm]; try done.
    { by apply skip_at_word. } { rewrite Hs. by apply ends_skip. }
    cbn [fst snd] in *. rewrite Hr0 in Hr1, Hm.
    destruct Hm as [[Hc ->]|[[He Hrc]|(-> & q & n' & c & H1 & Hready & Hrc)]].
    + change (negb (- ECHILD =? 0)) with true in Hres. injection Hres as <-. split_and!; auto.
    + rewrite (proj2 (Z.eqb_neq _ _)) in Hres by done. cbn in Hres. simplify_eq.
      split_and!; auto.
    + cbn [negb Z.eqb] in Hres.
      pose proof (last_open_does E T HT V op HV Hintent Hcreat table root Hroot buf Hbuf Hmeans Hshort
        tries q n' F w c st1 f HF Hw Hf H1 Hready) as Hlast.
      destruct (final root n' w q c) as [w' m] eqn:Hfin.
      destruct Hlast as (F' & r & HF' & Hw' & Hl & Hd). rewrite Hl in Hres.
      eapply opens_from; [exact Hr1|exact Hrc|].
      eapply after_open; [exact IH|exact HF'|exact Hw'|by destruct Hready|exact Hfin|exact Hd| |].
      * by eapply (open_last_nonzero E HE V HO).
      * cbn in Hres. by destruct r as [[[] f2] st2].
Qed.

(** ** The end *)

Lemma do_open_here q n F w st f st0 :
  ordinary F → wants F w → closed f → here q n (with_open F) st →
  let '(err, f', _) := do_open E V op f st in
  (rcu st = true ∧ err = - ECHILD) ∨
  match arrived E w q with
  | inl e => err = e ∧ e ≠ 0
  | inr q => err = verdict V op q st0 ∧ (err = 0 → f_opened f' = true ∧ f_path f' = q)
  end.
Proof.
  intros HF Hw Hf H. unfold do_open. rewrite (proj1 Hf), (proj2 Hf). cbn [orb negb].
  pose proof (complete_walk_here E T HT table root q n _ st (unconfined_open _ HF) H) as Hc.
  destruct (complete_walk E st) as [err st1]. destruct Hc as [[Hr ->]|(-> & Hp & HF1)].
  { change (negb (- ECHILD =? 0)) with true. by left. }
  cbn [negb Z.eqb]. unfold create_checks. rewrite Hcreat. cbn [negb Z.eqb]. rewrite Hp.
  unfold arrived, nd_has.
  rewrite <- (wanted_fl (nd_flags _)), HF1, fl_open, <- (wa_directory _ _ Hw) by done.
  destruct (w_directory w && negb _); [by right|].
  pose proof (open_file_verdict E V T HV op f st1 st0 Hf) as Hv. rewrite Hp in Hv.
  destruct (open_file V op f st1) as [[err f'] st2]. by right.
Qed.

(** What the caller sees of an error, and of a resolution. *)
Definition open_error (e : Z) : Z := if e =? - EOPENSTALE then - ESTALE else e.

Definition opened_as (r : Z + path) st0 (err : Z) f : Prop :=
  match r with
  | inl e => err = open_error e
  | inr q => err = open_error (verdict V op q st0) ∧ (err = 0 → f_path f = q)
  end.

Context (ro : option path) (Hro : root = default (v_fs_root E) ro).
Context (Htmp : bits O_TMPFILE (op_open_flag op) = false).
Context (Hpath : bits O_PATH (op_open_flag op) = false).

(** What [path_openat] makes of an error. *)
Lemma openat_end (rc : bool) error f0 f1 st1 st2 err f st' :
  (if (error =? 0) && f_opened f1 then Some (0, f1, st1) else
   let error := if error =? 0 then - EINVAL else error in
   let error := if error =? - EOPENSTALE then if rc then - ECHILD else - ESTALE else error in
   Some (error, f0, st2)) = Some (err, f, st') →
  (error = 0 → f_opened f1 = true) →
  (rc = true ∧ err = - ECHILD) ∨ (err = open_error error ∧ (err = 0 → f = f1)).
Proof.
  intros Hu Ho. destruct (error =? 0) eqn:He; unfold_bools.
  - subst error. rewrite (Ho eq_refl) in Hu. cbn [andb] in Hu. simplify_eq. by right.
  - cbn [andb] in Hu. unfold open_error. cbv zeta in Hu.
    destruct (error =? - EOPENSTALE); [destruct rc|]; simplify_eq; auto; by right.
Qed.

Lemma openat_does rounds fuel tries dfd name flags n st st0 err f st' :
  cstring name → Forall is_byte name → ordinary (wanted flags) → starts table ro n st →
  path_openat E V true (λ _, true) buf rounds fuel (S tries) dfd name op flags st
    = Some (err, f, st') →
  (fl LOOKUP_RCU flags = true ∧ err = - ECHILD) ∨
  opened_as (pathname_with E T final n ro dfd name flags) st0 err f.
Proof.
  intros H0 Hb HF Hst. unfold path_openat. rewrite (so_file _ _ _ HV), Htmp, Hpath. cbn [negb Z.eqb].
  set (f0 := mk_file false false null_path). assert (closed f0) as Hf0 by done.
  pose proof (path_init_here E T HT table root ro Hro dfd name flags n st
    (ordinary_unconfined _ HF) Hst) as Hi.
  destruct (path_init E dfd name flags st) as [s st1]. destruct Hi as [Hr Hi].
  destruct (loop fuel (S tries) rounds op s f0 st1) as [[[e f1] st2]|] eqn:Hloop; [|done].
  cbn [mbind option_bind].
  (* an error of the walk *)
  assert (∀ r, e ≠ 0 →
    (fl LOOKUP_RCU flags = true ∧ e = - ECHILD) ∨ r = inl e →
    (let '(error, f2, st3) := if e =? 0 then do_open E V op f1 st2 else (e, f1, st2) in
     Some (error, f2, terminate_walk st3)) ≫= (λ '(error, f2, st3),
      if (error =? 0) && f_opened f2 then Some (0, f2, st3) else
      let error := if error =? 0 then - EINVAL else error in
      let error := if error =? - EOPENSTALE
                   then if fl LOOKUP_RCU flags then - ECHILD else - ESTALE else error in
      Some (error, f0, fput_close f2 st3)) = Some (err, f, st') →
    (fl LOOKUP_RCU flags = true ∧ err = - ECHILD) ∨ opened_as r st0 err f) as Herr.
  { intros r He Hor. rewrite (proj2 (Z.eqb_neq e 0)) by done. cbn [mbind option_bind]. intros Hend.
    apply openat_end in Hend as [?|[-> _]]; [by left| |done].
    destruct Hor as [[? ->]| ->]; [by left|by right]. }
  unfold pathname_with. destruct Hi as [[Hc ->]|Hi].
  { apply open_loop_err in Hloop as [[= -> ->] _]; [|done]. by apply Herr; [|left]. }
  destruct (start_path E ro dfd name flags) as [e'|q] eqn:Hsp.
  { subst s. apply (start_path_error E root ro Hro) in Hsp. apply open_loop_err in Hloop as [[= -> ->] _]; [|done].
    by apply Herr; [|right]. }
  destruct Hi as [-> H1]. rewrite <- Hro. set (w := mk_wish _ _ _).
  assert (wants (wanted flags) w) as Hw by (split; cbn; by rewrite wanted_fl).
  destruct (open_loop_does _ _ _ _ _ _ _ _ _ _ _ HF Hw eq_refl H0 Hb Hf0 H1 Hloop)
    as (Hf1 & Hr2 & [[Hc He]|[[He Hrs]|(He & q' & n' & F' & w' & H2 & HF' & Hw' & Hrs)]]).
  - apply Herr; [by subst e|left; auto].
  - apply Herr; [done|by right].
  - subst e. cbn [Z.eqb]. rewrite Hrs.
    pose proof (do_open_here q' n' F' w' st2 f1 st0 HF' Hw' Hf1 H2) as Hd.
    destruct (do_open E V op f1 st2) as [[e2 f2] st3]. cbn [mbind option_bind]. intros Hend.
    apply openat_end in Hend.
    + destruct Hend as [?|[-> Hf]]; [by left|]. destruct Hd as [[Hc ->]|Hd]; [left; auto|right].
      unfold opened_as. destruct (arrived E w' q') as [e3|q3]; [by destruct Hd as [-> _]|].
      destruct Hd as [-> Hd]. split; [done|]. intros He. rewrite (Hf He).
      apply Hd. revert He. unfold open_error. by destruct (_ =? - EOPENSTALE).
    + intros ->. destruct Hd as [[_ [=]]|Hd]. destruct (arrived E w' q') as [e3|q3].
      * by destruct Hd as [<- ?].
      * by apply Hd.
Qed.
End props.

(** ** All attempts *)

(** An open that creates nothing and is neither O_TMPFILE nor O_PATH. *)
Record plain_open (op : open_flags) : Prop := {
  po_intent : op_intent op = {[LOOKUP_OPEN]};
  po_creat : bits O_CREAT (op_open_flag op) = false;
  po_tmpfile : bits O_TMPFILE (op_open_flag op) = false;
  po_path : bits O_PATH (op_open_flag op) = false
}.

Section opens.
Context {W : Type} (E : vfs W) (HE : env_ok E) (T : tree) (HT : shows E T).
Context (V : vopen W) (HO : open_ok V) (HV : shows_open E V T).
Context (op : open_flags) (Hop : plain_open op) (Hshort : short_redirects E).
Context (buf : namei_ext_redirect) (Hbuf : length (r_name buf) = NAME_MAX_nat).
Context (ro : option path) (Hroot : default (v_fs_root E) ro ≠ null_path).
Context (rounds fuel tries : nat) (m : W → nat) (Hm : settles E V m tries).
Context (dfd : Z) (name : list Z) (H0 : cstring name) (Hb : Forall is_byte name).
Context (nested : Z) (Hn : 0 ≤ nested).
Context (Hrounds : MAXSYMLINKS + 1 < Z.of_nat rounds).
Context (Hfuel : Z.max (Z.of_nat (length name)) PATH_MAX + PATH_MAX * MAXSYMLINKS < Z.of_nat fuel).
Implicit Types (st : walk W) (f : file).

Abbreviation openat := (path_openat E V true (λ _, true) buf rounds fuel tries dfd name op).
Abbreviation final := (final_open E T (r_name buf)).

(** The answer, with at most [n] symlinks: those that the attempts given up have
    followed count. *)
Definition open_answered n flags st0 (err : Z) f : Prop :=
  ∃ k, (k ≤ n)%nat ∧ opened_as V op (pathname_with E T final k ro dfd name flags) st0 err f.

(** It is the answer with [n], or ELOOP. *)
Lemma open_answered_full n flags st0 err f :
  open_answered n flags st0 err f →
  opened_as V op (pathname_with E T final n ro dfd name flags) st0 err f ∨ err = - ELOOP.
Proof.
  intros (k & Hk & Ha). destruct (pathname_links E T ro final k n dfd name flags) as [He|He];
    [by intros root; apply fewer_links_open|done|left; by rewrite <- He|].
  rewrite He in Ha. by right.
Qed.

Lemma openat_answers base table flags st st0 :
  means E T (mk_targets table ∅) → ordinary (wanted flags) → attempt ro base nested table st →
  ∃ err f st', openat flags st = Some (err, f, st') ∧
    (err ≠ 0 → attempt ro base nested table st') ∧
    ((fl LOOKUP_RCU flags = true ∧ err = - ECHILD) ∨
     open_answered (Z.to_nat (MAXSYMLINKS - nested)) flags st0 err f).
Proof.
  intros Hmeans HF [Hi Hinv Hst]. destruct Hop as [Hint Hcreat Htmp Hpath].
  assert (LOOKUP_RCU ∉ op_intent op) as Hnr by by rewrite Hint, elem_of_singleton.
  pose proof (path_openat_inv E HE V HO true (λ _, true) buf fuel tries op Hnr rounds dfd name
    (cstring_nul _ H0) base nested flags st Hi Hinv) as Hp.
  destruct (openat flags st) as [[[err f] st']|] eqn:Ho.
  2: { exfalso. assert (last_returns E V true (λ _, true) buf tries op) as Hl
         by (intros f st1; by eapply open_last_returns).
       specialize (Hp Hl). unfold short_of, MAXSYMLINKS, PATH_MAX in *. lia. }
  exists err, f, st'. split; [done|]. destruct Hp as (Hinv' & Hi' & _). split.
  - intros He. rewrite (proj2 (Z.eqb_neq _ _)) in Hinv' by done. split; [done..|].
    apply path_openat_framed in Ho as [_ _ Ht Hpre Hr]; [|done..]. destruct Hst as [H1 H2 _ H4].
    split; cbn in *; [congruence| |done|congruence]. intros r Hro. rewrite Hr; auto.
    + by rewrite H1, Hro.
    + unfold has_root. rewrite (H2 _ Hro). rewrite Hro in Hroot. cbn in Hroot.
      by destruct (path_equal r null_path) eqn:Hq; [apply path_equal_true in Hq|].
  - pose proof (se_bound _ _ _ _ Hm (wk_maps st)) as Ht. destruct tries as [|tries']; [lia|].
    destruct (openat_does E HE T HT V op HO HV Hint Hcreat table _ Hroot buf Hbuf Hmeans Hshort
      ro eq_refl Htmp Hpath _ _ _ _ _ _ _ _ st0 _ _ _ H0 Hb HF Hst Ho) as [?|Ha]; [by left|right].
    apply wi_count in Hinv.
    eexists. split; [|exact Ha]. unfold MAXSYMLINKS. lia.
Qed.

Lemma open_resolves st :
  means E T (mk_targets (ts_table (wk_targets st)) ∅) →
  ordinary (wanted (op_lookup_flags op)) → fl LOOKUP_RCU (op_lookup_flags op) = false →
  ∃ err f st',
    open_attempts E V true (λ _, true) buf rounds fuel tries dfd name op
      (on_nd (set_nameidata nested ro) st) = Some (err, f, st') ∧
    open_answered (Z.to_nat (MAXSYMLINKS - nested)) (op_lookup_flags op) st err f.
Proof.
  intros Hmeans HF Hnr. unfold open_attempts. set (flags := op_lookup_flags op) in *.
  pose proof (attempt_first E ro Hroot nested _ st Hn eq_refl) as A0. set (st0 := on_nd _ st) in *.
  destruct (wanted_attempt E T ro flags LOOKUP_RCU) as [HF1 Hrp1]; [by vm_compute|done|].
  destruct (wanted_attempt E T ro flags LOOKUP_REVAL) as [HF3 Hrp3]; [by vm_compute|done|].
  destruct (openat_answers _ _ _ _ st Hmeans HF1 A0) as (err1 & f1 & st1 & -> & A1 & H1).
  cbn [mbind option_bind]. unfold open_answered in H1. setoid_rewrite Hrp1 in H1.
  assert (∃ err2 f2 st2, (if err1 =? - ECHILD then openat flags st1 else Some (err1, f1, st1))
      = Some (err2, f2, st2) ∧
    (err2 ≠ 0 → attempt ro (foreign_refs (wk_targets st)) nested (ts_table (wk_targets st)) st2) ∧
    open_answered (Z.to_nat (MAXSYMLINKS - nested)) flags st err2 f2)
    as (err2 & f2 & st2 & -> & A2 & H2).
  { destruct (err1 =? - ECHILD) eqn:He; unfold_bools.
    - destruct (openat_answers (foreign_refs (wk_targets st)) _ flags st1 st Hmeans HF)
        as (err2 & f2 & st2 & -> & A2 & H2); [apply A1; by rewrite He|].
      exists err2, f2, st2. split_and!; [done..|]. rewrite Hnr in H2. by destruct H2 as [[??]|].
    - exists err1, f1, st1. split_and!; [done..|]. by destruct H1 as [[??]|]. }
  cbn [mbind option_bind].
  destruct (err2 =? - ESTALE) eqn:He; unfold_bools; [|by exists err2, f2, st2].
  destruct (openat_answers (foreign_refs (wk_targets st)) _ _ st2 st Hmeans HF3)
    as (err3 & f3 & st3 & -> & A3 & H3); [apply A2; by rewrite He|].
  exists err3, f3, st3. split; [done|].
  unfold open_answered in H3. setoid_rewrite Hrp3 in H3. destruct H3 as [[Hc _]|]; [|done].
  revert Hc. unfold fl in *. rewrite bool_decide_eq_true, elem_of_union. apply bool_decide_eq_false in Hnr.
  intros [?|?%elem_of_singleton]; done.
Qed.
End opens.

(** An open by a pathname, or below a given root. *)
Definition open_from {W} (E : vfs W) V buf rounds fuel tries nested dfd name op (ro : option path)
  (st : walk W) : option (Z * file * walk W) :=
  match ro with
  | None => do_file_open E V true (λ _, true) buf rounds fuel tries nested dfd name op st
  | Some root => do_file_open_root E V true (λ _, true) buf rounds fuel tries nested root name op st
  end.

