(* ===== verification/PathPolicies.v ===== *)
(** * Policies as name spaces

    What a program answers to the lookup of a name, the view this makes of a
    tree, and the lookups of a running system in it: the dispatcher, the static
    key and the prefilter included. *)

From S2P Require Import Prelude Abi PolicyLib PoliciesBasic PolicyFacts PolicyProps PolicyViews.
From S2P Require Import Kernel Targets Scopes ScopeApi ScopeSystem.
From S2P Require Import Cgroups EffectiveFacts CgroupFacts Dispatch DispatchProps.
From S2P Require Import System Lookup LookupProps Walk WalkProps SystemProps PathWalk PathInv.
From S2P Require Import PathTotal PathExact PathView PathViewFacts PathViewProps PathResolve.

(** ** Views of trees *)

(** The laws of the file system do not mention the view. *)
Lemma shows_view {W} (E : vfs W) T T' :
  child T' = child T → cross T' = cross T → body T' = body T → shows E T → shows E T'.
Proof. destruct T, T'. cbn. intros -> -> -> []. by split. Qed.

(** The tree a view makes, as a tree without a policy: an entry that a policy
    redirects is an alias, one that it hides leads to [neg]. *)
Definition physical (T : tree) (neg : Z) : tree :=
  mk_tree (λ p n,
      match view T p n with
      | DPass | DTarget _ => child T p n
      | DName n' => child T p n'
      | DFail _ => neg
      end) (cross T) (body T) (λ _ _, DPass).

(** A policy that renames and hides. *)
Definition renames_and_hides (T : tree) : Prop :=
  ∀ p n, match view T p n with DTarget _ => False | DFail e => e = - ENOENT | _ => True end.

Lemma physical_step {W} (E : vfs W) T root neg links trailing follow p c :
  renames_and_hides T → (∀ p, v_inode E (p_dentry (cross T p neg)) = None) →
  step E T root links trailing follow p c =
    step E (physical T neg) root links trailing follow p c.
Proof.
  intros HV Hneg. unfold step, step_name. destruct (token_of c) as [| |n]; [done..|].
  cbn [view physical child]. pose proof (HV p n) as Hn. destruct (view T p n) as [|n'|e|q]; try done.
  subst e. unfold enter. cbn [cross physical]. by rewrite bool_decide_true.
Qed.

(** What a policy that renames and hides makes of a tree is a tree: every
    pathname resolves, with the same symlinks left, as in the tree in which the
    redirected entries are aliases and the hidden ones do not exist. *)
Theorem view_is_tree {W} (E : vfs W) T root neg links w dir cs :
  renames_and_hides T → (∀ p, v_inode E (p_dentry (cross T p neg)) = None) →
  resolve E T root links w dir cs = resolve E (physical T neg) root links w dir cs.
Proof.
  intros HV Hneg. revert w dir cs. induction links as [|links IHl]; intros w dir cs;
    revert w dir; (induction cs as [|c cs IH]; intros w dir; [done|]);
    rewrite !resolve_cons; cbv zeta; unfold final_lookup;
    rewrite <- !(physical_step E T root neg) by done; (destruct (negb _); [done|]);
    (destruct cs as [|c' cs];
      [destruct (step E T root _ true _ dir c) as [e|q|q|q s]; try done; by rewrite ?IHl|];
     destruct (step E T root _ false _ dir c) as [e|q|q|q s]; try done;
     try (destruct (negb _)); by rewrite ?IH, ?IHl).
Qed.

(** ** Views of programs *)

(** The context [c] is that of a lookup of the name [n]. *)
Record looks_up (c : bpf_namei_ext_ctx) (n : list Z) : Prop := {
  lu_wf : ctx_wf c;
  lu_event : is_lookup c = true;
  lu_len : ctx_name_len c = Z.of_nat (length n);
  lu_name : (length n ≤ NAME_MAX_nat)%nat → ctx_component c = n
}.

(** A program decides by the name and the targets of its cgroup alone. *)
Class NameView {W} (P : bpf_program W) (V : (Z → option path) → list Z → decision) : Prop :=
  name_view : ∀ hash_min ts w c n, looks_up c n →
    let '(action, _, c') := P w c in
    decision_of hash_min ts action c' =
      V (λ tid, tgt_path <$> namei_ext_find_target_rcu hash_min (ctx_cgroup_id c) tid ts) n ∧
    (action = BPF_NAMEI_EXT_REDIRECT → 0 ≤ ctx_redirect_name_len c').

Lemma looks_up_is c n s :
  looks_up c n → (length (bytes_of_string s) ≤ NAME_MAX_nat)%nat →
  namei_ext_is c s = bool_decide (n = bytes_of_string s).
Proof.
  intros [Hwf _ Hl Hn] Hs. apply eq_true_iff_eq.
  rewrite namei_ext_is_spec, bool_decide_eq_true by done. split.
  - intros [Hlen Hc]. assert (length n = length (bytes_of_string s)) as Hln by lia.
    rewrite <- Hc. symmetry. apply Hn. lia.
  - intros ->. split; [done|by apply Hn].
Qed.

Lemma looks_up_readdir c n : looks_up c n → is_readdir c = false.
Proof. intros [_ He _ _]. by apply is_lookup_not_readdir. Qed.

(** The registered target of an identifier. *)
Definition select_registered (targets : Z → option path) (tid : Z) : decision :=
  DTarget (from_option inr (inl (- ENOENT)) (targets tid)).

(** A program that leaves room for a NUL after its replacement. *)
Class ShortProgram {W} (P : bpf_program W) : Prop :=
  short_program : ∀ w c, length (ctx_redirect_name c) = NAME_MAX_nat →
    let '(action, _, c') := P w c in
    length (ctx_redirect_name c') = NAME_MAX_nat ∧
    (action = BPF_NAMEI_EXT_REDIRECT → ctx_redirect_name_len c' < BPF_NAMEI_EXT_NAME_MAX).

(** *** hide_secret *)

Definition hide_secret_view (targets : Z → option path) (n : list Z) : decision :=
  if bool_decide (n = bytes_of_string "secret") then DFail (- ENOENT) else DPass.

#[export] Instance hide_secret_name_view :
  NameView HideSecret.hide_secret_policy hide_secret_view.
Proof.
  intros hm ts w c n H. pose proof (hide_secret_answer w c) as Ha.
  rewrite (lu_event _ _ H), (looks_up_is _ _ _ H) in Ha by (vm_compute; lia). cbn [orb andb] in Ha.
  unfold hide_secret_view. destruct (HideSecret.hide_secret_policy w c) as [[action w'] c'].
  destruct (bool_decide _); injection Ha as -> ->; done.
Qed.

#[export] Instance hide_secret_short : ShortProgram HideSecret.hide_secret_policy.
Proof.
  intros w c Hc. pose proof (hide_secret_answer w c) as Ha.
  destruct (HideSecret.hide_secret_policy w c) as [[action w'] c'].
  destruct (_ && _); by injection Ha as -> ->.
Qed.

(** *** agent_workspace_view *)

Definition agent_workspace_name_view (targets : Z → option path) (n : list Z) : decision :=
  if bool_decide (n = bytes_of_string "ws")
  then select_registered targets 1
  else if bool_decide (n = bytes_of_string "deleted.txt") then DFail (- ENOENT) else DPass.

#[export] Instance agent_workspace_is_view :
  NameView AgentWorkspaceView.agent_workspace_view_policy agent_workspace_name_view.
Proof.
  intros hm ts w c n H. pose proof (agent_workspace_answer w c) as Ha.
  rewrite (lu_event _ _ H), !(looks_up_is _ _ _ H) in Ha by (vm_compute; lia).
  cbn [orb andb] in Ha. unfold agent_workspace_name_view.
  destruct (AgentWorkspaceView.agent_workspace_view_policy w c) as [[action w'] c'].
  destruct (bool_decide _); [|destruct (bool_decide _)]; injection Ha as -> ->; [|done..].
  split; [|done]. unfold decision_of, select_registered. cbn.
  by destruct (namei_ext_find_target_rcu _ _ _ _).
Qed.

(** *** redirect_alias *)

Definition redirect_alias_view (targets : Z → option path) (n : list Z) : decision :=
  if bool_decide (n = bytes_of_string "tool") then DName (bytes_of_string "tool.real") else DPass.

Lemma name_is_tool_spec c n :
  looks_up c n → RedirectAlias.name_is_tool c = bool_decide (n = bytes_of_string "tool").
Proof.
  intros H. rewrite <- (looks_up_is c n "tool") by (done || (vm_compute; lia)).
  unfold RedirectAlias.name_is_tool, namei_ext_is, namei_ext_name_is.
  change (Z.of_nat (length (bytes_of_string "tool"))) with 4.
  destruct (ctx_name_len c =? 4); [|done]. unfold NAME_MAX_nat. cbn.
  repeat (destruct (_ =? _); [|done]). done.
Qed.

#[export] Instance redirect_alias_name_view :
  NameView RedirectAlias.redirect_alias_policy redirect_alias_view.
Proof.
  intros hm ts w c n H. unfold RedirectAlias.redirect_alias_policy, redirect_alias_view,
    RedirectAlias.redirect_to_tool_real. run_policy.
  rewrite (lu_event _ _ H), (looks_up_readdir _ _ H), (name_is_tool_spec _ _ H). cbn [andb].
  destruct (bool_decide _); [|done]. split; [|done].
  destruct H as [Hwf _ _ _]. apply wf_redirect_name in Hwf. destruct c as [? ? ? ? ? ? ? ? name ? ? ? ?].
  cbn in Hwf. do 9 (destruct name as [|? name]; [done|]). reflexivity.
Qed.

#[export] Instance redirect_alias_short : ShortProgram RedirectAlias.redirect_alias_policy.
Proof.
  intros w c Hc. unfold RedirectAlias.redirect_alias_policy, RedirectAlias.redirect_to_tool_real,
    RedirectAlias.redirect_to_tool. run_policy.
  destruct (_ && _); [|destruct (_ && _); [|by split]];
    destruct c as [? ? ? ? ? ? ? ? name ? ? ? ?]; cbn in Hc |- *; (split; [|done]);
    do 9 (destruct name as [|? name]; [done|]); exact Hc.
Qed.

(** *** select_portal *)

Definition select_portal_view (targets : Z → option path) (n : list Z) : decision :=
  let select := select_registered targets in
  if bool_decide (n = bytes_of_string "portal") then select 1 else
  if bool_decide (n = bytes_of_string "selected-file") then select 2 else
  if bool_decide (n = bytes_of_string "selected-exec") then select 3 else
  if bool_decide (n = bytes_of_string "pinned-file") then select 4 else DPass.

#[export] Instance select_portal_name_view :
  NameView SelectPortal.select_portal_policy select_portal_view.
Proof.
  intros hm ts w c n H. unfold SelectPortal.select_portal_policy, select_portal_view, select_target.
  run_policy. rewrite (lu_event _ _ H), !(looks_up_is _ _ _ H) by (vm_compute; lia). cbn [andb].
  repeat (destruct (bool_decide _); [split; [|done]; unfold decision_of, select_registered; cbn;
    by destruct (namei_ext_find_target_rcu _ _ _ _)|]).
  done.
Qed.

(** ** A running system *)

Section system.
Context (hash_min : Z → nat) (hash_min_lt : ∀ k, (hash_min k < scope_buckets)%nat).
Context (bpf_link_by_id bpf_link_get_from_fd bpf_prog_by_id bpf_prog_get : Z → Z + Z).
Context (delete_safe_at : list Z → nat → list Z).
Context {W : Type} (bpf_prog_run : Z → bpf_program W) (cgroup_id : Z → Z).

Abbreviation reachable := (sys_reachable hash_min bpf_link_by_id bpf_link_get_from_fd
  bpf_prog_by_id bpf_prog_get delete_safe_at).
#[local] Existing Instance scopes_policy.
#[local] Instance policy_scopes : PolicyScopes scopes_state := scopes_policy hash_min.
Abbreviation kstate := (cgroups_state scopes_state).

(** Whether the policy of the task's cgroup governs a directory: one of its
    ancestors owns a policy, whose scope has the directory. *)
Definition governs (st : kstate) (current : Z) (p : path) : bool :=
  let owner := find_owner st (cgroup_path st current) in
  negb (owner =? NULL) && ps_matches (gs_scopes st) owner p.

(** The name space of [V] over a file system. *)
Definition viewed (E : vfs W) (ts : targets_state) (st : kstate) (current : Z)
  (V : (Z → option path) → list Z → decision) (T : tree) : tree :=
  mk_tree (child T) (cross T) (body T) (λ p n,
    if governs st current p
    then V (λ tid, tgt_path <$> namei_ext_find_target_rcu (v_hash_min E) (cgroup_id current) tid ts) n
    else DPass).

Lemma init_looks_up (E : vfs W) cg p i f q :
  name_ok q → looks_up (set_cgroup_id cg (namei_ext_init_ctx (v_backing_inode E) p i
    BPF_NAMEI_EXT_LOOKUP f q)) (q_bytes q).
Proof.
  intros [[Hq0 Hq32] Hl].
  assert (Z.of_nat (length (q_bytes q)) = q_len q) as Hlen
    by (unfold q_bytes; rewrite length_take; lia).
  split; [|done|done|].
  - by apply set_cgroup_id_wf, init_ctx_wf.
  - intros Hs. change (ctx_component (set_cgroup_id cg ?c)) with (ctx_component c).
    apply init_ctx_component; [|done]. unfold BPF_NAMEI_EXT_NAME_MAX, NAME_MAX_nat in *. lia.
Qed.

(** The dispatcher runs the program where the policy governs. *)
Lemma policy_means (E : vfs W) T ts st current prog V :
  reachable st → live st current → effective_spec st current = [prog] → prog ≠ NULL →
  VerifiedProgram (bpf_prog_run prog) → NameView (bpf_prog_run prog) V →
  v_run E = policy_of hash_min bpf_prog_run cgroup_id st current →
  means E (viewed E ts st current V T) ts.
Proof.
  intros Hr Hl Hone Hn HP HV Hrun w p f q Hq. rewrite Hrun. destruct (reachable_inv hash_min hash_min_lt _ _ _ _ _ _ Hr)
    as [[_ Hc] _ _ _ _]. destruct (Hc current Hl) as [He Ho _]. clear Hc Hrun.
  unfold policy_of, cgroup_bpf_run_namei_ext, cgroup_bpf_run_namei_ext_locked.
  rewrite Ho, He, Hone. cbn [view viewed]. unfold governs.
  destruct (negb _ && _); [|done].
  set (c0 := set_cgroup_id _ _). pose proof (init_looks_up E (cgroup_id current) (Some p)
    (v_inode E (p_dentry p)) (v_flags_word E f) q Hq) as Hc0. fold c0 in Hc0.
  cbn [run_items]. rewrite (proj2 (Z.eqb_neq prog NULL)) by done.
  pose proof (name_view (v_hash_min E) ts w c0 _ Hc0) as Hv.
  pose proof (prog_retval (p:=bpf_prog_run prog) w c0) as Hret.
  pose proof (prog_wf (p:=bpf_prog_run prog) w c0 (lu_wf _ _ Hc0)) as Hwf.
  destruct (bpf_prog_run prog w c0) as [[r w'] c']. cbn in Hret, Hwf. destruct Hv as [Hv Hlen].
  change (ctx_cgroup_id c0) with (cgroup_id current) in Hv.
  unfold namei_ext_retval_ok in Hret. apply andb_true_iff in Hret as [H1 H2]. unfold_bools.
  unfold BPF_NAMEI_EXT_PASS, BPF_NAMEI_EXT_SELECT_TARGET in *.
  assert (u32 r = r) as -> by (apply wrap_small; unfold in_width; lia).
  rewrite (proj2 (Z.ltb_ge 3 r)) by lia. unfold BPF_NAMEI_EXT_REDIRECT in *.
  destruct (r =? 0) eqn:Hr0; unfold_bools; cbn [negb]; [subst r|]; rewrite <- Hv; auto.
Qed.

End system.
