(* ===== verification/PathOpenPolicies.v ===== *)
(** * The opens of a running system

    Opening a pathname under the policy in effect for a task, with the static
    key and the prefilter. *)

From S2P Require Import Prelude Abi PolicyLib PolicyFacts Kernel Targets Scopes ScopeApi ScopeSystem.
From S2P Require Import Cgroups EffectiveFacts CgroupFacts Dispatch System SystemProps.
From S2P Require Import Lookup LookupProps Walk WalkProps PathWalk PathOpen PathInv PathRefs PathSafe PathTotal.
From S2P Require Import PathOpenSafe PathOpenTotal PathOpenProps PathExact PathView PathViewFacts PathViewProps.
From S2P Require Import PathResolve PathOpenView PathOpenResolve PathPolicies.

Section system.
Context (hash_min : Z → nat) (hash_min_lt : ∀ k, (hash_min k < scope_buckets)%nat).
Context (bpf_link_by_id bpf_link_get_from_fd bpf_prog_by_id bpf_prog_get : Z → Z + Z).
Context (delete_safe_at : list Z → nat → list Z).
Context {W : Type} (bpf_prog_run : Z → bpf_program W) (cgroup_id : Z → Z).

Abbreviation reachable := (sys_reachable hash_min bpf_link_by_id bpf_link_get_from_fd
  bpf_prog_by_id bpf_prog_get delete_safe_at).
#[local] Existing Instance scopes_policy.
#[local] Instance policy_scopes : PolicyScopes scopes_state := scopes_policy hash_min.
Abbreviation kstate := (cgroups_state scopes_state).

(** Programs that leave room for a NUL, run one after the other, do so. *)
Lemma run_items_short items :
  Forall (λ prog, VerifiedProgram (bpf_prog_run prog) ∧ ShortProgram (bpf_prog_run prog)) items →
  ∀ w c, length (ctx_redirect_name c) = NAME_MAX_nat →
  let '(action, _, c') := run_items bpf_prog_run items w c in
  action = BPF_NAMEI_EXT_REDIRECT →
  length (ctx_redirect_name c') = NAME_MAX_nat ∧
  ctx_redirect_name_len c' < BPF_NAMEI_EXT_NAME_MAX.
Proof.
  induction 1 as [|prog items [HP HS] _ IH]; intros w c Hc; [done|]. cbn [run_items].
  destruct (prog =? NULL); [done|].
  pose proof (short_program (P:=bpf_prog_run prog) w c Hc) as Hs.
  pose proof (prog_retval (p:=bpf_prog_run prog) w c) as Hret.
  destruct (bpf_prog_run prog w c) as [[r w'] c']. cbn in Hret. destruct Hs as [Hc' Hs].
  unfold namei_ext_retval_ok in Hret. apply andb_true_iff in Hret as [H1 H2]. unfold_bools.
  unfold BPF_NAMEI_EXT_PASS, BPF_NAMEI_EXT_SELECT_TARGET in *.
  assert (u32 r = r) as -> by (apply wrap_small; unfold in_width; lia).
  destruct (_ <? _); [done|]. destruct (negb _); [auto|]. by apply IH.
Qed.

Lemma policy_short (E : vfs W) st current :
  reachable st → live st current →
  Forall (λ prog, VerifiedProgram (bpf_prog_run prog) ∧ ShortProgram (bpf_prog_run prog))
    (effective_spec st current) →
  v_run E = policy_of hash_min bpf_prog_run cgroup_id st current →
  short_redirects E.
Proof.
  intros Hr Hl HF Hrun w p c Hc. rewrite Hrun.
  destruct (reachable_inv hash_min hash_min_lt _ _ _ _ _ _ Hr) as [[_ Hi] _ _ _ _].
  destruct (Hi current Hl) as [He _ _].
  unfold policy_of, cgroup_bpf_run_namei_ext, cgroup_bpf_run_namei_ext_locked. rewrite He.
  destruct (_ && _); [|done].
  pose proof (run_items_short _ HF w (set_cgroup_id (cgroup_id current) c) Hc) as Hs.
  by destruct (effective_spec st current).
Qed.

Lemma shows_open_view (E : vfs W) V T ts st current D :
  shows_open E V T → shows_open E V (viewed hash_min cgroup_id E ts st current D T).
Proof. by intros []. Qed.

End system.
