(* ===== verification/PathParent.v ===== *)
(** * The parent of a pathname

    [filename_parentat]: its references, when it returns, what it leaves alone,
    that the parent it finds is a directory, and that it is the directory the
    components before the last resolve to. *)

From S2P Require Import Prelude Abi Kernel Targets Lookup LookupProps Walk WalkProps PathWalk.
From S2P Require Import PathInv PathRefs PathSafe PathTotal PathView PathNames PathFrame.

(** ** A directory *)

Section dir.
Context {W : Type} (E : vfs W).
Implicit Types (st : walk W).

Definition is_directory (p : path) : Prop := v_can_lookup E (p_dentry p) = true.
Definition at_dir st : Prop := is_directory (nd_path (wk_nd st)).

Context (Hfs : is_directory (v_fs_root E)) (Hpwd : is_directory (v_pwd E)).

(** The root of the walk, if it has one. *)
Definition dir_roots : roots E :=
  mk_roots (λ p, p = null_path ∨ is_directory p) (or_introl eq_refl) (or_intror Hfs).

Abbreviation framed := (framed anything dir_roots).
Definition good_root st : Prop := good dir_roots (nd_root (wk_nd st)).

Lemma framed_root st st' : framed st st' → good_root st → good_root st'.
Proof. apply fr_good. Qed.

(** At a symlink to follow, the walk is in a directory. *)
Definition link_dir (r : link_res * walk W) : Prop :=
  match r with (PPtr _, st) => at_dir st | _ => True end.

Lemma unlazied_dir st st' : unlazied st st' → at_dir st → at_dir st'.
Proof. intros ([g Hg] & _). unfold at_dir. by rewrite Hg. Qed.
Lemma unlazy_dir st st' : try_to_unlazy E st = (true, st') → at_dir st → at_dir st'.
Proof.
  intros He. pose proof (try_to_unlazy_ok E st) as Hok. rewrite He in Hok. by apply unlazied_dir, Hok.
Qed.
Lemma unlazy_next_dir d st st' : try_to_unlazy_next E d st = (true, st') → at_dir st → at_dir st'.
Proof.
  intros He. pose proof (try_to_unlazy_next_ok E d st) as Hok. rewrite He in Hok.
  by apply unlazied_dir, Hok.
Qed.
#[local] Hint Resolve unlazy_dir unlazy_next_dir : core.

Lemma put_link_dir st : at_dir st → at_dir (put_link st).
Proof. unfold at_dir, put_link. destruct (nd_stack _); [done|]. by destruct (rcu _). Qed.

Lemma reserve_stack_dir link st link' st' :
  at_dir st → reserve_stack E link st = (0, link', st') → at_dir st'.
Proof.
  intros H. unfold reserve_stack, nd_alloc_stack, legitimize_path.
  set (st1 := on_nd _ st). assert (at_dir st1) as H1 by done. clearbody st1. clear H.
  repeat (case_match; simplify_eq/=; try done); intros; simplify_eq/=.
  all: repeat match goal with
    | H : (_ || _)%bool = false |- _ => apply orb_false_iff in H as [?%negb_false_iff ?]
    end; subst.
  all: first [exact H1 | match goal with H : try_to_unlazy E ?s = (true, ?s') |- _ =>
    exact (unlazy_dir s s' H H1) end].
Qed.

Lemma read_link_dir link st : at_dir st → link_dir (read_link E link st).
Proof.
  intros H. unfold link_dir, read_link, nd_jump_link. repeat (case_match; simplify_eq/=; try done).
  all: eauto using unlazy_dir.
Qed.

(** An absolute symlink starts in the root. *)
Lemma jump_root_dir st st' :
  good_root st → nd_jump_root E st = (0, st') → at_dir st' ∧ good_root st'.
Proof.
  intros Hg He. assert (good_root st') as Hg'.
  { apply (framed_root st); [|done]. eapply framed_eq; [exact He|apply nd_jump_root_framed]. }
  split; [|done]. revert He. unfold nd_jump_root. do 2 (case_match; [done|]).
  assert (∀ st1, (if has_root (wk_nd st) then (0, st) else set_root_fs E st) = (0, st1) →
    is_directory (nd_root (wk_nd st1))) as Hroot.
  { intros st1. unfold has_root, set_root_fs. destruct (path_equal _ null_path) eqn:Hn; cbn [negb].
    - case_match; [done|]. by case_match; intros [= <-].
    - intros [= <-]. destruct Hg as [Hg|Hg]; [|done]. by rewrite Hg, path_equal_refl in Hn. }
  destruct (if has_root _ then _ else _) as [error st1]. specialize (Hroot st1).
  destruct (error =? 0) eqn:He; cbn [negb]; unfold_bools; [subst error|by intros [= ? _]].
  specialize (Hroot eq_refl). case_match; [case_match; [done|]|]; by intros [= <-].
Qed.

Lemma start_body_dir s st : at_dir st → good_root st → link_dir (start_body E s st).
Proof.
  intros H Hg. unfold link_dir, start_body. destruct (at_slash s).
  - destruct (nd_jump_root E st) as [error st1] eqn:Hj.
    destruct (error =? 0) eqn:He; cbn [negb]; unfold_bools; [subst error|done].
    apply jump_root_dir in Hj as [??]; [|done]. by destruct (negb _).
  - by destruct (negb _).
Qed.

Lemma pick_link_dir link i flags st : at_dir st → good_root st → link_dir (pick_link E link i flags st).
Proof.
  intros H Hg. unfold pick_link. destruct (_ && _); [done|].
  set (st1 := if rcu st then st else _).
  assert (at_dir st1 ∧ good_root st1) as [H1 Hg1] by (unfold st1; by destruct (rcu st)).
  clearbody st1. pose proof (reserve_stack_framed E link st1 (R:=anything) (Q:=dir_roots)) as F.
  destruct (reserve_stack E link st1) as [[error link'] st2] eqn:Hres. cbn in F.
  destruct (error =? 0) eqn:He; cbn [negb]; unfold_bools; [subst error|done].
  apply reserve_stack_dir in Hres; [|done]. apply framed_root in F; [|done].
  set (st3 := on_nd _ st2). assert (at_dir st3 ∧ good_root st3) as [H3 Hg3] by done. clearbody st3.
  destruct (negb _); [done|]. destruct (_ || _); [done|].
  set (u := if v_atime E st3 link' && rcu st3 then _ else _).
  assert (u.1 = true → at_dir u.2 ∧ good_root u.2) as Hu.
  { unfold u. destruct (_ && _); [|done].
    pose proof (try_to_unlazy_framed E st3 (R:=anything) (Q:=dir_roots)) as F3.
    destruct (try_to_unlazy E st3) as [ok st4] eqn:Hun. cbn in F3 |- *. intros ->.
    split; [by eapply unlazy_dir|by eapply framed_root]. }
  clearbody u. destruct u as [[] st4]; cbn [negb] in *; [|done].
  destruct (Hu eq_refl) as [H4 Hg4]. cbn in H4, Hg4. destruct (negb _); [done|].
  pose proof (read_link_dir link' st4 H4) as Hl.
  pose proof (read_link_framed E link' st4 (R:=anything) (Q:=dir_roots)) as F4.
  destruct (read_link E link' st4) as [[|res|e] st5]; cbn in Hl, F4; [done| |done].
  apply start_body_dir; [done|by eapply framed_root].
Qed.

Lemma handle_mounts_dir d st err p st' :
  at_dir st → handle_mounts E d st = (err, p, st') → (err <? 0) = false → at_dir st'.
Proof.
  intros H. unfold handle_mounts. repeat (case_match; simplify_eq/=; try done); intros; simplify_eq/=.
  all: unfold at_dir in *; cbn; try by case_match.
  all: unfold_bools; subst.
  all: first [exact H | match goal with Hu : try_to_unlazy_next E ?d ?s = (true, ?s') |- _ =>
    exact (unlazy_next_dir d s s' Hu H) end].
Qed.

Lemma step_into_dir flags d st : at_dir st → good_root st → link_dir (step_into E flags d st).
Proof.
  intros H Hg. unfold step_into. destruct (_ && _); [by repeat case_match|].
  unfold step_into_slowpath.
  pose proof (handle_mounts_framed E d st (R:=anything) (Q:=dir_roots)) as F.
  destruct (handle_mounts E d st) as [[err p] st1] eqn:Hm. cbn in F.
  destruct (err <? 0) eqn:He; [done|]. eapply handle_mounts_dir in Hm; [|done..].
  apply framed_root in F; [|done].
  destruct (_ || _); [by repeat case_match|by apply pick_link_dir].
Qed.

(** [..] is never followed as a symlink. *)
Lemma step_into_nofollow d st body st' : step_into E WALK_NOFOLLOW d st ≠ (PPtr body, st').
Proof.
  unfold step_into. destruct (_ && _); [by repeat case_match|].
  unfold step_into_slowpath. destruct (handle_mounts E d st) as [[err p] st1].
  destruct (err <? 0); [done|]. change (negb (Z.land WALK_NOFOLLOW WALK_NOFOLLOW =? 0)) with true.
  rewrite orb_true_r. by repeat case_match.
Qed.
Lemma handle_dots_dir st : link_dir (handle_dots E st).
Proof.
  unfold handle_dots. destruct (negb _); [done|].
  destruct (if has_root _ then _ else _) as [error st1]. destruct (negb _); [done|].
  destruct (if rcu st1 then _ else _) as [[|d|e] st2]; [done| |done].
  pose proof (step_into_nofollow d st2) as Hs. destruct (step_into E _ d st2) as [[|body|e] st3].
  - by destruct (_ && _).
  - by destruct (Hs body st3).
  - done.
Qed.

Lemma lookup_fast_dir st r st' :
  at_dir st → lookup_fast E st = (r, st') → (∀ e, r ≠ PErr e) → at_dir st'.
Proof.
  intros H. unfold lookup_fast. intros He Hr.
  repeat (case_match; simplify_eq/=; try done); try (by destruct (Hr _ eq_refl)).
  all: unfold_bools; subst; eauto using unlazy_dir, unlazy_next_dir.
Qed.

Section component.
Context (HE : env_ok E).
Context (enabled : bool) (managed : path → bool) (buf : namei_ext_redirect).

Lemma common_dir flags st :
  at_dir st → good_root st →
  link_dir (walk_component_common (lookup_fast E) (lookup_slow E) put_link (step_into E) flags st).
Proof.
  intros H Hg. unfold walk_component_common, lookup_slow.
  pose proof (lookup_fast_framed E st (R:=anything) (Q:=dir_roots)) as F.
  destruct (lookup_fast E st) as [r st1] eqn:Hf. cbn in F. apply framed_root in F; [|done].
  assert ((∀ e, r ≠ PErr e) → ∀ d, link_dir (step_into E flags d
    (if negb (nd_depth (wk_nd st1) =? 0) && (Z.land flags WALK_MORE =? 0) then put_link st1 else st1)))
    as Hgo.
  { intros Hr d. pose proof (lookup_fast_dir _ _ _ H Hf Hr) as H1.
    destruct (_ && _); [|by apply step_into_dir].
    apply step_into_dir; [by apply put_link_dir|].
    by apply (framed_root st1); [apply framed_put_link|]. }
  destruct r as [|d|e]; [|by apply Hgo|done].
  destruct (v_lookup_slow E st1) as [|d|e]; [by apply Hgo|by apply Hgo|done].
Qed.

Abbreviation consult := (consult_policy (v_backing_inode E) (v_full_name_hash E) (v_flags_word E)
  (v_run E) (v_hash_min E) (try_to_unlazy E)).

Lemma consult_dir st :
  at_dir st → match consult buf st with inl r => ∀ body, r.1 ≠ PPtr body | inr (_, st') => at_dir st' end.
Proof.
  intros H. unfold consult_policy, fail_unlazied.
  destruct (namei_ext_lookup _ _ _ _ _ _ _ _ _ _ _) as [[error r] w].
  repeat (case_match; simplify_eq/=; try done).
  all: unfold_bools; subst; first [exact H | match goal with
    Hu : try_to_unlazy E ?s = (true, ?s') |- _ => exact (unlazy_dir s s' Hu H) end].
Qed.

Lemma walk_component_dir flags st :
  at_dir st → good_root st → link_dir (walk_component E enabled managed buf flags st).
Proof.
  intros H Hg. unfold walk_component, Walk.walk_component.
  destruct (negb _); [by apply handle_dots_dir|].
  destruct (enabled && _); [|by apply common_dir]. unfold walk_component_namei_ext.
  pose proof (consult_dir st H) as Hc.
  pose proof (consult_framed E (Q:=dir_roots) (anything_run E) buf st) as F.
  destruct (consult buf st) as [[[|body|e] st1]|[rd st1]]; cbn in F, Hc; [done|by destruct (Hc body)|done|].
  apply framed_root in F; [|done]. destruct (r_target_active rd).
  { destruct (namei_ext_apply_target _ _ _ _ _ _) as [[error ?] st2]. by destruct (negb _). }
  unfold with_redirect. destruct (namei_ext_apply_redirect _ _) as [[saved nd]|] eqn:Hr; [|by apply common_dir].
  unfold namei_ext_apply_redirect in Hr. destruct (negb _); [done|]. injection Hr as <- <-.
  set (nd := set_last _ _). assert (∀ nd', nd_path nd' = nd_path nd → nd_root nd' = nd_root nd →
    link_dir (let '(res, st) := walk_component_common (lookup_fast E) (lookup_slow E) put_link
      (step_into E) flags (on_nd (λ _, nd') st1) in (res, on_nd (set_last (nd_last (wk_nd st1))) st))) as Hgo.
  { intros nd' Hp Hroot. assert (link_dir (walk_component_common (lookup_fast E) (lookup_slow E) put_link
      (step_into E) flags (on_nd (λ _, nd') st1))) as Hl.
    { apply common_dir; unfold at_dir, good_root; cbn; [by rewrite Hp|by rewrite Hroot]. }
    by destruct (walk_component_common _ _ _ _ _ _) as [[] ?]. }
  unfold namei_ext_hash_redirect. destruct (v_op_hash E _).
  - destruct (v_hash E _ _) as [e q]. destruct (e <? 0); [done|by apply Hgo].
  - by apply Hgo.
Qed.

Lemma may_lookup_dir st st' : at_dir st → may_lookup E st = (0, st') → at_dir st'.
Proof.
  intros H. unfold may_lookup. repeat (case_match; simplify_eq/=; try done); intros; simplify_eq/=.
  all: unfold_bools; subst; first [exact H | done | match goal with
    Hu : try_to_unlazy E ?s = (true, ?s') |- _ => exact (unlazy_dir s s' Hu H) end].
Qed.

(** Where the components before the last lead is a directory. *)
Lemma loop_dir fuel : ∀ name names st st',
  at_dir st → good_root st →
  link_path_walk_loop E enabled managed buf fuel name names st = Some (0, st') → at_dir st'.
Proof.
  induction fuel as [|fuel IH]; [done|]. intros name names st st' H Hg. cbn [link_path_walk_loop].
  pose proof (may_lookup_framed E st (R:=anything) (Q:=dir_roots)) as F.
  destruct (may_lookup E st) as [err st1] eqn:Hm. cbn in F. apply framed_root in F; [|done].
  destruct (err =? 0) eqn:He; cbn [negb]; unfold_bools; [subst err|by intros [= ? _]].
  apply may_lookup_dir in Hm; [|done]. unfold hash_name.
  destruct (hash_name_loop 0 0 name) as [[w len] rest]. set (q := mk_qstr _ _ _).
  assert (nd_path (classify E w (set_last q (wk_nd st1))).2 = nd_path (wk_nd st1) ∧
    nd_root (classify E w (set_last q (wk_nd st1))).2 = nd_root (wk_nd st1)) as [Hp Hr]
    by (unfold classify; by repeat (case_match; simplify_eq/=)).
  destruct (classify E w _) as [err' nd]. cbn in Hp, Hr. set (st2 := on_nd (λ _, nd) st1).
  assert (at_dir st2 ∧ good_root st2) as [H2 Hg2]
    by (unfold at_dir, good_root; cbn; by rewrite Hp, Hr).
  clearbody st2. destruct (err' <? 0) eqn:He'; [intros [= ? _]; unfold_bools; lia|].
  assert (∀ flags name names, (let '(link, st) := walk_component E enabled managed buf flags st2 in
     match link with
     | PErr e => Some (e, st)
     | PPtr body => link_path_walk_loop E enabled managed buf fuel body (name :: names) st
     | PNull =>
         if negb (v_can_lookup E (p_dentry (nd_path (wk_nd st)))) then
           let '(ok, st) := if rcu st then try_to_unlazy E st else (true, st) in
           Some (if negb ok then - ECHILD else - ENOTDIR, st)
         else link_path_walk_loop E enabled managed buf fuel name names st
     end) = Some (0, st') → at_dir st') as Hnext.
  { intros flags name' names' Hw.
    pose proof (walk_component_nonzero E HE enabled managed buf flags st2) as Hnz. pose proof (walk_component_dir flags st2 H2 Hg2) as Hl.
    pose proof (walk_component_framed E (Q:=dir_roots) (anything_run E) enabled managed buf flags st2) as F2.
    destruct (walk_component E enabled managed buf flags st2) as [[|body|e] st3]; cbn in Hl, F2, Hnz, Hw.
    - destruct (v_can_lookup E _) eqn:Hd; cbn [negb] in Hw; [by eapply IH, Hw; [|eapply framed_root]|].
      destruct (if rcu st3 then _ else _) as [[] st4]; by injection Hw.
    - eapply IH, Hw; [done|by eapply framed_root].
    - injection Hw as -> _. by destruct Hnz. }
  destruct (at_nul _); [|apply Hnext]. destruct names as [|name' names'].
  - intros [= <-]. exact H2.
  - apply Hnext.
Qed.
End component.
End dir.

(** ** One attempt *)

Section parent.
Context {W : Type} (E : vfs W).
Context (enabled : bool) (managed : path → bool) (buf : namei_ext_redirect).
Implicit Types (st : walk W) (base : path → Z).

(** The end of a walk keeps its position and the last component. *)
Definition same_last st st' : Prop :=
  nd_last (wk_nd st') = nd_last (wk_nd st) ∧ nd_last_type (wk_nd st') = nd_last_type (wk_nd st).

Lemma complete_walk_same st st' :
  complete_walk E st = (0, st') → nd_path (wk_nd st') = nd_path (wk_nd st) ∧ same_last st st'.
Proof.
  unfold complete_walk. set (u := if rcu st then _ else _).
  assert (u.1 = true → nd_path (wk_nd u.2) = nd_path (wk_nd st) ∧ same_last st u.2) as Hu.
  { unfold u. destruct (rcu st); [|done]. set (st1 := on_nd _ st).
    assert (nd_path (wk_nd st1) = nd_path (wk_nd st) ∧ same_last st st1) as (Hp & Hl & Ht)
      by (unfold st1, same_last; cbn; by destruct (_ && _)). clearbody st1.
    pose proof (try_to_unlazy_ok E st1) as Hok. destruct (try_to_unlazy E st1) as [ok st2].
    cbn. intros ->. destruct (Hok eq_refl) as ([g Hg] & _). unfold same_last. by rewrite Hg. }
  clearbody u. destruct u as [[] st1]; cbn [negb]; [|done]. specialize (Hu eq_refl).
  destruct (_ && _); [done|]. destruct (negb _); [by intros [= <-]|].
  destruct (v_weak_revalidate E _); cbv zeta; intros [= ]; subst; exact Hu.
Qed.

Lemma put_links_last ss : ∀ st, same_last st (put_links ss st).
Proof. induction ss as [|s ss IH]; [done|]. intros st. exact (IH (put_path (sv_link s) st)). Qed.
Lemma terminate_walk_last st : same_last st (terminate_walk st).
Proof.
  unfold terminate_walk. destruct (rcu st); [done|].
  pose proof (put_links_last (rev (nd_stack (wk_nd st))) (put_path (nd_path (wk_nd st)) st)) as H.
  by destruct (nd_root_grabbed _).
Qed.

Abbreviation lpw := (link_path_walk E enabled managed buf).
Abbreviation attempt := (path_parentat E enabled managed buf).

(** An attempt is a walk up to the last component. *)
Lemma path_parentat_walk fuel dfd name flags st err p st' :
  attempt fuel dfd name flags st = Some (err, p, st') →
  let '(s, st1) := path_init E dfd name flags st in
  ∃ err1 st2, lpw fuel s st1 = Some (err1, st2) ∧ (err1 = 0 →
    err = (complete_walk E st2).1 ∧ p = if err =? 0 then nd_path (wk_nd st2) else null_path) ∧
    (err1 ≠ 0 → err = err1 ∧ p = null_path) ∧ (err = 0 → same_last st2 st').
Proof.
  unfold path_parentat. destruct (path_init E dfd name flags st) as [s st1].
  destruct (lpw fuel s st1) as [[err1 st2]|]; [|done]. cbn.
  destruct (err1 =? 0) eqn:He1; unfold_bools.
  - subst err1. destruct (complete_walk E st2) as [err2 st3] eqn:Hc.
    intros Hr. exists 0, st2. split; [done|]. rewrite Hc. cbn.
    destruct (err2 =? 0) eqn:He2; injection Hr as <- <- <-; rewrite He2; unfold_bools.
    + subst err2. apply complete_walk_same in Hc as [Hp [Hl Ht]].
      split_and!; [by rewrite Hp|done|intros _].
      destruct (terminate_walk_last (on_nd clear_path st3)) as [Hl' Ht'].
      split; [by rewrite Hl'|by rewrite Ht'].
    + by split_and!.
  - rewrite (proj2 (Z.eqb_neq _ _)) by done. intros [= <- <- <-].
    exists err1, st2. by split_and!.
Qed.

(** References and termination. *)
Context (HE : env_ok E).

Lemma walkable_inv base k fuel s st :
  walkable s → walk_inv base k [] st →
  match lpw fuel s st with
  | Some (err, st') => walk_inv base k [] st' ∧ (err = 0 → last_ok (wk_nd st'))
  | None => Z.of_nat fuel ≤ body_length s + PATH_MAX * links_left st
  end.
Proof.
  intros Hs H. destruct s as [|body|e]; [done| |].
  - exact (link_path_walk_inv E HE enabled managed buf base k [] fuel body st Hs H).
  - destruct (link_path_walk_err E enabled managed buf base k [] fuel e st H) as (st1 & -> & H1).
    by split; [|intros ->].
Qed.

Lemma path_parentat_inv base k fuel dfd name flags st :
  0 ∈ name → idle (wk_nd st) → walk_inv base k [] st →
  match attempt fuel dfd name flags st with
  | Some (err, p, st') =>
      walk_inv base k (if err =? 0 then [p] else []) st' ∧ idle (wk_nd st') ∧
      (err = 0 → last_ok (wk_nd st'))
  | None => Z.of_nat fuel ≤ Z.max (Z.of_nat (length name)) PATH_MAX + PATH_MAX * Z.max 0 (MAXSYMLINKS - k)
  end.
Proof.
  intros H0 Hi H. pose proof (path_init_inv E _ _ _ dfd name flags _ Hi H) as H1.
  pose proof (path_init_walkable E dfd name flags st H0) as [Hs Hlen].
  pose proof (path_parentat_walk fuel dfd name flags st) as Hwalk. unfold path_parentat in *.
  destruct (path_init E dfd name flags st) as [s st1]. cbn in H1, Hs, Hlen.
  pose proof (walkable_inv base k fuel s st1 Hs H1) as H2.
  destruct (lpw fuel s st1) as [[err1 st2]|]; cbn in Hwalk |- *.
  2: { pose proof (links_left_le _ _ (wi_count _ _ _ _ H1)). unfold PATH_MAX in *. lia. }
  destruct H2 as [H2 Hlast].
  assert (let '(err', st') := if err1 =? 0 then complete_walk E st2 else (err1, st2) in
    walk_inv base k [] st' ∧ (err' = 0 → rcu st' = false)) as H3.
  { destruct (err1 =? 0) eqn:He; [by apply complete_walk_inv|]. unfold_bools. by split. }
  destruct (if err1 =? 0 then _ else _) as [err2 st3]. destruct H3 as [H3 Hr3].
  assert (∀ err p st', Some (if err2 =? 0
      then (err2, nd_path (wk_nd st3), terminate_walk (on_nd clear_path st3))
      else (err2, null_path, terminate_walk st3)) = Some (err, p, st') → err = 0 → last_ok (wk_nd st')) as Hok.
  { intros err p st' Ha ->. apply Hwalk in Ha as (err1' & st2' & [= <- <-] & _ & Hnz & Hsame).
    specialize (Hsame eq_refl) as [Hq Ht]. unfold last_ok, trailing_slashes. rewrite Hq, Ht.
    apply Hlast. destruct (decide (err1 = 0)) as [|Hne]; [done|by destruct (Hnz Hne)]. }
  destruct (err2 =? 0) eqn:He; rewrite He.
  - unfold_bools. subst.
    pose proof (terminate_walk_inv base k _ _ (inv_release _ _ _ _ (Hr3 eq_refl) H3)) as [??].
    split_and!; [done..|]. intros _. by eapply Hok.
  - pose proof (terminate_walk_inv base k _ _ H3) as [??]. unfold_bools. by split_and!.
Qed.

(** What an attempt leaves alone. *)
Lemma path_parentat_framed {R : W → W → Prop} (HR : runs_in E R) fuel dfd name flags st err p st' :
  attempt fuel dfd name flags st = Some (err, p, st') → framed R (any_root E) st st'.
Proof.
  unfold path_parentat.
  pose proof (path_init_framed E dfd name flags st (R:=R) (any_starts E dfd name)) as F1.
  destruct (path_init E dfd name flags st) as [s st1]. cbn in F1.
  destruct (lpw fuel s st1) as [[err1 st2]|] eqn:Hl; [|done]. cbn.
  apply (link_path_walk_framed E (Q:=any_root E) HR) in Hl. cbn in Hl.
  set (u := if err1 =? 0 then _ else _).
  assert (framed R (any_root E) st u.2) as F2.
  { etrans; [exact F1|]. etrans; [exact Hl|]. unfold u.
    destruct (err1 =? 0); [apply complete_walk_framed|done]. }
  clearbody u. destruct u as [err2 st3]. cbn in F2.
  destruct (err2 =? 0); intros [= <- <- <-]; (etrans; [|apply terminate_walk_framed]); [|done].
  by apply framed_nd; [|split; [|left]].
Qed.

(** ** A directory *)

Context (Hfs : is_directory E (v_fs_root E)) (Hpwd : is_directory E (v_pwd E)).
Abbreviation good_root := (good_root E Hfs).

Lemma start_at_dir p st :
  is_directory E p → at_dir E (start_at E p st) ∧ nd_root (wk_nd (start_at E p st)) = nd_root (wk_nd st).
Proof. intros H. unfold start_at. by destruct (rcu st). Qed.
Lemma root_at_start_dir s st :
  at_dir E st → good_root st → at_dir E (root_at_start E s st).2 ∧ good_root (root_at_start E s st).2.
Proof.
  intros H Hg. unfold root_at_start. destruct (negb _); [done|].
  assert (good_root (on_nd (set_root (nd_path (wk_nd st))) st)) by by right.
  by destruct (rcu _).
Qed.

Lemma path_init_dir dfd name flags st body st1 :
  at_nul name = false → nd_root_preset (wk_nd st) = false →
  path_init E dfd name flags st = (PPtr body, st1) → body = name ∧ at_dir E st1 ∧ good_root st1.
Proof.
  intros Hn Hp. unfold path_init. destruct (_ && _); [done|].
  set (flags' := if at_nul name then _ else _). set (st2 := if fl LOOKUP_RCU flags' then st else _).
  set (st3 := on_nd _ st2).
  replace (nd_root_preset (wk_nd st3)) with false
    by (unfold st3, st2; cbn; by destruct (fl _ _)). clearbody st3. clear st2.
  set (st4 := on_nd (set_root null_path) st3).
  assert (good_root st4) as Hg by by left. clearbody st4.
  assert (∀ p, is_directory E p → root_at_start E name (start_at E p st4) = (PPtr body, st1) →
    body = name ∧ at_dir E st1 ∧ good_root st1) as Hgo.
  { intros p Hd He. destruct (start_at_dir p st4 Hd) as [H1 Hr].
    pose proof (root_at_start_dir name (start_at E p st4) H1) as H2. rewrite He in H2. split.
    - revert He. unfold root_at_start. by repeat case_match; intros [=].
    - apply H2. unfold PathParent.good_root in *. by rewrite Hr. }
  destruct (_ && _).
  - destruct (nd_jump_root E st4) as [error st5] eqn:Hj.
    destruct (error =? 0) eqn:He; cbn [negb]; unfold_bools; [subst error|done]. intros [= <- <-].
    by apply (jump_root_dir E Hfs) in Hj as [??].
  - destruct (dfd =? AT_FDCWD); [by apply Hgo|]. destruct (v_fd E dfd) as [p|]; [|done].
    destruct (_ && _); [done|]. rewrite Hn. destruct (v_can_lookup E (p_dentry p)) eqn:Hd; cbn [negb andb]; [|done].
    by apply Hgo.
Qed.

Lemma path_parentat_dir fuel dfd name flags st p st' :
  nd_root_preset (wk_nd st) = false → attempt fuel dfd name flags st = Some (0, p, st') →
  nd_last_type (wk_nd st') ≠ LAST_ROOT → is_directory E p.
Proof.
  intros Hp Ha Ht. apply path_parentat_walk in Ha.
  pose proof (path_init_dir dfd name flags st) as Hi.
  destruct (path_init E dfd name flags st) as [s st1] eqn:Hinit.
  destruct Ha as (err1 & st2 & Hl & Hz & Hnz & Hsame). specialize (Hsame eq_refl) as [_ Hty].
  rewrite Hty in Ht. clear Hty. destruct (decide (err1 = 0)) as [->|Hne]; [|by destruct (Hnz Hne)].
  specialize (Hz eq_refl) as [_ ->]. cbn. change (at_dir E st2). unfold link_path_walk in Hl.
  destruct s as [|body|e]; [by injection Hl as <-| |].
  - destruct (at_nul (skip_slashes body)) eqn:Hn; [by injection Hl as <-|].
    assert (body = name ∧ at_dir E st1 ∧ good_root st1) as (-> & H1 & Hg1).
    { apply Hi; [|done..]. destruct (at_nul name) eqn:Hnn; [|done].
      assert (body = name) as ->; [|rewrite skip_at_nul in Hn by done; congruence].
      revert Hinit. clear. unfold path_init, root_at_start. by repeat case_match; intros; simplify_eq/=. }
    eapply (loop_dir E Hfs); [done| | |exact Hl]; done.
  - by injection Hl as -> <-.
Qed.
End parent.

(** ** All attempts *)

Section attempts.
Context {W : Type} (E : vfs W) (HE : env_ok E).
Context (enabled : bool) (managed : path → bool) (buf : namei_ext_redirect).
Context (fuel : nat) (nested dfd : Z) (name : list Z) (H0 : 0 ∈ name) (Hn : 0 ≤ nested).
Implicit Types (st : walk W).

Abbreviation attempt := (path_parentat E enabled managed buf fuel dfd name).
Abbreviation parentat := (filename_parentat E enabled managed buf fuel nested dfd name).

(** What holds before the first attempt and is left by those that fail holds
    before the one that answers. *)
Lemma attempts_ind (P : walk W → Prop) (Post : flags_t → option (Z * path * walk W) → Prop)
  flags root st :
  P (on_nd (set_nameidata nested root) st) →
  (∀ flags st, P st → Post flags (attempt flags st) ∧
     ∀ err p st', attempt flags st = Some (err, p, st') → err ≠ 0 → P st') →
  ∃ f, f ∈ [flags; flags ∪ {[LOOKUP_RCU]}; flags ∪ {[LOOKUP_REVAL]}] ∧
    Post f (parentat flags root st).
Proof.
  intros HP Hat. unfold filename_parentat. set (st0 := on_nd _ st) in *. clearbody st0.
  destruct (Hat (flags ∪ {[LOOKUP_RCU]}) st0 HP) as [Hp1 Hn1].
  destruct (attempt (flags ∪ {[LOOKUP_RCU]}) st0) as [[[e1 p1] st1]|]; cbn.
  2: { eexists. by split; [right; left|]. }
  specialize (Hn1 _ _ _ eq_refl).
  assert (∃ f, f ∈ [flags; flags ∪ {[LOOKUP_RCU]}] ∧
    let r := if e1 =? - ECHILD then attempt flags st1 else Some (e1, p1, st1) in
    Post f r ∧ ∀ err p st', r = Some (err, p, st') → err ≠ 0 → P st') as (f2 & Hf2 & Hp2 & Hn2).
  { destruct (e1 =? - ECHILD) eqn:He; unfold_bools.
    - exists flags. split; [by left|]. apply Hat, Hn1. by subst.
    - exists (flags ∪ {[LOOKUP_RCU]}). split; [by right; left|].
      split; [done|]. intros ? ? ? [= <- <- <-]. auto. }
  cbv zeta in *. destruct (if e1 =? - ECHILD then _ else _) as [[[e2 p2] st2]|]; cbn.
  2: { exists f2. split; [|done]. rewrite !elem_of_cons in *. tauto. }
  destruct (e2 =? - ESTALE) eqn:He; unfold_bools.
  - eexists. split; [right; right; left|]. apply Hat. eapply Hn2; [done|]. by subst.
  - exists f2. split; [|done]. rewrite !elem_of_cons in *. tauto.
Qed.

(** References, and termination. *)
Lemma parentat_inv flags root st :
  match parentat flags root st with
  | Some (err, p, st') =>
      walk_inv (foreign_refs (wk_targets st)) nested (if err =? 0 then [p] else []) st' ∧
      idle (wk_nd st') ∧ (err = 0 → last_ok (wk_nd st'))
  | None => Z.of_nat fuel ≤ Z.max (Z.of_nat (length name)) PATH_MAX + PATH_MAX * MAXSYMLINKS
  end.
Proof.
  set (base := foreign_refs (wk_targets st)).
  destruct (attempts_ind (λ st, idle (wk_nd st) ∧ walk_inv base nested [] st)
    (λ _ r, match r with
      | Some (err, p, st') => walk_inv base nested (if err =? 0 then [p] else []) st' ∧
          idle (wk_nd st') ∧ (err = 0 → last_ok (wk_nd st'))
      | None => Z.of_nat fuel ≤ Z.max (Z.of_nat (length name)) PATH_MAX + PATH_MAX * MAXSYMLINKS end)
    flags root st) as (f & _ & H); [| |done].
  - pose proof (set_nameidata_idle nested root (wk_nd st)) as Hi. split; [done|].
    assert (nd_total_link_count (wk_nd (on_nd (set_nameidata nested root) st)) = nested) as Hc
      by by destruct root.
    pose proof (idle_inv (on_nd (set_nameidata nested root) st) Hi) as H. rewrite Hc in H. by apply H.
  - intros f st1 [Hi H].
    pose proof (path_parentat_inv E enabled managed buf HE base nested fuel dfd name f st1 H0 Hi H) as Ha.
    destruct (attempt f st1) as [[[err p] st2]|].
    + split; [done|]. intros ? ? ? [= <- <- <-] He. destruct Ha as (H2 & ? & _).
      by rewrite (proj2 (Z.eqb_neq _ _)) in H2.
    + split; [|done]. assert (Z.max 0 (MAXSYMLINKS - nested) ≤ MAXSYMLINKS) by (unfold MAXSYMLINKS; lia).
      unfold PATH_MAX in *. lia.
Qed.

(** The rest of the state changes only by policies. *)
Lemma parentat_maps {R : W → W → Prop} (HR : runs_in E R) flags root st err p st' :
  parentat flags root st = Some (err, p, st') → rtc R (wk_maps st) (wk_maps st').
Proof.
  destruct (attempts_ind (λ st1, rtc R (wk_maps st) (wk_maps st1))
    (λ _ r, match r with Some (_, _, st1) => rtc R (wk_maps st) (wk_maps st1) | None => True end)
    flags root st) as (f & _ & H); [done| |by intros Hp; rewrite Hp in H].
  intros f st1 H1. destruct (attempt f st1) as [[[e q] st2]|] eqn:Ha; [|done].
  apply (path_parentat_framed E enabled managed buf HR), fr_maps in Ha.
  split; [by etrans|]. intros ? ? ? [= _ _ <-] _. by etrans.
Qed.

(** The directory of a component is one. *)
Lemma parentat_dir flags st p st' :
  is_directory E (v_fs_root E) → is_directory E (v_pwd E) →
  parentat flags None st = Some (0, p, st') → nd_last_type (wk_nd st') ≠ LAST_ROOT →
  is_directory E p.
Proof.
  intros Hfs Hpwd.
  destruct (attempts_ind (λ st1, nd_root_preset (wk_nd st1) = false)
    (λ _ r, ∀ p st', r = Some (0, p, st') → nd_last_type (wk_nd st') ≠ LAST_ROOT → is_directory E p)
    flags None st) as (f & _ & H); [done| |apply H].
  intros f st1 H1. split.
  - intros q st2 Ha. by eapply path_parentat_dir.
  - intros e q st2 Ha _. apply (path_parentat_framed E enabled managed buf (anything_run E)) in Ha.
    by rewrite (fr_preset _ _ _ _ Ha).
Qed.
End attempts.
