(* ===== verification/PathPositive.v ===== *)
(** * What a lookup finds is there

    A lookup that succeeds ends at a dentry with an inode: the steps of a walk
    arrive at positive dentries only, and where a walk starts, jumps or ends
    without a step is one too. *)

From S2P Require Import Prelude Abi Kernel Targets Lookup LookupProps Walk WalkProps PathWalk.
From S2P Require Import PathInv PathSafe PathTotal PathView PathNames PathFrame PathParent.

(** What the environment guarantees: directories, the end of a mount traversal
    that succeeds, the target of a jump and an open directory are positive. *)
Record positive_ok {W} (E : vfs W) : Prop := {
  po_dir : ∀ d, v_can_lookup E d = true → is_Some (v_inode E d);
  po_traverse : ∀ st d err p j c, v_traverse_mounts E st d = (err, p, j, c) → 0 ≤ err →
    is_Some (v_inode E (p_dentry p));
  po_jump : ∀ st d b p, v_get_link E st d b = GetJump p → is_Some (v_inode E (p_dentry p));
  po_fd : ∀ dfd p, v_fd E dfd = Some p → is_Some (v_inode E (p_dentry p))
}.

Section positive.
Context {W : Type} (E : vfs W) (HP : positive_ok E) (HE : env_ok E).
Context (Hfs : is_directory E (v_fs_root E)) (Hpwd : is_directory E (v_pwd E)).
Implicit Types (st : walk W).

Abbreviation at_dir := (at_dir E).
Abbreviation dir_roots := (dir_roots E Hfs).
Abbreviation good_root := (good_root E Hfs).
Abbreviation framed := (framed anything dir_roots).

Definition pos st : Prop := is_Some (v_inode E (p_dentry (nd_path (wk_nd st)))).
Definition link_pos (r : link_res * walk W) : Prop :=
  match r with (PNull, st) => pos st | _ => True end.

Lemma dir_pos st : at_dir st → pos st.
Proof. apply (po_dir _ HP). Qed.

Lemma put_link_pos st : pos st → pos (put_link st).
Proof. unfold pos, put_link. destruct (nd_stack _); [done|]. by destruct (rcu _). Qed.

(** *** Steps *)

(** In rcu-walk the inode is looked at after. *)
Lemma handle_mounts_pos d st err p st' :
  handle_mounts E d st = (err, p, st') → (err <? 0) = false →
  rcu st' = true ∨ is_Some (v_inode E (p_dentry p)).
Proof.
  unfold handle_mounts.
  assert (∀ st1, (let '(ret, p, jumped, count) := v_traverse_mounts E st1 d in
    (ret, p, on_nd (λ nd, set_total_link_count count (if jumped : bool then set_jumped true nd else nd)) st1))
    = (err, p, st') → (err <? 0) = false → rcu st' = true ∨ is_Some (v_inode E (p_dentry p))) as Ht.
  { intros st1. destruct (v_traverse_mounts E st1 d) as [[[e q] j] c] eqn:Ht.
    intros [= <- <- _] He. unfold_bools. right. by eapply po_traverse. }
  destruct (rcu st) eqn:Hr; [|by apply Ht].
  destruct (negb _); [by intros [= <- <- <-]; left|].
  destruct (v_follow_mount_rcu E st d) as [[[q s] j]|].
  - intros [= <- <- <-] _. left. unfold rcu in *. cbn. by destruct j.
  - destruct (try_to_unlazy_next E d st) as [[] st1]; cbn [negb]; [by apply Ht|by intros [= <- _ _]].
Qed.

Lemma start_body_pos s st : at_dir st → good_root st → link_pos (start_body E s st).
Proof.
  intros H Hg. unfold link_pos, start_body. destruct (at_slash s).
  - destruct (nd_jump_root E st) as [error st1] eqn:Hj.
    destruct (error =? 0) eqn:He; cbn [negb]; unfold_bools; [subst error|done].
    apply (jump_root_dir E Hfs) in Hj as [??]; [|done]. destruct (negb _); [done|]. by apply put_link_pos, dir_pos.
  - destruct (negb _); [done|]. by apply put_link_pos, dir_pos.
Qed.

Lemma read_link_pos link st : link_pos (read_link E link st).
Proof.
  unfold link_pos, read_link, nd_jump_link.
  repeat (case_match; simplify_eq/=; try done).
  all: unfold pos; cbn; eapply po_jump; eassumption.
Qed.

Lemma pick_link_pos link i flags st : at_dir st → good_root st → link_pos (pick_link E link i flags st).
Proof.
  intros H Hg. unfold pick_link. destruct (_ && _); [done|].
  set (st1 := if rcu st then st else _).
  assert (at_dir st1 ∧ good_root st1) as [H1 Hg1] by (unfold st1; by destruct (rcu st)).
  clearbody st1. pose proof (reserve_stack_framed E link st1 (R:=anything) (Q:=dir_roots)) as F.
  destruct (reserve_stack E link st1) as [[error link'] st2] eqn:Hres. cbn in F.
  destruct (error =? 0) eqn:He; cbn [negb]; unfold_bools; [subst error|done].
  apply reserve_stack_dir in Hres; [|done]. apply framed_root in F; [|done].
  set (st3 := on_nd _ st2). assert (at_dir st3 ∧ good_root st3) as [H3 Hg3] by done. clearbody st3.
  destruct (negb _); [done|]. destruct (_ || _); [done|].
  set (u := if v_atime E st3 link' && rcu st3 then _ else _).
  assert (u.1 = true → at_dir u.2 ∧ good_root u.2) as Hu.
  { unfold u. destruct (_ && _); [|done].
    pose proof (try_to_unlazy_framed E st3 (R:=anything) (Q:=dir_roots)) as F3.
    destruct (try_to_unlazy E st3) as [ok st4] eqn:Hun. cbn in F3 |- *. intros ->.
    split; [by eapply unlazy_dir|by eapply framed_root]. }
  clearbody u. destruct u as [[] st4]; cbn [negb] in *; [|done].
  destruct (Hu eq_refl) as [H4 Hg4]. cbn in H4, Hg4. destruct (negb _); [done|].
  pose proof (read_link_dir E link' st4 H4) as Hl. pose proof (read_link_pos link' st4) as Hp.
  pose proof (read_link_framed E link' st4 (R:=anything) (Q:=dir_roots)) as F4.
  destruct (read_link E link' st4) as [[|res|e] st5]; cbn in Hl, F4, Hp; [by apply put_link_pos| |done].
  apply start_body_pos; [done|by eapply framed_root].
Qed.

Definition nofollow (flags : Z) : Prop := Z.land flags WALK_NOFOLLOW ≠ 0.

Lemma step_into_pos flags d st :
  nofollow flags ∨ at_dir st ∧ good_root st → link_pos (step_into E flags d st).
Proof.
  intros H. unfold step_into. destruct (_ && _).
  { repeat case_match; try done. cbn. unfold pos; cbn. unfold_bools. by destruct (v_inode E d). }
  unfold step_into_slowpath.
  pose proof (handle_mounts_framed E d st (R:=anything) (Q:=dir_roots)) as F.
  destruct (handle_mounts E d st) as [[err p] st1] eqn:Hm. cbn in F.
  destruct (err <? 0) eqn:He; [done|].
  pose proof (handle_mounts_pos _ _ _ _ _ Hm He) as Hpos.
  destruct (_ || _) eqn:Hf.
  - destruct (rcu st1) eqn:Hr.
    + repeat case_match; try done. cbn. unfold pos; cbn. unfold_bools. by destruct (v_inode E _).
    + destruct Hpos as [?|Hpos]; [done|]. exact Hpos.
  - destruct H as [Hn|[H Hg]].
    { apply orb_false_iff in Hf as [_ Hf]. unfold nofollow in Hn. unfold_bools. done. }
    eapply handle_mounts_dir in Hm; [|done..]. apply framed_root in F; [|done]. by apply pick_link_pos.
Qed.

Lemma handle_dots_pos st : pos st → link_pos (handle_dots E st).
Proof.
  intros H. unfold handle_dots. destruct (negb _); [done|].
  destruct (if has_root _ then _ else _) as [error st1]. destruct (negb _); [done|].
  destruct (if rcu st1 then _ else _) as [[|d|e] st2] eqn:Hd; [|..|done].
  - exfalso. revert Hd. unfold follow_dotdot_rcu, follow_dotdot. by repeat case_match.
  - assert (nofollow WALK_NOFOLLOW) as Hn by done.
    pose proof (step_into_pos WALK_NOFOLLOW d st2 (or_introl Hn)) as Hs.
    destruct (step_into E _ d st2) as [[|body|e] st3]; [|done..]. by destruct (_ && _).
Qed.

Section component.
Context (enabled : bool) (managed : path → bool) (buf : namei_ext_redirect).

Lemma common_pos flags st :
  at_dir st → good_root st →
  link_pos (walk_component_common (lookup_fast E) (lookup_slow E) put_link (step_into E) flags st).
Proof.
  intros H Hg. unfold walk_component_common, lookup_slow.
  pose proof (lookup_fast_framed E st (R:=anything) (Q:=dir_roots)) as F.
  destruct (lookup_fast E st) as [r st1] eqn:Hf. cbn in F. apply framed_root in F; [|done].
  assert ((∀ e, r ≠ PErr e) → ∀ d, link_pos (step_into E flags d
    (if negb (nd_depth (wk_nd st1) =? 0) && (Z.land flags WALK_MORE =? 0) then put_link st1 else st1)))
    as Hgo.
  { intros Hr d. pose proof (lookup_fast_dir E _ _ _ H Hf Hr) as H1.
    apply step_into_pos. right. destruct (_ && _); [|done]. split; [by apply put_link_dir|].
    by apply (framed_root E Hfs st1); [apply framed_put_link|]. }
  destruct r as [|d|e]; [|by apply Hgo|done].
  destruct (v_lookup_slow E st1) as [|d|e]; [by apply Hgo|by apply Hgo|done].
Qed.

Abbreviation consult := (consult_policy (v_backing_inode E) (v_full_name_hash E) (v_flags_word E)
  (v_run E) (v_hash_min E) (try_to_unlazy E)).

Lemma consult_err st : match consult buf st with inl r => ∃ e, r.1 = PErr e | _ => True end.
Proof.
  unfold consult_policy, fail_unlazied.
  destruct (namei_ext_lookup _ _ _ _ _ _ _ _ _ _ _) as [[error r] w].
  repeat (case_match; simplify_eq/=; try done); eauto.
Qed.

Lemma walk_component_pos flags st :
  at_dir st → good_root st → link_pos (walk_component E enabled managed buf flags st).
Proof.
  intros H Hg. unfold walk_component, Walk.walk_component.
  destruct (negb _).
  { apply handle_dots_pos. destruct (_ && _); [apply put_link_pos|]; by apply dir_pos. }
  destruct (enabled && _); [|by apply common_pos]. unfold walk_component_namei_ext.
  pose proof (consult_dir E buf st H) as Hc. pose proof (consult_err st) as Herr.
  pose proof (consult_framed E (Q:=dir_roots) (anything_run E) buf st) as F.
  destruct (consult buf st) as [[r st1]|[rd st1]]; cbn in F, Hc, Herr; [by destruct Herr as [e ->]|].
  apply framed_root in F; [|done]. destruct (r_target_active rd) eqn:Hact.
  { destruct (namei_ext_apply_target _ _ _ _ _ _) as [[error rd2] st2] eqn:Ha. destruct (negb _) eqn:He; [done|].
    unfold link_pos. revert Ha. unfold namei_ext_apply_target. rewrite Hact. cbn [negb].
    repeat (case_match; [intros [= <- _ _]; done|]). intros [= _ _ <-]. unfold pos. cbn.
    apply (po_dir _ HP). by apply negb_false_iff. }
  unfold with_redirect. destruct (namei_ext_apply_redirect _ _) as [[saved nd]|] eqn:Hr; [|by apply common_pos].
  unfold namei_ext_apply_redirect in Hr. destruct (negb _); [done|]. injection Hr as <- <-.
  set (nd := set_last _ _). assert (∀ nd', nd_path nd' = nd_path nd → nd_root nd' = nd_root nd →
    link_pos (let '(res, st) := walk_component_common (lookup_fast E) (lookup_slow E) put_link
      (step_into E) flags (on_nd (λ _, nd') st1) in (res, on_nd (set_last (nd_last (wk_nd st1))) st))) as Hgo.
  { intros nd' Hp Hroot. assert (link_pos (walk_component_common (lookup_fast E) (lookup_slow E) put_link
      (step_into E) flags (on_nd (λ _, nd') st1))) as Hl.
    { apply common_pos; unfold PathParent.at_dir, PathParent.good_root; cbn; [by rewrite Hp|by rewrite Hroot]. }
    by destruct (walk_component_common _ _ _ _ _ _) as [[] ?]. }
  unfold namei_ext_hash_redirect. destruct (v_op_hash E _).
  - destruct (v_hash E _ _) as [e q]. destruct (e <? 0); [done|by apply Hgo].
  - by apply Hgo.
Qed.

(** *** Walks

    A walk starts in a directory, or with nothing to walk. *)
Definition start_ok (s : link_res) st : Prop :=
  match s with
  | PPtr body => if at_nul (skip_slashes body) then pos st else at_dir st ∧ good_root st
  | PNull => pos st
  | PErr _ => True
  end.
Definition at_last st : Prop :=
  at_dir st ∧ good_root st ∨ nd_last_type (wk_nd st) = LAST_ROOT ∧ pos st.

Lemma link_path_walk_pos fuel s st st' :
  start_ok s st → (∀ e, s = PErr e → e ≠ 0) →
  link_path_walk E enabled managed buf fuel s st = Some (0, st') → at_last st'.
Proof.
  intros Hs He Hl. pose proof (link_path_walk_framed E (Q:=dir_roots) (anything_run E) enabled managed buf fuel s st _ Hl) as F.
  cbn in F. revert Hl. unfold link_path_walk. destruct s as [|body|e]; cbn in Hs.
  - intros [= <-]. by right.
  - destruct (at_nul (skip_slashes body)); [intros [= <-]; by right|]. destruct Hs as [H Hg].
    intros Hl. left. split; [by eapply (loop_dir E Hfs HE) in Hl|by eapply framed_root].
  - intros [= -> _]. by destruct (He 0).
Qed.

Lemma lookup_last_pos st r st' :
  at_last st → lookup_last E enabled managed buf st = Some (r, st') →
  link_pos (r, st') ∧ link_dir E (r, st') ∧ ((∃ body, r = PPtr body) → good_root st').
Proof.
  intros [[H Hg]|[Hroot Hpos]] Hl.
  - pose proof (lookup_last_framed E (Q:=dir_roots) (anything_run E) enabled managed buf _ _ Hl) as F.
    apply framed_root in F; [|done]. revert Hl. unfold lookup_last, Walk.lookup_last.
    assert (∀ st0, at_dir st0 → good_root st0 →
      Some (walk_component E enabled managed buf WALK_TRAILING st0) = Some (r, st') →
      link_pos (r, st') ∧ link_dir E (r, st')) as Hgo.
    { intros st0 H0 Hg0 [= <-]. split; [by apply walk_component_pos|by apply (walk_component_dir E Hfs)]. }
    intros Hl. cut (link_pos (r, st') ∧ link_dir E (r, st')); [intros [??]; by split_and!|].
    revert Hl. case_bool_decide; [|by apply Hgo].
    destruct (trailing_slashes _) as [[]|]; [by apply Hgo|by apply Hgo|done].
  - revert Hl. unfold lookup_last, Walk.lookup_last, Walk.walk_component. rewrite Hroot.
    rewrite bool_decide_eq_false_2 by done. cbn [negb]. set (st0 := if _ && _ then put_link st else st).
    assert (pos st0 ∧ nd_last_type (wk_nd st0) = LAST_ROOT) as [Hp0 Ht0].
    { unfold st0. destruct (_ && _); [|done]. split; [by apply put_link_pos|]. rewrite <-Hroot.
      unfold put_link. destruct (nd_stack _); [done|]. by destruct (rcu _). }
    unfold handle_dots. rewrite Ht0. intros [= <- <-]. by split_and!; [..|intros [??]].
Qed.

Lemma lookup_loop_pos links fuel : ∀ s st st',
  start_ok s st → (∀ e, s = PErr e → e ≠ 0) →
  lookup_loop E enabled managed buf links fuel s st = Some (0, st') → pos st'.
Proof.
  induction links as [|links IH]; [done|]. intros s st st' Hs He. cbn [lookup_loop].
  destruct (link_path_walk _ _ _ _ _ _ _) as [[err st1]|] eqn:Hl; [|done]. cbn.
  destruct (err =? 0) eqn:Herr; cbn [negb]; unfold_bools; [subst err|by intros [= ? _]].
  apply link_path_walk_pos in Hl; [|done..].
  destruct (lookup_last _ _ _ _ _) as [[r st2]|] eqn:Hlast; [|done]. cbn.
  pose proof (walk_component_nonzero E HE enabled managed buf WALK_TRAILING) as Hnz.
  assert (∀ e, r = PErr e → e ≠ 0) as Hr.
  { intros e ->. revert Hlast. unfold lookup_last, Walk.lookup_last.
    assert (∀ st0, Some (walk_component E enabled managed buf WALK_TRAILING st0) = Some (PErr e, st2) → e ≠ 0) as Hgo.
    { intros st0 [= Hw] ->. specialize (Hnz st0). by rewrite Hw in Hnz. }
    case_bool_decide; [|by apply Hgo]. destruct (trailing_slashes _) as [[]|]; [by apply Hgo|by apply Hgo|done]. }
  apply lookup_last_pos in Hlast as (Hp & Hd & Hg); [|done]. destruct r as [|body|e].
  - by intros [= <-].
  - apply IH; [|done]. cbn in *. destruct (at_nul _); [by apply dir_pos|]. eauto.
  - apply IH; [done|]. intros ? [= <-]. by apply Hr.
Qed.

(** *** Starts and ends *)

Lemma path_init_pos dfd name flags st :
  nd_root_preset (wk_nd st) = false → 
  let '(s, st1) := path_init E dfd name flags st in start_ok s st1.
Proof.
  intros Hp. pose proof (λ b s1, path_init_dir E Hfs Hpwd dfd name flags st b s1) as Hi.
  destruct (at_nul name) eqn:Hn.
  - clear Hi. unfold path_init. rewrite Hn. destruct (_ && _); [done|].
    set (st2 := if fl LOOKUP_RCU _ then st else _). set (st3 := on_nd _ st2).
    replace (nd_root_preset (wk_nd st3)) with false
      by (unfold st3, st2; cbn; by destruct (fl _ _)). clearbody st3. clear st2.
    set (st4 := on_nd _ st3). clearbody st4.
    assert (at_slash name = false) as -> by (by destruct name as [|[]]). cbn [andb].
    assert (∀ p, is_Some (v_inode E (p_dentry p)) →
      let '(s, st1) := root_at_start E name (start_at E p st4) in start_ok s st1) as Hgo.
    { intros p Hi. unfold root_at_start, start_at. repeat case_match; simplify_eq/=;
        (rewrite skip_at_nul by done); by rewrite Hn. }
    destruct (dfd =? AT_FDCWD); [apply Hgo, (po_dir _ HP), Hpwd|].
    destruct (v_fd E dfd) as [p|] eqn:Hfd; [|done]. destruct (_ && _); [done|]. cbn [negb andb].
    apply Hgo. by eapply po_fd.
  - destruct (path_init E dfd name flags st) as [[|body|e] st1] eqn:Hinit; [| |done].
    + exfalso. revert Hinit. unfold path_init, root_at_start. by repeat case_match.
    + destruct (Hi body st1 eq_refl Hp eq_refl) as (-> & H & Hg). cbn.
      destruct (at_nul (skip_slashes name)); [by apply dir_pos|done].
Qed.

Lemma handle_lookup_down_pos st st' : handle_lookup_down E st = (0, st') → pos st → pos st'.
Proof.
  unfold handle_lookup_down. set (st0 := on_nd _ st). intros He _. revert He.
  assert (nofollow WALK_NOFOLLOW) as Hn by done.
  pose proof (step_into_pos WALK_NOFOLLOW (p_dentry (nd_path (wk_nd st0))) st0 (or_introl Hn)) as Hs.
  pose proof (step_into_nonzero E HE WALK_NOFOLLOW (p_dentry (nd_path (wk_nd st0))) st0) as Hnz.
  pose proof (step_into_nofollow E (p_dentry (nd_path (wk_nd st0))) st0) as Hf.
  destruct (step_into E _ _ st0) as [[|body|e] st1]; cbn in *.
  - by intros [= <-].
  - by destruct (Hf body st1).
  - by intros [= -> _].
Qed.

Lemma finish_lookupat_pos err st p st' :
  (err = 0 → pos st) → finish_lookupat E err st = (0, p, st') → is_Some (v_inode E (p_dentry p)).
Proof.
  intros Hpos. unfold finish_lookupat.
  set (u := if (err =? 0) && nd_has LOOKUP_MOUNTPOINT (wk_nd st) then _ else (err, st)).
  assert (u.1 = 0 → pos u.2) as Hu.
  { unfold u. destruct (err =? 0) eqn:He; cbn [andb]; unfold_bools; [|done]. subst err.
    destruct (nd_has _ _); [|by cbn]. destruct (handle_lookup_down E st) as [e st1] eqn:Hd. cbn. intros ->.
    apply handle_lookup_down_pos in Hd; [done|auto]. }
  clearbody u. destruct u as [err1 st1]. cbn in Hu.
  set (v := if err1 =? 0 then complete_walk E st1 else (err1, st1)).
  assert (v.1 = 0 → pos v.2) as Hv.
  { unfold v. destruct (err1 =? 0) eqn:He; unfold_bools; [|done].
    destruct (complete_walk E st1) as [e st2] eqn:Hc. cbn. intros ->.
    apply complete_walk_same in Hc as [Hc _]. unfold pos. rewrite Hc. exact (Hu He). }
  clearbody v. destruct v as [err2 st2]. cbn in Hv. set (err3 := if _ && _ then - ENOTDIR else err2).
  assert (err3 = 0 → pos st2) as H3 by (unfold err3; destruct (_ && _); [done|done]).
  destruct (err3 =? 0) eqn:He; unfold_bools; intros [= ? <- _]; [by apply H3|congruence].
Qed.

Lemma path_init_nonzero dfd name flags st : nonzero (path_init E dfd name flags st).1.
Proof.
  unfold nonzero, path_init, root_at_start.
  repeat (case_match; simplify_eq/=; try done); unfold_bools; congruence.
Qed.

Lemma path_lookupat_pos links fuel dfd name flags st p st' :
  nd_root_preset (wk_nd st) = false → LOOKUP_DOWN ∉ flags →
  path_lookupat E enabled managed buf links fuel dfd name flags st = Some (0, p, st') →
  is_Some (v_inode E (p_dentry p)).
Proof.
  intros Hp Hf. unfold path_lookupat. pose proof (path_init_pos dfd name flags st Hp) as Hs.
  pose proof (path_init_nonzero dfd name flags st) as Hnz.
  destruct (path_init E dfd name flags st) as [s st1].
  replace (fl LOOKUP_DOWN flags) with false by (unfold fl; by rewrite bool_decide_eq_false_2).
  set (u := match s with PPtr _ => (s, st1) | _ => (s, st1) end).
  assert (u = (s, st1)) as -> by (unfold u; by destruct s).
  destruct (lookup_loop _ _ _ _ _ _ _ _) as [[err st2]|] eqn:Hl; [|done]. cbn. intros [= Hfin].
  eapply finish_lookupat_pos; [|exact Hfin]. intros ->. eapply lookup_loop_pos; [exact Hs| |exact Hl].
  intros e -> ->. by apply Hnz.
Qed.

(** A lookup of a pathname ends at a dentry with an inode, whatever the policies
    decide. *)
Lemma filename_lookup_positive links fuel nested dfd name flags st p st' :
  LOOKUP_DOWN ∉ flags →
  filename_lookup E enabled managed buf links fuel nested dfd name flags None st = Some (0, p, st') →
  is_Some (v_inode E (p_dentry p)).
Proof.
  intros Hf. unfold filename_lookup. set (st0 := on_nd _ st).
  assert (nd_root_preset (wk_nd st0) = false) as H0 by done. clearbody st0.
  assert (∀ f st1 r, nd_root_preset (wk_nd st1) = false →
    path_lookupat E enabled managed buf links fuel dfd name f st1 = Some r →
    nd_root_preset (wk_nd r.2) = false) as Hpre.
  { intros f st1 r H1 Hl. apply (path_lookupat_framed E (Q:=any_root E) (anything_run E)) in Hl; [|apply any_starts].
    by rewrite (fr_preset _ _ _ _ Hl). }
  assert (∀ f, f ≠ LOOKUP_DOWN → LOOKUP_DOWN ∉ flags ∪ {[f]}) as Hfl.
  { intros f Hne. rewrite not_elem_of_union, not_elem_of_singleton. by split. }
  destruct (path_lookupat _ _ _ _ _ _ _ _ (flags ∪ {[LOOKUP_RCU]}) st0) as [[[e1 p1] st1]|] eqn:H1; [|done]. cbn.
  pose proof (Hpre _ _ _ H0 H1) as Hp1. cbn in Hp1.
  destruct (if e1 =? - ECHILD then _ else _) as [[[e2 p2] st2]|] eqn:H2; [|done]. cbn.
  assert (nd_root_preset (wk_nd st2) = false ∧ (e2 = 0 → is_Some (v_inode E (p_dentry p2)))) as [Hp2 Hpos2].
  { destruct (e1 =? - ECHILD).
    - split; [exact (Hpre _ _ _ Hp1 H2)|]. intros ->. by eapply path_lookupat_pos in H2.
    - injection H2 as <- <- <-. split; [done|]. intros ->. eapply path_lookupat_pos in H1; [done|done|by apply Hfl]. }
  destruct (e2 =? - ESTALE).
  - intros H3. eapply path_lookupat_pos in H3; [done|done|by apply Hfl].
  - intros [= -> -> _]. by apply Hpos2.
Qed.
End component.
End positive.
