(* ===== verification/PathParentResolve.v ===== *)
(** * The parent of a pathname is what its directory resolves to

    [filename_parentat] against the reference of [PathView]: the components
    before the last resolve under the policy, the last is taken as it is. *)

From S2P Require Import Prelude Abi PolicyLib PolicyFacts PolicyViews Kernel Targets.
From S2P Require Import Scopes ScopeApi ScopeSystem Cgroups EffectiveFacts CgroupFacts Dispatch.
From S2P Require Import DispatchProps System Lookup LookupProps Walk WalkProps SystemProps PathWalk.
From S2P Require Import PathInv PathRefs PathSafe PathTotal PathView PathNames PathFrame PathExact.
From S2P Require Import PathViewFacts PathViewProps PathResolve PathPolicies PathParent.

(** The last component is not looked up. *)
Definition final_parent (root : path) (links : nat) (w : wish) (dir : path) (c : list Z) : wish * move :=
  (mk_wish false false false, MTo dir).
Abbreviation resolve_parent E T := (pathname_with E T final_parent).

(** The last component of a pathname, as its caller finds it. *)
Definition named (name : list Z) (nd : nameidata) : Prop :=
  match last (components [] name) with
  | Some c => nd_last_type nd = type_of (token_of c) ∧ q_bytes (nd_last nd) = c
  | None => nd_last_type nd = LAST_ROOT
  end.

Section props.
Context {W : Type} (E : vfs W) (HE : env_ok E) (T : tree) (HT : shows E T).
Context (table : list (list namei_ext_target)) (root : path) (Hroot : root ≠ null_path).
Context (buf : namei_ext_redirect) (Hbuf : length (r_name buf) = NAME_MAX_nat).
Context (Hmeans : means E T (mk_targets table ∅)).
Implicit Types (st : walk W).

Abbreviation here := (here E table root).

(** A last component that is not [c0] fails, if it comes to it. *)
Definition only_parent (c0 : list Z) (links : nat) (w : wish) (dir : path) (c : list Z) : wish * move :=
  (mk_wish false false false, if decide (c = c0) then MTo dir else MErr 1).

(** It does not. *)
Lemma only_parent_last c0 n : ∀ w p cs, last cs = Some c0 →
  resolve_with E T root (only_parent c0) n w p cs = resolve_with E T root (final_parent root) n w p cs.
Proof.
  induction n as [|n IHn]; intros w p cs; revert w p;
    (induction cs as [|c cs IH]; intros w p Hc; [done|]);
    rewrite !resolve_cons; cbv zeta; (destruct (negb _); [done|]);
    (destruct cs as [|c' cs]; [injection Hc as ->; unfold only_parent, final_parent; by rewrite decide_True|]);
    destruct (step _ _ _ _ _ _ _ _) as [e|q|q|q s]; try done; try (destruct (negb _); [done|]).
  - by apply IH.
  - by apply IH.
  - by apply IHn.
  - apply IHn. change (last (c' :: cs) = Some c0) in Hc. by rewrite last_app, Hc.
Qed.

Abbreviation loop := (link_path_walk_loop E true (λ _, true) buf).

(** The loop over components ends in the directory of the last one. *)
Lemma loop_parent F w fuel name p links st err st' :
  ordinary F → wants F w → cstring name → Forall is_byte name → w_slash w = ends_in_slash false name →
  at_nul (skip_slashes name) = false → here p links F st →
  loop fuel (skip_slashes name) [] st = Some (err, st') →
  (rcu st' = true → rcu st = true) ∧
  ((rcu st = true ∧ err = - ECHILD) ∨
   (err ≠ 0 ∧ resolve_with E T root (final_parent root) links w p (components [] name) = inl err) ∨
   (err = 0 ∧ ∃ q n, here q n F st' ∧ named name (wk_nd st') ∧
      resolve_with E T root (final_parent root) links w p (components [] name) = inr q)).
Proof.
  intros HF Hw [H0 Hmax] Hb Hs Hn H Hl.
  assert (to_walk (skip_slashes name) [] = components [] name) as Hleft.
  { unfold to_walk. simpl. by rewrite app_nil_r, components_skip. }
  assert (at_word (skip_slashes name)) as Hword by by apply skip_at_word.
  assert (w_slash w = ends_in_slash false (bottom (skip_slashes name) [])) as Hs'.
  { rewrite Hs. by apply ends_skip. }
  pose proof (λ final, loop_does E HE T HT table root Hroot buf Hbuf Hmeans final F w HF Hw fuel
    (skip_slashes name) [] p links st (err, st') Hword (Forall_nil_2 _) Hs' H Hl) as Hdoes.
  rewrite Hleft in Hdoes.
  assert (∃ c, last (components [] name) = Some c) as [c0 Hc0].
  { destruct (last (components [] name)) as [c|] eqn:Hc; [by exists c|]. apply last_None in Hc.
    pose proof (to_walk_cons E (wk_nd st) _ [] Hword) as Hne. by rewrite Hleft, Hc in Hne. }
  destruct (Hdoes (final_parent root)) as [Hr Hm]. split; [exact Hr|]. cbn in Hm.
  destruct Hm as [Hm|[Hm|(-> & q & n & c & H1 & Hready & Hrc)]]; [by left|by right; left|right; right].
  split; [done|]. exists q, n. split; [done|].
  assert (∀ final, resolve_with E T root final n w q [c] =
    match final n w q c with
    | (w', MTo p) => arrived E w' p | (_, MErr e) => inl e
    | _ => resolve_with E T root final n w q [c] end) as Hone.
  { intros final. rewrite resolve_cons, (re_exec _ _ _ _ _ Hready). cbn. by destruct (final n w q c) as [? []]. }
  rewrite Hone in Hrc. cbn in Hrc. split; [|exact Hrc].
  destruct (Hdoes (only_parent c0)) as [_ Hm]. cbn in Hm. rewrite only_parent_last, Hrc in Hm by done.
  destruct Hm as [[_ ?]|[[? _]|(_ & q' & n' & c' & H1' & Hready' & Hrc')]]; [done..|].
  destruct Hready as [[Hty Hby _] _ Hx _], Hready' as [[_ Hby' _] _ Hx' _].
  assert (c' = c) as -> by congruence. unfold named. rewrite Hc0.
  rewrite resolve_cons, Hx' in Hrc'. cbn in Hrc'. destruct (decide (c = c0)) as [->|]; [by split|done].
Qed.

(** ** An attempt *)

Context (ro : option path) (Hro : root = default (v_fs_root E) ro).

Abbreviation attempt := (path_parentat E true (λ _, true) buf).

Lemma named_same name (st st' : walk W) : same_last st st' → named name (wk_nd st) → named name (wk_nd st').
Proof. intros [Hl Ht]. unfold named, q_bytes. by rewrite Hl, Ht. Qed.

Lemma parent_attempt_does fuel dfd name flags n st err p st' :
  cstring name → Forall is_byte name → ordinary (wanted flags) → fl LOOKUP_DIRECTORY flags = false →
  starts table ro n st → attempt fuel dfd name flags st = Some (err, p, st') →
  (fl LOOKUP_RCU flags = true ∧ err = - ECHILD ∧ p = null_path) ∨
  (answers (resolve_parent E T n ro dfd name flags) err p ∧ (err = 0 → named name (wk_nd st'))).
Proof.
  intros H0 Hb HF Hdir Hst Ha. apply path_parentat_walk in Ha.
  pose proof (ordinary_unconfined _ HF) as HU.
  pose proof (path_init_here E T HT table root ro Hro dfd name flags n st HU Hst) as Hi.
  destruct (path_init E dfd name flags st) as [s st1]. destruct Hi as [Hr Hi].
  destruct Ha as (err1 & st2 & Hl & Hz & Hnz & Hsame).
  assert (∀ e, s = PErr e → err1 = e) as Hserr by by intros e ->; injection Hl as <-.
  unfold pathname_with. destruct Hi as [[Hc ->]|Hi].
  { specialize (Hserr _ eq_refl). subst err1. left. by destruct Hnz as [-> ->]. }
  destruct (start_path E ro dfd name flags) as [e|q] eqn:Hsp.
  { subst s. specialize (Hserr _ eq_refl). subst err1. apply (start_path_error E root ro Hro) in Hsp.
    right. split; [by apply Hnz|]. destruct (Hnz Hsp) as [-> _]. done. }
  destruct Hi as [-> H1]. clear Hserr. rewrite <- Hro. set (w := mk_wish _ _ _).
  assert (wants (wanted flags) w) as Hw by (split; cbn; by rewrite wanted_fl).
  unfold link_path_walk in Hl. set (st0 := on_nd _ st1) in Hl.
  destruct (parent_flags_here E table root q n (wanted flags) (λ nd, set_nd_flags (nd_flags nd ∪ {[LOOKUP_PARENT]})
    (set_last_type LAST_ROOT nd)) st1) as [Hh0 Hr0]; [done..|]. fold st0 in Hh0, Hr0.
  (* at the last component, in ref-walk *)
  assert (∀ q' n' st2', here q' n' (wanted flags) st2' → named name (wk_nd st2') → st2' = st2 → err1 = 0 →
    (rcu st2 = true → rcu st1 = true) →
    resolve_with E T root (final_parent root) n w q (components [] name) = inr q' →
    (fl LOOKUP_RCU flags = true ∧ err = - ECHILD ∧ p = null_path) ∨
    (answers (resolve_with E T root (final_parent root) n w q (components [] name)) err p ∧
     (err = 0 → named name (wk_nd st')))) as Hend.
  { intros q' n' st2' H2 Hnm -> He Hr2 Hrs. destruct (Hz He) as [Herr Hp].
    pose proof (complete_walk_here E T HT table root q' n' (wanted flags) st2 HU H2) as Hcw.
    destruct (complete_walk E st2) as [e3 st3]. cbn in Herr. subst e3.
    destruct Hcw as [[Hr3 ->]|(-> & _ & _)].
    - left. split; [auto|]. split; [done|]. by rewrite Hp.
    - right. rewrite Hrs. split; [split; [done|]; by rewrite Hp, (h_path _ _ _ _ _ _ _ H2)|].
      intros _. by eapply named_same; [apply Hsame|]. }
  destruct (at_nul (skip_slashes name)) eqn:Hn.
  - injection Hl as <- <-. assert (components [] name = []) as Hnil.
    { rewrite <- components_skip. destruct (skip_slashes name) as [|c s']; [done|]. cbn in *. by rewrite Hn. }
    apply (Hend q n (on_nd (set_dir None) st0)); [by apply here_nd|by unfold named; rewrite Hnil|done|done|intros Hrr; rewrite <- Hr0; exact Hrr|].
    rewrite Hnil. assert (w_directory w = false) as Hwd by exact Hdir.
    destruct n; cbn; unfold arrived; by rewrite Hwd.
  - destruct (loop_parent _ _ _ _ _ _ _ _ _ HF Hw H0 Hb eq_refl Hn Hh0 Hl) as [Hr2 Hm].
    rewrite Hr0 in Hr2, Hm. destruct Hm as [[Hrr ->]|[[He Hrs]|(-> & q' & n' & H2 & Hnm & Hrs)]].
    + left. destruct Hnz as [-> ->]; auto.
    + right. rewrite Hrs. destruct (Hnz He) as [-> ->]. by split.
    + by eapply Hend.
Qed.
End props.

(** ** All attempts *)

Section parent.
Context {W : Type} (E : vfs W) (HE : env_ok E) (T : tree) (HT : shows E T).
Context (buf : namei_ext_redirect) (Hbuf : length (r_name buf) = NAME_MAX_nat).
Context (ro : option path) (Hroot : default (v_fs_root E) ro ≠ null_path).
Context (fuel : nat) (dfd : Z) (name : list Z) (H0 : cstring name) (Hb : Forall is_byte name).
Context (nested : Z) (Hn : 0 ≤ nested).
Context (Hfuel : PATH_MAX + PATH_MAX * MAXSYMLINKS < Z.of_nat fuel).
Implicit Types (st : walk W).

(** The answer, with at most [n] symlinks, and the last component. *)
Definition parent_answered n flags err p st : Prop :=
  (∃ k, (k ≤ n)%nat ∧ answers (resolve_parent E T k ro dfd name flags) err p) ∧
  (err = 0 → named name (wk_nd st)).

Abbreviation path_parentat := (path_parentat E true (λ _, true) buf fuel dfd name).

Lemma parent_attempt_answers base table flags st :
  means E T (mk_targets table ∅) → ordinary (wanted flags) → fl LOOKUP_DIRECTORY flags = false →
  attempt ro base nested table st →
  ∃ err p st', path_parentat flags st = Some (err, p, st') ∧
    (err ≠ 0 → attempt ro base nested table st') ∧
    ((fl LOOKUP_RCU flags = true ∧ err = - ECHILD) ∨
     parent_answered (Z.to_nat (MAXSYMLINKS - nested)) flags err p st').
Proof.
  intros Hm HF Hdir [Hi Hinv Hst].
  pose proof (path_parentat_inv E true (λ _, true) buf HE base nested fuel dfd name flags st
    (cstring_nul _ H0) Hi Hinv) as Hp.
  destruct (path_parentat flags st) as [[[err p] st']|] eqn:Hl.
  2: { exfalso. assert (Z.max 0 (MAXSYMLINKS - nested) ≤ MAXSYMLINKS) by (unfold MAXSYMLINKS; lia).
       destruct H0 as [_ Hmax]. unfold PATH_MAX in *. lia. }
  exists err, p, st'. split; [done|]. destruct Hp as (Hinv' & Hi' & _). split.
  - intros He. rewrite (proj2 (Z.eqb_neq _ _)) in Hinv' by done. split; [done..|].
    apply (path_parentat_framed E true (λ _, true) buf (anything_run E)) in Hl as [_ _ Ht Hpre Hr].
    destruct Hst as [H1 H2 _ H4].
    split; cbn in *; [congruence| |done|congruence]. intros r Hro. rewrite Hr; auto.
    + by rewrite H1, Hro.
    + unfold has_root. rewrite (H2 _ Hro). rewrite Hro in Hroot. cbn in Hroot.
      by destruct (path_equal r null_path) eqn:Hq; [apply path_equal_true in Hq|].
  - destruct (parent_attempt_does E HE T HT table _ Hroot buf Hbuf Hm ro eq_refl _ _ _ _ _ _ _ _ _ H0 Hb HF
      Hdir Hst Hl) as [(? & ? & ?)|[Ha Hnm]]; [by left|right]. apply wi_count in Hinv.
    split; [|done]. eexists. split; [|exact Ha]. unfold MAXSYMLINKS. lia.
Qed.

Lemma parent_resolves flags st :
  means E T (mk_targets (ts_table (wk_targets st)) ∅) →
  ordinary (wanted flags) → fl LOOKUP_RCU flags = false → fl LOOKUP_DIRECTORY flags = false →
  ∃ err p st',
    filename_parentat E true (λ _, true) buf fuel nested dfd name flags ro st = Some (err, p, st') ∧
    parent_answered (Z.to_nat (MAXSYMLINKS - nested)) flags err p st'.
Proof.
  intros Hm HF Hnr Hdir. unfold filename_parentat.
  pose proof (attempt_first E ro Hroot nested _ st Hn eq_refl) as A0. set (st0 := on_nd _ st) in *.
  destruct (wanted_attempt E T ro flags LOOKUP_RCU) as [HF1 Hrp1]; [by vm_compute|done|].
  destruct (wanted_attempt E T ro flags LOOKUP_REVAL) as [HF3 Hrp3]; [by vm_compute|done|].
  assert (∀ f, f ≠ LOOKUP_DIRECTORY → fl LOOKUP_DIRECTORY (flags ∪ {[f]}) = false) as Hdir'.
  { intros f Hf. rewrite <- Hdir. apply fl_add. by rewrite not_elem_of_singleton. }
  assert (∀ f err p st', f = LOOKUP_RCU ∨ f = LOOKUP_REVAL →
    parent_answered (Z.to_nat (MAXSYMLINKS - nested)) (flags ∪ {[f]}) err p st' →
    parent_answered (Z.to_nat (MAXSYMLINKS - nested)) flags err p st') as Hsame.
  { intros f err p st' Hf [Ha Hnm]. split; [|done]. destruct Hf as [->| ->];
      [setoid_rewrite Hrp1 in Ha|setoid_rewrite Hrp3 in Ha]; exact Ha. }
  destruct (parent_attempt_answers _ _ _ _ Hm HF1 (Hdir' LOOKUP_RCU ltac:(done)) A0) as (err1 & p1 & st1 & -> & A1 & H1). cbn.
  assert (∃ err2 p2 st2, (if err1 =? - ECHILD then path_parentat flags st1 else Some (err1, p1, st1))
      = Some (err2, p2, st2) ∧
    (err2 ≠ 0 → attempt ro (foreign_refs (wk_targets st)) nested (ts_table (wk_targets st)) st2) ∧
    parent_answered (Z.to_nat (MAXSYMLINKS - nested)) flags err2 p2 st2) as (err2 & p2 & st2 & -> & A2 & H2).
  { destruct (err1 =? - ECHILD) eqn:He; unfold_bools.
    - destruct (parent_attempt_answers (foreign_refs (wk_targets st)) _ flags st1 Hm HF Hdir)
        as (err2 & p2 & st2 & -> & A2 & H2); [apply A1; by rewrite He|].
      exists err2, p2, st2. split_and!; [done..|]. rewrite Hnr in H2. by destruct H2 as [[??]|].
    - exists err1, p1, st1. split_and!; [done..|]. destruct H1 as [[??]|]; [done|]. eauto. }
  cbn. destruct (err2 =? - ESTALE) eqn:He; unfold_bools; [|by exists err2, p2, st2].
  destruct (parent_attempt_answers (foreign_refs (wk_targets st)) _ _ st2 Hm HF3 (Hdir' LOOKUP_REVAL ltac:(done)))
    as (err3 & p3 & st3 & -> & A3 & H3); [apply A2; by rewrite He|].
  exists err3, p3, st3. split; [done|]. destruct H3 as [[Hc _]|]; [|eauto].
  revert Hc. unfold fl in *. rewrite bool_decide_eq_true, elem_of_union. apply bool_decide_eq_false in Hnr.
  intros [?|?%elem_of_singleton]; done.
Qed.
End parent.

(** ** In a running system *)

Section system.
Context (hash_min : Z → nat) (hash_min_lt : ∀ k, (hash_min k < scope_buckets)%nat).
Context (bpf_link_by_id bpf_link_get_from_fd bpf_prog_by_id bpf_prog_get : Z → Z + Z).
Context (delete_safe_at : list Z → nat → list Z).
Context {W : Type} (bpf_prog_run : Z → bpf_program W) (cgroup_id : Z → Z).

#[local] Existing Instance scopes_policy.
#[local] Instance scopes_of_system : PolicyScopes scopes_state := scopes_policy hash_min.
Abbreviation reachable := (sys_reachable hash_min bpf_link_by_id bpf_link_get_from_fd
  bpf_prog_by_id bpf_prog_get delete_safe_at).

End system.
