(* ===== verification/PathChange.v ===== *)
(** * Changing names (fs/namei.c)

    The system calls that create, remove and move names: mknod, mkdir, symlink,
    link, rmdir, unlink and rename, from their pathnames down to the file
    system: the walk to the parent, the locks of directories and of what is
    changed, the lookup of the last component under them, the checks, the
    delegations that have to be broken first and the retries.

    The walk to a parent is [filename_parentat] of [PathWalk], so a policy
    decides about every component but the last, which is looked up under the
    lock as it is.  The dentry cache, permissions, security modules,
    delegations and file systems are the fields of [vchange].  Audit records,
    notifications and the security hooks without a result are left out.

    The code runs in a monad whose state has, besides the walk, what the call
    holds: a lock taken twice, a lock or a reference given back that is not
    held, an inode that is not there, a BUG_ON and a read behind a name crash. *)

From stdpp Require Import gmultiset.
From S2P Require Import Prelude Abi Kernel Targets Lookup Walk PathWalk PathOpen.

Definition S_IALLUGO : Z := 0xfff.
Definition S_IRWXUGO : Z := 0x1ff.
Definition S_ISUID : Z := 0x800.
Definition S_ISGID : Z := 0x400.
Definition S_IXGRP : Z := 0x8.
Definition MAY_READ : Z := 4.
Definition WHITEOUT_DEV : Z := 0.
Definition RENAME_NOREPLACE : Z := 1.
Definition RENAME_EXCHANGE : Z := 2.
Definition RENAME_WHITEOUT : Z := 4.
Definition AT_SYMLINK_FOLLOW : Z := 0x400.
Definition AT_REMOVEDIR : Z := 0x200.
Definition AT_EMPTY_PATH : Z := 0x1000.

#[export] Instance inode_eq_dec : EqDecision inode.
Proof. solve_decision. Defined.
#[export] Instance inode_countable : Countable inode.
Proof.
  refine (inj_countable' (λ i, (i_sdev i, i_ino i, i_generation i))
            (λ '(s, n, g), mk_inode s n g) _).
  by intros [].
Defined.

(** ** What a call holds

    Locks: [i_rwsem] of an inode, exclusively, and [s_vfs_rename_mutex] of a
    file system.  References: write access to a mount, a dentry, an inode. *)
Inductive resource :=
  | RInode (i : inode) | RRename (sb : Z) | RWrite (mnt : Z) | RDentry (d : Z) | RHold (i : inode).

#[export] Instance resource_eq_dec : EqDecision resource.
Proof. solve_decision. Defined.
#[export] Instance resource_countable : Countable resource.
Proof.
  refine (inj_countable'
    (λ r, match r with
          | RInode i => inl (inl i) | RRename s => inl (inr (inl s)) | RWrite m => inl (inr (inr m))
          | RDentry d => inr (inl d) | RHold i => inr (inr i) end)
    (λ s, match s with
          | inl (inl i) => RInode i | inl (inr (inl s)) => RRename s | inl (inr (inr m)) => RWrite m
          | inr (inl d) => RDentry d | inr (inr i) => RHold i end) _).
  by intros [].
Defined.

(** The calls of a file system on a directory. *)
Inductive dir_op := OpCreate | OpMknod | OpMkdir | OpRmdir | OpUnlink | OpSymlink | OpLink | OpRename.

(** The calls of security modules. *)
Inductive hook :=
  | HPathMknod (d mode dev : Z) | HInodeCreate (dir : inode) (d mode : Z)
  | HDevcgroup (mode dev : Z) | HInodeMknod (dir : inode) (d mode dev : Z)
  | HPathMkdir (d mode : Z) | HInodeMkdir (dir : inode) (d mode : Z)
  | HPathRmdir (d : Z) | HInodeRmdir (dir : inode) (d : Z)
  | HPathUnlink (d : Z) | HInodeUnlink (dir : inode) (d : Z)
  | HPathSymlink (d : Z) (old : list Z) | HInodeSymlink (dir : inode) (d : Z) (old : list Z)
  | HPathLink (old new : Z) | HInodeLink (old : Z) (dir : inode) (new : Z)
  | HPathRename (old new flags : Z) | HInodeRename (d1 : inode) (old : Z) (d2 : inode) (new flags : Z).

(** ** The functions the calls call *)
Record vchange (W : Type) := mk_vchange {
  (** dentries: [d_inode] (none: negative), [d_parent], [d_is_dir], the
      superblock, [d_backing_inode], DCACHE_NFSFS_RENAMED *)
  c_inode : W → Z → option inode;
  c_parent : W → Z → Z;
  c_is_dir : W → Z → bool;
  c_sb : Z → Z;
  c_backing_inode : W → Z → option inode;
  c_nfs_renamed : W → Z → bool;
  (** inodes: [i_sb], [i_mode], [i_nlink], [s_max_links] of a superblock, and the
      flags IS_APPEND, IS_IMMUTABLE, IS_SWAPFILE, IS_DEADDIR, S_KERNEL_FILE and
      I_LINKABLE; the owner and the group are valid, both are mapped *)
  c_i_sb : inode → Z;
  c_mode : W → inode → Z;
  c_nlink : W → inode → Z;
  c_max_links : Z → Z;
  c_append : W → inode → bool;
  c_immutable : W → inode → bool;
  c_swapfile : W → inode → bool;
  c_dead : W → inode → bool;
  c_kernel_file : W → inode → bool;
  c_linkable : W → inode → bool;
  c_valid_ids : W → Z → inode → bool;
  c_unmapped_id : W → Z → inode → bool;
  (** permissions: [inode_permission], [check_sticky], [fsuidgid_has_mapping],
      [inode_owner_or_capable], [capable(CAP_MKNOD)], the sysctl *)
  c_permission : W → Z → inode → Z → Z;
  c_check_sticky : W → Z → inode → inode → bool;
  c_has_mapping : Z → Z → bool;
  c_owner_or_capable : W → Z → inode → bool;
  c_capable_mknod : bool;
  c_protected_hardlinks : bool;
  (** of a new file: the device, [new_decode_dev]; the mode, [mode_strip_sgid],
      [mode_strip_umask] *)
  c_decode_dev : Z → Z;
  c_strip_sgid : Z → inode → Z → Z;
  c_strip_umask : inode → Z → Z;
  c_security : W → hook → Z;
  (** [is_local_mountpoint], [mnt_want_write] *)
  c_mountpoint : W → Z → bool;
  c_want_write : W → Z → Z;
  (** delegations: [try_break_deleg], with whether to wait, [break_deleg_wait];
      [retry_estale] *)
  c_try_break_deleg : W → inode → Z * bool;
  c_break_deleg_wait : W → Z * W;
  c_retry_estale : Z → flags_t → bool;
  (** the dentry cache: [d_lookup], [d_revalidate], [d_invalidate], [d_alloc];
      [d_delete_notify], [shrink_dcache_parent], [dont_mount],
      [detach_mounts], [d_move], [d_exchange] *)
  c_d_lookup : W → Z → qstr → option Z;
  c_revalidate : W → Z → flags_t → Z;
  c_invalidate : W → Z → W;
  c_d_alloc : W → Z → qstr → option Z * W;
  c_d_delete : W → Z → W;
  c_shrink : W → Z → W;
  c_dont_mount : W → Z → W;
  c_detach_mounts : W → Z → W;
  c_d_move : W → Z → Z → W;
  c_d_exchange : W → Z → Z → W;
  (** [i_flags |= S_DEAD], [inode_state_clear(I_LINKABLE)] *)
  c_set_dead : W → inode → W;
  c_clear_linkable : W → inode → W;
  (** file systems: the calls a directory has, FS_RENAME_DOES_D_MOVE, the calls *)
  c_has : dir_op → inode → bool;
  c_does_d_move : Z → bool;
  c_lookup : W → inode → Z → flags_t → dentry_res * W;
  c_create : W → inode → Z → Z → Z * W;
  c_mknod : W → inode → Z → Z → Z → Z * W;
  c_mkdir : W → inode → Z → Z → dentry_res * W;
  c_rmdir : W → inode → Z → Z * W;
  c_unlink : W → inode → Z → Z * W;
  c_symlink : W → inode → Z → list Z → Z * W;
  c_link : W → Z → inode → Z → Z * W;
  c_rename : W → inode → Z → inode → Z → Z → Z * W
}.
Arguments c_inode {W} _ _ _.
Arguments c_parent {W} _ _ _.
Arguments c_is_dir {W} _ _ _.
Arguments c_sb {W} _ _.
Arguments c_backing_inode {W} _ _ _.
Arguments c_nfs_renamed {W} _ _ _.
Arguments c_i_sb {W} _ _.
Arguments c_mode {W} _ _ _.
Arguments c_nlink {W} _ _ _.
Arguments c_max_links {W} _ _.
Arguments c_append {W} _ _ _.
Arguments c_immutable {W} _ _ _.
Arguments c_swapfile {W} _ _ _.
Arguments c_dead {W} _ _ _.
Arguments c_kernel_file {W} _ _ _.
Arguments c_linkable {W} _ _ _.
Arguments c_valid_ids {W} _ _ _ _.
Arguments c_unmapped_id {W} _ _ _ _.
Arguments c_permission {W} _ _ _ _ _.
Arguments c_check_sticky {W} _ _ _ _ _.
Arguments c_has_mapping {W} _ _ _.
Arguments c_owner_or_capable {W} _ _ _ _.
Arguments c_capable_mknod {W} _.
Arguments c_protected_hardlinks {W} _.
Arguments c_decode_dev {W} _ _.
Arguments c_strip_sgid {W} _ _ _ _.
Arguments c_strip_umask {W} _ _ _.
Arguments c_security {W} _ _ _.
Arguments c_mountpoint {W} _ _ _.
Arguments c_want_write {W} _ _ _.
Arguments c_try_break_deleg {W} _ _ _.
Arguments c_break_deleg_wait {W} _ _.
Arguments c_retry_estale {W} _ _ _.
Arguments c_d_lookup {W} _ _ _ _.
Arguments c_revalidate {W} _ _ _ _.
Arguments c_invalidate {W} _ _ _.
Arguments c_d_alloc {W} _ _ _ _.
Arguments c_d_delete {W} _ _ _.
Arguments c_shrink {W} _ _ _.
Arguments c_dont_mount {W} _ _ _.
Arguments c_detach_mounts {W} _ _ _.
Arguments c_d_move {W} _ _ _ _.
Arguments c_d_exchange {W} _ _ _ _.
Arguments c_set_dead {W} _ _ _.
Arguments c_clear_linkable {W} _ _ _.
Arguments c_has {W} _ _ _.
Arguments c_does_d_move {W} _ _.
Arguments c_lookup {W} _ _ _ _ _.
Arguments c_create {W} _ _ _ _ _.
Arguments c_mknod {W} _ _ _ _ _ _.
Arguments c_mkdir {W} _ _ _ _ _.
Arguments c_rmdir {W} _ _ _ _.
Arguments c_unlink {W} _ _ _ _.
Arguments c_symlink {W} _ _ _ _ _.
Arguments c_link {W} _ _ _ _ _.
Arguments c_rename {W} _ _ _ _ _ _ _.

(** ** The monad *)

Inductive fault := SelfDeadlock | NotHeld | NullDereference | OutOfBounds | BugOn | NoFuel.

(** [ch_delegated]: a delegation is waiting to be broken ([is_delegated]). *)
Record change (W : Type) := mk_change {
  ch_walk : walk W; ch_held : gmultiset resource; ch_delegated : bool }.
Arguments mk_change {W} _ _ _.
Arguments ch_walk {W} _.
Arguments ch_held {W} _.
Arguments ch_delegated {W} _.

Inductive outcome (W A : Type) := Done (a : A) (s : change W) | Crash (f : fault).
Arguments Done {W A} _ _.
Arguments Crash {W A} _.

Definition M (W A : Type) : Type := change W → outcome W A.
#[export] Instance M_ret W : MRet (M W) := λ A a s, Done a s.
#[export] Instance M_bind W : MBind (M W) := λ A B f m s,
  match m s with Done a s => f a s | Crash f => Crash f end.

Notation "'check' m ; k" := (e ← m; if negb (e =? 0) then mret e else k)
  (at level 20, m at level 100, k at level 200, right associativity,
   format "'check'  m ;  '/' k").

(** What the end of a function does: return from the system call, or go on to
    the end of it, where delegations are waited for and [keep] is put. *)
Inductive exit := Return (e : Z) | Finish (e : Z) (keep : list path).

Section monad.
Context {W : Type}.

Definition crash {A} (f : fault) : M W A := λ _, Crash f.
Definition ask {A} (f : W → A) : M W A := λ s, Done (f (wk_maps (ch_walk s))) s.
Definition on_walk (f : walk W → walk W) : M W () :=
  λ s, Done () (mk_change (f (ch_walk s)) (ch_held s) (ch_delegated s)).
Definition world {A} (f : W → A * W) : M W A := λ s,
  let '(a, w) := f (wk_maps (ch_walk s)) in
  Done a (mk_change (with_maps w (ch_walk s)) (ch_held s) (ch_delegated s)).
Definition become (f : W → W) : M W () := world (λ w, ((), f w)).

(** References are counted; a lock is held once. *)
Definition take (r : resource) : M W () := λ s,
  Done () (mk_change (ch_walk s) (ch_held s ⊎ {[+ r +]}) (ch_delegated s)).
Definition drop (r : resource) : M W () := λ s,
  if decide (r ∈ ch_held s)
  then Done () (mk_change (ch_walk s) (ch_held s ∖ {[+ r +]}) (ch_delegated s))
  else Crash NotHeld.
Definition lock (r : resource) : M W () := λ s,
  if decide (r ∈ ch_held s) then Crash SelfDeadlock else take r s.

Definition set_delegated (b : bool) : M W () :=
  λ s, Done () (mk_change (ch_walk s) (ch_held s) b).
Definition is_delegated : M W bool := λ s, Done (ch_delegated s) s.

Definition the {A} (x : option A) : M W A :=
  match x with Some a => mret a | None => crash NullDereference end.
Definition unless (b : bool) (m : M W ()) : M W () := if b then mret () else m.

(** [name[len]] *)
Definition after_name (q : qstr) : M W bool :=
  match q_name q !! Z.to_nat (q_len q) with
  | Some b => mret (negb (b =? 0))
  | None => crash OutOfBounds
  end.
End monad.

Section changes.
Context {W : Type} (E : vfs W) (C : vchange W).

Definition d_inode (d : Z) : M W (option inode) := ask (λ w, c_inode C w d).
(** [d->d_inode], followed. *)
Definition inode_of (d : Z) : M W inode := i ← d_inode d; the i.
Definition d_is_negative (d : Z) : M W bool := i ← d_inode d; mret (bool_decide (i = None)).
Definition d_is_dir (d : Z) : M W bool := ask (λ w, c_is_dir C w d).
Definition d_parent (d : Z) : M W Z := ask (λ w, c_parent C w d).

Definition inode_lock (i : inode) : M W () := lock (RInode i).
Definition inode_unlock (i : inode) : M W () := drop (RInode i).
Definition dget (d : Z) : M W () := take (RDentry d).
Definition dput (d : Z) : M W () := drop (RDentry d).
Definition inode_permission (mnt : Z) (i : inode) (mask : Z) : M W Z :=
  ask (λ w, c_permission C w mnt i mask).
Definition security (h : hook) : M W Z := ask (λ w, c_security C w h).
Definition mnt_want_write (mnt : Z) : M W Z :=
  error ← ask (λ w, c_want_write C w mnt);
  unless (negb (error =? 0)) (take (RWrite mnt));;
  mret error.
Definition mnt_drop_write (mnt : Z) : M W () := drop (RWrite mnt).
Definition path_put (p : path) : M W () := on_walk (put_path p).

Definition try_break_deleg (i : inode) : M W Z :=
  '(error, delegated) ← ask (λ w, c_try_break_deleg C w i);
  unless (negb delegated) (set_delegated true);;
  mret error.
Definition break_deleg_wait : M W Z :=
  set_delegated false;;
  world (c_break_deleg_wait C).

(** ** The last component, under the lock of its directory *)

Definition lookup_dcache (name : qstr) (dir : Z) (flags : flags_t) : M W dentry_res :=
  dentry ← ask (λ w, c_d_lookup C w dir name);
  match dentry with
  | None => mret PNull
  | Some d =>
      dget d;;
      error ← ask (λ w, c_revalidate C w d flags);
      if error <=? 0 then
        unless (negb (error =? 0)) (become (λ w, c_invalidate C w d));;
        dput d;;
        mret (if error =? 0 then PNull else PErr error)
      else mret (PPtr d)
  end.

(** No dentry in the cache: the file system's. *)
Definition lookup_uncached (name : qstr) (base : Z) (flags : flags_t) : M W dentry_res :=
  dir ← inode_of base;
  dead ← ask (λ w, c_dead C w dir);
  if dead : bool then mret (PErr (- ENOENT)) else
  dentry ← world (λ w, c_d_alloc C w base name);
  match dentry with
  | None => mret (PErr (- ENOMEM))
  | Some d =>
      dget d;;
      old ← world (λ w, c_lookup C w dir d flags);
      match old with
      | PNull => mret (PPtr d)
      | PPtr d' => dget d';; dput d;; mret (PPtr d')
      | PErr e => dput d;; mret (PErr e)
      end
  end.

Definition lookup_one_qstr_excl (name : qstr) (base : Z) (flags : flags_t) : M W dentry_res :=
  dentry ← lookup_dcache name base flags;
  dentry ← match dentry with
           | PNull => lookup_uncached name base flags
           | r => mret r
           end;
  match dentry with
  | PPtr d =>
      negative ← d_is_negative d;
      if negative && negb (fl LOOKUP_CREATE flags) then dput d;; mret (PErr (- ENOENT)) else
      if negb negative && fl LOOKUP_EXCL flags then dput d;; mret (PErr (- EEXIST)) else
      mret (PPtr d)
  | r => mret r
  end.

Definition start_dirop (parent : Z) (name : qstr) (lookup_flags : flags_t) : M W dentry_res :=
  dir ← inode_of parent;
  inode_lock dir;;
  dentry ← lookup_one_qstr_excl name parent lookup_flags;
  match dentry with
  | PErr e => inode_unlock dir;; mret (PErr e)
  | r => mret r
  end.

Definition end_dirop (de : dentry_res) : M W () :=
  match de with
  | PErr _ => mret ()
  | PNull => crash NullDereference
  | PPtr d =>
      parent ← d_parent d;
      dir ← inode_of parent;
      inode_unlock dir;;
      dput d
  end.

(** ** What may be created and deleted *)

Definition may_create_dentry (mnt : Z) (dir : inode) (child : Z) : M W Z :=
  negative ← d_is_negative child;
  if negb negative then mret (- EEXIST) else
  dead ← ask (λ w, c_dead C w dir);
  if dead : bool then mret (- ENOENT) else
  if negb (c_has_mapping C (c_i_sb C dir) mnt) then mret (- EOVERFLOW) else
  inode_permission mnt dir (Z.lor MAY_WRITE MAY_EXEC).

Definition may_delete_dentry (mnt : Z) (dir : inode) (victim : Z) (isdir : bool) : M W Z :=
  inode ← ask (λ w, c_backing_inode C w victim);
  negative ← d_is_negative victim;
  if negative : bool then mret (- ENOENT) else
  match inode with
  | None => crash BugOn
  | Some inode =>
      parent ← d_parent victim;
      parent_inode ← inode_of parent;
      if negb (bool_decide (parent_inode = dir)) then crash BugOn else
      valid ← ask (λ w, c_valid_ids C w mnt inode);
      if negb valid then mret (- EOVERFLOW) else
      check inode_permission mnt dir (Z.lor MAY_WRITE MAY_EXEC);
      append ← ask (λ w, c_append C w dir);
      if append : bool then mret (- EPERM) else
      refused ← ask (λ w, c_check_sticky C w mnt dir inode || c_append C w inode ||
                          c_immutable C w inode || c_swapfile C w inode ||
                          c_unmapped_id C w mnt inode);
      if refused : bool then mret (- EPERM) else
      victim_is_dir ← d_is_dir victim;
      if isdir && negb victim_is_dir then mret (- ENOTDIR) else
      if isdir && (parent =? victim) then mret (- EBUSY) else
      if negb isdir && victim_is_dir then mret (- EISDIR) else
      dead ← ask (λ w, c_dead C w dir);
      if dead : bool then mret (- ENOENT) else
      renamed ← ask (λ w, c_nfs_renamed C w victim);
      mret (if renamed : bool then - EBUSY else 0)
  end.

Definition vfs_prepare_mode (mnt : Z) (dir : inode) (mode mask_perms type : Z) : Z :=
  let mode := c_strip_umask C dir (c_strip_sgid C mnt dir mode) in
  Z.lor (Z.land mode (Z.ldiff mask_perms S_IFMT)) (Z.land type S_IFMT).

Definition is_type (mode type : Z) : bool := Z.land mode S_IFMT =? type.

(** ** The calls on a directory entry *)

Definition vfs_create (mnt : Z) (dentry mode : Z) : M W Z :=
  parent ← d_parent dentry;
  dir ← inode_of parent;
  check may_create_dentry mnt dir dentry;
  if negb (c_has C OpCreate dir) then mret (- EACCES) else
  let mode := vfs_prepare_mode mnt dir mode S_IALLUGO S_IFREG in
  check security (HInodeCreate dir dentry mode);
  check try_break_deleg dir;
  world (λ w, c_create C w dir dentry mode).

Definition vfs_mknod (mnt : Z) (dir : inode) (dentry mode dev : Z) : M W Z :=
  let is_whiteout := is_type mode S_IFCHR && (dev =? WHITEOUT_DEV) in
  check may_create_dentry mnt dir dentry;
  if (is_type mode S_IFCHR || is_type mode S_IFBLK) && negb is_whiteout &&
     negb (c_capable_mknod C)
  then mret (- EPERM) else
  if negb (c_has C OpMknod dir) then mret (- EPERM) else
  let mode := vfs_prepare_mode mnt dir mode mode mode in
  check security (HDevcgroup mode dev);
  check security (HInodeMknod dir dentry mode dev);
  check try_break_deleg dir;
  world (λ w, c_mknod C w dir dentry mode dev).

(** An error ends the creation: the lock and the dentry are given back. *)
Definition vfs_mkdir (mnt : Z) (dir : inode) (dentry mode : Z) : M W dentry_res :=
  let max_links := c_max_links C (c_i_sb C dir) in
  let err (error : Z) : M W dentry_res := end_dirop (PPtr dentry);; mret (PErr error) in
  error ← may_create_dentry mnt dir dentry;
  if negb (error =? 0) then err error else
  if negb (c_has C OpMkdir dir) then err (- EPERM) else
  let mode := vfs_prepare_mode mnt dir mode (Z.lor S_IRWXUGO S_ISVTX) 0 in
  error ← security (HInodeMkdir dir dentry mode);
  if negb (error =? 0) then err error else
  nlink ← ask (λ w, c_nlink C w dir);
  if negb (max_links =? 0) && (max_links <=? nlink) then err (- EMLINK) else
  error ← try_break_deleg dir;
  if negb (error =? 0) then err error else
  de ← world (λ w, c_mkdir C w dir dentry mode);
  match de with
  | PErr e => err e
  | PNull => mret (PPtr dentry)
  | PPtr d => dget d;; dput dentry;; mret (PPtr d)
  end.

(** What it does once the directory is locked. *)
Definition rmdir_locked (dir : inode) (dentry : Z) : M W Z :=
  busy ← ask (λ w, c_mountpoint C w dentry);
  inode ← inode_of dentry;
  kernel_file ← ask (λ w, c_kernel_file C w inode);
  if busy || kernel_file then mret (- EBUSY) else
  check security (HInodeRmdir dir dentry);
  check try_break_deleg dir;
  check world (λ w, c_rmdir C w dir dentry);
  become (λ w, c_shrink C w dentry);;
  inode ← inode_of dentry;
  become (λ w, c_set_dead C w inode);;
  become (λ w, c_dont_mount C w dentry);;
  become (λ w, c_detach_mounts C w dentry);;
  mret 0.

Definition vfs_rmdir (mnt : Z) (dir : inode) (dentry : Z) : M W Z :=
  check may_delete_dentry mnt dir dentry true;
  if negb (c_has C OpRmdir dir) then mret (- EPERM) else
  dget dentry;;
  inode ← inode_of dentry;
  inode_lock inode;;
  error ← rmdir_locked dir dentry;
  inode ← inode_of dentry;
  inode_unlock inode;;
  dput dentry;;
  unless (negb (error =? 0)) (become (λ w, c_d_delete C w dentry));;
  mret error.

Definition unlink_locked (dir target : inode) (dentry : Z) : M W Z :=
  swapfile ← ask (λ w, c_swapfile C w target);
  if swapfile : bool then mret (- EPERM) else
  busy ← ask (λ w, c_mountpoint C w dentry);
  if busy : bool then mret (- EBUSY) else
  check security (HInodeUnlink dir dentry);
  check try_break_deleg dir;
  check try_break_deleg target;
  check world (λ w, c_unlink C w dir dentry);
  become (λ w, c_dont_mount C w dentry);;
  become (λ w, c_detach_mounts C w dentry);;
  mret 0.

Definition vfs_unlink (mnt : Z) (dir : inode) (dentry : Z) : M W Z :=
  target ← d_inode dentry;
  check may_delete_dentry mnt dir dentry false;
  if negb (c_has C OpUnlink dir) then mret (- EPERM) else
  target ← the target;
  inode_lock target;;
  error ← unlink_locked dir target dentry;
  inode_unlock target;;
  renamed ← ask (λ w, c_nfs_renamed C w dentry);
  unless (negb (error =? 0) || renamed) (become (λ w, c_d_delete C w dentry));;
  mret error.

Definition vfs_symlink (mnt : Z) (dir : inode) (dentry : Z) (oldname : list Z) : M W Z :=
  check may_create_dentry mnt dir dentry;
  if negb (c_has C OpSymlink dir) then mret (- EPERM) else
  check security (HInodeSymlink dir dentry oldname);
  check try_break_deleg dir;
  world (λ w, c_symlink C w dir dentry oldname).

(** ** Links *)

Definition safe_hardlink_source (mnt : Z) (inode : inode) : M W bool :=
  mode ← ask (λ w, c_mode C w inode);
  if negb (is_type mode S_IFREG) then mret false else
  if bits S_ISUID mode then mret false else
  if Z.land mode (Z.lor S_ISGID S_IXGRP) =? Z.lor S_ISGID S_IXGRP then mret false else
  error ← inode_permission mnt inode (Z.lor MAY_READ MAY_WRITE);
  mret (error =? 0).

Definition may_linkat (mnt : Z) (link : path) : M W Z :=
  inode ← inode_of (p_dentry link);
  valid ← ask (λ w, c_valid_ids C w mnt inode);
  if negb valid then mret (- EOVERFLOW) else
  if negb (c_protected_hardlinks C) then mret 0 else
  safe ← safe_hardlink_source mnt inode;
  if safe : bool then mret 0 else
  owner ← ask (λ w, c_owner_or_capable C w mnt inode);
  mret (if owner : bool then 0 else - EPERM).

Definition link_locked (old_dentry : Z) (inode dir : inode) (new_dentry : Z) : M W Z :=
  let max_links := c_max_links C (c_i_sb C dir) in
  nlink ← ask (λ w, c_nlink C w inode);
  linkable ← ask (λ w, c_linkable C w inode);
  error ←
    (if (nlink =? 0) && negb linkable then mret (- ENOENT) else
     if negb (max_links =? 0) && (max_links <=? nlink) then mret (- EMLINK) else
     check try_break_deleg dir;
     check try_break_deleg inode;
     world (λ w, c_link C w old_dentry dir new_dentry));
  linkable ← ask (λ w, c_linkable C w inode);
  unless (negb (error =? 0) || negb linkable) (become (λ w, c_clear_linkable C w inode));;
  mret error.

Definition vfs_link (old_dentry : Z) (mnt : Z) (dir : inode) (new_dentry : Z) : M W Z :=
  inode ← d_inode old_dentry;
  match inode with
  | None => mret (- ENOENT)
  | Some inode =>
      check may_create_dentry mnt dir new_dentry;
      if negb (c_i_sb C dir =? c_i_sb C inode) then mret (- EXDEV) else
      refused ← ask (λ w, c_append C w inode || c_immutable C w inode);
      if refused : bool then mret (- EPERM) else
      unmapped ← ask (λ w, c_unmapped_id C w mnt inode);
      if unmapped : bool then mret (- EPERM) else
      if negb (c_has C OpLink dir) then mret (- EPERM) else
      mode ← ask (λ w, c_mode C w inode);
      if is_type mode S_IFDIR then mret (- EPERM) else
      check security (HInodeLink old_dentry dir new_dentry);
      inode_lock inode;;
      error ← link_locked old_dentry inode dir new_dentry;
      inode_unlock inode;;
      mret error
  end.

(** ** Renames: the locks of two directories

    The loops climb from a directory until the next step would reach [goal] or
    does not move; [stop] is another directory to stop below. *)
Fixpoint climb (fuel : nat) (goal : Z) (stop : option Z) (p : Z) : M W (Z * Z) :=
  match fuel with
  | O => crash NoFuel
  | S fuel' =>
      r ← d_parent p;
      if negb (r =? goal) && negb (bool_decide (stop = Some r)) && negb (r =? p)
      then climb fuel' goal stop r else mret (p, r)
  end.

Variable climbs : nat.

Definition rename_mutex (d : Z) : resource := RRename (c_sb C d).

Definition lock_two_directories (p1 p2 : Z) : M W dentry_res :=
  '(p, r) ← climb climbs p2 None p1;
  if r =? p2 then
    i ← inode_of p2; inode_lock i;;
    i ← inode_of p1; inode_lock i;;
    mret (PPtr p)
  else
  '(q, r) ← climb climbs p1 (Some p) p2;
  if r =? p1 then
    i ← inode_of p1; inode_lock i;;
    i ← inode_of p2; inode_lock i;;
    mret (PPtr q)
  else if r =? p then
    i ← inode_of p1; inode_lock i;;
    i ← inode_of p2; inode_lock i;;
    mret PNull
  else
    drop (rename_mutex p1);;
    mret (PErr (- EXDEV)).

Definition lock_rename (p1 p2 : Z) : M W dentry_res :=
  if p1 =? p2 then
    i ← inode_of p1; inode_lock i;; mret PNull
  else
    lock (rename_mutex p1);;
    lock_two_directories p1 p2.

Definition unlock_rename (p1 p2 : Z) : M W () :=
  i ← inode_of p1; inode_unlock i;;
  unless (p1 =? p2) (
    i ← inode_of p2; inode_unlock i;;
    drop (rename_mutex p1)).

(** struct renamedata, before and after the two names have been looked up. *)
Record renamedata := mk_rd {
  rd_mnt : Z; rd_old_parent : Z; rd_new_parent : Z; rd_flags : Z;
  rd_old_dentry : Z; rd_new_dentry : Z }.

Definition found (rd : renamedata) (d1 d2 : Z) : renamedata :=
  mk_rd (rd_mnt rd) (rd_old_parent rd) (rd_new_parent rd) (rd_flags rd) d1 d2.

Definition is_dentry (d : Z) (r : dentry_res) : bool :=
  match r with PPtr t => d =? t | PNull => d =? NULL | PErr _ => false end.

Definition start_renaming (rd : renamedata) (lookup_flags : flags_t) (old_last new_last : qstr)
  : M W (Z + renamedata) :=
  let exchange := bits RENAME_EXCHANGE (rd_flags rd) in
  let target_flags : flags_t := if exchange then ∅ else {[LOOKUP_RENAME_TARGET; LOOKUP_CREATE]} in
  let target_flags := if bits RENAME_NOREPLACE (rd_flags rd)
                      then target_flags ∪ {[LOOKUP_EXCL]} else target_flags in
  let unlock := unlock_rename (rd_old_parent rd) (rd_new_parent rd) in
  trap ← lock_rename (rd_old_parent rd) (rd_new_parent rd);
  match trap with
  | PErr e => mret (inl e)
  | trap =>
      d1 ← lookup_one_qstr_excl old_last (rd_old_parent rd) lookup_flags;
      match d1 with
      | PErr e => unlock;; mret (inl e)
      | PNull => crash NullDereference
      | PPtr d1 =>
          d2 ← lookup_one_qstr_excl new_last (rd_new_parent rd) (lookup_flags ∪ target_flags);
          match d2 with
          | PErr e => dput d1;; unlock;; mret (inl e)
          | PNull => crash NullDereference
          | PPtr d2 =>
              if is_dentry d1 trap then dput d2;; dput d1;; unlock;; mret (inl (- EINVAL)) else
              if is_dentry d2 trap then
                dput d2;; dput d1;; unlock;;
                mret (inl (if exchange then - EINVAL else - ENOTEMPTY))
              else
              dget (rd_old_parent rd);;
              mret (inr (found rd d1 d2))
          end
      end
  end.

Definition end_renaming (rd : renamedata) : M W () :=
  unlock_rename (rd_old_parent rd) (rd_new_parent rd);;
  dput (rd_old_dentry rd);;
  dput (rd_new_dentry rd);;
  dput (rd_old_parent rd).

(** ** Renames: the move *)

(** [lock_two_nondirectories]: those that are there, once each; their order is
    that of addresses. *)
Definition lock_two_nondirectories (i1 i2 : option inode) : M W () :=
  match i1 with Some i => inode_lock i | None => mret () end;;
  match i2 with
  | Some i => unless (bool_decide (i1 = i2)) (inode_lock i)
  | None => mret ()
  end.

(** The children to lock: the source, the target. *)
Definition lock_old_subdir (old_dir new_dir : inode) : bool :=
  negb (bool_decide (new_dir = old_dir)).
Definition lock_new_subdir (old_dir new_dir : inode) (flags : Z) : bool :=
  negb (bool_decide (new_dir = old_dir)) || negb (bits RENAME_EXCHANGE flags).

Definition lock_children (old_dir new_dir source : inode) (target : option inode)
  (is_dir new_is_dir : bool) (flags : Z) : M W () :=
  let lock_new := lock_new_subdir old_dir new_dir flags in
  if is_dir then
    unless (negb (lock_old_subdir old_dir new_dir)) (inode_lock source);;
    match target with
    | Some t => unless (new_is_dir && negb lock_new) (inode_lock t)
    | None => mret ()
    end
  else if new_is_dir then
    unless (negb lock_new) (t ← the target; inode_lock t);;
    inode_lock source
  else lock_two_nondirectories (Some source) target.

Definition unlock_children (old_dir new_dir source : inode) (target : option inode)
  (is_dir new_is_dir : bool) (flags : Z) : M W () :=
  unless (is_dir && negb (lock_old_subdir old_dir new_dir)) (inode_unlock source);;
  match target with
  | Some t => unless (new_is_dir && negb (lock_new_subdir old_dir new_dir flags)) (inode_unlock t)
  | None => mret ()
  end.

(** [try_break_deleg] of an inode, where it applies. *)
Definition break_if (b : bool) (i : option inode) : M W Z :=
  if b then i ← the i; try_break_deleg i else mret 0.

(** From the locks of the children to [out]. *)
Definition rename_locked (rd : renamedata) (old_dir new_dir source : inode)
  (target : option inode) (is_dir new_is_dir : bool) : M W Z :=
  let old_dentry := rd_old_dentry rd in
  let new_dentry := rd_new_dentry rd in
  let exchange := bits RENAME_EXCHANGE (rd_flags rd) in
  let across := negb (bool_decide (new_dir = old_dir)) in
  let max_links := c_max_links C (c_i_sb C new_dir) in
  swapfile ← ask (λ w, c_swapfile C w source || from_option (c_swapfile C w) false target);
  if swapfile : bool then mret (- EPERM) else
  busy ← ask (λ w, c_mountpoint C w old_dentry || c_mountpoint C w new_dentry);
  if busy : bool then mret (- EBUSY) else
  new_nlink ← ask (λ w, c_nlink C w new_dir);
  old_nlink ← ask (λ w, c_nlink C w old_dir);
  if negb (max_links =? 0) && across &&
     (is_dir && negb new_is_dir && (max_links <=? new_nlink) ||
      exchange && negb is_dir && new_is_dir && (max_links <=? old_nlink))
  then mret (- EMLINK) else
  check try_break_deleg old_dir;
  check break_if across (Some new_dir);
  check break_if (negb is_dir) (Some source);
  check break_if (bool_decide (target ≠ None) && negb new_is_dir) target;
  check world (λ w, c_rename C w old_dir old_dentry new_dir new_dentry (rd_flags rd));
  match target with
  | Some t =>
      unless exchange (
        unless (negb is_dir) (
          become (λ w, c_shrink C w new_dentry);;
          become (λ w, c_set_dead C w t));;
        become (λ w, c_dont_mount C w new_dentry);;
        become (λ w, c_detach_mounts C w new_dentry))
  | None => mret ()
  end;;
  unless (c_does_d_move C (c_i_sb C old_dir)) (
    if exchange then become (λ w, c_d_exchange C w old_dentry new_dentry)
    else become (λ w, c_d_move C w old_dentry new_dentry));;
  mret 0.

Definition vfs_rename (rd : renamedata) : M W Z :=
  let old_dentry := rd_old_dentry rd in
  let new_dentry := rd_new_dentry rd in
  let flags := rd_flags rd in
  old_dir ← inode_of (rd_old_parent rd);
  new_dir ← inode_of (rd_new_parent rd);
  is_dir ← d_is_dir old_dentry;
  source ← d_inode old_dentry;
  target ← d_inode new_dentry;
  if bool_decide (source = target) then mret 0 else
  check may_delete_dentry (rd_mnt rd) old_dir old_dentry is_dir;
  target_is_dir ← d_is_dir new_dentry;
  let new_is_dir := bool_decide (target ≠ None) && target_is_dir in
  check
    (if bool_decide (target = None) then may_create_dentry (rd_mnt rd) new_dir new_dentry else
     may_delete_dentry (rd_mnt rd) new_dir new_dentry
       (if bits RENAME_EXCHANGE flags then new_is_dir else is_dir));
  if negb (c_has C OpRename old_dir) then mret (- EPERM) else
  source ← the source;
  check
    (if negb (bool_decide (new_dir = old_dir)) && is_dir
     then inode_permission (rd_mnt rd) source MAY_WRITE else mret 0);
  check
    (if negb (bool_decide (new_dir = old_dir)) && bits RENAME_EXCHANGE flags && new_is_dir
     then t ← the target; inode_permission (rd_mnt rd) t MAY_WRITE else mret 0);
  check security (HInodeRename old_dir old_dentry new_dir new_dentry flags);
  dget new_dentry;;
  lock_children old_dir new_dir source target is_dir new_is_dir flags;;
  error ← rename_locked rd old_dir new_dir source target is_dir new_is_dir;
  unlock_children old_dir new_dir source target is_dir new_is_dir flags;;
  dput new_dentry;;
  mret error.

(** ** System calls

    [retries] bounds the delegations waited for and the second attempts. *)

Section calls.
Variables (enabled : bool) (managed : path → bool) (buf : namei_ext_redirect).
Variables (links fuel retries : nat) (nested : Z).

(** The error; with 0 the parent, the last component and its type. *)
Definition parentat (dfd : Z) (name : list Z) (flags : flags_t)
  : M W (Z * path * qstr * last_type) := λ s,
  match filename_parentat E enabled managed buf fuel nested dfd name flags None (ch_walk s) with
  | None => Crash NoFuel
  | Some (err, p, st) =>
      Done (err, p, nd_last (wk_nd st), nd_last_type (wk_nd st))
        (mk_change st (ch_held s) (ch_delegated s))
  end.

Definition lookupat (dfd : Z) (name : list Z) (flags : flags_t) : M W (Z * path) := λ s,
  match filename_lookup E enabled managed buf links fuel nested dfd name flags None (ch_walk s) with
  | None => Crash NoFuel
  | Some (err, p, st) => Done (err, p) (mk_change st (ch_held s) (ch_delegated s))
  end.

(** [goto retry] after a delegation has been broken; [goto retry] with
    LOOKUP_REVAL after ESTALE. *)
Fixpoint deleg_loop (n : nat) (body : M W exit) : M W exit :=
  match n with
  | O => crash NoFuel
  | S n' =>
      r ← body;
      match r with
      | Return e => mret (Return e)
      | Finish e keep =>
          delegated ← is_delegated;
          if negb delegated then mret (Finish e keep) else
          e ← break_deleg_wait;
          if negb (e =? 0) then mret (Finish e keep) else
          mapM path_put keep;;
          deleg_loop n' body
      end
  end.

Fixpoint estale_loop (n : nat) (body : flags_t → M W exit) (lookup_flags : flags_t) : M W Z :=
  match n with
  | O => crash NoFuel
  | S n' =>
      r ← body lookup_flags;
      match r with
      | Return e => mret e
      | Finish e keep =>
          mapM path_put keep;;
          if c_retry_estale C e lookup_flags
          then estale_loop n' body (lookup_flags ∪ {[LOOKUP_REVAL]}) else mret e
      end
  end.

(** Both, to the same label. *)
Definition retrying (body : flags_t → M W exit) (lookup_flags : flags_t) : M W Z :=
  estale_loop 2 (λ flags, deleg_loop retries (body flags)) lookup_flags.

(** *** Creation *)

Definition filename_create (dfd : Z) (name : list Z) (lookup_flags : flags_t)
  : M W (dentry_res * path) :=
  let want_dir := fl LOOKUP_DIRECTORY lookup_flags in
  let reval_flag : flags_t := lookup_flags ∩ {[LOOKUP_REVAL]} in
  '(error, p, last, type) ← parentat dfd name reval_flag;
  if negb (error =? 0) then mret (PErr error, p) else
  if negb (bool_decide (type = LAST_NORM)) then path_put p;; mret (PErr (- EEXIST), p) else
  error ← mnt_want_write (p_mnt p);
  slash ← after_name last;
  let create_flags : flags_t :=
    if slash && negb want_dir then {[LOOKUP_EXCL]} else {[LOOKUP_CREATE; LOOKUP_EXCL]} in
  dentry ← start_dirop (p_dentry p) last (reval_flag ∪ create_flags);
  match dentry with
  | PErr e =>
      unless (negb (error =? 0)) (mnt_drop_write (p_mnt p));;
      path_put p;;
      mret (PErr e, p)
  | dentry =>
      if negb (error =? 0) then end_dirop dentry;; path_put p;; mret (PErr error, p) else
      mret (dentry, p)
  end.

Definition end_creating_path (p : path) (dentry : dentry_res) : M W () :=
  end_dirop dentry;;
  mnt_drop_write (p_mnt p);;
  path_put p.

(** A creation in the directory of a pathname: [body] gets the directory and the
    dentry, and returns the error with the dentry to end with. *)
Definition creating (dfd : Z) (name : list Z) (body : path → inode → Z → M W (Z * dentry_res))
  (lookup_flags : flags_t) : M W exit :=
  '(dentry, p) ← filename_create dfd name lookup_flags;
  match dentry with
  | PErr e => mret (Return e)
  | PNull => crash NullDereference
  | PPtr d =>
      dir ← inode_of (p_dentry p);
      '(error, dentry) ← body p dir d;
      end_creating_path p dentry;;
      mret (Finish error [])
  end.

Definition may_mknod (mode : Z) : Z :=
  let type := Z.land mode S_IFMT in
  if (type =? S_IFREG) || (type =? S_IFCHR) || (type =? S_IFBLK) || (type =? S_IFIFO) ||
     (type =? S_IFSOCK) || (type =? 0) then 0 else
  if type =? S_IFDIR then - EPERM else - EINVAL.

Definition mknod_entry (mode dev : Z) (p : path) (dir : inode) (d : Z) : M W (Z * dentry_res) :=
  let type := Z.land mode S_IFMT in
  error ←
    (check security (HPathMknod d (c_strip_umask C dir mode) dev);
     if (type =? 0) || (type =? S_IFREG) then vfs_create (p_mnt p) d mode else
     if (type =? S_IFCHR) || (type =? S_IFBLK) then vfs_mknod (p_mnt p) dir d mode (c_decode_dev C dev) else
     if (type =? S_IFIFO) || (type =? S_IFSOCK) then vfs_mknod (p_mnt p) dir d mode 0 else
     mret 0);
  mret (error, PPtr d).

Definition filename_mknodat (dfd : Z) (name : list Z) (mode dev : Z) : M W Z :=
  let error := may_mknod mode in
  if negb (error =? 0) then mret error else
  retrying (creating dfd name (mknod_entry mode dev)) ∅.

Definition mkdir_entry (mode : Z) (p : path) (dir : inode) (d : Z) : M W (Z * dentry_res) :=
  error ← security (HPathMkdir d (c_strip_umask C dir mode));
  if negb (error =? 0) then mret (error, PPtr d) else
  dentry ← vfs_mkdir (p_mnt p) dir d mode;
  mret (match dentry with PErr e => e | _ => 0 end, dentry).

Definition filename_mkdirat (dfd : Z) (name : list Z) (mode : Z) : M W Z :=
  retrying (creating dfd name (mkdir_entry mode)) {[LOOKUP_DIRECTORY]}.

Definition symlink_entry (from : list Z) (p : path) (dir : inode) (d : Z) : M W (Z * dentry_res) :=
  error ← (check security (HPathSymlink d from); vfs_symlink (p_mnt p) dir d from);
  mret (error, PPtr d).

Definition filename_symlinkat (from : list Z) (newdfd : Z) (to : list Z) : M W Z :=
  retrying (creating newdfd to (symlink_entry from)) ∅.

Definition link_entry (old_path new_path : path) (dir : inode) (d : Z) : M W Z :=
  if negb (p_mnt old_path =? p_mnt new_path) then mret (- EXDEV) else
  check may_linkat (p_mnt new_path) old_path;
  check security (HPathLink (p_dentry old_path) d);
  vfs_link (p_dentry old_path) (p_mnt new_path) dir d.

Definition linking (olddfd : Z) (old : list Z) (newdfd : Z) (new : list Z) (how : flags_t)
  : M W exit :=
  '(error, old_path) ← lookupat olddfd old how;
  if negb (error =? 0) then mret (Return error) else
  '(dentry, new_path) ← filename_create newdfd new (how ∩ {[LOOKUP_REVAL]});
  match dentry with
  | PErr e => path_put old_path;; mret (Return e)
  | PNull => crash NullDereference
  | PPtr d =>
      dir ← inode_of (p_dentry new_path);
      error ← link_entry old_path new_path dir d;
      end_creating_path new_path (PPtr d);;
      mret (Finish error [old_path])
  end.

Definition filename_linkat (olddfd : Z) (old : list Z) (newdfd : Z) (new : list Z) (flags : Z)
  : M W Z :=
  if negb (Z.ldiff flags (Z.lor AT_SYMLINK_FOLLOW AT_EMPTY_PATH) =? 0) then mret (- EINVAL) else
  let how : flags_t := if bits AT_EMPTY_PATH flags then {[LOOKUP_LINKAT_EMPTY]} else ∅ in
  let how := if bits AT_SYMLINK_FOLLOW flags then how ∪ {[LOOKUP_FOLLOW]} else how in
  retrying (linking olddfd old newdfd new) how.

(** *** Removal *)

Definition rmdir_entry (p : path) (last : qstr) (lookup_flags : flags_t) : M W Z :=
  check mnt_want_write (p_mnt p);
  dentry ← start_dirop (p_dentry p) last lookup_flags;
  error ←
    match dentry with
    | PErr e => mret e
    | PNull => crash NullDereference
    | PPtr d =>
        error ← (check security (HPathRmdir d);
                 dir ← inode_of (p_dentry p);
                 vfs_rmdir (p_mnt p) dir d);
        end_dirop (PPtr d);;
        mret error
    end;
  mnt_drop_write (p_mnt p);;
  mret error.

Definition removing_dir (dfd : Z) (name : list Z) (lookup_flags : flags_t) : M W exit :=
  '(error, p, last, type) ← parentat dfd name lookup_flags;
  if negb (error =? 0) then mret (Return error) else
  error ← match type with
          | LAST_DOTDOT => mret (- ENOTEMPTY)
          | LAST_DOT => mret (- EINVAL)
          | LAST_ROOT => mret (- EBUSY)
          | LAST_NORM => rmdir_entry p last lookup_flags
          end;
  path_put p;;
  mret (Finish error []).

Definition filename_rmdir (dfd : Z) (name : list Z) : M W Z :=
  retrying (removing_dir dfd name) ∅.

(** From [retry_deleg] on. *)
Definition unlink_entry (p : path) (last : qstr) (lookup_flags : flags_t) : M W exit :=
  dentry ← start_dirop (p_dentry p) last lookup_flags;
  match dentry with
  | PErr e => mret (Return e)
  | PNull => crash NullDereference
  | PPtr d =>
      slash ← after_name last;
      if slash : bool then
        is_dir ← d_is_dir d;
        end_dirop (PPtr d);;
        mret (Return (if is_dir : bool then - EISDIR else - ENOTDIR))
      else
      inode ← inode_of d;
      take (RHold inode);;
      error ← (check security (HPathUnlink d);
               dir ← inode_of (p_dentry p);
               vfs_unlink (p_mnt p) dir d);
      end_dirop (PPtr d);;
      drop (RHold inode);;
      mret (Finish error [])
  end.

Definition exit_error (r : exit) : Z := match r with Return e => e | Finish e _ => e end.

Definition unlinking (dfd : Z) (name : list Z) (lookup_flags : flags_t) : M W exit :=
  '(error, p, last, type) ← parentat dfd name lookup_flags;
  if negb (error =? 0) then mret (Return error) else
  error ←
    (if negb (bool_decide (type = LAST_NORM)) then mret (- EISDIR) else
     check mnt_want_write (p_mnt p);
     r ← deleg_loop retries (unlink_entry p last lookup_flags);
     mnt_drop_write (p_mnt p);;
     mret (exit_error r));
  path_put p;;
  mret (Finish error []).

Definition filename_unlinkat (dfd : Z) (name : list Z) : M W Z :=
  estale_loop 2 (unlinking dfd name) ∅.

Definition unlinkat (dfd : Z) (name : list Z) (flag : Z) : M W Z :=
  if negb (Z.ldiff flag AT_REMOVEDIR =? 0) then mret (- EINVAL) else
  if bits AT_REMOVEDIR flag then filename_rmdir dfd name else filename_unlinkat dfd name.

(** *** Renames *)

(** The checks between the locks and [vfs_rename]. *)
Definition rename_checks (old_last new_last : qstr) (rd : renamedata) : M W Z :=
  let exchange := bits RENAME_EXCHANGE (rd_flags rd) in
  old_slash ← after_name old_last;
  new_slash ← after_name new_last;
  new_is_dir ← d_is_dir (rd_new_dentry rd);
  old_is_dir ← d_is_dir (rd_old_dentry rd);
  mret (if exchange && negb new_is_dir && new_slash then - ENOTDIR else
        if negb old_is_dir && (old_slash || negb exchange && new_slash) then - ENOTDIR else 0).

(** From [retry_deleg] on. *)
Definition rename_entry (old_path new_path : path) (old_last new_last : qstr)
  (flags : Z) (lookup_flags : flags_t) : M W exit :=
  let rd := mk_rd (p_mnt old_path) (p_dentry old_path) (p_dentry new_path) flags NULL NULL in
  r ← start_renaming rd lookup_flags old_last new_last;
  match r with
  | inl e => mret (Finish e [])
  | inr rd =>
      error ← (check rename_checks old_last new_last rd;
               check security (HPathRename (rd_old_dentry rd) (rd_new_dentry rd) flags);
               vfs_rename rd);
      end_renaming rd;;
      mret (Finish error [])
  end.

Definition rename_between (old_path new_path : path) (old_last new_last : qstr)
  (old_type new_type : last_type) (flags : Z) (lookup_flags : flags_t) : M W Z :=
  if negb (p_mnt old_path =? p_mnt new_path) then mret (- EXDEV) else
  if negb (bool_decide (old_type = LAST_NORM)) then mret (- EBUSY) else
  if negb (bool_decide (new_type = LAST_NORM))
  then mret (if bits RENAME_NOREPLACE flags then - EEXIST else - EBUSY) else
  check mnt_want_write (p_mnt old_path);
  r ← deleg_loop retries (rename_entry old_path new_path old_last new_last flags lookup_flags);
  mnt_drop_write (p_mnt old_path);;
  mret (exit_error r).

Definition renaming (olddfd : Z) (from : list Z) (newdfd : Z) (to : list Z) (flags : Z)
  (lookup_flags : flags_t) : M W exit :=
  '(error, old_path, old_last, old_type) ← parentat olddfd from lookup_flags;
  if negb (error =? 0) then mret (Return error) else
  '(error, new_path, new_last, new_type) ← parentat newdfd to lookup_flags;
  if negb (error =? 0) then path_put old_path;; mret (Return error) else
  error ← rename_between old_path new_path old_last new_last old_type new_type flags lookup_flags;
  path_put new_path;;
  path_put old_path;;
  mret (Finish error []).

Definition filename_renameat2 (olddfd : Z) (from : list Z) (newdfd : Z) (to : list Z) (flags : Z)
  : M W Z :=
  if negb (Z.ldiff flags (Z.lor RENAME_NOREPLACE (Z.lor RENAME_EXCHANGE RENAME_WHITEOUT)) =? 0)
  then mret (- EINVAL) else
  if bits (Z.lor RENAME_NOREPLACE RENAME_WHITEOUT) flags && bits RENAME_EXCHANGE flags
  then mret (- EINVAL) else
  estale_loop 2 (renaming olddfd from newdfd to flags) ∅.
End calls.
End changes.
