(* ===== verification/PathChangeSafe.v ===== *)
(** * Changing names: nothing is left locked

    What the system calls of [PathChange] assume of the dentry cache and of file
    systems ([tree_ok], [change_ok]), and that under it each function returns
    what it took: no lock is taken twice, nothing is given back that is not
    held, and no inode is missing where one is followed. *)

From stdpp Require Import gmultiset.
From S2P Require Import Prelude Abi Kernel Targets Lookup Walk PathWalk PathOpen PathInv PathRefs PathTotal PathFrame PathParent PathChange.

(** ** Programs that do not crash *)

Definition wp {W A} (m : M W A) (Q : A → change W → Prop) (s : change W) : Prop :=
  match m s with Done a s' => Q a s' | Crash _ => False end.

(** A state, by what the calls change of it: the walk, the rest of the system,
    what is held, whether a delegation has to be waited for. *)
Definition St {W} (k : nameidata * targets_state) (w : W) (H : gmultiset resource) (b : bool) : change W :=
  mk_change (mk_walk k.1 k.2 w) H b.

Section wp.
Context {W : Type}.
Implicit Types (k : nameidata * targets_state) (w : W) (H : gmultiset resource) (b : bool).

Lemma wp_ret {A} (a : A) Q s : Q a s → wp (W:=W) (mret a) Q s.
Proof. done. Qed.
Lemma wp_bind {A B} (m : M W A) (f : A → M W B) Q s :
  wp m (λ a, wp (f a) Q) s → wp (m ≫= f) Q s.
Proof. unfold wp, mbind, M_bind. by destruct (m s). Qed.
Lemma wp_mono {A} (m : M W A) (Q Q' : A → change W → Prop) s :
  wp m Q s → (∀ a s', Q a s' → Q' a s') → wp m Q' s.
Proof. unfold wp. destruct (m s); auto. Qed.
Lemma wp_if {A} (c : bool) (m1 m2 : M W A) Q s :
  (c = true → wp m1 Q s) → (c = false → wp m2 Q s) → wp (if c then m1 else m2) Q s.
Proof. destruct c; auto. Qed.
Lemma wp_check (m f : M W Z) Q s :
  wp m (λ e s', (e = 0 → wp f Q s') ∧ (e ≠ 0 → Q e s')) s → wp (check m; f) Q s.
Proof.
  intros H. apply wp_bind. eapply wp_mono; [exact H|]. intros e s' [H1 H2]. cbn beta.
  destruct (Z.eqb_spec e 0) as [->|Hne]; [by apply H1|]. by apply H2.
Qed.
Lemma wp_unless c (m : M W ()) Q s :
  (c = true → Q () s) → (c = false → wp m Q s) → wp (unless c m) Q s.
Proof. destruct c; cbn; auto. Qed.

Lemma wp_ask {A} (f : W → A) Q k w H b : Q (f w) (St k w H b) → wp (ask f) Q (St k w H b).
Proof. done. Qed.
Lemma wp_world {A} (f : W → A * W) Q k w H b :
  (∀ a w', f w = (a, w') → Q a (St k w' H b)) → wp (world f) Q (St k w H b).
Proof. intros HQ. unfold wp, world. cbn. destruct (f w) as [a w'] eqn:Hf. by apply HQ. Qed.
Lemma wp_become (f : W → W) Q k w H b : Q () (St k (f w) H b) → wp (become f) Q (St k w H b).
Proof. done. Qed.
Lemma wp_take r Q k w H b : Q () (St k w (H ⊎ {[+ r +]}) b) → wp (take r) Q (St k w H b).
Proof. done. Qed.
Lemma wp_lock r Q k w H b :
  r ∉ H → Q () (St k w (H ⊎ {[+ r +]}) b) → wp (lock r) Q (St k w H b).
Proof. intros Hr HQ. unfold wp, lock. cbn. by rewrite decide_False. Qed.
Lemma wp_drop r Q k w H H' b :
  H = H' ⊎ {[+ r +]} → Q () (St k w H' b) → wp (drop r) Q (St k w H b).
Proof.
  intros -> HQ. unfold wp, drop. cbn. rewrite decide_True by multiset_solver.
  by replace ((H' ⊎ {[+ r +]}) ∖ {[+ r +]}) with H' by multiset_solver.
Qed.
Lemma wp_the {A} (x : option A) Q s : (∃ a, x = Some a ∧ Q a s) → wp (W:=W) (the x) Q s.
Proof. by intros (a & -> & HQ). Qed.
Lemma wp_set_delegated b' Q k w H b : Q () (St k w H b') → wp (set_delegated b') Q (St k w H b).
Proof. done. Qed.
Lemma wp_after_name q Q s :
  is_Some (q_name q !! Z.to_nat (q_len q)) → (∀ c, Q c s) → wp (W:=W) (after_name q) Q s.
Proof. unfold after_name. intros [x ->] HQ. apply HQ. Qed.
End wp.

(** One step of a program, from the left. *)
Ltac wp_step :=
  lazymatch goal with
  | |- wp (mret _) _ _ => apply wp_ret
  | |- wp (check _; _) _ _ => apply wp_check
  | |- wp (_ ≫= _) _ _ => apply wp_bind
  | |- wp (if _ then _ else _) _ _ => apply wp_if; intros ?
  | |- wp (unless _ _) _ _ => apply wp_unless; intros ?
  | |- wp (ask _) _ _ => apply wp_ask
  | |- wp (world _) _ _ => apply wp_world; intros ? ? ?
  | |- wp (become _) _ _ => apply wp_become
  | |- wp (take _) _ _ => apply wp_take
  | |- wp (set_delegated _) _ _ => apply wp_set_delegated
  | |- wp (let _ := _ in _) _ _ => cbv zeta
  end; cbn beta iota.
Ltac wp_steps := repeat wp_step.

(** ** What is assumed *)

(** Parents lead to a root, which is its own. *)
Inductive rooted (par : Z → Z) (d : Z) : Prop :=
  | rooted_root : par d = d → rooted par d
  | rooted_up : rooted par (par d) → rooted par d.

(** The parents after [d_move] and [d_exchange]. *)
Definition with_move (old new : Z) (par : Z → Z) (d : Z) : Z := if d =? old then par new else par d.
Definition with_exchange (old new : Z) (par : Z → Z) (d : Z) : Z :=
  if d =? old then par new else if d =? new then par old else par d.

Section assumed.
Context {W : Type} (E : vfs W) (C : vchange W) (climbs : nat) (leases : W → nat).

(** The tree of dentries: what the walk knows as a directory or as positive is,
    a directory is positive and has one dentry and a mode that says so, and its parents lead to
    a root in fewer steps than [climbs]. *)
Record tree_ok (w : W) : Prop := {
  to_lookup : ∀ d, v_can_lookup E d = true → c_is_dir C w d = true;
  to_inode : ∀ d, is_Some (v_inode E d) → is_Some (c_inode C w d);
  to_positive : ∀ d, c_is_dir C w d = true → is_Some (c_inode C w d);
  to_backing : ∀ d, is_Some (c_inode C w d) → is_Some (c_backing_inode C w d);
  to_one : ∀ d d' i, c_is_dir C w d = true → c_inode C w d = Some i →
    c_inode C w d' = Some i → d' = d;
  to_mode : ∀ d i, c_is_dir C w d = true → c_inode C w d = Some i →
    is_type (c_mode C w i) S_IFDIR = true;
  to_depth : ∃ depth : Z → nat, ∀ d, c_is_dir C w d = true → (depth d < climbs)%nat ∧
    (c_parent C w d = d ∨
     c_is_dir C w (c_parent C w d) = true ∧ (depth (c_parent C w d) < depth d)%nat)
}.

(** Directories lead to roots. *)
Definition acyclic (w : W) : Prop := ∀ d, c_is_dir C w d = true → rooted (c_parent C w) d.

(** New dentries may appear; one that is positive stays what it is. *)
Record grows (w w' : W) : Prop := {
  gr_inode : ∀ d i, c_inode C w d = Some i → c_inode C w' d = Some i;
  gr_dir : ∀ d, c_is_dir C w d = true → c_is_dir C w' d = true;
  gr_parent : ∀ d, is_Some (c_inode C w d) → c_parent C w' d = c_parent C w d;
  gr_tree : tree_ok w → tree_ok w';
  gr_acyclic : acyclic w → acyclic w';
  gr_leases : (leases w' ≤ leases w)%nat
}.
(** No dentry moves. *)
Record keeps (w w' : W) : Prop := {
  ke_grows :> grows w w';
  ke_parent : ∀ d, c_parent C w' d = c_parent C w d
}.
(** Dentries besides [x] keep their inodes, and all their parents. *)
Record spares (x : Z) (w w' : W) : Prop := {
  sp_inode : ∀ d i, d ≠ x → c_inode C w d = Some i → c_inode C w' d = Some i;
  sp_parent : ∀ d, c_parent C w' d = c_parent C w d;
  sp_acyclic : acyclic w → acyclic w'
}.
(** Dentries have moved, and nothing else. *)
Record moves (par : Z → Z) (w w' : W) : Prop := {
  mv_inode : ∀ d i, c_inode C w d = Some i → c_inode C w' d = Some i;
  mv_dir : ∀ d, c_is_dir C w' d = true → c_is_dir C w d = true;
  mv_parent : ∀ d, c_parent C w' d = par d
}.

Definition child (w : W) (base d : Z) : Prop := c_parent C w d = base ∧ d ≠ base.

#[export] Instance grows_preorder : PreOrder grows.
Proof.
  split.
  - by intros w; split.
  - intros w1 w2 w3 [] []. split; auto; [|lia]. intros d Hd.
    rewrite <-gr_parent0 by done. apply gr_parent1. destruct Hd as [i Hi]. eauto.
Qed.
#[export] Instance keeps_preorder : PreOrder keeps.
Proof.
  split; [by intros w; split|]. intros w1 w2 w3 [? H1] [? H2].
  split; [by etrans|]. intros d. by rewrite H2.
Qed.

(** The functions of [vchange] as the dentry cache and file systems provide
    them: while the parent is locked the dentries in use are what they were,
    [d_delete] takes the inode of its dentry alone, a move or an exchange none;
    a failed call changes no name; what is found below a directory is its child.
    A delegation that must be waited for is an error, and waiting ends one;
    ESTALE is retried once. *)
Record change_ok : Prop := {
  co_run : runs_in E grows;
  co_invalidate : ∀ w d, keeps w (c_invalidate C w d);
  co_shrink : ∀ w d, keeps w (c_shrink C w d);
  co_dont_mount : ∀ w d, keeps w (c_dont_mount C w d);
  co_detach_mounts : ∀ w d, keeps w (c_detach_mounts C w d);
  co_set_dead : ∀ w i, keeps w (c_set_dead C w i);
  co_clear_linkable : ∀ w i, keeps w (c_clear_linkable C w i);
  co_d_delete : ∀ w d, spares d w (c_d_delete C w d);
  co_d_move : ∀ w d d', moves (with_move d d' (c_parent C w)) w (c_d_move C w d d');
  co_d_exchange : ∀ w d d', moves (with_exchange d d' (c_parent C w)) w (c_d_exchange C w d d');
  co_d_lookup : ∀ w base q d, c_d_lookup C w base q = Some d → child w base d;
  co_d_alloc : ∀ w base q r w', c_d_alloc C w base q = (r, w') →
    grows w w' ∧ ∀ d, r = Some d → child w' base d;
  co_lookup : ∀ w base dir d f r w', c_inode C w base = Some dir → child w base d →
    c_lookup C w dir d f = (r, w') →
    grows w w' ∧ match r with
                 | PPtr d' => child w' base d' | PNull => child w' base d | PErr _ => True end;
  co_create : ∀ w dir d mode, keeps w (c_create C w dir d mode).2;
  co_mknod : ∀ w dir d mode dev, keeps w (c_mknod C w dir d mode dev).2;
  co_mkdir : ∀ w dir d mode r w', c_mkdir C w dir d mode = (r, w') →
    grows w w' ∧ c_parent C w' match r with PPtr d' => d' | _ => d end = c_parent C w d;
  co_rmdir : ∀ w dir d, keeps w (c_rmdir C w dir d).2;
  co_unlink : ∀ w dir d, keeps w (c_unlink C w dir d).2;
  co_symlink : ∀ w dir d s, keeps w (c_symlink C w dir d s).2;
  co_link : ∀ w d dir d', keeps w (c_link C w d dir d').2;
  co_rename : ∀ w dir d dir' d' f e w', c_rename C w dir d dir' d' f = (e, w') →
    (e ≠ 0 → keeps w w') ∧
    (e = 0 → moves (if negb (c_does_d_move C (c_i_sb C dir)) then c_parent C w
                    else if bits RENAME_EXCHANGE f then with_exchange d d' (c_parent C w)
                    else with_move d d' (c_parent C w)) w w');
  co_try_break_deleg : ∀ w i, (c_try_break_deleg C w i).2 = true → (c_try_break_deleg C w i).1 ≠ 0;
  co_break_deleg_wait : ∀ w e w', c_break_deleg_wait C w = (e, w') →
    grows w w' ∧ (e = 0 → (leases w' < leases w)%nat);
  co_retry_estale : ∀ e f, c_retry_estale C e f = true → e = - ESTALE ∧ LOOKUP_REVAL ∉ f
}.
End assumed.

Section safe.
Context {W : Type} (E : vfs W) (C : vchange W) (climbs : nat) (leases : W → nat).
Context (HC : change_ok E C climbs leases).
Implicit Types (k : nameidata * targets_state) (w : W) (H : gmultiset resource) (b : bool).

Abbreviation tree_ok := (tree_ok E C climbs).
Abbreviation grows := (grows E C climbs leases).
Abbreviation keeps := (keeps E C climbs leases).
Abbreviation spares := (spares C).
Abbreviation acyclic := (acyclic C).
Abbreviation child := (child C).

Lemma grows_some w w' d : grows w w' → is_Some (c_inode C w d) → is_Some (c_inode C w' d).
Proof. intros Hg [i Hi]. exists i. by apply Hg. Qed.
Lemma grows_child w w' base d : grows w w' → is_Some (c_inode C w d) → child w base d → child w' base d.
Proof. intros Hg Hd [Hp Hb]. split; [|done]. by rewrite (gr_parent _ _ _ _ _ _ Hg). Qed.
Lemma keeps_child w w' base d : keeps w w' → child w base d → child w' base d.
Proof. intros Hg [Hp Hb]. split; [|done]. by rewrite (ke_parent _ _ _ _ _ _ Hg). Qed.

Lemma not_in_add (r r' : resource) H : r ∉ H → r ≠ r' → r ∉ H ⊎ {[+ r' +]}.
Proof. rewrite gmultiset_elem_of_disj_union, gmultiset_elem_of_singleton. tauto. Qed.

(** *** Reading an inode *)

Lemma wp_inode_of d i Q k w H b :
  c_inode C w d = Some i → Q i (St k w H b) → wp (inode_of C d) Q (St k w H b).
Proof. intros Hd HQ. unfold inode_of, d_inode. wp_steps. apply wp_the. eauto. Qed.

(** *** The last component *)

(** The reference on what was found, and where that is. *)
Definition with_dentry (r : dentry_res) H : gmultiset resource :=
  match r with PPtr d => H ⊎ {[+ RDentry d +]} | _ => H end.
Definition below w (base : Z) (r : dentry_res) : Prop :=
  match r with PPtr d => child w base d | _ => True end.

Lemma wp_lookup_dcache name base flags Q k w H b :
  (∀ r w', keeps w w' → below w' base r → Q r (St k w' (with_dentry r H) b)) →
  wp (lookup_dcache C name base flags) Q (St k w H b).
Proof.
  intros HQ. unfold lookup_dcache. do 2 wp_step.
  destruct (c_d_lookup C w base name) as [d|] eqn:Hd; [|by apply wp_ret, (HQ PNull)].
  unfold dget, dput. wp_steps.
  - eapply wp_drop; [done|]. wp_steps. case_match; by apply (HQ (PErr _)) || apply (HQ PNull).
  - eapply wp_drop; [done|]. wp_steps. pose proof (co_invalidate _ _ _ _ HC w d).
    case_match; by apply (HQ (PErr _)) || apply (HQ PNull).
  - apply (HQ (PPtr d)); [done|]. by eapply co_d_lookup.
Qed.

Lemma wp_lookup_uncached name base flags Q k w H b :
  is_Some (c_inode C w base) →
  (∀ r w', grows w w' → below w' base r → r ≠ PNull → Q r (St k w' (with_dentry r H) b)) →
  wp (lookup_uncached C name base flags) Q (St k w H b).
Proof.
  intros [dir Hdir] HQ. unfold lookup_uncached. wp_step. eapply wp_inode_of; [done|]. do 3 wp_step.
  { wp_steps. by apply (HQ (PErr _)). }
  do 2 wp_step. destruct (co_d_alloc _ _ _ _ HC _ _ _ _ _ H1) as [Hg Hc].
  destruct a as [d|]; [|by apply wp_ret, (HQ (PErr _))]. unfold dget, dput. do 4 wp_step.
  destruct (co_lookup _ _ _ _ HC _ base dir d _ _ _ (gr_inode _ _ _ _ _ _ Hg _ _ Hdir) (Hc d eq_refl) H2)
    as [Hg' Hr].
  assert (grows w w'0) by by etrans.
  destruct a as [|d'|e]; [by apply wp_ret, (HQ (PPtr d))| |].
  - do 3 wp_step. eapply (wp_drop _ _ _ _ _ (H ⊎ {[+ RDentry d' +]})); [multiset_solver|]. by apply (HQ (PPtr d')).
  - wp_step. eapply wp_drop; [done|]. by apply (HQ (PErr e)).
Qed.

Lemma wp_lookup_one name base flags Q k w H b :
  is_Some (c_inode C w base) →
  (∀ r w', grows w w' → below w' base r → r ≠ PNull →
     (∀ d, r = PPtr d → LOOKUP_CREATE ∉ flags → is_Some (c_inode C w' d)) →
     Q r (St k w' (with_dentry r H) b)) →
  wp (lookup_one_qstr_excl C name base flags) Q (St k w H b).
Proof.
  intros Hbase HQ. unfold lookup_one_qstr_excl. wp_step. apply wp_lookup_dcache. intros r w1 Hk Hr. wp_step.
  assert (∀ r w', grows w w' → below w' base r → r ≠ PNull →
    wp (match r with
        | PPtr d =>
            negative ← d_is_negative C d;
            if negative && negb (fl LOOKUP_CREATE flags) then dput d;; mret (PErr (- ENOENT)) else
            if negb negative && fl LOOKUP_EXCL flags then dput d;; mret (PErr (- EEXIST)) else
            mret (PPtr d)
        | r => mret r
        end) Q (St k w' (with_dentry r H) b)) as Hend.
  { clear w1 Hk r Hr. intros r w1 Hg Hr Hne. destruct r as [|d|e]; [done| |by apply wp_ret, (HQ (PErr e))].
    unfold d_is_negative, d_inode. wp_steps.
    - eapply wp_drop; [done|]. wp_steps. by apply (HQ (PErr _)).
    - eapply wp_drop; [done|]. wp_steps. by apply (HQ (PErr _)).
    - apply (HQ (PPtr d)); try done. intros ? [= <-] Hf. destruct (c_inode C w1 d) eqn:Hi; [done|].
      rewrite bool_decide_eq_true_2 in H0 by done. unfold fl in H0.
      by rewrite bool_decide_eq_false_2 in H0. }
  destruct r as [|d|e].
  - apply wp_lookup_uncached; [by eapply grows_some; [apply Hk|]|].
    intros r w2 Hg Hr2 Hne. apply Hend; [|done..]. etrans; [apply Hk|done].
  - apply wp_ret, (Hend (PPtr d)); [apply Hk|done..].
  - apply wp_ret, (Hend (PErr e)); [apply Hk|done..].
Qed.

(** The directory locked with the dentry, when there is one. *)
Definition started (i : inode) (r : dentry_res) H : gmultiset resource :=
  match r with PPtr d => H ⊎ {[+ RInode i +]} ⊎ {[+ RDentry d +]} | _ => H end.

Lemma wp_start_dirop base i name flags Q k w H b :
  c_inode C w base = Some i → RInode i ∉ H →
  (∀ r w', grows w w' → below w' base r → r ≠ PNull →
     (∀ d, r = PPtr d → LOOKUP_CREATE ∉ flags → is_Some (c_inode C w' d)) →
     Q r (St k w' (started i r H) b)) →
  wp (start_dirop C base name flags) Q (St k w H b).
Proof.
  intros Hi Hl HQ. unfold start_dirop. wp_step. eapply wp_inode_of; [done|]. wp_step.
  apply wp_lock; [done|]. wp_step. apply wp_lookup_one; [done|]. intros r w' Hg Hr Hne Hd.
  destruct r as [|d|e]; [done|by apply wp_ret, (HQ (PPtr d))|]. wp_step.
  eapply wp_drop; [done|]. by apply (HQ (PErr e)).
Qed.

Lemma wp_end_dirop d i Q k w H b :
  c_inode C w (c_parent C w d) = Some i → Q () (St k w H b) →
  wp (end_dirop C (PPtr d)) Q (St k w (started i (PPtr d) H) b).
Proof.
  intros Hi HQ. unfold end_dirop, d_parent. do 3 wp_step. eapply wp_inode_of; [done|]. wp_step.
  eapply (wp_drop _ _ _ _ _ (H ⊎ {[+ RDentry d +]})); [unfold started; multiset_solver|].
  by eapply wp_drop.
Qed.

(** *** Checks *)

Lemma wp_may_create mnt dir d Q k w H b :
  (∀ e, Q e (St k w H b)) → wp (may_create_dentry C mnt dir d) Q (St k w H b).
Proof. intros HQ. unfold may_create_dentry, d_is_negative, d_inode, inode_permission. by wp_steps. Qed.

Lemma wp_may_delete mnt dir d isdir Q k w H b :
  tree_ok w → c_inode C w (c_parent C w d) = Some dir →
  (∀ e, (e = 0 → is_Some (c_inode C w d)) → Q e (St k w H b)) →
  wp (may_delete_dentry C mnt dir d isdir) Q (St k w H b).
Proof.
  intros HT Hp HQ. unfold may_delete_dentry, d_is_negative, d_inode. wp_steps; [by apply HQ|].
  assert (is_Some (c_inode C w d)) as Hd by (by destruct (c_inode C w d)).
  destruct (to_backing _ _ _ _ HT _ Hd) as [i ->]. unfold d_parent. wp_steps.
  eapply wp_inode_of; [done|]. rewrite bool_decide_eq_true_2 by done. unfold inode_permission, d_is_dir.
  repeat first [wp_step | done | split; intros | by apply HQ].
Qed.

Lemma wp_security h Q k w H b : (∀ e, Q e (St k w H b)) → wp (security C h) Q (St k w H b).
Proof. intros HQ. by apply wp_ask. Qed.

Lemma wp_try_break i Q k w H :
  (∀ e b, (b = true → e ≠ 0) → Q e (St k w H b)) →
  wp (try_break_deleg C i) Q (St k w H false).
Proof.
  intros HQ. unfold try_break_deleg. do 2 wp_step. pose proof (co_try_break_deleg _ _ _ _ HC w i) as Ht.
  destruct (c_try_break_deleg C w i) as [e []]; cbn in Ht; wp_steps; by apply HQ; auto.
Qed.

(** *** The calls on a directory entry

    [finishes]: how one that starts with no delegation to wait for may end. *)
Definition finishes (R : Z → W → W → Prop) k w H (Q : Z → change W → Prop) : Prop :=
  ∀ e w' b, R e w w' → (b = true → e ≠ 0) → Q e (St k w' H b).

(** Through the functions of the dentry cache. *)
Ltac keeping HC :=
  repeat first
    [ reflexivity | assumption
    | etrans; [|first [apply (co_detach_mounts _ _ _ _ HC) | apply (co_dont_mount _ _ _ _ HC)
        | apply (co_set_dead _ _ _ _ HC) | apply (co_shrink _ _ _ _ HC)
        | apply (co_clear_linkable _ _ _ _ HC)]] ].

Definition steady (e : Z) w w' : Prop := keeps w w'.
#[local] Instance steady_refl e : Reflexive (steady e).
Proof. intros w. unfold steady. reflexivity. Qed.

Lemma finishes_check (m f : M W Z) R Q k w H :
  (∀ e, e ≠ 0 → R e w w) → finishes R k w H Q →
  (∀ Q', (∀ e b, (b = true → e ≠ 0) → Q' e (St k w H b)) → wp m Q' (St k w H false)) →
  wp f Q (St k w H false) → wp (check m; f) Q (St k w H false).
Proof.
  intros HR HQ Hm Hf. apply wp_check, Hm. intros e b Hb. split; [intros ->|intros He; by apply HQ; auto].
  destruct b; [by destruct Hb|done].
Qed.

(** Through the checks of such a call, to the call of the file system. *)
Ltac vfs_step HQ :=
  lazymatch goal with
  | |- wp (check ?m; _) _ _ =>
      eapply (finishes_check m _ _ _ _ _ _); [| exact HQ | |];
      [by intros|let HQ' := fresh "HQ" in intros ? HQ';
       first [ apply wp_security; intros; apply HQ'; done
             | apply wp_may_create; intros; apply HQ'; done
             | apply wp_try_break; exact HQ' ]
      |]
  | |- wp (if _ then mret _ else _) _ _ => apply wp_if; intros ?; [apply wp_ret, HQ; done|]
  | |- wp (let _ := _ in _) _ _ => cbv zeta
  end.
Ltac vfs_steps HQ := repeat vfs_step HQ.

Lemma wp_vfs_create mnt d mode dir Q k w H :
  c_inode C w (c_parent C w d) = Some dir → finishes steady k w H Q →
  wp (vfs_create C mnt d mode) Q (St k w H false).
Proof.
  intros Hp HQ. unfold vfs_create, d_parent. do 2 wp_step. wp_step. eapply wp_inode_of; [done|]. vfs_steps HQ.
  apply wp_world. intros e w' He. apply HQ; [|done].
  pose proof (co_create _ _ _ _ HC w dir d) as Hk. unfold steady. specialize (Hk (vfs_prepare_mode C mnt dir mode S_IALLUGO S_IFREG)).
  by rewrite He in Hk.
Qed.

Lemma wp_vfs_mknod mnt dir d mode dev Q k w H :
  finishes steady k w H Q → wp (vfs_mknod C mnt dir d mode dev) Q (St k w H false).
Proof.
  intros HQ. unfold vfs_mknod. vfs_steps HQ. apply wp_world. intros e w' He. apply HQ; [|done].
  unfold steady. eapply eq_ind with (P := λ r, keeps w r.2) in He; [exact He|apply (co_mknod _ _ _ _ HC)].
Qed.

Lemma wp_vfs_symlink mnt dir d old Q k w H :
  finishes steady k w H Q → wp (vfs_symlink C mnt dir d old) Q (St k w H false).
Proof.
  intros HQ. unfold vfs_symlink. vfs_steps HQ. apply wp_world. intros e w' He. apply HQ; [|done].
  eapply eq_ind with (P := λ r, keeps w r.2) in He; [exact He|apply (co_symlink _ _ _ _ HC)].
Qed.

(** A creation of a directory ends the creation when it fails. *)
Lemma wp_vfs_mkdir mnt dir d mode Q k w H :
  c_inode C w (c_parent C w d) = Some dir →
  (∀ r w' b, grows w w' → r ≠ PNull → (b = true → ∃ e, r = PErr e ∧ e ≠ 0) →
     (∀ d', r = PPtr d' → c_inode C w' (c_parent C w' d') = Some dir) →
     Q r (St k w' (started dir r H) b)) →
  wp (vfs_mkdir C mnt dir d mode) Q (St k w (started dir (PPtr d) H) false).
Proof.
  intros Hp HQ. unfold vfs_mkdir. cbv zeta.
  assert (∀ e w' b, grows w w' → c_parent C w' d = c_parent C w d → (b = true → e ≠ 0) →
    wp (end_dirop C (PPtr d);; mret (PErr e)) Q (St k w' (started dir (PPtr d) H) b)) as Herr.
  { intros e w' b Hg Hd Hb. wp_step. apply wp_end_dirop.
    - rewrite Hd. by apply (gr_inode _ _ _ _ _ _ Hg).
    - apply wp_ret, (HQ (PErr e)); try done. eauto. }
  assert (∀ c e (m : M W dentry_res) b, (b = true → e ≠ 0) →
    (c = false → wp m Q (St k w (started dir (PPtr d) H) b)) →
    wp (if c : bool then end_dirop C (PPtr d);; mret (PErr e) else m) Q
      (St k w (started dir (PPtr d) H) b)) as Hif.
  { intros c e m b Hb Hm. apply wp_if; [|done]. intros _. by apply Herr. }
  wp_step. apply wp_may_create. intros e. apply Hif; [done|]. intros _.
  apply Hif; [done|]. intros _. wp_step. apply wp_security. intros e1. apply Hif; [done|]. intros _.
  do 2 wp_step. apply Hif; [done|]. intros _. wp_step. apply wp_try_break. intros e2 b Hb.
  apply Hif; [done|]. intros He2. assert (b = false) as ->.
  { destruct b; [|done]. destruct (Z.eqb_spec e2 0); [by destruct Hb|done]. }
  wp_step. apply wp_world. intros r w' He. destruct (co_mkdir _ _ _ _ HC _ _ _ _ _ _ He) as [Hg Hd].
  assert (∀ d', c_parent C w' d' = c_parent C w d → c_inode C w' (c_parent C w' d') = Some dir) as Hi.
  { intros d' ->. by apply (gr_inode _ _ _ _ _ _ Hg). }
  destruct r as [|d'|e'].
  - apply wp_ret, (HQ (PPtr d)); try done. intros ? [= <-]. auto.
  - unfold dget, dput. do 3 wp_step. eapply (wp_drop _ _ _ _ _ (started dir (PPtr d') H)).
    { unfold started. multiset_solver. }
    apply wp_ret, (HQ (PPtr d')); try done. intros ? [= <-]. auto.
  - by apply Herr.
Qed.

(** *** Removals *)

(** Only a success takes the inode of the dentry. *)
Definition removes (d e : Z) w w' : Prop := spares d w w' ∧ (e ≠ 0 → keeps w w').

Lemma keeps_spares d w w' : keeps w w' → spares d w w'.
Proof. intros Hk. split; [intros ? ? _; apply Hk|apply Hk..]. Qed.
Lemma keeps_removes d e w w' : keeps w w' → removes d e w w'.
Proof. intros Hk. by split; [apply keeps_spares|]. Qed.
#[local] Instance removes_refl d e : Reflexive (removes d e).
Proof. intros w. by apply keeps_removes. Qed.
Lemma keeps_spares_trans d w1 w2 w3 : keeps w1 w2 → spares d w2 w3 → spares d w1 w3.
Proof.
  intros Hk [Hi Hp Ha]. split.
  - intros x i Hx Hd. apply Hi; [done|]. by apply (gr_inode _ _ _ _ _ _ Hk).
  - intros x. by rewrite Hp, (ke_parent _ _ _ _ _ _ Hk).
  - intros Hw. apply Ha. by apply Hk.
Qed.

Lemma wp_d_delete d e (c : bool) Q k w w' H b :
  keeps w w' → (c = false → e = 0) → (b = true → e ≠ 0) → finishes (removes d) k w H Q →
  wp (unless c (become (λ w, c_d_delete C w d));; mret e) Q (St k w' H b).
Proof.
  intros Hk Hc Hb HQ. do 2 wp_step.
  - apply wp_ret, HQ; [by apply keeps_removes|done].
  - wp_steps. apply HQ; [|done]. split; [|by rewrite Hc].
    eapply keeps_spares_trans; [done|]. apply (co_d_delete _ _ _ _ HC).
Qed.

Lemma keeps_inode w w' d i : keeps w w' → c_inode C w d = Some i → c_inode C w' d = Some i.
Proof. intros Hk. apply Hk. Qed.

Lemma wp_rmdir_locked dir d Q k w H :
  is_Some (c_inode C w d) → finishes steady k w H Q →
  wp (rmdir_locked C dir d) Q (St k w H false).
Proof.
  intros [i Hi] HQ. unfold rmdir_locked. do 2 wp_step. wp_step. eapply wp_inode_of; [done|]. do 2 wp_step.
  vfs_steps HQ. apply wp_check, wp_world. intros e w1 He.
  assert (keeps w w1) as Hk1.
  { eapply eq_ind with (P := λ r, keeps w r.2) in He; [exact He|apply (co_rmdir _ _ _ _ HC)]. }
  split; [intros ->|by intros; apply HQ]. do 2 wp_step.
  assert (keeps w (c_shrink C w1 d)) as Hk2 by keeping HC.
  wp_step. eapply wp_inode_of; [by eapply keeps_inode|]. wp_steps. apply HQ; [|done].
  unfold steady. keeping HC.
Qed.

(** The dentry of a removal, below its locked directory. *)
Definition removable w (dir : inode) (d : Z) H : Prop :=
  tree_ok w ∧ c_inode C w (c_parent C w d) = Some dir ∧
  ∀ i, c_inode C w d = Some i → RInode i ∉ H.

Lemma wp_vfs_rmdir mnt dir d Q k w H :
  removable w dir d H → finishes (removes d) k w H Q →
  wp (vfs_rmdir C mnt dir d) Q (St k w H false).
Proof.
  intros (HT & Hp & Hl) HQ. unfold vfs_rmdir. apply wp_check, wp_may_delete; [done..|]. intros e Hd.
  split; [intros ->|by intros; apply HQ]. destruct (Hd eq_refl) as [i Hi]. vfs_steps HQ.
  unfold dget, dput. do 3 wp_step. eapply wp_inode_of; [done|]. wp_step.
  apply wp_lock; [by apply not_in_add; [apply Hl|]|]. wp_step.
  apply wp_rmdir_locked; [done|]. intros e w' b Hk Hb. unfold steady in Hk. wp_step.
  eapply wp_inode_of; [by eapply keeps_inode|]. wp_step. eapply wp_drop; [done|]. wp_step. eapply wp_drop; [done|].
  eapply wp_d_delete; [done|by intros ?%negb_false_iff%Z.eqb_eq|done..].
Qed.

Lemma wp_unlink_locked dir target d Q k w H :
  finishes steady k w H Q → wp (unlink_locked C dir target d) Q (St k w H false).
Proof.
  intros HQ. unfold unlink_locked. do 2 wp_step. vfs_steps HQ. do 2 wp_step. vfs_steps HQ.
  apply wp_check, wp_world. intros e w1 He.
  assert (keeps w w1) as Hk1.
  { eapply eq_ind with (P := λ r, keeps w r.2) in He; [exact He|apply (co_unlink _ _ _ _ HC)]. }
  split; [intros ->|by intros; apply HQ]. wp_steps. apply HQ; [|done].
  unfold steady. keeping HC.
Qed.

Lemma wp_vfs_unlink mnt dir d Q k w H :
  removable w dir d H → finishes (removes d) k w H Q →
  wp (vfs_unlink C mnt dir d) Q (St k w H false).
Proof.
  intros (HT & Hp & Hl) HQ. unfold vfs_unlink, d_inode. do 2 wp_step.
  apply wp_check, wp_may_delete; [done..|]. intros e Hd.
  split; [intros ->|by intros; apply HQ]. destruct (Hd eq_refl) as [i Hi]. vfs_steps HQ.
  wp_step. apply wp_the. exists i. split; [done|]. wp_step. apply wp_lock; [by apply Hl|]. wp_step.
  apply wp_unlink_locked. intros e w' b Hk Hb. unfold steady in Hk. wp_step.
  eapply wp_drop; [done|]. do 2 wp_step.
  eapply wp_d_delete; [done| |done..]. by intros [?%negb_false_iff%Z.eqb_eq _]%orb_false_iff.
Qed.

(** *** Links *)

Lemma wp_may_linkat mnt p Q k w H b :
  is_Some (c_inode C w (p_dentry p)) → (∀ e, Q e (St k w H b)) →
  wp (may_linkat C mnt p) Q (St k w H b).
Proof.
  intros [i Hi] HQ. unfold may_linkat. wp_step. eapply wp_inode_of; [done|].
  do 2 wp_step. apply wp_if; intros _; [by wp_steps|]. apply wp_if; intros _; [by wp_steps|].
  unfold safe_hardlink_source, inode_permission. wp_step. do 2 wp_step. wp_steps; try apply HQ.
Qed.

Lemma wp_link_locked old i dir d Q k w H :
  finishes steady k w H Q → wp (link_locked C old i dir d) Q (St k w H false).
Proof.
  intros HQ. unfold link_locked. cbv zeta. do 5 wp_step.
  assert (finishes steady k w H (λ error, wp (
      linkable ← ask (λ w, c_linkable C w i);
      unless (negb (error =? 0) || negb linkable) (become (λ w, c_clear_linkable C w i));;
      mret error) Q)) as HQ'.
  { intros e w' b Hk Hb. do 4 wp_step; wp_steps; apply HQ; try done.
    unfold steady in *. etrans; [done|]. apply (co_clear_linkable _ _ _ _ HC). }
  vfs_steps HQ'. apply wp_world. intros e w1 He. apply HQ'; [|done].
  eapply eq_ind with (P := λ r, keeps w r.2) in He; [exact He|apply (co_link _ _ _ _ HC)].
Qed.

Lemma wp_vfs_link old mnt dir d Q k w H :
  (∀ i, c_inode C w old = Some i → is_type (c_mode C w i) S_IFDIR = false → RInode i ∉ H) →
  finishes steady k w H Q → wp (vfs_link C old mnt dir d) Q (St k w H false).
Proof.
  intros Hl HQ. unfold vfs_link, d_inode. do 2 wp_step. destruct (c_inode C w old) as [i|] eqn:Hi.
  2: by apply wp_ret, HQ.
  vfs_steps HQ. do 2 wp_step. vfs_steps HQ. do 2 wp_step. vfs_steps HQ. do 2 wp_step. vfs_steps HQ.
  wp_step. apply wp_lock; [by apply Hl|]. wp_step. apply wp_link_locked. intros e w' b Hk Hb.
  wp_step. eapply wp_drop; [done|]. apply wp_ret. by apply HQ.
Qed.

(** *** The locks of two directories *)

Definition is_dir w (d : Z) : Prop := c_is_dir C w d = true.

Lemma is_dir_inode w d : tree_ok w → is_dir w d → ∃ i, c_inode C w d = Some i.
Proof. intros HT Hd. exact (to_positive _ _ _ _ HT d Hd). Qed.
Lemma is_dir_inj w d d' i :
  tree_ok w → is_dir w d → c_inode C w d = Some i → c_inode C w d' = Some i → d' = d.
Proof. intros HT Hd. by apply (to_one _ _ _ _ HT). Qed.

(** A directory's depth. *)
Definition depths w (depth : Z → nat) : Prop := ∀ d, is_dir w d → (depth d < climbs)%nat ∧
  (c_parent C w d = d ∨ is_dir w (c_parent C w d) ∧ (depth (c_parent C w d) < depth d)%nat).

(** [d] is [p] or above it. *)
Definition above w (d p : Z) : Prop := rtc (λ x y, c_parent C w x = y) p d.

Lemma above_dir w d p depth :
  depths w depth → is_dir w p → above w d p → is_dir w d ∧ (depth d ≤ depth p)%nat.
Proof.
  intros Hdep Hp Ha. induction Ha as [p|p q d Hpq Ha IH]; [done|].
  destruct (Hdep p Hp) as [_ [Heq|[Hq Hlt]]].
  - assert (q = p) as -> by congruence. auto.
  - rewrite Hpq in Hq, Hlt. destruct (IH Hq). split; [done|lia].
Qed.

(** No directory is above its parent. *)
Lemma above_parent w d p depth :
  depths w depth → is_dir w p → c_parent C w d = p → d ≠ p → ¬ above w d p.
Proof.
  intros Hdep Hp Hd Hne Ha. destruct (above_dir _ _ _ _ Hdep Hp Ha) as [Hdir Hle].
  destruct (Hdep d Hdir) as [_ [Heq|[_ Hlt]]]; [congruence|]. rewrite Hd in Hlt. lia.
Qed.

Lemma above_root w d p : c_parent C w p = p → above w d p → d = p.
Proof. intros Hp Ha. induction Ha as [|p q d Hpq _ IH]; [done|]. assert (q = p) as -> by congruence. auto. Qed.

(** A climb ends at the child of [goal] on the way, if there is one. *)
Lemma wp_climb depth goal stop Q k w H b :
  depths w depth → is_dir w goal → (∀ s, stop = Some s → c_parent C w s = s) → ∀ n p,
  is_dir w p → (depth p < n)%nat →
  (∀ p' r, c_parent C w p' = r → above w p' p → r = goal ∨ r = p' ∨ stop = Some r →
     (∀ d, above w d p → c_parent C w d = goal → d ≠ goal → p' = d ∧ r = goal) →
     Q (p', r) (St k w H b)) →
  wp (climb C n goal stop p) Q (St k w H b).
Proof.
  intros Hdep Hgoal Hstop n. induction n as [|n IH]; intros p Hp Hn HQ; [lia|]. cbn [climb].
  unfold d_parent. do 2 wp_step. destruct (Hdep p Hp) as [_ Hup]. set (r := c_parent C w p) in *.
  assert (∀ d, above w d p → d = p ∨ above w d r) as Habove.
  { intros d Ha. inversion Ha as [|? q ? Hq Ha']; subst; [by left|right]. done. }
  apply wp_if.
  - intros [[Hg%negb_true_iff%Z.eqb_neq _]%andb_true_iff Hne%negb_true_iff%Z.eqb_neq]%andb_true_iff.
    destruct Hup as [?|[Hr Hlt]]; [done|]. apply IH; [done|lia|]. intros p' r' Hpr Ha' Hr' Hd.
    apply HQ; [done|by eapply rtc_l|done|]. intros d Ha Hpd Hdg. apply Hd; [|done..].
    destruct (Habove d Ha) as [->|?]; [by destruct Hg|done].
  - intros Hc.
    assert (r = goal ∨ r = p ∨ stop = Some r) as Hend.
    { destruct (decide (r = goal)) as [|Hg]; [by left|right].
      destruct (decide (r = p)) as [|Hne]; [by left|right].
      rewrite (proj2 (Z.eqb_neq _ _) Hg), (proj2 (Z.eqb_neq _ _) Hne) in Hc. cbn in Hc.
      rewrite andb_true_r in Hc. by apply negb_false_iff, bool_decide_eq_true in Hc. }
    apply wp_ret, HQ; [done|apply rtc_refl|done|].
    + intros d Ha Hpd Hdg. destruct (Habove d Ha) as [->|Har]; [done|]. exfalso.
      destruct Hend as [Hrg|Hend]; [rewrite Hrg in Har; by apply (above_parent w d goal depth)|].
      assert (c_parent C w r = r) as Hroot by (destruct Hend as [Hrp|?]; [unfold r in *; congruence|by apply Hstop]).
      apply above_root in Har; [|done]. congruence.
Qed.

(** Two different directories, and what is held when they are locked. *)
Record two_dirs w (p1 p2 : Z) (i1 i2 : inode) : Prop := {
  td_tree : tree_ok w;
  td_dir1 : is_dir w p1;
  td_dir2 : is_dir w p2;
  td_inode1 : c_inode C w p1 = Some i1;
  td_inode2 : c_inode C w p2 = Some i2
}.
Definition locked2 (p1 p2 : Z) (i1 i2 : inode) H : gmultiset resource :=
  if p1 =? p2 then H ⊎ {[+ RInode i1 +]} else
  H ⊎ {[+ rename_mutex C p1 +]} ⊎ {[+ RInode i1 +]} ⊎ {[+ RInode i2 +]}.
Definition not_held (p1 : Z) (i1 i2 : inode) H : Prop :=
  (rename_mutex C p1 ∉ H) ∧ (RInode i1 ∉ H) ∧ (RInode i2 ∉ H).

(** A child of one directory that is the other or above it is the trap. *)
Definition trapped w (p1 p2 : Z) (trap : dentry_res) : Prop :=
  p1 ≠ p2 →
  (∀ d, above w d p1 → c_parent C w d = p2 → d ≠ p2 → trap = PPtr d) ∧
  (∀ d, above w d p2 → c_parent C w d = p1 → d ≠ p1 → trap = PPtr d).

Lemma wp_lock_two p1 p2 i1 i2 Q k w H b :
  two_dirs w p1 p2 i1 i2 → p1 ≠ p2 → not_held p1 i1 i2 H →
  (∀ trap, trapped w p1 p2 trap →
     match trap with
     | PErr _ => Q trap (St k w H b)
     | _ => Q trap (St k w (locked2 p1 p2 i1 i2 H) b)
     end) →
  wp (lock_two_directories C climbs p1 p2) Q (St k w (H ⊎ {[+ rename_mutex C p1 +]}) b).
Proof.
  intros [HT Hd1 Hd2 Hi1 Hi2] Hne (Hm & Hn1 & Hn2) HQ.
  destruct (to_depth _ _ _ _ HT) as [depth Hdep]. change (depths w depth) in Hdep.
  assert (i1 ≠ i2) as Hii by (intros ->; apply Hne; by eapply is_dir_inj).
  assert (∀ x y i j trap, c_inode C w x = Some i → c_inode C w y = Some j →
    (i = i1 ∧ j = i2 ∨ i = i2 ∧ j = i1) →
    Q trap (St k w (locked2 p1 p2 i1 i2 H) b) →
    wp (i ← inode_of C x; inode_lock i;; i ← inode_of C y; inode_lock i;; mret trap) Q
      (St k w (H ⊎ {[+ rename_mutex C p1 +]}) b)) as Hlock.
  { intros x y i j trap Hx Hy Hij Ht. wp_step. eapply wp_inode_of; [done|]. wp_step.
    apply wp_lock; [apply not_in_add; [|done]; by destruct Hij as [[-> _]|[-> _]]|].
    wp_step. eapply wp_inode_of; [done|]. wp_step. apply wp_lock.
    - repeat apply not_in_add; try done; destruct Hij as [[-> ->]|[-> ->]]; congruence.
    - apply wp_ret. revert Ht. unfold locked2. rewrite (proj2 (Z.eqb_neq _ _)) by done.
      destruct Hij as [[-> ->]|[-> ->]]; [done|]. intros Ht.
      replace (H ⊎ {[+ rename_mutex C p1 +]} ⊎ {[+ RInode i2 +]} ⊎ {[+ RInode i1 +]})
        with (H ⊎ {[+ rename_mutex C p1 +]} ⊎ {[+ RInode i1 +]} ⊎ {[+ RInode i2 +]})
        by multiset_solver. done. }
  unfold lock_two_directories. wp_step.
  eapply (wp_climb depth p2); [done|done|done|done|by apply Hdep|]. intros p r Hpr Hap Hr Hgo. apply wp_if.
  { intros ->%Z.eqb_eq. eapply Hlock; [done..|auto|]. apply (HQ (PPtr p)). intros _. split.
    - intros d Ha Hd Hdp. by destruct (Hgo d Ha Hd Hdp) as [-> _].
    - intros d Ha Hd Hdp. exfalso. eapply (above_parent w d p1 depth); [done..|].
      unfold above in *. etrans; [exact Hap|]. by eapply rtc_l. }
  intros Hr2%Z.eqb_neq. destruct Hr as [?|[Hroot|?]]; [done| |done].
  assert (∀ d, above w d p1 → c_parent C w d = p2 → d ≠ p2 → False) as Hnp1.
  { intros d Ha Hd Hdp. by destruct (Hgo d Ha Hd Hdp). }
  wp_step. eapply (wp_climb depth p1); [done|done| |done|by apply Hdep|].
  { intros ? [= <-]. congruence. }
  intros q r' Hqr Haq Hr' Hgo'.
  apply wp_if; [|intros Hr1%Z.eqb_neq; apply wp_if].
  - intros ->%Z.eqb_eq. eapply Hlock; [done..|auto|]. apply (HQ (PPtr q)). intros _. split.
    + intros d Ha Hd Hdp. by destruct (Hnp1 d).
    + intros d Ha Hd Hdp. by destruct (Hgo' d Ha Hd Hdp) as [-> _].
  - intros ->%Z.eqb_eq. eapply Hlock; [done..|auto|]. apply (HQ PNull). intros _. split.
    + intros d Ha Hd Hdp. by destruct (Hnp1 d).
    + intros d Ha Hd Hdp. by destruct (Hgo' d Ha Hd Hdp).
  - intros _. wp_step. eapply wp_drop; [done|]. apply wp_ret, (HQ (PErr _)). intros _. split.
    + intros d Ha Hd Hdp. by destruct (Hnp1 d).
    + intros d Ha Hd Hdp. by destruct (Hgo' d Ha Hd Hdp).
Qed.

Lemma wp_lock_rename p1 p2 i1 i2 Q k w H b :
  two_dirs w p1 p2 i1 i2 → not_held p1 i1 i2 H →
  (∀ trap, trapped w p1 p2 trap →
     match trap with
     | PErr _ => Q trap (St k w H b)
     | _ => Q trap (St k w (locked2 p1 p2 i1 i2 H) b)
     end) →
  wp (lock_rename C climbs p1 p2) Q (St k w H b).
Proof.
  intros Htd Hn HQ. unfold lock_rename. apply wp_if; intros Hp; unfold_bools.
  - subst p2. wp_step. eapply wp_inode_of; [apply Htd|]. wp_step. apply wp_lock; [apply Hn|].
    apply wp_ret. specialize (HQ PNull). unfold locked2 in HQ. rewrite Z.eqb_refl in HQ. apply HQ. by intros ?.
  - wp_step. apply wp_lock; [apply Hn|]. by eapply wp_lock_two.
Qed.

Lemma wp_unlock_rename p1 p2 i1 i2 Q k w H b :
  c_inode C w p1 = Some i1 → c_inode C w p2 = Some i2 → Q () (St k w H b) →
  wp (unlock_rename C p1 p2) Q (St k w (locked2 p1 p2 i1 i2 H) b).
Proof.
  intros Hi1 Hi2 HQ. unfold unlock_rename, locked2. wp_step. eapply wp_inode_of; [done|]. wp_step.
  destruct (p1 =? p2) eqn:Hp.
  - eapply wp_drop; [done|]. by wp_step.
  - eapply (wp_drop _ _ _ _ _ (H ⊎ {[+ rename_mutex C p1 +]} ⊎ {[+ RInode i2 +]})); [multiset_solver|].
    wp_step; [done|]. wp_step. eapply wp_inode_of; [done|]. wp_step. eapply wp_drop; [done|]. by eapply wp_drop.
Qed.

(** *** The names of a rename *)

Lemma two_dirs_grows w w' p1 p2 i1 i2 :
  grows w w' → two_dirs w p1 p2 i1 i2 → two_dirs w' p1 p2 i1 i2.
Proof. intros Hg [? ? ? ? ?]. by split; try apply Hg. Qed.
Lemma two_dirs_some w p1 p2 i1 i2 :
  two_dirs w p1 p2 i1 i2 → is_Some (c_inode C w p1) ∧ is_Some (c_inode C w p2).
Proof. intros [_ _ _ -> ->]. eauto. Qed.
Lemma above_grows w w' d p :
  tree_ok w → grows w w' → is_dir w p → above w' d p → above w d p.
Proof.
  intros HT Hg Hp Ha. destruct (to_depth _ _ _ _ HT) as [depth Hdep]. change (depths w depth) in Hdep.
  induction Ha as [p|p q d Hpq _ IH]; [apply rtc_refl|].
  rewrite (gr_parent _ _ _ _ _ _ Hg) in Hpq by by apply (to_positive _ _ _ _ HT).
  eapply rtc_l; [exact Hpq|]. apply IH. destruct (Hdep p Hp) as [_ [?|[? _]]]; congruence.
Qed.
Lemma trapped_grows w w' p1 p2 i1 i2 trap :
  grows w w' → two_dirs w p1 p2 i1 i2 → trapped w p1 p2 trap → trapped w' p1 p2 trap.
Proof.
  intros Hg [HT Hd1 Hd2 _ _] Ht Hne. destruct (to_depth _ _ _ _ HT) as [depth Hdep].
  assert (∀ d p, is_dir w p → above w' d p → above w d p ∧ c_parent C w' d = c_parent C w d) as Hup.
  { intros d p Hp Ha%(above_grows w w'); [|done..]. split; [done|]. apply (gr_parent _ _ _ _ _ _ Hg).
    apply (to_positive _ _ _ _ HT). by destruct (above_dir _ _ _ _ Hdep Hp Ha). }
  destruct (Ht Hne) as [H1 H2]. split; intros d Ha Hpd.
  - destruct (Hup d p1 Hd1 Ha) as [Ha' Hpd']. apply H1; congruence.
  - destruct (Hup d p2 Hd2 Ha) as [Ha' Hpd']. apply H2; congruence.
Qed.

(** The two dentries, held below their locked directories; neither is the
    other's directory, or above it. *)
Record two_names w (rd : renamedata) : Prop := {
  tn_old : child w (rd_old_parent rd) (rd_old_dentry rd);
  tn_new : child w (rd_new_parent rd) (rd_new_dentry rd);
  tn_there : is_Some (c_inode C w (rd_old_dentry rd));
  tn_old_apart : ¬ above w (rd_old_dentry rd) (rd_new_parent rd);
  tn_new_apart : ¬ above w (rd_new_dentry rd) (rd_old_parent rd)
}.
Definition held_names (rd : renamedata) (i1 i2 : inode) H : gmultiset resource :=
  locked2 (rd_old_parent rd) (rd_new_parent rd) i1 i2
    (H ⊎ {[+ RDentry (rd_old_dentry rd) +]} ⊎ {[+ RDentry (rd_new_dentry rd) +]}
       ⊎ {[+ RDentry (rd_old_parent rd) +]}).

Lemma locked2_add p1 p2 i1 i2 H r : locked2 p1 p2 i1 i2 (H ⊎ {[+ r +]}) = locked2 p1 p2 i1 i2 H ⊎ {[+ r +]}.
Proof. unfold locked2. case_match; multiset_solver. Qed.

Lemma untrapped w p1 p2 d1 d2 i1 i2 trap :
  two_dirs w p1 p2 i1 i2 → trapped w p1 p2 trap → child w p1 d1 → child w p2 d2 →
  is_dentry d1 trap = false → is_dentry d2 trap = false → ¬ above w d1 p2 ∧ ¬ above w d2 p1.
Proof.
  intros [HT Hdir1 Hdir2 _ _] Ht [Hp1 Hne1] [Hp2 Hne2] Hd1 Hd2.
  destruct (to_depth _ _ _ _ HT) as [depth Hdep]. destruct (decide (p1 = p2)) as [<-|Hne].
  { split; by apply (above_parent w _ _ depth). }
  destruct (Ht Hne) as [H1 H2]. split; intros Ha.
  - rewrite (H2 _ Ha Hp1 Hne1) in Hd1. cbn in Hd1. by rewrite Z.eqb_refl in Hd1.
  - rewrite (H1 _ Ha Hp2 Hne2) in Hd2. cbn in Hd2. by rewrite Z.eqb_refl in Hd2.
Qed.

Lemma wp_start_renaming rd flags old_last new_last i1 i2 Q k w H b :
  two_dirs w (rd_old_parent rd) (rd_new_parent rd) i1 i2 →
  not_held (rd_old_parent rd) i1 i2 H → LOOKUP_CREATE ∉ flags →
  (∀ e w', grows w w' → Q (inl e) (St k w' H b)) →
  (∀ d1 d2 w', grows w w' → two_names w' (found rd d1 d2) →
     Q (inr (found rd d1 d2)) (St k w' (held_names (found rd d1 d2) i1 i2 H) b)) →
  wp (start_renaming C climbs rd flags old_last new_last) Q (St k w H b).
Proof.
  set (p1 := rd_old_parent rd). set (p2 := rd_new_parent rd).
  intros Htd Hn Hf Hinl Hinr. unfold start_renaming. cbv zeta. fold p1 p2.
  set (f2 := flags ∪ _). clearbody f2. wp_step. eapply wp_lock_rename; [done..|]. intros trap Ht.
  set (unlock := unlock_rename C p1 p2).
  assert (∀ w' Q', grows w w' → Q' () (St k w' H b) →
    wp unlock Q' (St k w' (locked2 p1 p2 i1 i2 H) b)) as Hun.
  { intros w' Q' Hg HQ'. apply (two_dirs_grows _ _ _ _ _ _ Hg) in Htd. by apply wp_unlock_rename; [apply Htd..|]. }
  clearbody unlock.
  assert (∀ e d1 w', grows w w' → wp (dput d1;; unlock;; mret (inl e)) Q
    (St k w' (locked2 p1 p2 i1 i2 H ⊎ {[+ RDentry d1 +]}) b)) as Herr1.
  { intros e d1 w' Hg. wp_step. eapply wp_drop; [done|]. wp_step. apply Hun; [done|]. by apply wp_ret, Hinl. }
  assert (∀ e d1 d2 w', grows w w' → wp (dput d2;; dput d1;; unlock;; mret (inl e)) Q
    (St k w' (locked2 p1 p2 i1 i2 H ⊎ {[+ RDentry d1 +]} ⊎ {[+ RDentry d2 +]}) b)) as Herr2.
  { intros e d1 d2 w' Hg. wp_step. eapply wp_drop; [done|]. by apply Herr1. }
  assert (wp (
    d1 ← lookup_one_qstr_excl C old_last p1 flags;
    match d1 with
    | PErr e => unlock;; mret (inl e)
    | PNull => crash NullDereference
    | PPtr d1 =>
        d2 ← lookup_one_qstr_excl C new_last p2 f2;
        match d2 with
        | PErr e => dput d1;; unlock;; mret (inl e)
        | PNull => crash NullDereference
        | PPtr d2 =>
            if is_dentry d1 trap then dput d2;; dput d1;; unlock;; mret (inl (- EINVAL)) else
            if is_dentry d2 trap then dput d2;; dput d1;; unlock;;
              mret (inl (if bits RENAME_EXCHANGE (rd_flags rd) then - EINVAL else - ENOTEMPTY))
            else dget p1;; mret (inr (found rd d1 d2))
        end
    end) Q (St k w (locked2 p1 p2 i1 i2 H) b)) as Hgo.
  { destruct (two_dirs_some _ _ _ _ _ Htd) as [Hs1 Hs2].
    wp_step. apply wp_lookup_one; [done|]. intros [|d1|e] w1 Hg1 Hb1 Hne1 Hp1; [done| |].
    2: { wp_step. apply Hun; [done|]. by apply wp_ret, Hinl. }
    specialize (Hp1 d1 eq_refl Hf). wp_step. apply wp_lookup_one; [by eapply grows_some|].
    intros [|d2|e] w2 Hg2 Hb2 Hne2 _; [done| |].
    2: { apply Herr1. by etrans. }
    assert (grows w w2) as Hg by by etrans. cbn [with_dentry below] in *.
    apply wp_if; [intros _; by apply Herr2|]. intros Ht1. apply wp_if; [intros _; by apply Herr2|]. intros Ht2.
    unfold dget. wp_steps. apply (trapped_grows _ _ _ _ _ _ _ Hg Htd) in Ht.
    apply (two_dirs_grows _ _ _ _ _ _ Hg) in Htd.
    assert (child w2 p1 d1) as Hc1 by by apply (grows_child w1).
    destruct (untrapped _ _ _ _ _ _ _ _ Htd Ht Hc1 Hb2 Ht1 Ht2) as [Ha1 Ha2].
    rewrite <-!locked2_add. apply Hinr; [done|]. split; try done. by apply (grows_some w1). }
  destruct trap as [|t|e]; [exact Hgo|exact Hgo|by apply wp_ret, Hinl].
Qed.

Lemma wp_end_renaming rd i1 i2 Q k w H b :
  c_inode C w (rd_old_parent rd) = Some i1 → c_inode C w (rd_new_parent rd) = Some i2 →
  Q () (St k w H b) → wp (end_renaming C rd) Q (St k w (held_names rd i1 i2 H) b).
Proof.
  intros Hi1 Hi2 HQ. unfold end_renaming, held_names, dput. wp_step. apply wp_unlock_rename; [done..|].
  wp_step. eapply (wp_drop _ _ _ _ _ (H ⊎ {[+ RDentry (rd_new_dentry rd) +]} ⊎ {[+ RDentry (rd_old_parent rd) +]})).
  { multiset_solver. }
  wp_step. eapply (wp_drop _ _ _ _ _ (H ⊎ {[+ RDentry (rd_old_parent rd) +]})); [multiset_solver|].
  by eapply wp_drop.
Qed.

(** *** The move *)

(** The children that are locked. *)
Definition children (old_dir new_dir source : inode) (target : option inode)
  (is_dir new_is_dir : bool) (flags : Z) : gmultiset resource :=
  (if is_dir && negb (lock_old_subdir old_dir new_dir) then ∅ else {[+ RInode source +]}) ⊎
  match target with
  | Some t => if new_is_dir && negb (lock_new_subdir old_dir new_dir flags) then ∅ else {[+ RInode t +]}
  | None => ∅
  end.

Lemma wp_lock_children old_dir new_dir source target is_dir new_is_dir flags Q k w H b :
  RInode source ∉ H → (∀ t, target = Some t → (RInode t ∉ H) ∧ t ≠ source) →
  (new_is_dir = true → target ≠ None) →
  Q () (St k w (H ⊎ children old_dir new_dir source target is_dir new_is_dir flags) b) →
  wp (lock_children old_dir new_dir source target is_dir new_is_dir flags) Q (St k w H b).
Proof.
  intros Hs Ht Hnew. unfold lock_children, children, lock_two_nondirectories, inode_lock. cbv zeta.
  destruct target as [t|].
  - destruct (Ht t eq_refl) as [Hnt Hne]. rewrite bool_decide_eq_false_2 by congruence.
    destruct is_dir, new_is_dir; cbn [andb negb];
      destruct (lock_old_subdir old_dir new_dir), (lock_new_subdir old_dir new_dir flags); cbn [negb];
      rewrite ?gmultiset_disj_union_left_id, ?gmultiset_disj_union_right_id;
      intros HQ; rewrite ?(assoc_L (⊎)) in HQ;
      repeat first [exact HQ | wp_step | done | apply wp_the; exists t; split; [done|]
        | apply wp_lock; [by repeat first [assumption | apply not_in_add; [|congruence]]|] ];
      by rewrite <-(assoc_L (⊎)), (comm_L (⊎) {[+ RInode t +]}), (assoc_L (⊎)).
  - destruct new_is_dir; [by destruct Hnew|].
    destruct is_dir; cbn [andb negb]; destruct (lock_old_subdir old_dir new_dir); cbn [negb];
      rewrite ?gmultiset_disj_union_left_id, ?gmultiset_disj_union_right_id; intros HQ;
      repeat first [exact HQ | wp_step | done | apply wp_lock; [assumption|] ].
Qed.

Lemma wp_unlock_children old_dir new_dir source target is_dir new_is_dir flags Q k w H b :
  Q () (St k w H b) →
  wp (unlock_children old_dir new_dir source target is_dir new_is_dir flags) Q
    (St k w (H ⊎ children old_dir new_dir source target is_dir new_is_dir flags) b).
Proof.
  intros HQ. unfold unlock_children, children, inode_unlock. wp_step.
  destruct target as [t|]; destruct (is_dir && _);
    try destruct (new_is_dir && negb (lock_new_subdir old_dir new_dir flags));
    rewrite ?gmultiset_disj_union_left_id, ?gmultiset_disj_union_right_id; repeat first [exact HQ | done | wp_step
      | eapply (wp_drop _ _ _ _ _ (H ⊎ {[+ RInode t +]})); [multiset_solver|]
      | eapply wp_drop; [done|] ].
Qed.

Definition renames (e : Z) w w' : Prop :=
  (∀ d i, c_inode C w d = Some i → c_inode C w' d = Some i) ∧
  (e ≠ 0 → keeps w w') ∧ (acyclic w → acyclic w').

Lemma keeps_renames e w w' : keeps w w' → renames e w w'.
Proof. intros Hk. split_and!; [apply Hk|done|apply Hk]. Qed.
#[local] Instance renames_refl e : Reflexive (renames e).
Proof. intros w. by apply keeps_renames. Qed.

(** The parents after a rename. *)
Definition moved (rd : renamedata) (par : Z → Z) : Z → Z :=
  if bits RENAME_EXCHANGE (rd_flags rd)
  then with_exchange (rd_old_dentry rd) (rd_new_dentry rd) par
  else with_move (rd_old_dentry rd) (rd_new_dentry rd) par.
(** A move after which what led to a root does. *)
Definition sound_move w (rd : renamedata) : Prop :=
  ∀ par, (∀ d, par d = c_parent C w d) → ∀ d, rooted par d → rooted (moved rd par) d.

Lemma wp_break_if c i Q k w H :
  (c = true → i ≠ None) → (∀ e b, (b = true → e ≠ 0) → Q e (St k w H b)) →
  wp (break_if C c i) Q (St k w H false).
Proof.
  intros Hi HQ. unfold break_if. destruct c; [|by apply wp_ret, HQ].
  destruct i as [i|]; [|by destruct Hi]. wp_step. apply wp_the. exists i. split; [done|]. by apply wp_try_break.
Qed.

Lemma rooted_ext par par' d : (∀ x, par' x = par x) → rooted par d → rooted par' d.
Proof.
  intros He Hd. induction Hd as [d Hd|d _ IH]; [apply rooted_root; by rewrite He|].
  apply rooted_up. by rewrite He.
Qed.
Lemma moves_acyclic par w w' :
  moves C par w w' → (∀ d, rooted (c_parent C w) d → rooted par d) → acyclic w → acyclic w'.
Proof.
  intros [_ Hd Hp] Hr Ha d Hdir. apply (rooted_ext par); [done|]. by apply Hr, Ha, Hd.
Qed.

Lemma wp_rename_locked rd old_dir new_dir source target is_dir new_is_dir Q k w H :
  sound_move w rd → finishes renames k w H Q →
  wp (rename_locked C rd old_dir new_dir source target is_dir new_is_dir) Q (St k w H false).
Proof.
  intros Hsound HQ. unfold rename_locked. cbv zeta. do 2 wp_step. vfs_steps HQ. do 2 wp_step. vfs_steps HQ.
  do 4 wp_step. vfs_steps HQ.
  do 3 (eapply finishes_check; [|exact HQ| |]; [by intros|intros ? HQ'; apply wp_break_if; [|exact HQ']|];
    [by intros; try discriminate; match goal with H : bool_decide _ && _ = true |- _ =>
       by apply andb_true_iff in H as [?%bool_decide_eq_true ?] end|]).
  apply wp_check, wp_world. intros e w1 He. apply (co_rename _ _ _ _ HC) in He as [Hk Hmv].
  split; [intros ->|intros He; by apply HQ; [by apply keeps_renames, Hk|]]. clear Hk. specialize (Hmv eq_refl).
  fold (moved rd (c_parent C w)) in Hmv.
  wp_step. match goal with |- wp _ ?P _ => set (Post := P) end.
  assert (∀ w', keeps w1 w' → Post () (St k w' H false)) as Hmove.
  { intros w' Hk. assert (∀ d i, c_inode C w d = Some i → c_inode C w' d = Some i) as Hi.
    { intros d i Hd. by apply Hk, (mv_inode _ _ _ _ Hmv). }
    unfold Post. wp_step. apply wp_unless; intros Hdm; rewrite Hdm in Hmv; cbn [negb] in Hmv.
    - wp_steps. apply HQ; [|done]. split_and!; [done..|]. intros Ha. apply Hk.
      eapply moves_acyclic; [exact Hmv| |done]. by apply Hsound.
    - assert (acyclic w → acyclic w') as Ha'.
      { intros Ha. apply Hk. by eapply moves_acyclic. }
      assert (∀ d, c_parent C w' d = c_parent C w d) as Hpar.
      { intros d. by rewrite (ke_parent _ _ _ _ _ _ Hk), (mv_parent _ _ _ _ Hmv). }
      pose proof (Hsound (c_parent C w') Hpar) as Hs. unfold moved in Hs.
      apply wp_if; intros Hx; rewrite Hx in Hs; wp_steps; (apply HQ; [|done]); (split_and!; [|done|]).
      + intros d i Hd. apply (mv_inode _ _ _ _ (co_d_exchange _ _ _ _ HC _ _ _)). auto.
      + intros Ha. eapply moves_acyclic; [apply (co_d_exchange _ _ _ _ HC)|done|auto].
      + intros d i Hd. apply (mv_inode _ _ _ _ (co_d_move _ _ _ _ HC _ _ _)). auto.
      + intros Ha. eapply moves_acyclic; [apply (co_d_move _ _ _ _ HC)|done|auto]. }
  clearbody Post. destruct target as [t|]; [|by apply wp_ret, Hmove].
  wp_steps; apply Hmove; keeping HC.
Qed.

(** The two dentries are not the directories that are locked. *)
Lemma names_not_locked w rd i1 i2 i d H :
  two_dirs w (rd_old_parent rd) (rd_new_parent rd) i1 i2 → two_names w rd →
  d = rd_old_dentry rd ∨ d = rd_new_dentry rd → c_inode C w d = Some i →
  RInode i ∉ H → RInode i ∉ held_names rd i1 i2 H.
Proof.
  intros [HT Hd1 Hd2 Hi1 Hi2] [[_ Ho] [_ Hn] _ Hao Han] Hd Hi Hl.
  assert (rd_old_dentry rd ≠ rd_new_parent rd) as Ho2 by (intros He; apply Hao; rewrite He; apply rtc_refl).
  assert (rd_new_dentry rd ≠ rd_old_parent rd) as Hn1 by (intros He; apply Han; rewrite He; apply rtc_refl).
  assert (i ≠ i1 ∧ i ≠ i2) as [Hne1 Hne2].
  { split; intros ->; [apply (is_dir_inj _ _ _ _ HT Hd1 Hi1) in Hi|apply (is_dir_inj _ _ _ _ HT Hd2 Hi2) in Hi];
      destruct Hd; congruence. }
  unfold held_names, locked2. case_match; repeat apply not_in_add; try done; congruence.
Qed.

(** Where the new parents of what moves lead to roots without it, everything
    leads to a root. *)
Lemma rooted_change par par' (xs : list Z) :
  (∀ d, d ∉ xs → par' d = par d) →
  (∀ d, d ∈ xs → rooted par (par' d) ∧ ∀ x, x ∈ xs → ¬ rtc (λ x y, par x = y) (par' d) x) →
  ∀ d, rooted par d → rooted par' d.
Proof.
  intros Hout Hin.
  assert (∀ d, rooted par d → (∀ x, x ∈ xs → ¬ rtc (λ x y, par x = y) d x) → rooted par' d) as Hfree.
  { intros d Hd. induction Hd as [d Hd|d _ IH]; intros Hx;
      assert (par' d = par d) as He by (apply Hout; intros Hdx; apply (Hx d); [done|apply rtc_refl]).
    - apply rooted_root. congruence.
    - apply rooted_up. rewrite He. apply IH. intros x Hxs Hr. apply (Hx x Hxs). eapply rtc_l; [reflexivity|exact Hr]. }
  assert (∀ d, d ∈ xs → rooted par' d) as Hxs.
  { intros d Hd. apply rooted_up. destruct (Hin d Hd). by apply Hfree. }
  intros d Hd. induction Hd as [d Hd|d _ IH]; (destruct (decide (d ∈ xs)) as [|Hdx]; [by apply Hxs|]).
  - apply rooted_root. by rewrite Hout.
  - apply rooted_up. by rewrite Hout.
Qed.

Lemma tree_acyclic w : tree_ok w → acyclic w.
Proof.
  intros HT. destruct (to_depth _ _ _ _ HT) as [depth Hdep].
  assert (∀ n d, (depth d < n)%nat → is_dir w d → rooted (c_parent C w) d) as H; [|by intros d; apply (H (S (depth d))); lia].
  induction n as [|n IH]; [lia|]. intros d Hn Hd. destruct (Hdep d Hd) as [_ [?|[Hp Hlt]]].
  - by apply rooted_root.
  - apply rooted_up, IH; [lia|done].
Qed.

Lemma names_sound_move w rd i1 i2 :
  two_dirs w (rd_old_parent rd) (rd_new_parent rd) i1 i2 → two_names w rd → sound_move w rd.
Proof.
  intros [HT Hd1 Hd2 _ _] [[Hpo Ho] [Hpn Hn] _ Hao Han] par Hpar.
  destruct (to_depth _ _ _ _ HT) as [depth Hdep]. change (depths w depth) in Hdep.
  assert (∀ d p, rtc (λ x y, par x = y) p d → above w d p) as Hup.
  { intros d p Hr. induction Hr as [|p q d Hpq _ IH]; [apply rtc_refl|].
    eapply rtc_l; [by rewrite <-Hpar|done]. }
  assert (∀ p, is_dir w p → rooted par p) as Hroot.
  { intros p Hp. apply (rooted_ext (c_parent C w)); [done|]. by apply tree_acyclic. }
  pose proof (above_parent w _ _ depth Hdep Hd1 Hpo Ho) as Hao'.
  pose proof (above_parent w _ _ depth Hdep Hd2 Hpn Hn) as Han'.
  unfold moved, with_exchange, with_move. destruct (bits _ _).
  - apply (rooted_change _ _ [rd_old_dentry rd; rd_new_dentry rd]).
    + intros d Hd. rewrite !not_elem_of_cons in Hd. destruct Hd as (H1 & H2 & _).
      by rewrite !(proj2 (Z.eqb_neq _ _)).
    + intros d Hd. assert (∀ p, p = rd_old_parent rd ∨ p = rd_new_parent rd → rooted par p ∧
        ∀ x, x ∈ [rd_old_dentry rd; rd_new_dentry rd] → ¬ rtc (λ x y, par x = y) p x) as Hp.
      { intros p Hp. split; [destruct Hp as [->| ->]; auto|]. intros x Hx Hr%Hup.
        rewrite !elem_of_cons, elem_of_nil in Hx. destruct Hp as [->| ->], Hx as [->|[->|[]]]; auto. }
      case_match; unfold_bools; [apply Hp; right; congruence|]. case_match; unfold_bools; apply Hp.
      * left. congruence.
      * rewrite !elem_of_cons, elem_of_nil in Hd. by destruct Hd as [->|[->|[]]].
  - apply (rooted_change _ _ [rd_old_dentry rd]).
    + intros d Hd. rewrite not_elem_of_cons in Hd. by rewrite (proj2 (Z.eqb_neq _ _)) by tauto.
    + intros d [-> |[]%elem_of_nil]%elem_of_cons. rewrite Z.eqb_refl, Hpar, Hpn. split; [auto|].
      intros x [-> |[]%elem_of_nil]%elem_of_cons Hr%Hup. auto.
Qed.

(** No lock. *)
Definition unlocked H : Prop := (∀ i, RInode i ∉ H) ∧ (∀ s, RRename s ∉ H).

Lemma wp_vfs_rename rd i1 i2 Q k w H :
  two_dirs w (rd_old_parent rd) (rd_new_parent rd) i1 i2 → two_names w rd → unlocked H →
  finishes renames k w (held_names rd i1 i2 H) Q →
  wp (vfs_rename C rd) Q (St k w (held_names rd i1 i2 H) false).
Proof.
  intros Htd Htn [Hu _] HQ. pose proof (names_not_locked w rd i1 i2) as Hnl.
  pose proof Htd as [HT Hd1 Hd2 Hi1 Hi2]. pose proof Htn as [[Hpo _] [Hpn _] [i Hi] _ _].
  unfold vfs_rename, d_is_dir, d_inode. cbv zeta.
  wp_step. eapply wp_inode_of; [done|]. wp_step. eapply wp_inode_of; [done|]. do 6 wp_step.
  apply wp_if; [intros _; by apply wp_ret, HQ|]. rewrite Hi.
  intros Hst%bool_decide_eq_false.
  eapply finishes_check; [|exact HQ| |]; [by intros| |].
  { intros ? HQ'. apply wp_may_delete; [done|by rewrite Hpo|]. intros. by apply HQ'. }
  do 2 wp_step. eapply finishes_check; [|exact HQ| |]; [by intros| |].
  { intros ? HQ'. apply wp_if; intros _; [apply wp_may_create|apply wp_may_delete; [done|by rewrite Hpn|]];
      intros; by apply HQ'. }
  vfs_steps HQ. wp_step. apply wp_the. exists i. split; [done|]. unfold inode_permission.
  eapply finishes_check; [|exact HQ| |]; [by intros| |].
  { intros ? HQ'. wp_steps; by apply HQ'. }
  eapply finishes_check; [|exact HQ| |]; [by intros| |].
  { intros ? HQ'. apply wp_if; [|intros _; by apply HQ'].
    intros [_ [Ht _]%andb_true_iff]%andb_true_iff. apply bool_decide_eq_true in Ht.
    wp_step. apply wp_the. destruct (c_inode C w (rd_new_dentry rd)) as [t|]; [|done].
    exists t. split; [done|]. by apply HQ'. }
  vfs_steps HQ. unfold dget, dput. do 2 wp_step. wp_step. apply wp_lock_children.
  - apply not_in_add; [|done]. by eapply Hnl; [..|by left|exact Hi|apply Hu].
  - intros t Ht. split; [|congruence]. apply not_in_add; [|done].
    by eapply Hnl; [..|by right|exact Ht|apply Hu].
  - by intros [?%bool_decide_eq_true _]%andb_true_iff.
  - wp_step. apply wp_rename_locked; [by eapply names_sound_move|]. intros e w' b Hr Hb. wp_step. apply wp_unlock_children.
    wp_step. eapply wp_drop; [done|]. by apply wp_ret, HQ.
Qed.
End safe.
