(* ===== verification/PathChangeCalls.v ===== *)
(** * Changing names: the system calls return what they took

    The specifications of [PathChangeSafe] composed through the retries of the
    system calls: each returns, without a fault, holding nothing and with the
    references of the walk as they were. *)

From stdpp Require Import gmultiset.
From S2P Require Import Prelude Abi Kernel Targets Lookup Walk WalkProps PathWalk PathOpen PathInv PathTotal PathFrame PathParent PathPositive PathChange PathChangeSafe.

Section calls.
Context {W : Type} (E : vfs W) (C : vchange W) (climbs : nat) (leases : W → nat).
Context (HC : change_ok E C climbs leases) (HE : env_ok E) (Hpositive : positive_ok E).
Context (Hroot : is_directory E (v_fs_root E)) (Hpwd : is_directory E (v_pwd E)).
Context (enabled : bool) (managed : path → bool) (buf : namei_ext_redirect).
Context (links fuel retries : nat) (nested : Z) (Hnested : 0 ≤ nested).
Context (Hlinks : MAXSYMLINKS + 1 < Z.of_nat links).
Context (Hfuel : PATH_MAX + PATH_MAX * MAXSYMLINKS < Z.of_nat fuel).
Context (base : path → Z).
Implicit Types (k : nameidata * targets_state) (w : W) (H : gmultiset resource) (b : bool) (l : list path).

Abbreviation tree_ok := (tree_ok E C climbs).
Abbreviation grows := (grows E C climbs leases).
Abbreviation keeps := (keeps E C climbs leases).
Abbreviation spares := (spares C).
Abbreviation child := (child C).
Abbreviation is_dir := (is_dir C).
Abbreviation acyclic := (acyclic C).

(** The references of paths: [base] is what others hold. *)
Definition own l k : Prop :=
  ∀ q, q ≠ null_path → foreign_refs k.2 q = base q + occurrences q l.

(** *** Walks *)

Lemma walked_own l ps k (st' : walk W) nst :
  own l k → walk_inv (foreign_refs k.2) nst ps st' → idle (wk_nd st') →
  own (ps ++ l) (wk_nd st', wk_targets st').
Proof.
  intros Ho [_ _ _ Hr] [Hp Hs Hg] q Hq. cbn. rewrite Hr, Ho by done. unfold held. rewrite Hp, Hs, Hg.
  rewrite !occurrences_app. destruct (nd_has _ _); count_refs.
Qed.

Lemma rtc_grows w w' : rtc grows w w' → grows w w'.
Proof. induction 1; [done|by etrans]. Qed.

Lemma grows_tree w w' : grows w w' → tree_ok w → tree_ok w'.
Proof. by intros [_ _ _ ? _]. Qed.

Lemma wp_parentat dfd name flags Q l k w H b :
  cstring name → own l k → tree_ok w →
  (∀ e p last type k' w', grows w w' → own (if e =? 0 then p :: l else l) k' →
     (e = 0 → type = LAST_NORM → is_dir w' (p_dentry p) ∧
        is_Some (q_name last !! Z.to_nat (q_len last))) →
     Q (e, p, last, type) (St k' w' H b)) →
  wp (PathChange.parentat E enabled managed buf fuel nested dfd name flags) Q (St k w H b).
Proof.
  intros [H0 Hmax] Ho HT HQ. unfold wp, PathChange.parentat. set (st := ch_walk _).
  pose proof (parentat_inv E HE enabled managed buf fuel nested dfd name H0 Hnested flags None st) as Hinv.
  destruct (filename_parentat _ _ _ _ _ _ _ _ _ _ _) as [[[e p] st']|] eqn:Hres; [|lia].
  pose proof (parentat_maps E enabled managed buf fuel nested dfd name (co_run _ _ _ _ HC)
    _ _ _ _ _ _ Hres) as Hg%rtc_grows.
  pose proof (parentat_dir E HE enabled managed buf fuel nested dfd name flags st p st' Hroot Hpwd) as Hd.
  destruct Hinv as (Hi & Hidle & Hlast). destruct st' as [nd ts w'].
  apply (HQ e p _ _ (nd, ts)); [done| |].
  - pose proof (walked_own l _ k _ _ Ho Hi Hidle) as Hown. by destruct (e =? 0).
  - intros -> Hty. split.
    + apply (to_lookup _ _ _ _ (grows_tree _ _ Hg HT)), Hd; [done|]. by rewrite Hty.
    + specialize (Hlast eq_refl Hty). unfold trailing_slashes in Hlast. by rewrite fmap_is_Some in Hlast.
Qed.

Lemma wp_path_put p Q l k w H b :
  own (p :: l) k → (∀ k', own l k' → Q () (St k' w H b)) → wp (path_put p) Q (St k w H b).
Proof.
  intros Ho HQ. unfold wp, path_put, on_walk. cbn. apply (HQ (k.1, mk_targets _ _)).
  intros q Hq. cbn. rewrite foreign_refs_put. specialize (Ho q Hq). destruct k as [nd [tb rs]]. cbn in *.
  rewrite Ho, occurrences_cons. lia.
Qed.

Lemma wp_put_all {A} (m : M W A) Q l w H b : ∀ keep k,
  own (keep ++ l) k → (∀ k', own l k' → wp m Q (St k' w H b)) →
  wp (mapM path_put keep;; m) Q (St k w H b).
Proof.
  induction keep as [|p keep IH]; intros k Ho Hm; [by apply wp_bind, wp_ret, Hm|].
  cbn [mapM]. apply wp_bind, wp_bind. eapply wp_path_put; [exact Ho|]. intros k' Ho'.
  specialize (IH k' Ho' Hm). apply wp_bind. revert IH. unfold wp, mbind, M_bind.
  destruct (mapM path_put keep _); [|done]. done.
Qed.

(** *** Results

    An error changes no name, and directories lead to roots. *)
Definition settles (e : Z) w w' : Prop := (e ≠ 0 → grows w w') ∧ (acyclic w → acyclic w').

Lemma grows_settles e w w' : grows w w' → settles e w w'.
Proof. intros Hg. split; [done|]. by destruct Hg. Qed.
Lemma settles_refl e w : settles e w w.
Proof. by apply grows_settles. Qed.
Lemma settles_trans e w w1 w2 : grows w w1 → settles e w1 w2 → settles e w w2.
Proof.
  intros Hg [He Ha]. split; [intros Hne; etrans; [exact Hg|auto]|].
  destruct Hg. auto.
Qed.

#[local] Hint Resolve settles_refl : core.
Ltac settle :=
  solve [ assumption | apply settles_refl | by apply grows_settles
        | apply grows_settles; by etrans | eapply settles_trans; eassumption ].

(** *** Retries

    How an attempt may end: with an error nothing has been removed, and with a
    delegation to wait for there is one; [K] holds of the paths it leaves to
    put. *)
Definition ends (K : list path → Prop) l w (r : exit) k' w' b : Prop :=
  match r with
  | Return e => own l k' ∧ b = false ∧ settles e w w'
  | Finish e keep => (own (keep ++ l) k' ∧ K keep) ∧ (b = true → e ≠ 0) ∧ settles e w w'
  end.
Definition attempt_ok (K : list path → Prop) (ds : list Z) l H (body : M W exit) : Prop := ∀ k w Q,
  own l k → tree_ok w → Forall (is_dir w) ds → (leases w < retries)%nat →
  (∀ r k' w' b, ends K l w r k' w' b → Q r (St k' w' H b)) → wp body Q (St k w H false).
Definition settled_ok (K : list path → Prop) l H (body : M W exit) : Prop := ∀ k w Q,
  own l k → tree_ok w → (leases w < retries)%nat →
  (∀ r k' w', ends K l w r k' w' false → Q r (St k' w' H false)) → wp body Q (St k w H false).

Lemma grows_leases w w' : grows w w' → (leases w' ≤ leases w)%nat.
Proof. by intros []. Qed.

Lemma grows_dirs w w' ds : grows w w' → Forall (is_dir w) ds → Forall (is_dir w') ds.
Proof. intros Hg Hds. eapply Forall_impl; [exact Hds|]. apply (gr_dir _ _ _ _ _ _ Hg). Qed.

Lemma ends_grows K l w w1 r k' w' b : grows w w1 → ends K l w1 r k' w' b → ends K l w r k' w' b.
Proof.
  intros Hg. destruct r; cbn; intros (? & ? & He); (split; [done|split; [done|]]); settle.
Qed.

Lemma wp_deleg_loop K ds l H body : attempt_ok K ds l H body → ∀ n k w Q,
  own l k → tree_ok w → Forall (is_dir w) ds → (leases w < retries)%nat → (leases w < n)%nat →
  (∀ r k' w', ends K l w r k' w' false → Q r (St k' w' H false)) →
  wp (deleg_loop C n body) Q (St k w H false).
Proof.
  intros Hbody n. induction n as [|n IH]; [lia|]. intros k w Q Ho HT Hds Hl Hn HQ. cbn [deleg_loop].
  wp_step. apply Hbody; [done..|]. intros [e|e keep] k1 w1 b.
  { intros Hends. pose proof Hends as (_ & -> & _). by apply wp_ret, HQ. }
  intros ([Ho1 HK] & Hb & Hg). unfold is_delegated. wp_step. unfold wp at 1. cbn beta iota. cbn [St ch_delegated].
  destruct b; cbn [negb]; [|by apply wp_ret, HQ].
  specialize (Hb eq_refl). destruct Hg as [Hg _]. specialize (Hg Hb). unfold break_deleg_wait. do 2 wp_step. wp_step. apply wp_world.
  intros e2 w2 Hw. apply (co_break_deleg_wait _ _ _ _ HC) in Hw as [Hg2 Hlt].
  assert (grows w w2) as Hg02 by by etrans. apply wp_if.
  { intros He%negb_true_iff. unfold_bools. apply wp_ret, HQ. split; [done|split; [done|settle]]. }
  intros He%negb_false_iff. unfold_bools. subst e2. specialize (Hlt eq_refl).
  pose proof (grows_leases _ _ Hg). eapply wp_put_all; [exact Ho1|]. intros k2 Ho2.
  apply IH; [done|by eapply grows_tree|by eapply grows_dirs|lia|lia|]. intros r k3 w3 Hends. by eapply HQ, ends_grows.
Qed.

Lemma deleg_loop_ok K l H body :
  attempt_ok K [] l H body → settled_ok K l H (deleg_loop C retries body).
Proof. intros Hbody k w Q Ho HT Hl HQ. by apply (wp_deleg_loop K [] l H). Qed.

(** With LOOKUP_REVAL there is no third attempt. *)
Lemma wp_estale_loop K l H (P : flags_t → Prop) body :
  (∀ f, P f → P (f ∪ {[LOOKUP_REVAL]})) → (∀ f, P f → settled_ok K l H (body f)) →
  ∀ n f k w Q, P f → (1 < n)%nat ∨ (0 < n)%nat ∧ LOOKUP_REVAL ∈ f →
  own l k → tree_ok w → (leases w < retries)%nat →
  (∀ e k' w', own l k' → settles e w w' → Q e (St k' w' H false)) →
  wp (estale_loop C n body f) Q (St k w H false).
Proof.
  intros HP Hbody n. induction n as [|n IH]; [lia|]. intros f k w Q Hf Hn Ho HT Hl HQ. cbn [estale_loop].
  wp_step. apply (Hbody f Hf); [done..|]. intros [e|e keep] k1 w1; [intros (Ho1 & _ & Hg); by apply wp_ret, HQ|].
  intros ([Ho1 _] & _ & Hg).
  eapply wp_put_all; [exact Ho1|]. intros k2 Ho2. apply wp_if; [|intros _; by apply wp_ret, HQ].
  intros [He Hr]%(co_retry_estale _ _ _ _ HC). assert (e ≠ 0) as Hne by (by subst).
  destruct Hg as [Hg _]. specialize (Hg Hne). pose proof (grows_leases _ _ Hg).
  apply IH; [by apply HP| |done|by eapply grows_tree|lia|].
  - right. split; [destruct Hn as [?|[_ ?]]; [lia|done]|].
    by apply elem_of_union_r, elem_of_singleton_2.
  - intros e' k' w' Ho' Hg'. apply HQ; [done|settle].
Qed.

Definition none_kept (keep : list path) : Prop := keep = [].

(** *** Creation *)

Lemma is_dir_has_inode w d : tree_ok w → is_dir w d → is_Some (c_inode C w d).
Proof. intros HT. apply (to_positive _ _ _ _ HT). Qed.

Lemma unlocked_write H m : unlocked H → unlocked (H ⊎ {[+ RWrite m +]}).
Proof. intros [? ?]. split; intros ?; by apply not_in_add. Qed.

Lemma child_inode w p i r :
  c_inode C w p = Some i → below C w p r → ∀ d, r = PPtr d → c_inode C w (c_parent C w d) = Some i.
Proof. intros Hi Hb d ->. by destruct Hb as [-> _]. Qed.

(** The dentry of a creation with its directory locked, write access to its
    mount and its path. *)
Lemma wp_filename_create dfd name flags Q l k w H :
  cstring name → own l k → tree_ok w → unlocked H →
  (∀ e p k' w', grows w w' → own l k' → Q (PErr e, p) (St k' w' H false)) →
  (∀ d p dir k' w', grows w w' → own (p :: l) k' →
     is_dir w' (p_dentry p) → c_inode C w' (p_dentry p) = Some dir →
     c_inode C w' (c_parent C w' d) = Some dir →
     Q (PPtr d, p) (St k' w' (started dir (PPtr d) (H ⊎ {[+ RWrite (p_mnt p) +]})) false)) →
  wp (filename_create E C enabled managed buf fuel nested dfd name flags) Q (St k w H false).
Proof.
  intros Hname Ho HT Hu Herr Hok. unfold filename_create. cbv zeta. wp_step.
  eapply wp_parentat; [done..|]. intros e p last type k1 w1 Hg Ho1 Hdir. cbn beta iota.
  apply wp_if; [intros He%negb_true_iff; rewrite He in Ho1; by apply wp_ret, Herr|].
  intros He%negb_false_iff. rewrite He in Ho1. unfold_bools. specialize (Hdir He). clear e He.
  assert (∀ e w', grows w1 w' → wp (path_put p;; mret (PErr e, p)) Q (St k1 w' H false)) as Hend.
  { intros e w' Hg'. wp_step. eapply wp_path_put; [done|]. intros k2 Ho2. apply wp_ret, Herr; [by etrans|done]. }
  apply wp_if; [intros _; by apply Hend|]. intros Ht%negb_false_iff%bool_decide_eq_true.
  destruct (Hdir Ht) as [Hp Hlast]. pose proof (grows_tree _ _ Hg HT) as HT1.
  destruct (is_dir_has_inode _ _ HT1 Hp) as [dir Hi].
  unfold mnt_want_write. do 3 wp_step. set (H1 := if c_want_write C w1 (p_mnt p) =? 0
    then H ⊎ {[+ RWrite (p_mnt p) +]} else H).
  assert (∀ Q', Q' () (St k1 w1 H1 false) → wp
    (unless (negb (c_want_write C w1 (p_mnt p) =? 0)) (take (RWrite (p_mnt p)))) Q' (St k1 w1 H false)) as Hw.
  { intros Q' HQ'. unfold H1 in HQ'. destruct (_ =? 0); by wp_step; [..|wp_step]. }
  wp_step. apply Hw. clear Hw. wp_step. wp_step. apply wp_after_name; [done|]. intros slash. wp_step.
  set (flags' := _ ∪ _). clearbody flags'.
  assert (unlocked H1) as Hu1 by (unfold H1; destruct (_ =? 0); [by apply unlocked_write|done]).
  eapply (wp_start_dirop E C climbs leases HC); [exact Hi|apply Hu1|].
  intros [|d|e] w2 Hg2 Hb Hne _; [done| |].
  - assert (c_inode C w2 (c_parent C w2 d) = Some dir) as Hi2.
    { eapply child_inode; [|exact Hb|done]. by apply (gr_inode _ _ _ _ _ _ Hg2). }
    unfold H1. destruct (c_want_write C w1 (p_mnt p) =? 0) eqn:Hw; cbn [negb].
    + apply wp_ret, Hok; [by etrans|done| |by apply (gr_inode _ _ _ _ _ _ Hg2)|done].
      by apply (gr_dir _ _ _ _ _ _ Hg2).
    + wp_step. eapply (wp_end_dirop _ _ _ _ HC); [done|]. by apply Hend.
  - unfold H1, mnt_drop_write. destruct (c_want_write C w1 (p_mnt p) =? 0); cbn [negb].
    + do 2 wp_step; [done|]. eapply wp_drop; [done|]. by apply Hend.
    + do 2 wp_step; [|done]. by apply Hend.
Qed.

(** The dentry that is left to end, with the directory locked. *)
Definition open_end w (dir : inode) (r : dentry_res) : Prop :=
  r ≠ PNull ∧ ∀ d, r = PPtr d → c_inode C w (c_parent C w d) = Some dir.

Lemma wp_end_creating dir p r Q l k w H b :
  own (p :: l) k → open_end w dir r → (∀ k', own l k' → Q () (St k' w H b)) →
  wp (end_creating_path C p r) Q (St k w (started dir r (H ⊎ {[+ RWrite (p_mnt p) +]})) b).
Proof.
  intros Ho [Hne Hi] HQ. unfold end_creating_path, mnt_drop_write. wp_step.
  assert (wp (drop (RWrite (p_mnt p));; path_put p) Q (St k w (H ⊎ {[+ RWrite (p_mnt p) +]}) b)) as Hend.
  { wp_step. eapply wp_drop; [done|]. by eapply wp_path_put. }
  destruct r as [|d|e]; [done| |exact Hend]. by apply (wp_end_dirop _ _ _ _ HC); [apply Hi|].
Qed.

(** What is created in a locked directory. *)
Definition entry_ok (entry : path → inode → Z → M W (Z * dentry_res)) : Prop :=
  ∀ p dir d Q k w H, tree_ok w → c_inode C w (c_parent C w d) = Some dir →
  (∀ e r w' b, grows w w' → open_end w' dir r → (b = true → e ≠ 0) →
     Q (e, r) (St k w' (started dir r H) b)) →
  wp (entry p dir d) Q (St k w (started dir (PPtr d) H) false).

Lemma creating_ok dfd name entry flags l H :
  cstring name → entry_ok entry → unlocked H →
  attempt_ok none_kept [] l H (creating E C enabled managed buf fuel nested dfd name entry flags).
Proof.
  intros Hname Hentry Hu k w Q Ho HT _ _ HQ. unfold creating. wp_step. apply wp_filename_create with (l := l); [done..| |].
  - intros e p k' w' Hg Ho'. apply wp_ret, HQ. split; [done|split; [done|settle]].
  - intros d p dir k1 w1 Hg Ho1 Hp Hi Hd. cbn beta iota. wp_step. eapply wp_inode_of; [done|]. wp_step.
    apply Hentry; [by eapply grows_tree|done|]. intros e r w2 b Hg2 Hr Hb. wp_step.
    eapply wp_end_creating; [done..|]. intros k2 Ho2. apply wp_ret, HQ.
    split; [done|split; [done|settle]].
Qed.

Abbreviation finishes := (PathChangeSafe.finishes).
Abbreviation steady := (steady E C climbs leases).

Ltac secure HQ :=
  eapply finishes_check; [|exact HQ| |];
  [by intros|let HQ' := fresh "HQ" in intros ? HQ'; apply wp_security; intros; by apply HQ'|].

Lemma open_end_keeps w w' dir d :
  keeps w w' → c_inode C w (c_parent C w d) = Some dir → open_end w' dir (PPtr d).
Proof.
  intros Hk Hi. split; [done|]. intros ? [= <-]. rewrite (ke_parent _ _ _ _ _ _ Hk).
  by apply (gr_inode _ _ _ _ _ _ Hk).
Qed.

(** A creation that changes no dentry but its own ends with it. *)
Lemma entry_steady (f : path → inode → Z → M W Z) :
  (∀ p dir d Q k w H, c_inode C w (c_parent C w d) = Some dir →
     finishes steady k w H Q → wp (f p dir d) Q (St k w H false)) →
  entry_ok (λ p dir d, error ← f p dir d; mret (error, PPtr d)).
Proof.
  intros Hf p dir d Q k w H _ Hi HQ. wp_step. apply Hf; [done|]. intros e w' b Hk Hb.
  apply wp_ret, HQ; [apply Hk| |done]. by eapply open_end_keeps.
Qed.

Lemma mknod_entry_ok mode dev : entry_ok (mknod_entry C mode dev).
Proof.
  apply (entry_steady (λ p dir d, check _; _)). intros p dir d Q k w H Hi HQ. secure HQ.
  apply wp_if; intros _; [by apply (wp_vfs_create E C climbs leases HC _ _ _ dir)|].
  apply wp_if; intros _; [by apply (wp_vfs_mknod E C climbs leases HC)|].
  apply wp_if; intros _; [by apply (wp_vfs_mknod E C climbs leases HC)|]. by apply wp_ret, HQ.
Qed.

Lemma symlink_entry_ok from : entry_ok (symlink_entry C from).
Proof.
  apply (entry_steady (λ p dir d, check _; _)). intros p dir d Q k w H Hi HQ. secure HQ.
  by apply (wp_vfs_symlink E C climbs leases HC).
Qed.

Lemma mkdir_entry_ok mode : entry_ok (mkdir_entry C mode).
Proof.
  intros p dir d Q k w H HT Hi HQ. unfold mkdir_entry. wp_step. apply wp_security. intros e. apply wp_if.
  - intros _. apply wp_ret, HQ; [done|by eapply open_end_keeps|done].
  - intros _. wp_step. apply (wp_vfs_mkdir E C climbs leases HC); [done|]. intros r w' b Hg Hne Hb Hd.
    apply wp_ret, HQ; [done|by split|]. intros Hbt. by destruct (Hb Hbt) as (e' & -> & He').
Qed.

(** *** Removal *)

Lemma child_removable w p dir d H :
  tree_ok w → is_dir w p → c_inode C w p = Some dir → child w p d → unlocked H →
  removable E C climbs w dir d (started dir (PPtr d) H).
Proof.
  intros HT Hp Hi [Hpd Hne] [Hu _]. split; [done|split; [by rewrite Hpd|]].
  intros i Hd. assert (i ≠ dir) as Hid.
  { intros ->. apply Hne. by eapply (is_dir_inj E C climbs w p). }
  unfold started. repeat apply not_in_add; [apply Hu|congruence|done].
Qed.

Lemma spares_parent w w' p dir d :
  c_inode C w p = Some dir → child w p d → spares d w w' →
  c_inode C w' (c_parent C w' d) = Some dir.
Proof. intros Hi [Hp Hne] [Hsi Hsp _]. rewrite Hsp, Hp. by apply Hsi. Qed.

(** How a call below a locked directory may end. *)
Lemma removes_settles d e w w' : removes E C climbs leases d e w w' → settles e w w'.
Proof. intros [[_ _ Ha] Hk]. split; [|done]. intros He. by apply Hk. Qed.
Lemma renames_settles e w w' : PathChangeSafe.renames E C climbs leases e w w' → settles e w w'.
Proof. intros (_ & Hk & Ha). split; [|done]. intros He. by apply Hk. Qed.

Definition leaves w k H (Q : Z → change W → Prop) : Prop :=
  ∀ e w' b, (b = true → e ≠ 0) → settles e w w' → Q e (St k w' H b).

Lemma leaves_check w k H (m f : M W Z) Q :
  leaves w k H Q → (∀ Q', (∀ e, Q' e (St k w H false)) → wp m Q' (St k w H false)) →
  wp f Q (St k w H false) → wp (check m; f) Q (St k w H false).
Proof. intros HQ Hm Hf. apply wp_check, Hm. intros e. split; [done|]. intros He. by apply HQ. Qed.

Lemma wp_want_write m (f : M W Z) Q k w H :
  (∀ e, e ≠ 0 → Q e (St k w H false)) → wp f Q (St k w (H ⊎ {[+ RWrite m +]}) false) →
  wp (check mnt_want_write C m; f) Q (St k w H false).
Proof.
  intros HQ Hf. apply wp_check. unfold mnt_want_write. do 3 wp_step.
  destruct (Z.eqb_spec (c_want_write C w m) 0) as [He|He]; cbn [negb unless].
  - wp_step. wp_step. by split.
  - do 2 wp_step. split; [done|]. apply HQ.
Qed.

Lemma wp_rmdir_entry p last flags Q k w H :
  tree_ok w → is_dir w (p_dentry p) → unlocked H → leaves w k H Q →
  wp (rmdir_entry C p last flags) Q (St k w H false).
Proof.
  intros HT Hp Hu HQ. unfold rmdir_entry. apply wp_want_write; [by intros; apply HQ|].
  destruct (is_dir_has_inode _ _ HT Hp) as [dir Hi]. apply (unlocked_write _ (p_mnt p)) in Hu.
  assert (leaves w k (H ⊎ {[+ RWrite (p_mnt p) +]})
    (λ e, wp (mnt_drop_write (p_mnt p);; mret e) Q)) as HQ'.
  { intros e w' b Hb Hg. wp_step. eapply wp_drop; [done|]. by apply wp_ret, HQ. }
  wp_step. eapply (wp_start_dirop E C climbs leases HC); [exact Hi|apply Hu|].
  intros [|d|e] w1 Hg Hb Hne _; [done| |wp_step; apply wp_ret, HQ'; [done|settle]]. wp_step.
  assert (c_inode C w1 (p_dentry p) = Some dir) as Hi1 by by apply (gr_inode _ _ _ _ _ _ Hg).
  pose proof (grows_tree _ _ Hg HT) as HT1.
  assert (is_dir w1 (p_dentry p)) as Hp1 by by apply (gr_dir _ _ _ _ _ _ Hg).
  wp_step.
  assert (finishes (removes E C climbs leases d) k w1 (started dir (PPtr d) (H ⊎ {[+ RWrite (p_mnt p) +]}))
    (λ e, wp (end_dirop C (PPtr d);; mret e) (λ e, wp (mnt_drop_write (p_mnt p);; mret e) Q))) as Hfin.
  { intros e w2 b Hrm Hbe. pose proof (removes_settles _ _ _ _ Hrm) as Hse. destruct Hrm as [Hs _]. wp_step. eapply (wp_end_dirop _ _ _ _ HC).
    - by eapply spares_parent.
    - apply wp_ret, HQ'; [done|settle]. }
  secure Hfin. wp_step. eapply wp_inode_of; [done|]. apply (wp_vfs_rmdir E C climbs leases HC); [|done].
  by eapply child_removable.
Qed.

Lemma removing_dir_ok dfd name flags l H :
  cstring name → unlocked H →
  attempt_ok none_kept [] l H (removing_dir E C enabled managed buf fuel nested dfd name flags).
Proof.
  intros Hname Hu k w Q Ho HT _ _ HQ. unfold removing_dir. wp_step. eapply wp_parentat; [done..|].
  intros e p last type k1 w1 Hg Ho1 Hdir. cbn beta iota. apply wp_if.
  { intros He%negb_true_iff. rewrite He in Ho1. apply wp_ret, HQ. split; [done|split; [done|settle]]. }
  intros He%negb_false_iff. rewrite He in Ho1. unfold_bools. specialize (Hdir He). clear e He.
  assert (leaves w1 k1 H (λ e, wp (path_put p;; mret (Finish e [])) Q)) as Hend.
  { intros e w2 b Hb Hg2. wp_step. eapply wp_path_put; [done|]. intros k2 Ho2. apply wp_ret, HQ.
    split; [done|split; [done|settle]]. }
  wp_step. destruct type; [|by apply wp_ret, Hend..]. destruct (Hdir eq_refl) as [Hp _].
  apply wp_rmdir_entry; [by eapply grows_tree|done..].
Qed.

Lemma unlink_entry_ok p last flags l H :
  is_Some (q_name last !! Z.to_nat (q_len last)) → unlocked H → LOOKUP_CREATE ∉ flags →
  attempt_ok none_kept [p_dentry p] l H (unlink_entry C p last flags).
Proof.
  intros Hlast Hu Hf k w Q Ho HT [Hp _]%Forall_cons _ HQ. unfold unlink_entry.
  destruct (is_dir_has_inode _ _ HT Hp) as [dir Hi].
  wp_step. eapply (wp_start_dirop E C climbs leases HC); [exact Hi|apply Hu|].
  intros [|d|e] w1 Hg Hb Hne Hpos; [done| |apply wp_ret, HQ; split; [done|split; [done|settle]]].
  destruct (Hpos d eq_refl Hf) as [i Hd].
  assert (c_inode C w1 (p_dentry p) = Some dir) as Hi1 by by apply (gr_inode _ _ _ _ _ _ Hg).
  pose proof (grows_tree _ _ Hg HT) as HT1.
  assert (is_dir w1 (p_dentry p)) as Hp1 by by apply (gr_dir _ _ _ _ _ _ Hg).
  wp_step. apply wp_after_name; [done|]. intros slash. apply wp_if; intros _.
  { unfold d_is_dir. do 3 wp_step. eapply (wp_end_dirop _ _ _ _ HC).
    - by destruct Hb as [-> _].
    - apply wp_ret, HQ. split; [done|split; [done|settle]]. }
  wp_step. eapply wp_inode_of; [done|]. do 3 wp_step.
  replace (started dir (PPtr d) H ⊎ {[+ RHold i +]}) with (started dir (PPtr d) (H ⊎ {[+ RHold i +]}))
    by (unfold started; multiset_solver).
  assert (finishes (removes E C climbs leases d) k w1 (started dir (PPtr d) (H ⊎ {[+ RHold i +]}))
    (λ e, wp (end_dirop C (PPtr d);; drop (RHold i);; mret (Finish e [])) Q)) as Hfin.
  { intros e w2 b Hrm Hbe. pose proof (removes_settles _ _ _ _ Hrm) as Hse. destruct Hrm as [Hs _]. wp_step. eapply (wp_end_dirop _ _ _ _ HC).
    - by eapply spares_parent.
    - wp_step. eapply wp_drop; [done|]. apply wp_ret, HQ.
      split; [done|split; [done|settle]]. }
  secure Hfin. wp_step. eapply wp_inode_of; [done|]. apply (wp_vfs_unlink E C climbs leases HC); [|done].
  eapply child_removable; [done..|]. destruct Hu. split; intros; by apply not_in_add.
Qed.

Lemma grows_retries w w' : grows w w' → (leases w < retries)%nat → (leases w' < retries)%nat.
Proof. intros Hg%grows_leases. lia. Qed.

(** A loop below write access to a mount. *)
Lemma wp_looped ds l H m body k w Q :
  attempt_ok none_kept ds l (H ⊎ {[+ RWrite m +]}) body →
  own l k → tree_ok w → Forall (is_dir w) ds → (leases w < retries)%nat →
  (∀ e k' w', own l k' → settles e w w' → Q e (St k' w' H false)) →
  wp (check mnt_want_write C m;
      r ← deleg_loop C retries body; mnt_drop_write m;; mret (exit_error r)) Q (St k w H false).
Proof.
  intros Hbody Ho HT Hds Hl HQ. apply wp_want_write; [by intros; apply HQ|].
  wp_step. eapply (wp_deleg_loop none_kept ds); [done..|]. intros r k1 w1 Hends. unfold mnt_drop_write. wp_step.
  eapply wp_drop; [done|]. apply wp_ret.
  destruct r as [e|e keep]; [by apply HQ; apply Hends|].
  destruct Hends as ([Ho1 ->] & _ & Hg). by apply HQ.
Qed.

Lemma unlinking_ok dfd name flags l H :
  cstring name → unlocked H → LOOKUP_CREATE ∉ flags →
  settled_ok none_kept l H (unlinking E C enabled managed buf fuel retries nested dfd name flags).
Proof.
  intros Hname Hu Hf k w Q Ho HT Hl HQ. unfold unlinking. wp_step. eapply wp_parentat; [done..|].
  intros e p last type k1 w1 Hg Ho1 Hdir. cbn beta iota. apply wp_if.
  { intros He%negb_true_iff. rewrite He in Ho1. apply wp_ret, HQ. split; [done|split; [done|settle]]. }
  intros He%negb_false_iff. rewrite He in Ho1. unfold_bools. specialize (Hdir He). clear e He.
  assert (∀ e k' w', own (p :: l) k' → settles e w1 w' →
    wp (path_put p;; mret (Finish e [])) Q (St k' w' H false)) as Hend.
  { intros e k' w' Ho' Hg'. wp_step. eapply wp_path_put; [done|]. intros k2 Ho2. apply wp_ret, HQ.
    split; [done|split; [done|settle]]. }
  wp_step. apply wp_if; [intros _; by apply wp_ret, Hend|].
  intros Ht%negb_false_iff%bool_decide_eq_true. destruct (Hdir Ht) as [Hp Hlast].
  eapply (wp_looped [p_dentry p]); [|exact Ho1|by eapply grows_tree|by apply Forall_singleton|by eapply grows_retries|done].
  apply unlink_entry_ok; [done|by apply unlocked_write|done].
Qed.

(** *** Renames *)

Abbreviation renames := (renames E C climbs leases).

Lemma rename_entry_ok p1 p2 last1 last2 flags lookup_flags l H :
  is_Some (q_name last1 !! Z.to_nat (q_len last1)) →
  is_Some (q_name last2 !! Z.to_nat (q_len last2)) → unlocked H → LOOKUP_CREATE ∉ lookup_flags →
  attempt_ok none_kept [p_dentry p1; p_dentry p2] l H
    (rename_entry C climbs p1 p2 last1 last2 flags lookup_flags).
Proof.
  intros Hl1 Hl2 Hu Hf k w Q Ho HT [Hp1 [Hp2 _]%Forall_cons]%Forall_cons _ HQ. unfold rename_entry. cbv zeta.
  destruct (is_dir_has_inode _ _ HT Hp1) as [i1 Hi1]. destruct (is_dir_has_inode _ _ HT Hp2) as [i2 Hi2].
  set (rd := mk_rd _ _ _ _ _ _).
  assert (two_dirs E C climbs w (rd_old_parent rd) (rd_new_parent rd) i1 i2) as Htd by done.
  wp_step. eapply (wp_start_renaming E C climbs leases HC); [exact Htd| |done|..].
  { destruct Hu as [Hu Hu']. split; [apply Hu'|split; apply Hu]. }
  { intros e w' Hg. apply wp_ret, HQ. split; [done|split; [done|settle]]. }
  intros d1 d2 w1 Hg Htn. set (rd' := found rd d1 d2) in *.
  apply (two_dirs_grows _ _ _ _ _ _ _ _ _ _ Hg) in Htd.
  change (two_dirs E C climbs w1 (rd_old_parent rd') (rd_new_parent rd') i1 i2) in Htd. clearbody rd'. wp_step.
  assert (finishes renames k w1 (held_names C rd' i1 i2 H)
    (λ e, wp (end_renaming C rd';; mret (Finish e [])) Q)) as Hfin.
  { intros e w2 b Hrn Hb. pose proof (renames_settles _ _ _ Hrn) as Hse. destruct Hrn as [Hs _]. wp_step. eapply (wp_end_renaming E C climbs leases HC).
    - apply Hs, Htd.
    - apply Hs, Htd.
    - apply wp_ret, HQ. split; [done|split; [done|settle]]. }
  eapply finishes_check; [|exact Hfin| |]; [by intros| |].
  { intros ? HQ'. unfold rename_checks, d_is_dir. cbv zeta. wp_step. apply wp_after_name; [done|]. intros c1.
    wp_step. apply wp_after_name; [done|]. intros c2. wp_steps. by apply HQ'. }
  secure Hfin. by apply (wp_vfs_rename E C climbs leases HC).
Qed.

Lemma renaming_ok olddfd from newdfd to flags lookup_flags l H :
  cstring from → cstring to → unlocked H → LOOKUP_CREATE ∉ lookup_flags →
  settled_ok none_kept l H
    (renaming E C climbs enabled managed buf fuel retries nested olddfd from newdfd to flags lookup_flags).
Proof.
  intros Hfrom Hto Hu Hf k w Q Ho HT Hl HQ. unfold renaming. wp_step. eapply wp_parentat; [done..|].
  intros e p1 last1 type1 k1 w1 Hg1 Ho1 Hdir1. cbn beta iota. apply wp_if.
  { intros He%negb_true_iff. rewrite He in Ho1. apply wp_ret, HQ. split; [done|split; [done|settle]]. }
  intros He%negb_false_iff. rewrite He in Ho1. unfold_bools. specialize (Hdir1 He). clear e He.
  wp_step. eapply wp_parentat; [done|done|by eapply grows_tree|].
  intros e p2 last2 type2 k2 w2 Hg2 Ho2 Hdir2. cbn beta iota.
  assert (grows w w2) as Hg by by etrans. apply wp_if.
  { intros He%negb_true_iff. rewrite He in Ho2. wp_step. eapply wp_path_put; [done|]. intros k3 Ho3.
    apply wp_ret, HQ. split; [done|split; [done|settle]]. }
  intros He%negb_false_iff. rewrite He in Ho2. unfold_bools. specialize (Hdir2 He). clear e He.
  assert (∀ e k' w', own (p2 :: p1 :: l) k' → settles e w2 w' →
    wp (path_put p2;; path_put p1;; mret (Finish e [])) Q (St k' w' H false)) as Hend.
  { intros e k' w' Ho' Hg'. wp_step. eapply wp_path_put; [done|]. intros k3 Ho3. wp_step.
    eapply wp_path_put; [done|]. intros k4 Ho4. apply wp_ret, HQ.
    split; [done|split; [done|settle]]. }
  wp_step. unfold rename_between. do 3 (apply wp_if; [intros _; by apply wp_ret, Hend|]; intros ?).
  repeat match goal with H : negb _ = false |- _ => apply negb_false_iff in H end. unfold_bools.
  destruct (Hdir1 ltac:(done)) as [Hp1 Hlast1]. destruct (Hdir2 ltac:(done)) as [Hp2 Hlast2].
  eapply (wp_looped [p_dentry p1; p_dentry p2]);
    [|exact Ho2|by eapply grows_tree| |by eapply grows_retries|done].
  - apply rename_entry_ok; [done|done|by apply unlocked_write|done].
  - rewrite !Forall_cons. split; [|by split]. by apply (gr_dir _ _ _ _ _ _ Hg2).
Qed.

(** *** Links *)

Lemma filename_lookup_grows dfd name flags (st : walk W) r :
  filename_lookup E enabled managed buf links fuel nested dfd name flags None st = Some r →
  grows (wk_maps st) (wk_maps r.2).
Proof.
  assert (∀ f st1 r, path_lookupat E enabled managed buf links fuel dfd name f st1 = Some r →
    grows (wk_maps st1) (wk_maps r.2)) as Ha.
  { intros f st1 r1 Hl. apply rtc_grows.
    apply (path_lookupat_framed E (Q:=any_root E) (co_run _ _ _ _ HC)) in Hl; [|apply any_starts]. apply Hl. }
  unfold filename_lookup. set (st0 := on_nd _ st). change (wk_maps st) with (wk_maps st0). clearbody st0.
  destruct (path_lookupat _ _ _ _ _ _ _ _ (flags ∪ _) st0) as [[[e1 p1] st1]|] eqn:H1; [|done]. cbn.
  apply Ha in H1. cbn in H1.
  destruct (if e1 =? - ECHILD then _ else _) as [[[e2 p2] st2]|] eqn:H2; [|done]. cbn.
  assert (grows (wk_maps st0) (wk_maps st2)) as Hg2.
  { destruct (e1 =? - ECHILD); [|by injection H2 as <- <- <-]. apply Ha in H2. by etrans. }
  destruct (e2 =? - ESTALE); [|by intros [= <-]]. intros H3%Ha. by etrans.
Qed.

Lemma wp_lookupat dfd name flags Q l k w H b :
  cstring name → LOOKUP_DOWN ∉ flags → own l k → tree_ok w →
  (∀ e p k' w', grows w w' → own (if e =? 0 then p :: l else l) k' →
     (e = 0 → is_Some (c_inode C w' (p_dentry p))) → Q (e, p) (St k' w' H b)) →
  wp (lookupat E enabled managed buf links fuel nested dfd name flags) Q (St k w H b).
Proof.
  intros [H0 Hmax] Hf Ho HT HQ. unfold wp, lookupat. set (st := ch_walk _).
  pose proof (filename_lookup_inv E HE enabled managed buf links fuel nested dfd name flags None st H0 Hnested) as Hinv.
  destruct (filename_lookup _ _ _ _ _ _ _ _ _ _ _ _) as [[[e p] st']|] eqn:Hres; [|destruct Hinv as [?|?]; lia].
  pose proof (filename_lookup_grows _ _ _ _ _ Hres) as Hg. cbn in Hg.
  destruct Hinv as [Hi Hidle]. destruct st' as [nd ts w'].
  apply (HQ e p (nd, ts)); [done| |].
  - pose proof (walked_own l _ k _ _ Ho Hi Hidle) as Hown. by destruct (e =? 0).
  - intros ->. apply (to_inode _ _ _ _ (grows_tree _ _ Hg HT)).
    by apply (filename_lookup_positive E Hpositive HE Hroot Hpwd) in Hres.
Qed.

Definition any_kept (keep : list path) : Prop := True.

Lemma linking_ok olddfd old newdfd new how l H :
  cstring old → cstring new → LOOKUP_DOWN ∉ how → unlocked H →
  attempt_ok any_kept [] l H
    (linking E C enabled managed buf links fuel nested olddfd old newdfd new how).
Proof.
  intros Hold Hnew Hf Hu k w Q Ho HT _ _ HQ. unfold linking. wp_step. apply wp_lookupat with (l := l); [done..|].
  intros e p1 k1 w1 Hg1 Ho1 Hpos. cbn beta iota. apply wp_if.
  { intros He%negb_true_iff. rewrite He in Ho1. apply wp_ret, HQ. split; [done|split; [done|settle]]. }
  intros He%negb_false_iff. rewrite He in Ho1. unfold_bools. specialize (Hpos He). clear e He.
  wp_step. apply wp_filename_create with (l := p1 :: l); [done|done|by eapply grows_tree|done|..].
  { intros e p k2 w2 Hg2 Ho2. wp_step. eapply wp_path_put; [done|]. intros k3 Ho3. apply wp_ret, HQ.
    split; [done|split; [done|settle]]. }
  intros d p2 dir k2 w2 Hg2 Ho2 Hp2 Hi2 Hd2. cbn beta iota. wp_step. eapply wp_inode_of; [done|]. wp_step.
  set (H2 := H ⊎ {[+ RWrite (p_mnt p2) +]}). assert (grows w w2) as Hg by by etrans.
  pose proof (grows_tree _ _ Hg HT) as HT2.
  assert (finishes steady k2 w2 (started dir (PPtr d) H2)
    (λ e, wp (end_creating_path C p2 (PPtr d);; mret (Finish e [p1])) Q)) as Hfin.
  { intros e w3 b Hk Hb. wp_step. eapply wp_end_creating; [exact Ho2|by eapply open_end_keeps|].
    intros k3 Ho3. apply wp_ret, HQ. split; [by split|split; [done|]].
    assert (grows w2 w3) by apply Hk. settle. }
  unfold link_entry. apply wp_if; [intros _; by apply wp_ret, Hfin|]. intros _.
  eapply finishes_check; [|exact Hfin| |]; [by intros| |].
  { intros ? HQ'. apply wp_may_linkat; [|intros; by apply HQ'].
    destruct Hpos as [i Hi]. exists i. by apply (gr_inode _ _ _ _ _ _ Hg2). }
  secure Hfin. apply (wp_vfs_link E C climbs leases HC); [|done]. intros i Hi Hm.
  destruct (unlocked_write _ (p_mnt p2) Hu) as [Hul _]. unfold started. fold H2 in Hul.
  apply not_in_add; [apply not_in_add; [apply Hul|]|done]. intros [= ->].
  by rewrite (to_mode _ _ _ _ HT2 _ _ Hp2 Hi2) in Hm.
Qed.

(** *** All of them *)

(** The calls with the arguments they read. *)
Inductive syscall :=
  | Mknodat (dfd : Z) (name : list Z) (mode dev : Z)
  | Mkdirat (dfd : Z) (name : list Z) (mode : Z)
  | Symlinkat (from : list Z) (dfd : Z) (to : list Z)
  | Linkat (olddfd : Z) (old : list Z) (newdfd : Z) (new : list Z) (flags : Z)
  | Unlinkat (dfd : Z) (name : list Z) (flag : Z)
  | Renameat2 (olddfd : Z) (from : list Z) (newdfd : Z) (to : list Z) (flags : Z).

Definition call_names (c : syscall) : list (list Z) :=
  match c with
  | Mknodat _ name _ _ | Mkdirat _ name _ | Symlinkat _ _ name | Unlinkat _ name _ => [name]
  | Linkat _ old _ new _ => [old; new]
  | Renameat2 _ from _ to _ => [from; to]
  end.

Definition run_call (c : syscall) : M W Z :=
  match c with
  | Mknodat dfd name mode dev =>
      filename_mknodat E C enabled managed buf fuel retries nested dfd name mode dev
  | Mkdirat dfd name mode => filename_mkdirat E C enabled managed buf fuel retries nested dfd name mode
  | Symlinkat from dfd to => filename_symlinkat E C enabled managed buf fuel retries nested from dfd to
  | Linkat olddfd old newdfd new flags =>
      filename_linkat E C enabled managed buf links fuel retries nested olddfd old newdfd new flags
  | Unlinkat dfd name flag => unlinkat E C enabled managed buf fuel retries nested dfd name flag
  | Renameat2 olddfd from newdfd to flags =>
      filename_renameat2 E C climbs enabled managed buf fuel retries nested olddfd from newdfd to flags
  end.

Lemma wp_retrying K l H (P : flags_t → Prop) body f k w Q :
  (∀ f, P f → P (f ∪ {[LOOKUP_REVAL]})) → (∀ f, P f → attempt_ok K [] l H (body f)) → P f →
  own l k → tree_ok w → (leases w < retries)%nat →
  (∀ e k' w', own l k' → settles e w w' → Q e (St k' w' H false)) →
  wp (retrying C retries body f) Q (St k w H false).
Proof.
  intros HP Hbody Hf Ho HT Hl HQ. unfold retrying.
  eapply (wp_estale_loop K l H P); [done| |done|by left; lia|done..].
  intros f' Hf'. by apply deleg_loop_ok, Hbody.
Qed.

Lemma wp_run_call c l k w H Q :
  Forall cstring (call_names c) → unlocked H → own l k → tree_ok w → (leases w < retries)%nat →
  (∀ e k' w', own l k' → settles e w w' → Q e (St k' w' H false)) →
  wp (run_call c) Q (St k w H false).
Proof.
  intros Hnames Hu Ho HT Hl HQ.
  assert (∀ e, wp (mret e) Q (St k w H false)) as Hret by (intros e; by apply wp_ret, HQ).
  assert (∀ x, x ≠ LOOKUP_REVAL → ∀ f : flags_t, x ∉ f → x ∉ f ∪ {[LOOKUP_REVAL]}) as Hkeep.
  { intros x Hx f Hf. rewrite not_elem_of_union, not_elem_of_singleton. by split. }
  destruct c; cbn in Hnames; rewrite ?Forall_cons in Hnames; cbn [run_call].
  - unfold filename_mknodat. cbv zeta. apply wp_if; intros _; [done|].
    eapply (wp_retrying none_kept l H (λ _, True)); [done| |done..].
    intros f _. apply creating_ok; [apply Hnames|apply mknod_entry_ok|done].
  - unfold filename_mkdirat. eapply (wp_retrying none_kept l H (λ _, True)); [done| |done..].
    intros f _. apply creating_ok; [apply Hnames|apply mkdir_entry_ok|done].
  - unfold filename_symlinkat. eapply (wp_retrying none_kept l H (λ _, True)); [done| |done..].
    intros f _. apply creating_ok; [apply Hnames|apply symlink_entry_ok|done].
  - unfold filename_linkat. cbv zeta. apply wp_if; intros _; [done|].
    eapply (wp_retrying any_kept l H (λ f : flags_t, LOOKUP_DOWN ∉ f)); [by apply Hkeep| | |done..].
    + intros f Hf. apply linking_ok; [apply Hnames..|done|done].
    + destruct (bits AT_SYMLINK_FOLLOW _), (bits AT_EMPTY_PATH _); refine (bool_decide_unpack _ _); by vm_compute.
  - unfold unlinkat, filename_rmdir, filename_unlinkat. apply wp_if; intros _; [done|]. apply wp_if; intros _.
    + eapply (wp_retrying none_kept l H (λ _, True)); [done| |done..].
      intros f _. by apply removing_dir_ok; [apply Hnames|].
    + eapply (wp_estale_loop none_kept l H (λ f : flags_t, LOOKUP_CREATE ∉ f)); [by apply Hkeep| |done|by left; lia|done..].
      intros f Hf. by apply unlinking_ok; [apply Hnames|..].
  - unfold filename_renameat2. do 2 (apply wp_if; intros _; [done|]).
    eapply (wp_estale_loop none_kept l H (λ f : flags_t, LOOKUP_CREATE ∉ f)); [by apply Hkeep| |done|by left; lia|done..].
    intros f Hf. by apply renaming_ok; [apply Hnames..| |].
Qed.
End calls.

(** What the system calls assume: of the environment, of the dentry cache and the
    file systems, of the tree they start from, and of the bounds. *)
Record can_change {W} (E : vfs W) (C : vchange W) (climbs : nat) (leases : W → nat)
  (links fuel retries : nat) (nested : Z) (c : syscall) (s : change W) : Prop := {
  cc_env : env_ok E;
  cc_positive : positive_ok E;
  cc_change : change_ok E C climbs leases;
  cc_root : is_directory E (v_fs_root E);
  cc_pwd : is_directory E (v_pwd E);
  cc_tree : tree_ok E C climbs (wk_maps (ch_walk s));
  cc_names : Forall cstring (call_names c);
  cc_nested : 0 ≤ nested;
  cc_links : MAXSYMLINKS + 1 < Z.of_nat links;
  cc_fuel : PATH_MAX + PATH_MAX * MAXSYMLINKS < Z.of_nat fuel;
  cc_leases : (leases (wk_maps (ch_walk s)) < retries)%nat;
  cc_held : ch_held s = ∅;
  cc_delegated : ch_delegated s = false
}.

Section results.
Context {W : Type} (E : vfs W) (C : vchange W) (climbs : nat) (leases : W → nat).
Context (enabled : bool) (managed : path → bool) (buf : namei_ext_redirect).
Context (links fuel retries : nat) (nested : Z).

Abbreviation run := (run_call E C climbs enabled managed buf links fuel retries nested).
Abbreviation can_change := (can_change E C climbs leases links fuel retries nested).

Lemma run_call_done c s :
  can_change c s →
  ∃ e s', run c s = Done e s' ∧ ch_held s' = ∅ ∧ ch_delegated s' = false ∧
    (∀ q, q ≠ null_path →
       foreign_refs (wk_targets (ch_walk s')) q = foreign_refs (wk_targets (ch_walk s)) q) ∧
    settles E C climbs leases e (wk_maps (ch_walk s)) (wk_maps (ch_walk s')).
Proof.
  intros [HE HP HC Hroot Hpwd HT Hnames Hn Hlinks Hfuel Hl Hh Hd].
  destruct s as [[nd ts w] H b]. cbn in *. subst H b.
  assert (wp (run c)
    (λ e s', ch_held s' = ∅ ∧ ch_delegated s' = false ∧
      (∀ q, q ≠ null_path → foreign_refs (wk_targets (ch_walk s')) q = foreign_refs ts q) ∧
      settles E C climbs leases e w (wk_maps (ch_walk s')))
    (St (nd, ts) w ∅ false)) as Hwp.
  { eapply (wp_run_call E C climbs leases HC HE HP Hroot Hpwd enabled managed buf links fuel retries nested Hn
      Hlinks Hfuel (foreign_refs ts) c []); [done| | |done..|].
    - split; intros ?; apply gmultiset_not_elem_of_empty.
    - intros q Hq. count_refs.
    - intros e k' w' Ho Hg. split_and!; [done..| |exact Hg]. intros q Hq. etrans; [exact (Ho q Hq)|count_refs]. }
  unfold wp in Hwp. change (mk_change (mk_walk nd ts w) ∅ false) with (St (nd, ts) w ∅ false).
  destruct (run_call _ _ _ _ _ _ _ _ _ _ _ _) as [e s'|f]; [|done]. exists e, s'. by split.
Qed.

(** C6: A system call that creates, removes or moves a name returns: whatever the
    policies decide, wherever it fails and however often a delegation has to be
    broken, it takes no lock twice, gives back only what it holds, follows no
    inode that is not there and reads no byte behind a name.  When it returns,
    every lock, reference and write access it took is given back and the
    references of paths are what they were; unless it succeeds every dentry with
    an inode is what and where it was. *)
Theorem change_calls_safe c s :
  can_change c s →
  ∃ e s', run c s = Done e s' ∧ ch_held s' = ∅ ∧ ch_delegated s' = false ∧
    (∀ q, q ≠ null_path →
       foreign_refs (wk_targets (ch_walk s')) q = foreign_refs (wk_targets (ch_walk s)) q) ∧
    (e ≠ 0 → grows E C climbs leases (wk_maps (ch_walk s)) (wk_maps (ch_walk s'))).
Proof.
  intros Hc. destruct (run_call_done c s Hc) as (e & s' & Hr & ? & ? & ? & [Hg _]). by exists e, s'.
Qed.

End results.
