(* ===== verification/Readdir.v ===== *)
(** * Directory enumeration (fs/namei_ext.c, fs/readdir.c)

    The actor the extension puts between a file system and getdents64, and
    getdents64 itself.  A file system's [iterate_shared] is a parameter: a
    function that calls its actor, threading the directory context and the
    actor's state. *)

From S2P Require Import Prelude Abi Kernel Lookup.

(** struct dir_context, without its actor *)
Record dir_context := mk_dctx { dc_pos : Z; dc_count : Z; dc_flags_mask : Z }.

Definition set_pos (v : Z) (c : dir_context) : dir_context :=
  mk_dctx v (dc_count c) (dc_flags_mask c).

(** What a file system passes to the actor; [e_nointr] is
    FILLDIR_FLAG_NOINTR, [e_type] the masked type. *)
Record dir_entry := mk_entry {
  e_name : list Z; e_offset : Z; e_ino : Z; e_type : Z; e_nointr : bool }.

Definition rename_entry (name : list Z) (e : dir_entry) : dir_entry :=
  mk_entry name (e_offset e) (e_ino e) (e_type e) (e_nointr e).

(** [ctx->actor(ctx, ...)]: false stops the iteration. *)
Definition actor (A : Type) : Type :=
  dir_entry → dir_context → A → bool * dir_context * A.

(** [iterate_shared(file, ctx)] *)
Definition iterate (A : Type) : Type := actor A → dir_context → A → Z * dir_context * A.

(** ** The extension's actor *)

(** [namei_ext_dir_context]: the caller's context and its actor's state, the
    error, and the policies' maps. *)
Record namei_ext_dir_context (A W : Type) := mk_namei_ctx {
  nc_orig : dir_context; nc_state : A; nc_error : Z; nc_maps : W }.
Arguments mk_namei_ctx {A W} _ _ _ _.
Arguments nc_orig {A W} _.
Arguments nc_state {A W} _.
Arguments nc_error {A W} _.
Arguments nc_maps {A W} _.

Section filldir.
Context {A W : Type}.
Variable d_backing_inode : Z → option inode.
Variable full_name_hash : Z → list Z → Z.
(** [__cgroup_bpf_run_namei_ext_cgroup] for the cgroup taken at the start. *)
Variable run : W → bpf_namei_ext_ctx → Z * W * bpf_namei_ext_ctx.
(** The directory being read. *)
Variables (f_path : path) (file_inode : inode).
Variable orig_actor : actor A.

Definition readdir_ctx (name : list Z) : bpf_namei_ext_ctx :=
  namei_ext_init_ctx d_backing_inode (Some f_path) (Some file_inode)
    BPF_NAMEI_EXT_READDIR 0
    (mk_qstr (full_name_hash (p_dentry f_path) name) (Z.of_nat (length name)) name).

(** Hand an entry to the caller's actor with the contexts in step. *)
Definition forward (e : dir_entry) (ctx : dir_context) (w : W)
  (n : namei_ext_dir_context A W) : bool * dir_context * namei_ext_dir_context A W :=
  let '(ok, orig, a) := orig_actor e ctx (nc_state n) in
  (ok, if (ok : bool) then orig else ctx, mk_namei_ctx orig a (nc_error n) w).

Definition namei_ext_filldir : actor (namei_ext_dir_context A W) := λ e ctx n,
  let '(action, w, bpf_ctx) := run (nc_maps n) (readdir_ctx (e_name e)) in
  let fail (err : Z) := (false, ctx, mk_namei_ctx (nc_orig n) (nc_state n) err w) in
  if action =? BPF_NAMEI_EXT_PASS then forward e ctx w n else
  if action =? BPF_NAMEI_EXT_REDIRECT then
    if negb (namei_ext_redirect_valid bpf_ctx) then fail (- EINVAL) else
    forward (rename_entry (take (Z.to_nat (ctx_redirect_name_len bpf_ctx))
                             (ctx_redirect_name bpf_ctx)) e) ctx w n
  else if action =? BPF_NAMEI_EXT_HIDE
  then (true, ctx, mk_namei_ctx (nc_orig n) (nc_state n) (nc_error n) w)
  else if action =? BPF_NAMEI_EXT_SELECT_TARGET then fail (- EOPNOTSUPP)
  else fail (if action <? 0 then action else - EINVAL).

(** [cgrp_found] is [cgroup_bpf_get_namei_ext_cgroup(&file->f_path) != NULL]. *)
Definition namei_ext_iterate_dir (cgrp_found : bool)
  (iter : ∀ B, iterate B) (ctx : dir_context) (a : A) (w : W)
  : Z * dir_context * A * W :=
  if negb cgrp_found then
    let '(ret, ctx, a) := iter A orig_actor ctx a in (ret, ctx, a, w)
  else
    let '(ret, nctx, n) := iter _ namei_ext_filldir ctx (mk_namei_ctx ctx a 0 w) in
    let ret := if (ret =? 0) && negb (nc_error n =? 0) then nc_error n else ret in
    (ret, nctx, nc_state n, nc_maps n).

(** [iterate_dir]: [checks] is the result of the permission, notification
    and lock calls before the directory is read, [dead] is IS_DEADDIR. *)
Definition iterate_dir (can_iterate : bool) (checks : Z) (dead enabled : bool)
  (managed : path → bool) (cgrp_found : bool) (iter : ∀ B, iterate B) (f_pos : Z)
  (ctx : dir_context) (a : A) (w : W) : Z * Z * dir_context * A * W :=
  if negb can_iterate then (- ENOTDIR, f_pos, ctx, a, w) else
  if negb (checks =? 0) then (checks, f_pos, ctx, a, w) else
  if dead then (- ENOENT, f_pos, ctx, a, w) else
  let ctx := set_pos f_pos ctx in
  let '(res, ctx, a, w) :=
    if enabled && managed f_path then namei_ext_iterate_dir cgrp_found iter ctx a w
    else let '(res, ctx, a) := iter A orig_actor ctx a in (res, ctx, a, w) in
  (res, dc_pos ctx, ctx, a, w).
End filldir.

(** ** getdents64 *)

Definition PATH_MAX : Z := 4096.

Definition verify_dirent_name (name : list Z) : Z :=
  if (Z.of_nat (length name) <=? 0) || (PATH_MAX <=? Z.of_nat (length name)) then - EIO else
  if existsb (λ b, b =? chr "/") name then - EIO else 0.

(** [offsetof(struct linux_dirent64, d_name)] and
    [ALIGN(dirent_size(dirent, namlen + 1), sizeof(u64))] *)
Definition dirent_name_off : Z := 19.
Definition dirent_reclen (name : list Z) : Z :=
  (dirent_name_off + (Z.of_nat (length name) + 1) + 7) / 8 * 8.

(** struct linux_dirent64 in the user's buffer *)
Record linux_dirent64 := mk_dirent {
  d_ino : Z; d_off : Z; d_reclen : Z; d_type : Z; d_name : list Z }.

(** [b_dirents] are the records written so far, [b_used] the bytes from the
    start of the buffer to [current_dir]. *)
Record getdents_callback64 := mk_buf {
  b_dirents : list linux_dirent64; b_used : Z; b_prev_reclen : Z; b_error : Z }.

Definition set_d_off (off : Z) (d : linux_dirent64) : linux_dirent64 :=
  mk_dirent (d_ino d) off (d_reclen d) (d_type d) (d_name d).

(** [put_user(off, &last->d_off)] on the last record. *)
Fixpoint patch_last (off : Z) (ds : list linux_dirent64) : list linux_dirent64 :=
  match ds with
  | [] => []
  | [d] => [set_d_off off d]
  | d :: rest => d :: patch_last off rest
  end.

Section getdents.
(** Whether the user's buffer is writable in [from, to). *)
Variable writable : Z → Z → bool.
Variable signal_pending : bool.

Definition set_error (e : Z) (b : getdents_callback64) : getdents_callback64 :=
  mk_buf (b_dirents b) (b_used b) (b_prev_reclen b) e.

Definition filldir64 : actor getdents_callback64 := λ e ctx b,
  let reclen := dirent_reclen (e_name e) in
  let error := verify_dirent_name (e_name e) in
  if negb (error =? 0) then (false, ctx, set_error error b) else
  let b := set_error (- EINVAL) b in
  if dc_count ctx <? reclen then (false, ctx, b) else
  if negb (e_nointr e) && negb (b_prev_reclen b =? 0) && signal_pending
  then (false, ctx, b) else
  if negb (writable (b_used b - b_prev_reclen b) (b_used b + reclen))
  then (false, ctx, set_error (- EFAULT) b) else
  (true, mk_dctx (dc_pos ctx) (dc_count ctx - reclen) (dc_flags_mask ctx),
   mk_buf (patch_last (e_offset e) (b_dirents b) ++
             [mk_dirent (e_ino e) (e_offset e) reclen (e_type e) (e_name e)])
     (b_used b + reclen) reclen (b_error b)).

(** [iterate] is [iterate_dir] on the open file; the result is the return
    value of the system call, the records and the new file position. *)
Definition getdents64 {W : Type}
  (iterate : dir_context → getdents_callback64 → W →
             Z * Z * dir_context * getdents_callback64 * W)
  (count : Z) (w : W) : Z * list linux_dirent64 * Z * W :=
  let '(error, f_pos, ctx, b, w) :=
    iterate (mk_dctx 0 count 1) (mk_buf [] 0 0 0) w in
  let error := if 0 <=? error then b_error b else error in
  if negb (b_prev_reclen b =? 0) then
    if negb (writable (b_used b - b_prev_reclen b) (b_used b))
    then (- EFAULT, b_dirents b, f_pos, w)
    else (count - dc_count ctx, patch_last (dc_pos ctx) (b_dirents b), f_pos, w)
  else (error, b_dirents b, f_pos, w).
End getdents.
