(* ===== verification/ReaddirProps.v ===== *)
(** * Properties of directory enumeration

    Over any directory listing, reading a managed directory with getdents64
    until it returns 0 delivers exactly the policy's view of it, in order,
    whatever the buffer size; the policy's errors are delivered too. *)

From S2P Require Import Prelude Abi PolicyLib PolicyFacts Kernel Lookup LookupProps Readdir.

(** ** A file system that keeps its directory as a list

    Entry [i] is at position [i]; the actor is called with the current
    position as offset, and the position moves past each accepted entry. *)

Fixpoint emit_entries {B} (entries : list dir_entry) (act : actor B) (ctx : dir_context)
  (b : B) : Z * dir_context * B :=
  match entries with
  | [] => (0, ctx, b)
  | e :: rest =>
      let e := mk_entry (e_name e) (dc_pos ctx) (e_ino e) (e_type e) (e_nointr e) in
      let '(ok, ctx, b) := act e ctx b in
      if ok then emit_entries rest act (set_pos (dc_pos ctx + 1) ctx) b
      else (0, ctx, b)
  end.

Definition list_iterate (dir : list dir_entry) (B : Type) : iterate B := λ act ctx b,
  emit_entries (drop (Z.to_nat (dc_pos ctx)) dir) act ctx b.

Section readdir_props.
Context {W : Type} (d_backing_inode : Z → option inode) (full_name_hash : Z → list Z → Z)
  (run : W → bpf_namei_ext_ctx → Z * W * bpf_namei_ext_ctx) (f_path : path)
  (file_inode : inode).

Abbreviation ext_actor := (namei_ext_filldir d_backing_inode full_name_hash run f_path
  file_inode (filldir64 (λ _ _, true) false)).

(** The policy's view of a name: [None] when it is hidden. *)
Context (view : list Z → option (list Z)).

(** The policy implements the view in this directory, whatever its maps. *)
Definition implements_view (dir : list dir_entry) : Prop :=
  ∀ e w, e ∈ dir →
    let '(action, _, c) := run w (readdir_ctx d_backing_inode full_name_hash f_path
                                    file_inode (e_name e)) in
    (action = BPF_NAMEI_EXT_PASS ∧ view (e_name e) = Some (e_name e)) ∨
    (action = BPF_NAMEI_EXT_REDIRECT ∧ namei_ext_redirect_valid c = true ∧
       view (e_name e) = Some (ctx_redirect c)) ∨
    (action = BPF_NAMEI_EXT_HIDE ∧ view (e_name e) = None).

(** Names of the view that getdents64 accepts and that fit the buffer. *)
Definition view_fits (count : Z) (dir : list dir_entry) : Prop :=
  ∀ e t, e ∈ dir → view (e_name e) = Some t →
    verify_dirent_name t = 0 ∧ dirent_reclen t ≤ count.

Definition view_entry (e : dir_entry) : option (Z * Z * list Z) :=
  (λ t, (e_ino e, e_type e, t)) <$> view (e_name e).
Definition view_of (dir : list dir_entry) : list (Z * Z * list Z) := omap view_entry dir.

Definition shown (d : linux_dirent64) : Z * Z * list Z := (d_ino d, d_type d, d_name d).

Lemma reclen_pos t : 0 < dirent_reclen t.
Proof.
  unfold dirent_reclen, dirent_name_off.
  pose proof (Z.div_mod (19 + (Z.of_nat (length t) + 1) + 7) 8 ltac:(lia)).
  pose proof (Z.mod_pos_bound (19 + (Z.of_nat (length t) + 1) + 7) 8 ltac:(lia)). lia.
Qed.

Lemma shown_patch off ds : shown <$> patch_last off ds = shown <$> ds.
Proof.
  induction ds as [|d [|d' ds] IH]; [done|done|].
  transitivity (shown d :: (shown <$> patch_last off (d' :: ds))); [done|].
  by rewrite IH.
Qed.

(** What one entry does to the buffer. *)
Lemma ext_actor_step dir e off ctx n :
  implements_view dir → e ∈ dir →
  (∀ t, view (e_name e) = Some t → verify_dirent_name t = 0) →
  let e' := mk_entry (e_name e) off (e_ino e) (e_type e) (e_nointr e) in
  let '(ok, ctx', n') := ext_actor e' ctx n in
  nc_error n' = nc_error n ∧
  match view (e_name e) with
  | None => ok = true ∧ ctx' = ctx ∧ nc_state n' = nc_state n
  | Some t =>
      if dc_count ctx <? dirent_reclen t
      then ok = false ∧ ctx' = ctx ∧ nc_state n' = set_error (- EINVAL) (nc_state n)
      else ok = true ∧
           ctx' = mk_dctx (dc_pos ctx) (dc_count ctx - dirent_reclen t) (dc_flags_mask ctx) ∧
           b_prev_reclen (nc_state n') ≠ 0 ∧
           shown <$> b_dirents (nc_state n') =
             (shown <$> b_dirents (nc_state n)) ++ [(e_ino e, e_type e, t)]
  end.
Proof.
  intros Hv He Hok. cbn zeta. unfold namei_ext_filldir. cbn [e_name].
  specialize (Hv e (nc_maps n) He).
  destruct (run (nc_maps n) _) as [[action w] c].
  assert (∀ t, verify_dirent_name t = 0 →
    let e' := mk_entry t off (e_ino e) (e_type e) (e_nointr e) in
    let '(ok, ctx', n') := forward (filldir64 (λ _ _, true) false) e' ctx w n in
    nc_error n' = nc_error n ∧
    if dc_count ctx <? dirent_reclen t
    then ok = false ∧ ctx' = ctx ∧ nc_state n' = set_error (- EINVAL) (nc_state n)
    else ok = true ∧
         ctx' = mk_dctx (dc_pos ctx) (dc_count ctx - dirent_reclen t) (dc_flags_mask ctx) ∧
         b_prev_reclen (nc_state n') ≠ 0 ∧
         shown <$> b_dirents (nc_state n') =
           (shown <$> b_dirents (nc_state n)) ++ [(e_ino e, e_type e, t)]) as Hfw.
  { intros t Ht. unfold forward, filldir64. cbn [e_name]. rewrite Ht. cbn [negb Z.eqb].
    destruct (dc_count ctx <? dirent_reclen t); [done|].
    rewrite andb_false_r. cbn [negb]. split_and!; try done; simpl.
    - pose proof (reclen_pos t). lia.
    - by rewrite fmap_app, shown_patch. }
  destruct Hv as [[-> Hv]|[(-> & Hr & Hv)|[-> Hv]]]; rewrite Hv in *; cbn [Z.eqb].
  - apply (Hfw (e_name e)). by apply Hok.
  - cbn. rewrite Hr. cbn. apply (Hfw (ctx_redirect c)). by apply Hok.
  - cbn. done.
Qed.

(** Where an iteration stops: at the end, or before an entry that no longer
    fits. *)
Lemma emit_view dir entries ctx n count :
  implements_view dir → view_fits count dir → (∀ e, e ∈ entries → e ∈ dir) →
  (b_dirents (nc_state n) ≠ [] → b_prev_reclen (nc_state n) ≠ 0) →
  let '(ret, ctx', n') := emit_entries entries ext_actor ctx n in
  ret = 0 ∧ nc_error n' = nc_error n ∧
  (b_dirents (nc_state n') ≠ [] → b_prev_reclen (nc_state n') ≠ 0) ∧
  ∃ k, (k ≤ length entries)%nat ∧ dc_pos ctx' = dc_pos ctx + Z.of_nat k ∧
    shown <$> b_dirents (nc_state n') =
      (shown <$> b_dirents (nc_state n)) ++ view_of (take k entries) ∧
    (view_of (take k entries) = [] → dc_count ctx' = dc_count ctx ∧
       b_prev_reclen (nc_state n') = b_prev_reclen (nc_state n)) ∧
    (view_of (take k entries) ≠ [] → dc_count ctx' < dc_count ctx) ∧
    dc_count ctx' ≤ dc_count ctx ∧
    (k = length entries ∧ b_dirents (nc_state n') = [] →
       b_error (nc_state n') = b_error (nc_state n)) ∧
    ((k < length entries)%nat → ∃ e t, e ∈ dir ∧ view (e_name e) = Some t ∧
       dc_count ctx' < dirent_reclen t).
Proof.
  intros Hv Hfit. revert ctx n. induction entries as [|e entries IH]; intros ctx n Hin Hprev.
  { cbn. split_and!; try done. exists 0%nat. split_and!; simpl; try done; try lia.
    by rewrite app_nil_r. }
  cbn [emit_entries].
  assert (e ∈ dir) as He by (apply Hin; left).
  pose proof (ext_actor_step dir e (dc_pos ctx) ctx n Hv He) as Hstep.
  cbn zeta in Hstep.
  destruct (ext_actor _ ctx n) as [[ok ctx1] n1].
  destruct Hstep as [Herr Hstep]; [by intros t Ht; apply (Hfit e t)|].
  destruct (view (e_name e)) as [t|] eqn:Ht.
  - destruct (dc_count ctx <? dirent_reclen t) eqn:Hc; unfold_bools.
    + destruct Hstep as (-> & -> & Hs). rewrite Hs.
      split_and!; [done|done|done|]. exists 0%nat.
      split_and!; simpl; try done; try lia; [by rewrite app_nil_r|]. intros _. eauto.
    + destruct Hstep as (-> & -> & Hp & Hs).
      specialize (IH (set_pos (dc_pos ctx + 1)
        (mk_dctx (dc_pos ctx) (dc_count ctx - dirent_reclen t) (dc_flags_mask ctx))) n1).
      destruct (emit_entries entries _ _ n1) as [[ret ctx'] n'].
      destruct IH as (-> & Herr' & Hprev' & k & Hk & Hpos & Hshown & _ & _ & Hle & _ & Hstop);
       
        [intros; apply Hin; by right|done|].
      rewrite Hs, <- app_assoc in Hshown.
      assert (b_dirents (nc_state n') ≠ []) as Hne.
      { intros E. rewrite E in Hshown. by destruct (shown <$> b_dirents (nc_state n)). }
      split_and!; [done|congruence|done|]. exists (S k).
      pose proof (reclen_pos t) as Hpt.
      assert (view_of (take (S k) (e :: entries)) =
        (e_ino e, e_type e, t) :: view_of (take k entries)) as Hvw.
      { unfold view_of. simpl. unfold view_entry at 1. by rewrite Ht. }
      split_and!; rewrite ?Hvw; simpl in *; try done; try lia.
      * by intros [? ?].
      * intros ?. apply Hstop. lia.
  - destruct Hstep as (-> & -> & Hs).
    specialize (IH (set_pos (dc_pos ctx + 1) ctx) n1). rewrite Hs in IH.
    destruct (emit_entries entries _ _ n1) as [[ret ctx'] n'].
    destruct IH as (-> & Herr' & Hprev' & k & Hk & Hpos & Hshown & Hempty & Hlt & Hle & He' & Hstop);
     
      [intros; apply Hin; by right|done|].
    split_and!; [done|congruence|done|]. exists (S k).
    assert (view_of (take (S k) (e :: entries)) = view_of (take k entries)) as Hvw.
    { unfold view_of. simpl. unfold view_entry at 1. by rewrite Ht. }
    split_and!; rewrite ?Hvw; simpl in *; try done; try lia.
    + intros [? ?]. apply He'. split; [lia|done].
    + intros ?. apply Hstop. lia.
Qed.

Lemma view_of_app a b : view_of (a ++ b) = view_of a ++ view_of b.
Proof. apply omap_app. Qed.

(** One system call on the directory at position [p]. *)
Definition read_call (dir : list dir_entry) (count p : Z) (w : W)
  : Z * list linux_dirent64 * Z * W :=
  getdents64 (λ _ _, true)
    (λ ctx b w, iterate_dir d_backing_inode full_name_hash run f_path file_inode
       (filldir64 (λ _ _, true) false) true 0 false true (λ _, true) true
       (list_iterate dir) p ctx b w) count w.

Lemma read_call_view dir count p w :
  implements_view dir → view_fits count dir → (p <= length dir)%nat →
  let '(ret, ds, p', _) := read_call dir count (Z.of_nat p) w in
  ∃ k, (p + k <= length dir)%nat ∧ p' = Z.of_nat (p + k) ∧
    shown <$> ds = view_of (take k (drop p dir)) ∧
    (ret = 0 ∧ ds = [] ∧ (p + k)%nat = length dir ∨ 0 < ret ∧ ds ≠ []).
Proof.
  intros Hv Hfit Hp. unfold read_call, getdents64, iterate_dir, namei_ext_iterate_dir,
    list_iterate. cbn [negb Z.eqb andb set_pos dc_pos]. rewrite Nat2Z.id.
  pose proof (emit_view dir (drop p dir) (mk_dctx (Z.of_nat p) count 1)
    (mk_namei_ctx (mk_dctx (Z.of_nat p) count 1) (mk_buf [] 0 0 0) 0 w) count Hv Hfit) as H.
  cbn [dc_count dc_flags_mask].
  destruct (emit_entries _ _ _ _) as [[ret ctx'] n'].
  destruct H as (-> & Hnerr & Hprev & k & Hk & Hpos & Hshown & Hempty & Hlt & Hle & Herr & Hstop);
    [intros e He; rewrite <- (take_drop p dir); apply elem_of_app; by right|done|].
  rewrite Hnerr. cbn. cbn in Hshown, Hempty, Hprev, Hpos, Herr, Hlt.
  rewrite length_drop in *.
  destruct (b_dirents (nc_state n')) as [|d ds] eqn:Hd.
  - cbn in Hshown. destruct Hempty as [Hc Hb]; [by rewrite <- Hshown|]. rewrite Hb.
    exists k. split_and!; [lia|lia|done|]. left.
    assert (k = (length dir - p)%nat) as Hend.
    { destruct (decide (k < length dir - p)%nat) as [Hlt'|]; [|lia].
      destruct (Hstop Hlt') as (e & t & He & Ht & Hsz).
      destruct (Hfit e t He Ht). lia. }
    split_and!; [by apply Herr|done|lia].
  - assert (b_prev_reclen (nc_state n') ≠ 0) as Hpr by (by apply Hprev).
    rewrite (proj2 (Z.eqb_neq _ _) Hpr). cbn [negb].
    exists k. rewrite shown_patch. split_and!; [lia|lia|by rewrite Hshown|]. right.
    split; [|intros E; apply (f_equal (fmap shown)) in E; by rewrite shown_patch in E].
    assert (dc_count ctx' < count); [|lia]. apply Hlt. by rewrite <- Hshown.
Qed.

(** Call getdents64 until it returns 0, collecting the records; [None] when
    it fails or [fuel] calls were not enough. *)
Fixpoint read_all (fuel : nat) (dir : list dir_entry) (count p : Z) (w : W)
  : option (list linux_dirent64) :=
  match fuel with
  | O => None
  | S fuel' =>
      let '(ret, ds, p, w) := read_call dir count p w in
      if ret <? 0 then None else
      if ret =? 0 then Some [] else
      more ← read_all fuel' dir count p w; Some (ds ++ more)
  end.

Lemma read_all_view fuel dir count p w :
  implements_view dir → view_fits count dir → (p <= length dir)%nat →
  (length dir - p < fuel)%nat →
  ∃ ds, read_all fuel dir count (Z.of_nat p) w = Some ds ∧
    shown <$> ds = view_of (drop p dir).
Proof.
  intros Hv Hfit. revert p w. induction fuel as [|fuel IH]; intros p w Hp Hf; [lia|].
  cbn [read_all]. pose proof (read_call_view dir count p w Hv Hfit Hp) as H.
  destruct (read_call dir count (Z.of_nat p) w) as [[[ret ds] p'] w'].
  destruct H as (k & Hk & -> & Hs & [(-> & -> & Hend)|(Hret & Hne)]).
  - exists []. split; [done|]. rewrite Hs. symmetry. rewrite take_ge; [done|].
    rewrite length_drop. lia.
  - rewrite (proj2 (Z.ltb_ge _ _)), (proj2 (Z.eqb_neq _ _)) by lia.
    assert (k ≠ 0%nat) as Hk0.
    { intros ->. apply Hne. destruct ds; [done|]. by rewrite take_0 in Hs. }
    destruct (IH (p + k)%nat w') as (more & -> & Hm); [lia..|].
    exists (ds ++ more). split; [done|]. rewrite fmap_app, Hs, Hm.
    replace (drop (p + k) dir) with (drop k (drop p dir)) by (by rewrite drop_drop).
    by rewrite <- view_of_app, take_drop.
Qed.

(** C24: Reading a managed directory delivers the policy's view, whole and once:
    with any buffer that holds the largest visible entry, a bounded number
    of getdents64 calls reaches the end, and the records they return,
    concatenated, are the visible entries in directory order, each with its
    inode number, its type and the name the policy shows; hidden entries
    leave no trace, even when they fall on a buffer boundary. *)
Theorem getdents_delivers_view dir count w :
  implements_view dir → view_fits count dir →
  ∃ ds, read_all (S (length dir)) dir count 0 w = Some ds ∧
    shown <$> ds = view_of dir.
Proof.
  intros Hv Hfit. apply (read_all_view (S (length dir)) dir count 0 w); [done|done|lia|lia].
Qed.

(** A call that starts at an entry whose policy fails returns that error to
    the user, with no record and without moving past the entry: an invalid
    replacement is EINVAL, SELECT_TARGET is not an answer to an enumeration
    (EOPNOTSUPP), and a dispatch error is passed on. *)
Theorem readdir_error_delivered dir count e rest w err :
  0 < count →
  dir = e :: rest →
  (let '(action, _, c) := run w (readdir_ctx d_backing_inode full_name_hash f_path
                                   file_inode (e_name e)) in
   err = (if action =? BPF_NAMEI_EXT_SELECT_TARGET then - EOPNOTSUPP
          else if action <? 0 then action else - EINVAL) ∧
   (action = BPF_NAMEI_EXT_REDIRECT ∧ namei_ext_redirect_valid c = false ∨
    action < 0 ∨ BPF_NAMEI_EXT_SELECT_TARGET ≤ action)) →
  let '(ret, ds, p, _) := read_call dir count 0 w in
  ret = err ∧ ds = [] ∧ p = 0.
Proof.
  intros Hc -> Hr. unfold read_call, getdents64, iterate_dir, namei_ext_iterate_dir,
    list_iterate. cbn [negb Z.eqb andb set_pos dc_pos].
  change (drop (Z.to_nat 0) (e :: rest)) with (e :: rest). cbn [emit_entries].
  unfold namei_ext_filldir at 1. cbn [e_name nc_maps].
  destruct (run w _) as [[action w'] c]. destruct Hr as [-> Hr].
  unfold BPF_NAMEI_EXT_PASS, BPF_NAMEI_EXT_REDIRECT, BPF_NAMEI_EXT_HIDE,
    BPF_NAMEI_EXT_SELECT_TARGET, EOPNOTSUPP, EINVAL in *.
  destruct Hr as [[-> Hv]|[Hr|Hr]].
  - change (1 =? 0) with false. change (1 =? 1) with true. cbn iota. by rewrite Hv.
  - rewrite !(proj2 (Z.eqb_neq action _)) by lia.
    rewrite (proj2 (Z.ltb_lt action 0)) by lia. cbn.
    rewrite (proj2 (Z.eqb_neq action 0)) by lia. cbn.
    rewrite (proj2 (Z.leb_gt 0 action)) by lia. done.
  - rewrite (proj2 (Z.eqb_neq action 0)), (proj2 (Z.eqb_neq action 1)),
      (proj2 (Z.eqb_neq action 2)) by lia.
    destruct (action =? 3); [done|]. by rewrite (proj2 (Z.ltb_ge action 0)) by lia.
Qed.
End readdir_props.
