(* ===== verification/Control.v ===== *)
(** * The control files (fs/namei_ext.c)

    Writes to /sys/kernel/debug/namei_ext/register_target and policy_parent:
    parsing, the ownership check, and the dispatch to the registry and to the
    scopes.  [sscanf] and [sysfs_streq] are parameters. *)

From S2P Require Import Prelude Abi Kernel Targets Scopes ScopeFacts ScopeProps.

(** What a write finds in the kernel: whether the user's buffer can be read,
    the cgroup of the caller and whether it can be referenced, whether it is
    dead, its policy's owner, and what the allocator returns. *)
Record write_env := mk_env {
  env_copy_ok : bool;
  env_current : Z;
  env_bpf_live : bool;
  env_css_live : bool;
  env_dead : bool;
  env_owner : Z;
  env_alloc : option Z
}.

(** [cf_bpf_refs] and [cf_css_refs] are the references on the caller's cgroup
    taken by this code. *)
Record control_state := mk_control {
  ct_targets : targets_state;
  ct_scopes : scopes_state;
  ct_bpf_refs : Z;
  ct_css_refs : Z
}.

Section control.
Variables (target_hash scope_hash : Z → nat).
(** [cgroup_id], [fdget_raw] (the path of an open file), [d_can_lookup] *)
Variables (cgroup_id : Z → Z) (fdget_raw : Z → option path) (d_can_lookup : Z → bool).
(** [sysfs_streq(kbuf, "clear")] and [sscanf(kbuf, "%u %u", ...)]: [None]
    when not both numbers were converted. *)
Variables (sysfs_streq_clear : list Z → bool) (sscanf_uu : list Z → option (Z * Z)).
(** [sscanf(kbuf, "%15s %u %c", ...)]: the command, the number and how many
    fields were converted. *)
Variable sscanf_command : list Z → list Z * Z * Z.

Definition upd_targets (f : targets_state → targets_state) (st : control_state) :=
  mk_control (f (ct_targets st)) (ct_scopes st) (ct_bpf_refs st) (ct_css_refs st).
Definition upd_scopes (s : scopes_state) (st : control_state) :=
  mk_control (ct_targets st) s (ct_bpf_refs st) (ct_css_refs st).
Definition cg_refs (bpf css : Z) (st : control_state) :=
  mk_control (ct_targets st) (ct_scopes st) (ct_bpf_refs st + bpf) (ct_css_refs st + css).

Definition namei_ext_current_cgroup (env : write_env) (st : control_state)
  : option Z * control_state :=
  if negb (env_bpf_live env) then (None, st) else
  let st := cg_refs 1 0 st in
  if negb (env_css_live env) then (None, cg_refs (-1) 0 st) else
  (Some (env_current env), cg_refs 0 1 st).

Definition namei_ext_put_cgroup (st : control_state) : control_state :=
  cg_refs 0 (-1) (cg_refs (-1) 0 st).

Definition namei_ext_register_target_write (env : write_env) (buf : list Z)
  (st : control_state) : Z * control_state :=
  let count := Z.of_nat (length buf) in
  if (count =? 0) || (64 <=? count) then (- EINVAL, st) else
  if negb (env_copy_ok env) then (- EFAULT, st) else
  match namei_ext_current_cgroup env st with
  | (None, st) => (- ENODEV, st)
  | (Some cgrp, st) =>
      if sysfs_streq_clear buf then
        (count, namei_ext_put_cgroup
           (upd_targets (namei_ext_clear_targets (cgroup_id cgrp)) st))
      else
      match sscanf_uu buf with
      | None => (- EINVAL, namei_ext_put_cgroup st)
      | Some (target_id, fd_num) =>
          match fdget_raw fd_num with
          | None => (- EBADF, namei_ext_put_cgroup st)
          | Some p =>
              let ts := ct_targets st in
              let ts := mk_targets (ts_table ts) (path_get p (ts_refs ts)) in
              let '(ret, ts) :=
                namei_ext_register_target target_hash (bool_decide (is_Some (env_alloc env)))
                  (env_dead env) (cgroup_id cgrp) target_id p ts in
              let ts := if negb (ret =? 0)
                        then mk_targets (ts_table ts) (path_put p (ts_refs ts)) else ts in
              (if negb (ret =? 0) then ret else count,
               namei_ext_put_cgroup (upd_targets (λ _, ts) st))
          end
      end
  end.

Definition namei_ext_cgroup_owns_policy (env : write_env) (cgrp : Z) : bool :=
  env_owner env =? cgrp.

Definition namei_ext_policy_parent_write (env : write_env) (buf : list Z)
  (st : control_state) : Z * control_state :=
  let count := Z.of_nat (length buf) in
  let finish '(ret, st) := (if negb (ret =? 0) then ret else count, namei_ext_put_cgroup st) in
  if (count =? 0) || (64 <=? count) then (- EINVAL, st) else
  if negb (env_copy_ok env) then (- EFAULT, st) else
  match namei_ext_current_cgroup env st with
  | (None, st) => (- ENODEV, st)
  | (Some cgrp, st) =>
      let on_scopes '(ret, s) := (ret, upd_scopes s st) in
      let owns := namei_ext_cgroup_owns_policy env cgrp in
      let '(command, fd_num, fields) := sscanf_command buf in
      if bytes_eqb command (bytes_of_string "clear") ||
         bytes_eqb command (bytes_of_string "global") then
        finish
          (if negb (fields =? 1) then (- EINVAL, st) else
           if negb owns then (- ENOENT, st) else
           if bytes_eqb command (bytes_of_string "clear")
           then on_scopes (namei_ext_scope_empty scope_hash (env_alloc env) (env_dead env)
                             cgrp (ct_scopes st))
           else on_scopes (namei_ext_scope_global scope_hash (env_dead env) cgrp
                             (ct_scopes st)))
      else if (negb (bytes_eqb command (bytes_of_string "exact")) &&
               negb (bytes_eqb command (bytes_of_string "add"))) || negb (fields =? 2)
      then finish (- EINVAL, st)
      else
      match fdget_raw fd_num with
      | None => finish (- EBADF, st)
      | Some p =>
          finish
            (if negb (d_can_lookup (p_dentry p)) then (- ENOTDIR, st) else
             if negb owns then (- ENOENT, st) else
             if bytes_eqb command (bytes_of_string "exact")
             then on_scopes (namei_ext_scope_exact scope_hash (env_alloc env)
                               (env_dead env) cgrp p (ct_scopes st))
             else on_scopes (namei_ext_scope_add scope_hash (env_alloc env)
                               (env_dead env) cgrp p (ct_scopes st)))
      end
  end.
End control.

(** ** What a write does *)

Section control_props.
Context (target_hash scope_hash : Z → nat)
  (target_hash_lt : ∀ k, (target_hash k < target_buckets)%nat)
  (scope_hash_lt : ∀ k, (scope_hash k < scope_buckets)%nat)
  (cgroup_id : Z → Z) (fdget_raw : Z → option path) (d_can_lookup : Z → bool)
  (sysfs_streq_clear : list Z → bool) (sscanf_uu : list Z → option (Z * Z))
  (sscanf_command : list Z → list Z * Z * Z).

Abbreviation register_write := (namei_ext_register_target_write target_hash cgroup_id
  fdget_raw sysfs_streq_clear sscanf_uu).
Abbreviation parent_write := (namei_ext_policy_parent_write scope_hash fdget_raw
  d_can_lookup sscanf_command).

Lemma current_cgroup_cases env st :
  namei_ext_current_cgroup env st = (None, st) ∨
  namei_ext_current_cgroup env st = (Some (env_current env), cg_refs 1 1 st).
Proof.
  unfold namei_ext_current_cgroup.
  destruct (env_bpf_live env), (env_css_live env); simpl; [right|left..];
    unfold cg_refs; destruct st; simpl; try done; do 2 f_equal; lia.
Qed.

Lemma put_get_refs f st :
  namei_ext_put_cgroup (upd_targets f (cg_refs 1 1 st)) = upd_targets f st.
Proof.
  unfold namei_ext_put_cgroup, upd_targets, cg_refs. destruct st; simpl. f_equal; lia.
Qed.
Lemma put_get_refs_id st : namei_ext_put_cgroup (cg_refs 1 1 st) = st.
Proof. unfold namei_ext_put_cgroup, cg_refs. destruct st; simpl. f_equal; lia. Qed.
Lemma put_scopes s st :
  namei_ext_put_cgroup (upd_scopes s (cg_refs 1 1 st)) = upd_scopes s st.
Proof.
  unfold namei_ext_put_cgroup, upd_scopes, cg_refs. destruct st; simpl. f_equal; lia.
Qed.

(** What a successful write does to the registry. *)
Definition register_spec (env : write_env) (buf : list Z) (m : gmap (Z * Z) path)
  : gmap (Z * Z) path :=
  let cg := cgroup_id (env_current env) in
  if sysfs_streq_clear buf then filter (λ kv, kv.1.1 ≠ cg) m else
  match sscanf_uu buf with
  | None => m
  | Some (tid, fd) => match fdget_raw fd with Some p => <[(cg, tid) := p]> m | None => m end
  end.

(** C26: Refinement of the registration file. Over the hash table with its
    chains, every write either fails and changes nothing, or returns the
    number of bytes written and updates the map from (cgroup id, target id)
    to directory as specified: "clear" removes exactly the caller's cgroup's
    entries, a registration binds the caller's cgroup's target to the
    directory of the descriptor. The registry's references stay exact (one
    per entry), and the references on the cgroup are returned. *)
Theorem register_write_refines env buf st m :
  targets_repr target_hash (ct_targets st) m →
  let '(ret, st') := register_write env buf st in
  (ret < 0 ∧ targets_repr target_hash (ct_targets st') m ∨
   ret = Z.of_nat (length buf) ∧
     targets_repr target_hash (ct_targets st') (register_spec env buf m)) ∧
  (∀ q, foreign_refs (ct_targets st') q = foreign_refs (ct_targets st) q) ∧
  ct_scopes st' = ct_scopes st ∧
  ct_bpf_refs st' = ct_bpf_refs st ∧ ct_css_refs st' = ct_css_refs st.
Proof.
  intros Hr. unfold namei_ext_register_target_write, register_spec.
  destruct (_ || _); [by split_and!; try (left; split)|].
  destruct (env_copy_ok env); [|by split_and!; try (left; split)]. cbn [negb].
  destruct (current_cgroup_cases env st) as [-> | ->];
    [by split_and!; try (left; split)|].
  destruct (sysfs_streq_clear buf).
  { rewrite put_get_refs. split_and!; try done.
    - right. split; [done|]. by apply clear_targets_repr.
    - intros q. apply clear_targets_refs. }
  destruct (sscanf_uu buf) as [[tid fd]|];
    [|rewrite put_get_refs_id; by split_and!; try (left; split)].
  destruct (fdget_raw fd) as [p|];
    [|rewrite put_get_refs_id; by split_and!; try (left; split)].
  cbn [ct_targets cg_refs].
  set (ts := mk_targets _ (path_get p _)).
  assert (targets_repr target_hash ts m) as Hts by (by destruct Hr; split).
  assert (∀ q, foreign_refs ts q =
    foreign_refs (ct_targets st) q + (if decide (q = p) then 1 else 0)) as Hg.
  { intros q. unfold foreign_refs, ts_held. simpl. rewrite ref_count_get. lia. }
  pose proof (register_target_repr target_hash target_hash_lt ts m
    (bool_decide (is_Some (env_alloc env))) (env_dead env)
    (cgroup_id (env_current env)) tid p Hts) as H1.
  pose proof (λ q, register_target_refs target_hash target_hash_lt ts m
    (bool_decide (is_Some (env_alloc env))) (env_dead env)
    (cgroup_id (env_current env)) tid p q Hts) as H2.
  assert ((namei_ext_register_target target_hash (bool_decide (is_Some (env_alloc env)))
    (env_dead env) (cgroup_id (env_current env)) tid p ts).1 ≤ 0) as Hle.
  { unfold namei_ext_register_target. repeat case_match; simpl; done. }
  destruct (namei_ext_register_target _ _ _ _ _ _ _) as [ret ts']. simpl in Hle.
  rewrite put_get_refs. destruct (ret =? 0) eqn:E; unfold_bools; cbn [negb].
  - split_and!; try done; [right; split; done|]. intros q. simpl.
    rewrite H2, Hg. simpl. case_decide; case_bool_decide; try done; lia.
  - split_and!; try done.
    + left. split; [lia|]. destruct H1; split; done.
    + intros q. simpl. specialize (H2 q). rewrite Hg in H2. simpl in H2.
      rewrite Z.sub_0_r in H2. unfold foreign_refs, ts_held in *. simpl.
      rewrite ref_count_put. lia.
Qed.

(** A cgroup can change no scope but its own, and only when it owns its
    policy: a write to policy_parent by a cgroup that does not own a policy
    changes no scope whatever its text, and one that does leaves the scope
    of every other cgroup alone; targets and cgroup references are untouched. *)
Theorem parent_write_confined env buf st cg :
  let '(ret, st') := parent_write env buf st in
  (cg ≠ env_current env ∨ env_owner env ≠ env_current env →
     scope_view (ct_scopes st') cg = scope_view (ct_scopes st) cg) ∧
  ct_targets st' = ct_targets st ∧
  ct_bpf_refs st' = ct_bpf_refs st ∧ ct_css_refs st' = ct_css_refs st.
Proof.
  unfold namei_ext_policy_parent_write.
  destruct (_ || _); [done|]. destruct (env_copy_ok env); [|done]. cbn [negb].
  destruct (current_cgroup_cases env st) as [-> | ->]; [done|].
  destruct (sscanf_command buf) as [[command fd] fields].
  cbn [ct_scopes cg_refs]. unfold namei_ext_cgroup_owns_policy.
  assert (∀ op, op_cgroup op = env_current env →
    let '(ret, s) := scope_step scope_hash op (ct_scopes st) in
    let st' := namei_ext_put_cgroup (upd_scopes s (cg_refs 1 1 st)) in
    (env_owner env =? env_current env) = true →
    (cg ≠ env_current env ∨ env_owner env ≠ env_current env →
       scope_view (ct_scopes st') cg = scope_view (ct_scopes st) cg) ∧
    ct_targets st' = ct_targets st ∧
    ct_bpf_refs st' = ct_bpf_refs st ∧ ct_css_refs st' = ct_css_refs st) as Hop.
  { intros op Hcg. pose proof (scope_step_other scope_hash op (ct_scopes st) cg) as Hv.
    destruct (scope_step scope_hash op (ct_scopes st)) as [ret s]. cbn zeta.
    intros Ho%Z.eqb_eq. rewrite put_scopes. split_and!; try done. intros [?|?]; [|done].
    apply Hv. congruence. }
  pose proof (put_get_refs_id st) as Hid.
  destruct (_ || _).
  - destruct (negb (fields =? 1)); [by rewrite Hid|].
    destruct (env_owner env =? env_current env) eqn:Ho; cbn [negb]; [|by rewrite Hid].
    destruct (bytes_eqb command (bytes_of_string "clear")).
    + specialize (Hop (OpEmpty (env_alloc env) (env_dead env) (env_current env)) eq_refl).
      cbn [scope_step] in Hop. destruct (namei_ext_scope_empty _ _ _ _ _). by apply Hop.
    + specialize (Hop (OpGlobal (env_dead env) (env_current env)) eq_refl).
      cbn [scope_step] in Hop. destruct (namei_ext_scope_global _ _ _ _). by apply Hop.
  - destruct (_ || _); [by rewrite Hid|].
    destruct (fdget_raw fd) as [p|]; [|by rewrite Hid].
    destruct (d_can_lookup (p_dentry p)); cbn [negb]; [|by rewrite Hid].
    destruct (env_owner env =? env_current env) eqn:Ho; cbn [negb]; [|by rewrite Hid].
    destruct (bytes_eqb command (bytes_of_string "exact")).
    + specialize (Hop (OpExact (env_alloc env) (env_dead env) (env_current env) p) eq_refl).
      cbn [scope_step] in Hop. destruct (namei_ext_scope_exact _ _ _ _ _ _). by apply Hop.
    + specialize (Hop (OpAdd (env_alloc env) (env_dead env) (env_current env) p) eq_refl).
      cbn [scope_step] in Hop. destruct (namei_ext_scope_add _ _ _ _ _ _). by apply Hop.
Qed.
End control_props.
