(* ===== verification/Harness.v ===== *)
(** * The control harness (runner/src/namei_ext_harness.c)

    The user-space side: building component keys and updating policy maps,
    formatting the control-file messages, the forked children that write them
    from inside a cgroup, and the wait with a deadline.  System calls are
    parameters; a call's error is its errno. *)

From S2P Require Import Prelude Abi PolicyLib.

Definition NAMEI_EXT_CONTROL_TIMEOUT_SECONDS : Z := 5.
Definition CONTROL_TIMEOUT_NS : Z := NAMEI_EXT_CONTROL_TIMEOUT_SECONDS * 1000000000.
Definition EINTR : Z := 4.
Definition ESRCH : Z := 3.

(** ** Formatting *)

(** The decimal digits of a number, most significant first. *)
Fixpoint digits (fuel : nat) (n : Z) (acc : list Z) : list Z :=
  match fuel with
  | O => acc
  | S fuel' =>
      let acc := (48 + n mod 10) :: acc in
      if n / 10 =? 0 then acc else digits fuel' (n / 10) acc
  end.
(** printf's %u, and its %d on a descriptor *)
Definition fmt_u (n : Z) : list Z := digits 20 n [].
Definition fmt_d (n : Z) : list Z := if n <? 0 then 45 :: fmt_u (- n) else fmt_u n.

(** [snprintf(buf, size, ...)]: the text, cut to [size - 1] bytes, and the
    length it would have had. *)
Definition snprintf (size : Z) (text : list Z) : list Z * Z :=
  (take (Z.to_nat (size - 1)) text, Z.of_nat (length text)).

Definition namei_ext_path_join (size : Z) (dir name : list Z) : Z * list Z :=
  let '(dst, ret) := snprintf size (dir ++ [chr "/"] ++ name) in
  if size <=? ret then (- ENAMETOOLONG, dst) else (0, dst).

(** ** Component keys and maps *)

(** [stat]: the device and inode numbers, or errno. *)
Record stat_t := mk_stat { st_dev : Z; st_ino : Z }.

Section keys.
Variable stat : list Z → stat_t + Z.

Definition fill_component_key (cgroup_id : Z) (parent name : list Z)
  : namei_ext_component_key + Z :=
  let name_len := Z.of_nat (length name) in
  if BPF_NAMEI_EXT_NAME_MAX <? name_len then inr (- ENAMETOOLONG) else
  match stat parent with
  | inr e => inr (- e)
  | inl st => inl (mk_key 0 name_len cgroup_id (st_dev st) (st_ino st)
                     (zero_pad NAME_MAX_nat name))
  end.

(** The named map, or the error of finding it: [component_key_map_fd] also
    checks the key and value sizes. *)
Record map_info := mk_map_info { mi_fd : Z; mi_key_size : Z; mi_value_size : Z }.

Definition component_map_fd (policy_loaded : bool) (map : option map_info) : Z :=
  if negb policy_loaded then - EINVAL else
  match map with
  | None => - ENOENT
  | Some m => if mi_fd m <? 0 then - EINVAL else mi_fd m
  end.

Definition sizeof_component_key : Z := 4 + 4 + 8 + 8 + 8 + BPF_NAMEI_EXT_NAME_MAX.

Definition component_key_map_fd (policy_loaded : bool) (map : option map_info) : Z :=
  let map_fd := component_map_fd policy_loaded map in
  if map_fd <? 0 then map_fd else
  match map with
  | None => - EINVAL
  | Some m =>
      if negb (mi_key_size m =? sizeof_component_key) || negb (mi_value_size m =? 4)
      then - EINVAL else map_fd
  end.

Context (loaded : bool) (info : option map_info).

(** [update_errno]: the error of the update, if any (a full map). *)
Definition namei_ext_component_map_update (update_errno : option Z) (cgroup_id : Z)
  (parent name : list Z) (value : Z) (m : bpf_hash Z) : Z * bpf_hash Z :=
  match fill_component_key cgroup_id parent name with
  | inr ret => (ret, m)
  | inl key =>
      let map_fd := component_key_map_fd loaded info in
      if map_fd <? 0 then (map_fd, m) else
      match update_errno with
      | Some e => (- e, m)
      | None => (0, <[key := value]> m)
      end
  end.

(** Deleting an absent key is not an error. *)
Definition namei_ext_component_map_delete (cgroup_id : Z) (parent name : list Z)
  (m : bpf_hash Z) : Z * bpf_hash Z :=
  match fill_component_key cgroup_id parent name with
  | inr ret => (ret, m)
  | inl key =>
      let map_fd := component_key_map_fd loaded info in
      if map_fd <? 0 then (map_fd, m) else (0, delete key m)
  end.

Definition namei_ext_component_map_lookup (cgroup_id : Z) (parent name : list Z)
  (value_out : option Z) (m : bpf_hash Z) : Z * option Z :=
  match value_out with
  | None => (- EINVAL, None)
  | Some old =>
      match fill_component_key cgroup_id parent name with
      | inr ret => (ret, Some old)
      | inl key =>
          let map_fd := component_key_map_fd loaded info in
          if map_fd <? 0 then (map_fd, Some old) else
          match m !! key with
          | None => (- ENOENT, Some old)
          | Some v => (0, Some v)
          end
      end
  end.

(** [bpf_map_get_next_key]: the key after the given one, or errno. *)
Variable get_next_key : option namei_ext_component_key → namei_ext_component_key + Z.

(** [fuel] bounds the number of keys. *)
Fixpoint count_loop (fuel : nat) (key : option namei_ext_component_key) (count : Z)
  : option (Z * Z) :=
  match fuel with
  | O => None
  | S fuel' =>
      match get_next_key key with
      | inl next => count_loop fuel' (Some next) (u64 (count + 1))
      | inr e => Some (count, e)
      end
  end.

Definition namei_ext_component_map_count (fuel : nat) (has_out : bool)
  : option (Z * option Z) :=
  if negb has_out then Some (- EINVAL, None) else
  let map_fd := component_key_map_fd loaded info in
  if map_fd <? 0 then Some (map_fd, None) else
  '(count, e) ← count_loop fuel None 0;
  Some (if negb (e =? ENOENT) then (- e, None) else (0, Some count)).

Definition namei_ext_policy_counter (has_out : bool) (counters : bpf_array) (key : Z)
  : Z * option Z :=
  if negb has_out then (- EINVAL, None) else
  let map_fd := component_map_fd loaded info in
  if map_fd <? 0 then (map_fd, None) else
  match array_lookup counters key with
  | None => (- ENOENT, None)
  | Some v => (0, Some v)
  end.
End keys.

(** ** Waiting for a child *)

Inductive wait_status := Exited (code : Z) | Killed.

Definition child_result (s : wait_status) : Z :=
  match s with
  | Killed => - ECHILD
  | Exited code => if negb (code =? 0) then - EIO else 0
  end.

Definition namei_ext_wait_child (waited : wait_status + Z) : Z :=
  match waited with
  | inr e => - e
  | inl s => child_result s
  end.

(** waitpid with WNOHANG: the child, nothing yet, or errno. *)
Inductive wait_poll := Ready (s : wait_status) | NotYet | WaitErr (e : Z).

Section wait_control.
(** The [n]th answers of the clock (nanoseconds, or a negative error) and of
    waitpid, and the error of kill. *)
Variables (clock : nat → Z + Z) (poll : nat → wait_poll) (kill_errno : option Z).

Inductive wait_end := Done (ret : Z) | Terminate (ret : Z).

Fixpoint poll_loop (fuel n : nat) (deadline : Z) : option (nat * wait_end) :=
  match fuel with
  | O => None
  | S fuel' =>
      let again :=
        match clock (S n) with
        | inr e => Some (n, Terminate e)
        | inl now => if deadline <=? now then Some (n, Terminate 0)
                     else poll_loop fuel' (S n) deadline
        end in
      match poll n with
      | Ready s => Some (n, Done (child_result s))
      | WaitErr e => if negb (e =? EINTR) then Some (n, Done (- e)) else again
      | NotYet => again
      end
  end.

(** Reap the killed child: at most 100 attempts. *)
Fixpoint reap_loop (fuel n : nat) (ret : Z) : Z :=
  match fuel with
  | O => if negb (ret =? 0) then ret else - ETIMEDOUT
  | S fuel' =>
      match poll n with
      | Ready _ => if negb (ret =? 0) then ret else - ETIMEDOUT
      | WaitErr e =>
          if e =? ECHILD then (if negb (ret =? 0) then ret else - ETIMEDOUT)
          else if negb (e =? EINTR) then (if negb (ret =? 0) then ret else - e)
          else reap_loop fuel' (S n) ret
      | NotYet => reap_loop fuel' (S n) ret
      end
  end.

Definition terminate (n : nat) (ret : Z) : Z :=
  match kill_errno with
  | Some e => if negb (e =? ESRCH) then (if negb (ret =? 0) then ret else - e)
              else reap_loop 100 n ret
  | None => reap_loop 100 n ret
  end.

Definition namei_ext_wait_control_child (fuel : nat) : option Z :=
  match clock 0 with
  | inr e => Some (terminate 0 e)
  | inl now =>
      '(n, r) ← poll_loop fuel 0 (u64 (now + CONTROL_TIMEOUT_NS));
      match r with
      | Done ret => Some ret
      | Terminate ret => Some (terminate (S n) ret)
      end
  end.
End wait_control.

(** ** Control messages *)

Record target_registration := mk_registration { reg_path : list Z; reg_target_id : Z }.

Section messages.
Context {K : Type}.
(** [open(path, O_PATH | O_CLOEXEC)] and the write to a control file: the
    bytes accepted or the errno, and the kernel's state. *)
Variable open_path : list Z → Z + Z.
Variable write_control : list Z → K → (Z + Z) * K.
(** The error of [close], if any. *)
Variable close_errno : Z → option Z.
(** errno as it is after a short write. *)
Variable short_errno : Z.

(** A write that does not take the whole message fails with
    errno, or EIO when errno is 0. *)
Definition write_message (msg : list Z) (k : K) : Z * K :=
  match write_control msg k with
  | (inl n, k) =>
      if n =? Z.of_nat (length msg) then (0, k)
      else (- (if short_errno =? 0 then EIO else short_errno), k)
  | (inr e, k) => (- (if e =? 0 then EIO else e), k)
  end.

Definition namei_ext_register_target_fd (t : target_registration) (k : K) : Z * K :=
  match open_path (reg_path t) with
  | inr e => (- e, k)
  | inl target_fd =>
      let '(msg, len) := snprintf 64 (fmt_u (reg_target_id t) ++ [32] ++ fmt_d target_fd ++ [10]) in
      let '(ret, k) := if 64 <=? len then (- EOVERFLOW, k) else write_message msg k in
      match close_errno target_fd with
      | Some e => (if ret =? 0 then - e else ret, k)
      | None => (ret, k)
      end
  end.

(** The child of [namei_ext_register_target_batch]: its exit code. *)
Fixpoint register_all (targets : list target_registration) (k : K) : Z * K :=
  match targets with
  | [] => (0, k)
  | t :: rest =>
      let '(ret, k) := namei_ext_register_target_fd t k in
      if negb (ret =? 0) then (1, k) else register_all rest k
  end.

(** [child_ready]: the fork, the move to the cgroup and the open of the
    control file succeed; [wait] is what waiting for the child gives. *)
Definition namei_ext_register_target_batch (has_cgroup child_ready close_ok : bool)
  (wait : wait_status → Z) (targets : list target_registration) (k : K) : Z * K :=
  if negb has_cgroup || bool_decide (targets = []) then (- EINVAL, k) else
  if existsb (λ t, bool_decide (reg_path t = []) || (reg_target_id t =? 0)) targets
  then (- EINVAL, k) else
  if negb child_ready then (wait (Exited 1), k) else
  let '(code, k) := register_all targets k in
  (wait (Exited (if (code =? 0) && negb close_ok then 1 else code)), k).

Definition namei_ext_clear_targets_command (child_ready : bool)
  (wait : wait_status → Z) (k : K) : Z * K :=
  if negb child_ready then (wait (Exited 1), k) else
  let msg := bytes_of_string "clear" ++ [10] in
  let '(r, k) := write_control msg k in
  (wait (Exited (match r with
                 | inl n => if n =? Z.of_nat (length msg) then 0 else 1
                 | inr _ => 1 end)), k).

Definition namei_ext_policy_parent_command (child_ready control_ready : bool)
  (wait : wait_status → Z) (command : list Z) (parent_dir : option (list Z)) (k : K)
  : Z * K :=
  let exit1 := (wait (Exited 1), k) in
  if negb child_ready then exit1 else
  match
    match parent_dir with
    | Some dir =>
        match open_path dir with
        | inr _ => None
        | inl fd => Some (snprintf 64 (command ++ [32] ++ fmt_d fd ++ [10]))
        end
    | None => Some (snprintf 64 (command ++ [10]))
    end
  with
  | None => exit1
  | Some (msg, len) =>
      if 64 <=? len then exit1 else
      if negb control_ready then exit1 else
      let '(r, k) := write_control msg k in
      (wait (Exited (match r with
                     | inl n => if n =? len then 0 else 1
                     | inr _ => 1 end)), k)
  end.
End messages.
