(* ===== verification/HarnessProps.v ===== *)
(** * Properties of the harness *)

From S2P Require Import Prelude Abi PolicyLib PolicyFacts Kernel Targets Scopes Lookup.
From S2P Require Import LookupProps Control Harness.

(** ** Decimal text *)

Definition digit (b : Z) : Prop := 48 ≤ b ≤ 57.
Definition value (ds : list Z) : Z := foldl (λ v d, 10 * v + (d - 48)) 0 ds.

Lemma value_snoc ds d : value (ds ++ [d]) = 10 * value ds + (d - 48).
Proof. unfold value. by rewrite foldl_app. Qed.

Lemma digits_spec fuel n acc :
  (0 < fuel)%nat → 0 ≤ n < 10 ^ Z.of_nat fuel →
  ∃ ds, digits fuel n acc = ds ++ acc ∧ ds ≠ [] ∧ (length ds ≤ fuel)%nat ∧
    Forall digit ds ∧ value ds = n.
Proof.
  revert n acc. induction fuel as [|fuel IH]; intros n acc Hf Hn; [lia|]. cbn [digits].
  pose proof (Z.mod_pos_bound n 10 ltac:(lia)) as Hm.
  pose proof (Z.div_mod n 10 ltac:(lia)) as Hd.
  destruct (n / 10 =? 0) eqn:E; unfold_bools.
  - exists [48 + n mod 10]. split_and!; simpl; try done; try lia.
    + repeat constructor; lia.
    + unfold value. simpl. lia.
  - rewrite Nat2Z.inj_succ, Z.pow_succ_r in Hn by lia.
    assert (fuel ≠ 0%nat) by (intros ->; simpl in Hn; lia).
    destruct (IH (n / 10) ((48 + n mod 10) :: acc)) as (ds & -> & Hne & Hl & Hds & Hv).
    + lia.
    + split; [apply Z.div_pos; lia|apply Z.div_lt_upper_bound; lia].
    + exists (ds ++ [48 + n mod 10]). split_and!.
      * by rewrite <- app_assoc.
      * by destruct ds.
      * rewrite length_app. simpl. lia.
      * apply Forall_app. split; [done|]. repeat constructor; lia.
      * rewrite value_snoc, Hv. lia.
Qed.

Lemma fmt_u_spec n :
  in_width 32 n → Forall digit (fmt_u n) ∧ fmt_u n ≠ [] ∧ value (fmt_u n) = n ∧
    (length (fmt_u n) ≤ 20)%nat.
Proof.
  intros Hn. unfold in_width in Hn.
  destruct (digits_spec 20 n []) as (ds & Hd & ? & ? & ? & ?); [lia|simpl; lia|].
  unfold fmt_u. rewrite Hd, app_nil_r. done.
Qed.

(** A reader of the "%u %u" format: digits, blanks, digits. *)
Fixpoint take_digits (l : list Z) : list Z * list Z :=
  match l with
  | [] => ([], [])
  | b :: rest =>
      if (48 <=? b) && (b <=? 57) then let '(ds, r) := take_digits rest in (b :: ds, r)
      else ([], l)
  end.
Definition scan_uu (l : list Z) : option (Z * Z) :=
  match take_digits l with
  | (a, 32 :: l) =>
      match a, take_digits l with
      | _ :: _, ((_ :: _) as b, _) => Some (value a, value b)
      | _, _ => None
      end
  | _ => None
  end.

Lemma take_digits_app ds b rest :
  Forall digit ds → ¬ digit b → take_digits (ds ++ b :: rest) = (ds, b :: rest).
Proof.
  intros Hds Hb. induction Hds as [|d ds Hd _ IH]; simpl.
  - unfold digit in Hb. destruct ((48 <=? b) && (b <=? 57)) eqn:E; [|done].
    unfold_bools. lia.
  - unfold digit in Hd. by rewrite (proj2 (Z.leb_le _ _)), (proj2 (Z.leb_le _ _)), IH by lia.
Qed.

(** The message of a registration. *)
Definition register_message (target_id fd : Z) : list Z :=
  fmt_u target_id ++ [32] ++ fmt_d fd ++ [10].

Lemma scan_uu_message a b :
  in_width 32 a → in_width 32 b → scan_uu (register_message a b) = Some (a, b).
Proof.
  intros Ha Hb. destruct (fmt_u_spec a Ha) as (Hda & Hna & Hva & _).
  destruct (fmt_u_spec b Hb) as (Hdb & Hnb & Hvb & _).
  unfold register_message, fmt_d. rewrite (proj2 (Z.ltb_ge b 0)) by apply Hb.
  unfold scan_uu. simpl.
  rewrite take_digits_app; [|done|unfold digit; lia].
  rewrite take_digits_app; [|done|unfold digit; lia].
  destruct (fmt_u a), (fmt_u b); done || (by rewrite <- Hva, <- Hvb).
Qed.

Lemma register_message_length a b :
  in_width 32 a → in_width 32 b → Z.of_nat (length (register_message a b)) < 64.
Proof.
  intros Ha Hb. destruct (fmt_u_spec a Ha) as (_ & _ & _ & Hla).
  destruct (fmt_u_spec b Hb) as (_ & _ & _ & Hlb).
  unfold register_message, fmt_d. rewrite (proj2 (Z.ltb_ge b 0)) by apply Hb.
  rewrite !length_app. simpl. lia.
Qed.

(** ** Keys *)

Section key_props.
Context (d_backing_inode : Z → option inode).

(** The key the harness writes for a directory entry is the key the policy
    computes in the kernel exactly when the device number stat reports is
    the raw number of the superblock: on a device whose user-space encoding
    differs, the harness's rules are never found. *)
Theorem harness_key_is_kernel_key stat cg parent name st i h flags s_dev :
  stat parent = inl st → (length name ≤ NAME_MAX_nat)%nat →
  i_sdev i = Some s_dev → i_ino i = st_ino st →
  ∃ key, fill_component_key stat cg parent name = inl key ∧
    (key = kernel_key d_backing_inode cg None (Some i) BPF_NAMEI_EXT_LOOKUP flags
             (mk_qstr h (Z.of_nat (length name)) name) ↔
     st_dev st = s_dev).
Proof.
  intros Hs Hl Hd Hi. unfold fill_component_key. unfold NAME_MAX_nat in Hl.
  rewrite Hs, (proj2 (Z.ltb_ge _ _)) by (unfold BPF_NAMEI_EXT_NAME_MAX; lia).
  eexists. split; [done|]. unfold kernel_key.
  set (c := set_cgroup_id _ _).
  assert (ctx_wf c) as Hwf.
  { apply set_cgroup_id_wf, init_ctx_wf; simpl; [done|unfold in_width; lia|done]. }
  assert (key_name (namei_ext_build_component_key c) = zero_pad NAME_MAX_nat name) as Hk.
  { rewrite build_component_key_name; [|done|simpl; unfold BPF_NAMEI_EXT_NAME_MAX; lia].
    unfold c. change (ctx_component (set_cgroup_id ?g ?x)) with (ctx_component x).
    rewrite init_ctx_component by (simpl; unfold BPF_NAMEI_EXT_NAME_MAX; lia).
    unfold q_bytes. simpl. by rewrite Nat2Z.id, take_ge. }
  rewrite key_eq_iff, Hk. simpl. rewrite Hd, Hi. simpl. split; [congruence|by intros ->].
Qed.

(** Round trip through a policy map: after a successful update, a lookup of
    the same entry finds the value, other entries keep theirs, and a delete
    removes it and succeeds whether or not it was there. *)
Theorem component_map_roundtrip stat loaded info cg parent name key value m m' :
  fill_component_key stat cg parent name = inl key →
  namei_ext_component_map_update stat loaded info None cg parent name value m = (0, m') →
  namei_ext_component_map_lookup stat loaded info cg parent name (Some 0) m' =
    (0, Some value) ∧
  (∀ cg' parent' name' key',
     fill_component_key stat cg' parent' name' = inl key' → key ≠ key' →
     namei_ext_component_map_lookup stat loaded info cg' parent' name' (Some 0) m' =
     namei_ext_component_map_lookup stat loaded info cg' parent' name' (Some 0) m) ∧
  ∃ m'', namei_ext_component_map_delete stat loaded info cg parent name m' = (0, m'') ∧
    namei_ext_component_map_lookup stat loaded info cg parent name (Some 0) m'' =
      (- ENOENT, Some 0) ∧
    namei_ext_component_map_delete stat loaded info cg parent name m'' = (0, m'').
Proof.
  intros Hk. unfold namei_ext_component_map_update, namei_ext_component_map_lookup,
    namei_ext_component_map_delete. rewrite Hk.
  destruct (component_key_map_fd loaded info <? 0) eqn:Hfd.
  { intros [= ? _]. unfold_bools. lia. }
  intros [= <-]. rewrite lookup_insert_eq. split_and!; [done| |].
  - intros cg' parent' name' key' Hk' Hne. rewrite Hk'. by rewrite lookup_insert_ne.
  - eexists. split; [done|]. by rewrite lookup_delete_eq, delete_delete_eq.
Qed.
End key_props.

(** ** Registration *)

Section register_props.
Context (target_hash : Z → nat) (target_hash_lt : ∀ k, (target_hash k < target_buckets)%nat)
  (cgroup_id : Z → Z) (fdget_raw : Z → option path)
  (sysfs_streq_clear : list Z → bool) (sscanf_uu : list Z → option (Z * Z))
  (open_path : list Z → Z + Z) (env : write_env).

(** The write(2) on the registration file. *)
Definition register_control (msg : list Z) (k : control_state) : (Z + Z) * control_state :=
  let '(ret, k) := namei_ext_register_target_write target_hash cgroup_id fdget_raw
                     sysfs_streq_clear sscanf_uu env msg k in
  (if ret <? 0 then inr (- ret) else inl ret, k).

(** The kernel reads the harness's decimal messages. *)
Definition reads_messages : Prop :=
  ∀ a b, in_width 32 a → in_width 32 b →
    sscanf_uu (register_message a b) = Some (a, b) ∧
    sysfs_streq_clear (register_message a b) = false.

(** The directory behind a registration, when it can be opened. *)
Definition reg_dir (t : target_registration) : option path :=
  match open_path (reg_path t) with
  | inl fd => fdget_raw fd
  | inr _ => None
  end.

(** Opening gives a descriptor of a positive path, or an error. *)
Definition opens_ok : Prop :=
  ∀ p, match open_path p with
       | inl fd => in_width 31 fd ∧ ∃ d, fdget_raw fd = Some d ∧
                     p_mnt d ≠ NULL ∧ p_dentry d ≠ NULL
       | inr e => 0 < e
       end.

(** The map after registering until the first target that cannot be opened. *)
Fixpoint register_prefix (targets : list target_registration) (m : gmap (Z * Z) path)
  : Z * gmap (Z * Z) path :=
  match targets with
  | [] => (0, m)
  | t :: rest =>
      match reg_dir t with
      | None => (1, m)
      | Some d =>
          register_prefix rest (<[(cgroup_id (env_current env), reg_target_id t) := d]> m)
      end
  end.

Lemma register_one k m t :
  reads_messages → opens_ok →
  env_copy_ok env = true → env_bpf_live env = true → env_css_live env = true →
  env_dead env = false → is_Some (env_alloc env) →
  targets_repr target_hash (ct_targets k) m →
  in_width 32 (reg_target_id t) → reg_target_id t ≠ 0 →
  let '(ret, k') := namei_ext_register_target_fd open_path register_control
                      (λ _, None) 0 t k in
  match reg_dir t with
  | None => ret ≠ 0 ∧ k' = k
  | Some d => ret = 0 ∧ targets_repr target_hash (ct_targets k')
                (<[(cgroup_id (env_current env), reg_target_id t) := d]> m)
  end.
Proof.
  intros Hread Hopen Hcopy Hbpf Hcss Hdead Halloc Hr Hw Hne.
  unfold namei_ext_register_target_fd, reg_dir. specialize (Hopen (reg_path t)).
  destruct (open_path (reg_path t)) as [fd|e]; [|split; [lia|done]].
  destruct Hopen as (Hfd & d & Hd & Hm & Hdd). rewrite Hd.
  assert (in_width 32 fd) as Hfd32 by (unfold in_width in *; lia).
  change (fmt_u (reg_target_id t) ++ [32] ++ fmt_d fd ++ [10])
    with (register_message (reg_target_id t) fd).
  pose proof (register_message_length _ _ Hw Hfd32) as Hlen.
  destruct (Hread _ _ Hw Hfd32) as [Hscan Hclear].
  unfold snprintf. rewrite (proj2 (Z.leb_gt _ _)), take_ge by lia.
  set (msg := register_message (reg_target_id t) fd) in *.
  assert (msg ≠ []) as Hmsg by (unfold msg, register_message; by destruct (fmt_u _)).
  assert (0 < Z.of_nat (length msg)) by (destruct msg; [done|simpl; lia]).
  unfold write_message, register_control, namei_ext_register_target_write.
  rewrite (proj2 (Z.eqb_neq _ 0)), (proj2 (Z.leb_gt 64 _)), Hcopy by lia. cbn [orb negb].
  unfold namei_ext_current_cgroup. rewrite Hbpf, Hcss, Hclear, Hscan, Hd, Hdead. cbn [negb].
  rewrite bool_decide_true by done. cbn [ct_targets cg_refs].
  set (ts := mk_targets _ (path_get d _)).
  assert (targets_repr target_hash ts m) as Hts by (by destruct Hr; split).
  pose proof (register_target_repr target_hash target_hash_lt ts m true false
    (cgroup_id (env_current env)) (reg_target_id t) d Hts) as H1.
  assert ((namei_ext_register_target target_hash true false (cgroup_id (env_current env))
    (reg_target_id t) d ts).1 = 0) as H0.
  { unfold namei_ext_register_target.
    rewrite (proj2 (Z.eqb_neq _ 0) Hne), (proj2 (Z.eqb_neq _ _) Hm),
      (proj2 (Z.eqb_neq _ _) Hdd). cbn [orb negb].
    by destruct (replace_in_chain _ _ _ _) as [[]|]. }
  destruct (namei_ext_register_target _ _ _ _ _ _ _) as [ret ts']. simpl in H0. subst ret.
  cbn [Z.eqb negb] in *. rewrite (proj2 (Z.ltb_ge _ 0)), Z.eqb_refl by lia.
  by split.
Qed.

End register_props.

(** ** Waiting *)

Section wait_props.
Context (clock : nat → Z + Z) (poll : nat → wait_poll) (kill_errno : option Z).

(** Waiting for a control child terminates: if the clock ever reaches the
    deadline or fails at its [n + 1]st reading, [n + 1] polls are enough for
    the wait to return, whatever the child, waitpid and kill do. *)
Theorem wait_control_terminates start n :
  clock 0 = inl start →
  (match clock (S n) with inl now => u64 (start + CONTROL_TIMEOUT_NS) ≤ now | inr _ => True end) →
  ∃ ret, namei_ext_wait_control_child clock poll kill_errno (S n) = Some ret.
Proof.
  intros H0 Hn. unfold namei_ext_wait_control_child. rewrite H0.
  set (deadline := u64 _) in *.
  assert (∀ fuel i, (i + fuel = S n)%nat → (0 < fuel)%nat →
    ∃ r, poll_loop clock poll fuel i deadline = Some r) as Hloop.
  { induction fuel as [|fuel IH]; intros i Hi Hf; [lia|]. cbn [poll_loop].
    assert (∃ r, match clock (S i) with
      | inl now => if deadline <=? now then Some (i, Terminate 0)
                   else poll_loop clock poll fuel (S i) deadline
      | inr e => Some (i, Terminate e) end = Some r) as Hagain.
    { destruct (decide (fuel = 0%nat)) as [->|Hf0].
      - assert (i = n) as -> by lia. destruct (clock (S n)) as [now|e]; [|eauto].
        rewrite (proj2 (Z.leb_le _ _)) by done. eauto.
      - destruct (clock (S i)) as [now|e]; [|eauto].
        destruct (deadline <=? now); [eauto|]. apply IH; lia. }
    destruct (poll i) as [s| |e]; [eauto|done|].
    destruct (negb (e =? EINTR)); eauto. }
  destruct (Hloop (S n) 0%nat) as [[i r] ->]; [lia..|].
  destruct r; simpl; eauto.
Qed.

(** A child is reported as successful only if it exited with status 0: the
    wait never turns a timeout, a kill or an error into success. *)
Theorem wait_control_success fuel :
  (∀ i e, clock i = inr e → e < 0) → (∀ i e, poll i = WaitErr e → 0 < e) →
  (∀ e, kill_errno = Some e → 0 < e) →
  namei_ext_wait_control_child clock poll kill_errno fuel = Some 0 →
  ∃ i, poll i = Ready (Exited 0).
Proof.
  intros Hc Hp Hk.
  assert (∀ fuel n ret, reap_loop poll fuel n ret ≠ 0) as Hreap.
  { assert (∀ ret x, x ≠ 0 → (if negb (ret =? 0) then ret else x) ≠ 0) as Hor.
    { intros ret x Hx. destruct (ret =? 0) eqn:E; unfold_bools; done. }
    induction fuel0 as [|fuel0 IH]; intros n ret; cbn [reap_loop]; [by apply Hor|].
    destruct (poll n) as [s| |e] eqn:E; [by apply Hor|done|].
    pose proof (Hp n e E). destruct (e =? ECHILD); [by apply Hor|].
    destruct (negb (e =? EINTR)); [apply Hor; lia|done]. }
  assert (∀ n ret, terminate poll kill_errno n ret ≠ 0) as Hterm.
  { intros n ret. unfold terminate. destruct kill_errno as [e|]; [|apply Hreap].
    destruct (negb (e =? ESRCH)); [|apply Hreap].
    pose proof (Hk e eq_refl). destruct (ret =? 0) eqn:E; unfold_bools; cbn [negb]; lia. }
  unfold namei_ext_wait_control_child. destruct (clock 0) as [now|e].
  2:{ intros [= H]. by apply Hterm in H. }
  generalize (u64 (now + CONTROL_TIMEOUT_NS)). generalize 0%nat at 1.
  induction fuel as [|fuel IH]; intros n deadline; cbn [poll_loop]; [done|].
  destruct (poll n) as [s| |e] eqn:E.
  - simpl. intros [= H]. exists n. rewrite E. unfold child_result in H.
    destruct s as [code|]; [|done]. destruct (code =? 0) eqn:Ec; unfold_bools; [by subst|done].
  - destruct (clock (S n)) as [now'|e']; simpl.
    + destruct (deadline <=? now'); [|apply IH]. simpl. intros [= H]. by apply Hterm in H.
    + intros [= H]. by apply Hterm in H.
  - pose proof (Hp n e E). destruct (negb (e =? EINTR)); [simpl; intros [= ?]; lia|].
    destruct (clock (S n)) as [now'|e']; simpl.
    + destruct (deadline <=? now'); [|apply IH]. simpl. intros [= H']. by apply Hterm in H'.
    + intros [= H']. by apply Hterm in H'.
Qed.
End wait_props.
