(* ===== verification/FuseDaemon.v ===== *)
(** * The FUSE daemon of the agent workspace

    The baseline that agent_workspace_view is compared with
    (experiments/agent_workspace/namei_ext_agent_workspace_fuse.c): a user-space
    file system whose "/ws" is one of two directories, chosen by an epoch that a
    control pipe sets, and whose "/ws/deleted.txt" does not exist.  The system
    calls and libfuse are the fields of [host]; an answer is the result or errno.

    The daemon and the policy give the same answers to lookups; the pipe is
    served whatever pieces its messages come in. *)

From S2P Require Import Prelude Abi PolicyLib PoliciesBasic PolicyProps PolicyViews Harness.
From S2P Require Import Kernel Targets PathInv PathView PathPolicies.

Definition FUSE_COUNTER_GETATTR : Z := 0.
Definition FUSE_COUNTER_READDIR : Z := 1.
Definition FUSE_COUNTER_OPEN : Z := 2.
Definition FUSE_COUNTER_CREATE : Z := 3.
Definition FUSE_COUNTER_READ : Z := 4.
Definition FUSE_COUNTER_WRITE : Z := 5.
Definition FUSE_COUNTER_READLINK : Z := 6.
Definition FUSE_COUNTER_HIDDEN_LOOKUP : Z := 7.
Definition FUSE_COUNTER_HIDDEN_READDIR : Z := 8.
Definition FUSE_COUNTER_UNLINK : Z := 9.
Definition FUSE_COUNTER_RENAME : Z := 10.
Definition FUSE_COUNTER_MKNOD : Z := 11.
Definition FUSE_COUNTER_INVALIDATE_ATTEMPT : Z := 12.
Definition FUSE_COUNTER_INVALIDATE_ERROR : Z := 13.
Definition FUSE_COUNTER_TRUNCATE : Z := 14.
Definition FUSE_COUNTER_RELEASE : Z := 15.
Definition FUSE_COUNTER_REQUEST_TOTAL : Z := 16.
Definition FUSE_COUNTER_HANDLE_OPENED : Z := 17.
Definition FUSE_COUNTER_RELEASE_COMPLETED : Z := 18.
Definition FUSE_COUNTER_MAX : Z := 19.

Definition EPIPE : Z := 32.
Definition O_CREAT_bit : Z := 0x40.
Definition S_IFDIR_0755 : Z := 0x41ed.

(** [(int)] of a wider integer. *)
Definition to_int (z : Z) : Z := let u := u32 z in if u <? 2 ^ 31 then u else u - 2 ^ 32.

(** ** Its state *)

Record fuse_workspace_state := mk_workspace {
  ws_base : list Z;
  ws_upper : list Z;
  ws_active_epoch : Z;
  ws_counters : list Z
}.

Definition with_epoch (epoch : Z) (s : fuse_workspace_state) : fuse_workspace_state :=
  mk_workspace (ws_base s) (ws_upper s) epoch (ws_counters s).
Definition with_counters (counters : list Z) (s : fuse_workspace_state) : fuse_workspace_state :=
  mk_workspace (ws_base s) (ws_upper s) (ws_active_epoch s) counters.

(** struct stat: the fields the daemon sets itself, and the others. *)
Record stat_buf := mk_stat_buf { sb_mode : Z; sb_nlink : Z; sb_others : list Z }.
Definition zero_stat : stat_buf := mk_stat_buf 0 0 [].

(** What the daemon calls: system calls on the backing directories,
    [fuse_invalidate_path], and the two ends of its pipes. *)
Record host (H : Type) := mk_host {
  h_lstat : list Z → H → stat_buf + Z;
  h_opendir : list Z → H → list (list Z) + Z;
  h_open : list Z → Z → Z → H → (Z + Z) * H;
  h_close : Z → H → option Z * H;
  h_mknod : list Z → Z → Z → H → option Z * H;
  h_pread : Z → Z → Z → H → list Z + Z;
  h_pwrite : Z → list Z → Z → H → (Z + Z) * H;
  h_truncate : list Z → Z → H → option Z * H;
  h_readlink : list Z → Z → H → list Z + Z;
  h_unlink : list Z → H → option Z * H;
  h_rename : list Z → list Z → H → option Z * H;
  h_invalidate : list Z → H → Z * H;
  h_read : nat → H → (list Z + Z) * H;
  h_write : list Z → H → (Z + Z) * H
}.
Arguments h_lstat {H} _ _ _.
Arguments h_opendir {H} _ _ _.
Arguments h_open {H} _ _ _ _ _.
Arguments h_close {H} _ _ _.
Arguments h_mknod {H} _ _ _ _ _.
Arguments h_pread {H} _ _ _ _ _.
Arguments h_pwrite {H} _ _ _ _ _.
Arguments h_truncate {H} _ _ _ _.
Arguments h_readlink {H} _ _ _ _.
Arguments h_unlink {H} _ _ _.
Arguments h_rename {H} _ _ _ _.
Arguments h_invalidate {H} _ _ _.
Arguments h_read {H} _ _ _.
Arguments h_write {H} _ _ _.

(** A callback has the daemon's state and the rest of the world. *)
Definition callback (H A : Type) : Type :=
  fuse_workspace_state * H → A * (fuse_workspace_state * H).
#[export] Instance callback_ret H : MRet (callback H) := λ A a s, (a, s).
#[export] Instance callback_bind H : MBind (callback H) := λ A B f m s,
  let '(a, s) := m s in f a s.

Definition at_ws : list Z := bytes_of_string "/ws".
Definition deleted_txt : list Z := bytes_of_string "deleted.txt".

Section callbacks.
Context {H : Type} (os : host H).
Abbreviation callback := (callback H).

Definition fuse_state : callback fuse_workspace_state := λ s, (s.1, s).
Definition in_host {A} (f : H → A * H) : callback A := λ s,
  let '(a, h) := f s.2 in (a, (s.1, h)).
Definition of_host {A} (f : H → A) : callback A := in_host (λ h, (f h, h)).
(** 0, or the negated errno. *)
Definition errno (e : option Z) : Z := from_option Z.opp 0 e.

Definition fuse_count_state (key : Z) : callback () := λ s,
  (tt, (if key <? FUSE_COUNTER_MAX
        then with_counters (alter (λ v, u64 (v + 1)) (Z.to_nat key) (ws_counters s.1)) s.1
        else s.1, s.2)).
Definition fuse_count (key : Z) : callback () := fuse_count_state key.
Definition fuse_count_request (key : Z) : callback () :=
  fuse_count_state FUSE_COUNTER_REQUEST_TOTAL;; fuse_count_state key.

Definition active_target (s : fuse_workspace_state) : list Z :=
  if ws_active_epoch s =? 0 then ws_base s else ws_upper s.
Definition is_hidden_path (path : list Z) : bool :=
  bool_decide (path = bytes_of_string "/ws/deleted.txt").

(** snprintf, and the check of its result. *)
Definition print_path (size : Z) (text : list Z) : Z + list Z :=
  let '(dst, ret) := snprintf size text in
  if size <=? ret then inl (- ENAMETOOLONG) else inr dst.

Definition backing_path (path : list Z) (size : Z) : callback (Z + list Z) :=
  if is_hidden_path path then
    fuse_count_state FUSE_COUNTER_HIDDEN_LOOKUP;;
    mret (inl (- ENOENT))
  else
  s ← fuse_state;
  mret
    (if bool_decide (path = at_ws) then print_path size (active_target s) else
     if negb (bool_decide (take 4 path = bytes_of_string "/ws/")) then inl (- ENOENT) else
     let target := active_target s in
     let suffix := drop 4 path in
     if bool_decide (suffix = []) then inl (- ENOENT) else
     print_path size (target ++ [chr "/"] ++ suffix)).

(** What every callback on a path begins with. *)
Definition with_backing {A} (path : list Z) (fail : Z → A) (f : list Z → callback A) : callback A :=
  ret ← backing_path path PATH_MAX;
  match ret with
  | inl ret => mret (fail ret)
  | inr backing => f backing
  end.

Definition agent_fuse_getattr (path : list Z) : callback (Z * stat_buf) :=
  fuse_count_request FUSE_COUNTER_GETATTR;;
  if bool_decide (path = bytes_of_string "/") then
    mret (0, mk_stat_buf S_IFDIR_0755 2 (sb_others zero_stat))
  else
  with_backing path (λ ret, (ret, zero_stat)) (λ backing,
    st ← of_host (h_lstat os backing);
    mret (match st with inl st => (0, st) | inr e => (- e, zero_stat) end)).

Definition is_dots (n : list Z) : bool :=
  bool_decide (n = bytes_of_string ".") || bool_decide (n = bytes_of_string "..").

(** The names given to [filler], of those that readdir returns. *)
Fixpoint fill_entries (names : list (list Z)) : callback (list (list Z)) :=
  match names with
  | [] => mret []
  | n :: names =>
      if is_dots n then fill_entries names else
      if bool_decide (n = deleted_txt) then
        fuse_count FUSE_COUNTER_HIDDEN_READDIR;;
        fill_entries names
      else
      rest ← fill_entries names;
      mret (n :: rest)
  end.

Definition agent_fuse_readdir (path : list Z) : callback (Z * list (list Z)) :=
  let dots := [bytes_of_string "."; bytes_of_string ".."] in
  fuse_count_request FUSE_COUNTER_READDIR;;
  if bool_decide (path = bytes_of_string "/") then mret (0, dots ++ [bytes_of_string "ws"]) else
  with_backing path (λ ret, (ret, dots)) (λ backing,
    dir ← of_host (h_opendir os backing);
    match dir with
    | inr e => mret (- e, dots)
    | inl names => rest ← fill_entries names; mret (0, dots ++ rest)
    end).

(** The error, and the file handle. *)
Definition opened (r : Z + Z) : callback (Z * Z) :=
  match r with
  | inr e => mret (- e, 0)
  | inl fd => fuse_count FUSE_COUNTER_HANDLE_OPENED;; mret (0, u64 fd)
  end.

Definition agent_fuse_open (path : list Z) (flags : Z) : callback (Z * Z) :=
  fuse_count_request FUSE_COUNTER_OPEN;;
  with_backing path (λ ret, (ret, 0)) (λ backing,
    fd ← in_host (h_open os backing flags 0);
    opened fd).

Definition agent_fuse_create (path : list Z) (mode flags : Z) : callback (Z * Z) :=
  fuse_count_request FUSE_COUNTER_CREATE;;
  with_backing path (λ ret, (ret, 0)) (λ backing,
    fd ← in_host (h_open os backing (Z.lor flags O_CREAT_bit) mode);
    opened fd).

Definition agent_fuse_mknod (path : list Z) (mode rdev : Z) : callback Z :=
  fuse_count_request FUSE_COUNTER_MKNOD;;
  with_backing path id (λ backing, e ← in_host (h_mknod os backing mode rdev); mret (errno e)).

(** The bytes read, with their number or the error. *)
Definition agent_fuse_read (fh size off : Z) : callback (Z * list Z) :=
  fuse_count_request FUSE_COUNTER_READ;;
  r ← of_host (h_pread os (to_int fh) size off);
  mret (match r with
        | inl bytes => (to_int (Z.of_nat (length bytes)), bytes)
        | inr e => (- e, [])
        end).

Definition agent_fuse_write (buf : list Z) (fh off : Z) : callback Z :=
  fuse_count_request FUSE_COUNTER_WRITE;;
  r ← in_host (h_pwrite os (to_int fh) buf off);
  mret (match r with inl n => to_int n | inr e => - e end).

Definition agent_fuse_truncate (path : list Z) (size : Z) : callback Z :=
  fuse_count_request FUSE_COUNTER_TRUNCATE;;
  with_backing path id (λ backing, e ← in_host (h_truncate os backing size); mret (errno e)).

Definition agent_fuse_readlink (path : list Z) (size : Z) : callback (Z * list Z) :=
  fuse_count_request FUSE_COUNTER_READLINK;;
  with_backing path (λ ret, (ret, [])) (λ backing,
    r ← of_host (h_readlink os backing (size - 1));
    mret (match r with inl text => (0, text ++ [0]) | inr e => (- e, []) end)).

Definition agent_fuse_unlink (path : list Z) : callback Z :=
  fuse_count_request FUSE_COUNTER_UNLINK;;
  with_backing path id (λ backing, e ← in_host (h_unlink os backing); mret (errno e)).

Definition agent_fuse_rename (from to : list Z) (flags : Z) : callback Z :=
  fuse_count_request FUSE_COUNTER_RENAME;;
  if negb (flags =? 0) then mret (- EINVAL) else
  with_backing from id (λ backing_from,
    with_backing to id (λ backing_to,
      e ← in_host (h_rename os backing_from backing_to); mret (errno e))).

Definition agent_fuse_release (fh : Z) : callback Z :=
  fuse_count_request FUSE_COUNTER_RELEASE;;
  e ← in_host (h_close os (to_int fh));
  fuse_count FUSE_COUNTER_RELEASE_COMPLETED;;
  mret (errno e).

(** ** The control pipe *)

(** [read_full] and [write_full]; the fuel bounds the calls. *)
Fixpoint read_full (fuel size : nat) (h : H) : option (Z * list Z * H) :=
  match fuel with
  | O => None
  | S fuel' =>
      if (size =? 0)%nat then Some (0, [], h) else
      match h_read os size h with
      | (inl [], h) => Some (- EPIPE, [], h)
      | (inl bytes, h) =>
          '(ret, rest, h) ← read_full fuel' (size - length bytes) h;
          Some (ret, bytes ++ rest, h)
      | (inr e, h) => if e =? EINTR then read_full fuel' size h else Some (- e, [], h)
      end
  end.

Fixpoint write_full (fuel : nat) (buf : list Z) (h : H) : option (Z * H) :=
  match fuel with
  | O => None
  | S fuel' =>
      if bool_decide (buf = []) then Some (0, h) else
      match h_write os buf h with
      | (inl n, h) => write_full fuel' (drop (Z.to_nat n) buf) h
      | (inr e, h) => if e =? EINTR then write_full fuel' buf h else Some (- e, h)
      end
  end.
End callbacks.

(** An int in memory. *)
Definition int_bytes (z : Z) : list Z :=
  let u := u32 z in [u mod 256; u / 256 mod 256; u / 65536 mod 256; u / 16777216].
Definition bytes_int (bytes : list Z) : Z :=
  to_int (foldr (λ b z, b + 256 * z) 0 (take 4 bytes)).

Definition FUSE_CONTROL_SET_EPOCH : Z := 1.
Definition FUSE_CONTROL_STOP : Z := 2.

Record fuse_control_request := mk_request { rq_command : Z; rq_epoch : Z }.
Record fuse_control_response := mk_response { rs_status : Z; rs_invalidations : Z }.

Definition sizeof_message : nat := 8.
Definition request_bytes (r : fuse_control_request) : list Z :=
  int_bytes (rq_command r) ++ int_bytes (rq_epoch r).
Definition response_bytes (r : fuse_control_response) : list Z :=
  int_bytes (rs_status r) ++ int_bytes (rs_invalidations r).
Definition bytes_request (bytes : list Z) : fuse_control_request :=
  mk_request (bytes_int bytes) (bytes_int (drop 4 bytes)).
Definition bytes_response (bytes : list Z) : fuse_control_response :=
  mk_response (bytes_int bytes) (u32 (bytes_int (drop 4 bytes))).

Definition epoch_paths : list (list Z) :=
  [bytes_of_string "/ws"; bytes_of_string "/ws/main.txt"; bytes_of_string "/ws/src/app.txt";
   bytes_of_string "/ws/.git/HEAD"; bytes_of_string "/ws/link.txt"; bytes_of_string "/ws/denied.txt"].

Section control.
Context {H : Type} (os : host H).
Abbreviation callback := (callback H).

Fixpoint invalidate_paths (paths : list (list Z)) (response : fuse_control_response)
  : callback fuse_control_response :=
  match paths with
  | [] => mret response
  | path :: paths =>
      ret ← in_host (h_invalidate os path);
      fuse_count_state FUSE_COUNTER_INVALIDATE_ATTEMPT;;
      let response := mk_response (rs_status response) (u32 (rs_invalidations response + 1)) in
      if negb (ret =? 0) then
        fuse_count_state FUSE_COUNTER_INVALIDATE_ERROR;;
        invalidate_paths paths
          (mk_response (if rs_status response =? 0 then ret else rs_status response)
             (rs_invalidations response))
      else invalidate_paths paths response
  end.

Definition set_epoch (epoch : Z) : callback () := λ s, (tt, (with_epoch epoch s.1, s.2)).

Definition answer_request (r : fuse_control_request) : callback fuse_control_response :=
  if negb (rq_command r =? FUSE_CONTROL_SET_EPOCH) ||
     (negb (rq_epoch r =? 0) && negb (rq_epoch r =? 1))
  then mret (mk_response (- EINVAL) 0)
  else set_epoch (rq_epoch r);; invalidate_paths epoch_paths (mk_response 0 0).

(** [io] bounds the calls for a message, [fuel] the messages. *)
Fixpoint fuse_control_loop (io fuel : nat) (s : fuse_workspace_state * H)
  : option (Z * (fuse_workspace_state * H)) :=
  match fuel with
  | O => None
  | S fuel' =>
      '(ret, bytes, h) ← read_full os io sizeof_message s.2;
      if negb (ret =? 0) then Some (ret, (s.1, h)) else
      let request := bytes_request bytes in
      if rq_command request =? FUSE_CONTROL_STOP then
        '(ret, h) ← write_full os io (response_bytes (mk_response 0 0)) h;
        Some (ret, (s.1, h))
      else
        let '(response, s) := answer_request request (s.1, h) in
        '(ret, h) ← write_full os io (response_bytes response) s.2;
        if negb (ret =? 0) then Some (ret, (s.1, h)) else fuse_control_loop io fuel' (s.1, h)
  end.

(** The other end: the status of the response, and its count if wanted. *)
Definition request_fuse_control (io : nat) (command epoch : Z) (h : H)
  : option (Z * option Z * H) :=
  '(ret, h) ← write_full os io (request_bytes (mk_request command epoch)) h;
  if negb (ret =? 0) then Some (ret, None, h) else
  '(ret, bytes, h) ← read_full os io sizeof_message h;
  if negb (ret =? 0) then Some (ret, None, h) else
  let response := bytes_response bytes in
  Some (rs_status response, Some (rs_invalidations response), h).
End control.

(** ** The same answers as the policy's

    A lookup of components, one after the other, through the daemon and in the
    view of the policy. *)

Section lookups.
Context {H : Type} (os : host H).

Fixpoint lookup_over_fuse (dir : list Z) (cs : list (list Z)) (st : stat_buf)
  : callback H (Z * stat_buf) :=
  match cs with
  | [] => mret (0, st)
  | n :: cs =>
      let path := dir ++ [chr "/"] ++ n in
      '(ret, st) ← agent_fuse_getattr os path;
      if negb (ret =? 0) then mret (ret, st) else lookup_over_fuse path cs st
  end.

(** The policy governs some directories; the registered targets are those of
    [ts], a component [n] is presented to it as [ctx_of n]. *)
Context (hash_min : Z → nat) (ts : targets_state) (text : path → list Z).
Context (ctx_of : list Z → bpf_namei_ext_ctx) (governed : list Z → bool).

(** The directory entry the policy makes of a name, and its maps. *)
Definition policy_entry (dir n : list Z) (w : bpf_array) : (Z + list Z) * bpf_array :=
  let entry n : Z + list Z := inr (dir ++ [chr "/"] ++ n) in
  if negb (governed dir) then (entry n, w) else
  let '(action, w, c) := AgentWorkspaceView.agent_workspace_view_policy w (ctx_of n) in
  (match decision_of hash_min ts action c with
   | DPass => entry n
   | DName n => entry n
   | DFail e => inl e
   | DTarget (inl e) => inl e
   | DTarget (inr p) => inr (text p)
   end, w).

Definition stat_entry (h : H) (entry : list Z) : Z * stat_buf :=
  match h_lstat os entry h with inl st => (0, st) | inr e => (- e, zero_stat) end.

Fixpoint lookup_in_view (h : H) (dir : list Z) (cs : list (list Z)) (st : stat_buf)
  (w : bpf_array) : Z * stat_buf :=
  match cs with
  | [] => (0, st)
  | n :: cs =>
      match policy_entry dir n w with
      | (inl e, _) => (e, zero_stat)
      | (inr entry, w) =>
          let '(ret, st) := stat_entry h entry in
          if negb (ret =? 0) then (ret, st) else lookup_in_view h entry cs st w
      end
  end.

(** *** A component below "/ws" *)

Definition joined (cs : list (list Z)) : list Z := concat (map (λ n, chr "/" :: n) cs).
Definition component (n : list Z) : Prop := n ≠ [] ∧ chr "/" ∉ n.

Lemma joined_app cs cs' : joined (cs ++ cs') = joined cs ++ joined cs'.
Proof. unfold joined. by rewrite map_app, concat_app. Qed.
Lemma joined_snoc cs n : joined (cs ++ [n]) = joined cs ++ chr "/" :: n.
Proof. rewrite joined_app. unfold joined. cbn. by rewrite app_nil_r. Qed.

Lemma joined_single cs n :
  Forall component cs → joined cs = chr "/" :: n → chr "/" ∉ n → cs = [n].
Proof.
  intros Hcs Hj Hn. destruct Hcs as [|c cs _ Hcs]; [done|]. injection Hj as Hj.
  destruct Hcs as [|c' cs _ _]; [|]; cbn in Hj.
  - by rewrite app_nil_r in Hj; subst c.
  - destruct Hn. rewrite <- Hj. set_solver.
Qed.

Lemma print_path_short size t : Z.of_nat (length t) < size → print_path size t = inr t.
Proof.
  intros Hl. unfold print_path, snprintf. rewrite (proj2 (Z.leb_gt _ _)) by done.
  rewrite take_ge by lia. done.
Qed.

Lemma backing_below s h cs size :
  Forall component cs → cs ≠ [deleted_txt] →
  Z.of_nat (length (active_target s ++ joined cs)) < size →
  backing_path (H:=H) (at_ws ++ joined cs) size (s, h) = (inr (active_target s ++ joined cs), (s, h)).
Proof.
  intros Hcs Hd Hl. unfold backing_path, is_hidden_path.
  rewrite bool_decide_false.
  2: { intros Hp. apply Hd, joined_single; [done| |by refine (bool_decide_unpack _ _)]. by apply (app_inv_head at_ws). }
  unfold mbind, callback_bind, fuse_state, mret, callback_ret. cbn [fst snd]. f_equal.
  destruct Hcs as [|n cs [Hn _] _].
  { change (joined []) with (@nil Z) in *. rewrite bool_decide_true by done.
    rewrite app_nil_r in *. by apply print_path_short. }
  rewrite bool_decide_false by done. change (joined (n :: cs)) with (chr "/" :: n ++ joined cs) in *.
  rewrite bool_decide_true by done. cbn [negb]. change (drop 4 _) with (n ++ joined cs).
  rewrite bool_decide_false by (destruct n; done). by apply print_path_short.
Qed.

Lemma callback_step {A B} (m : callback H A) (f : A → callback H B) s a s' :
  m s = (a, s') → (m ≫= f) s = f a s'.
Proof. unfold mbind, callback_bind. by intros ->. Qed.

Lemma getattr_below s h cs :
  Forall component cs → cs ≠ [deleted_txt] →
  Z.of_nat (length (active_target s ++ joined cs)) < PATH_MAX →
  ∃ s', active_target s' = active_target s ∧
    agent_fuse_getattr os (at_ws ++ joined cs) (s, h) =
      (stat_entry h (active_target s ++ joined cs), (s', h)).
Proof.
  intros Hcs Hd Hl. set (s' := (fuse_count_request (H:=H) FUSE_COUNTER_GETATTR (s, h)).2.1).
  exists s'. split; [done|]. unfold agent_fuse_getattr.
  rewrite (callback_step _ _ _ tt (s', h)) by done. rewrite bool_decide_false by done.
  unfold with_backing. rewrite (callback_step _ _ _ _ _ (backing_below s' h cs _ Hcs Hd Hl)).
  unfold stat_entry. change (active_target s') with (active_target s). done.
Qed.

Lemma getattr_deleted s h :
  (agent_fuse_getattr os (at_ws ++ joined [deleted_txt]) (s, h)).1 = (- ENOENT, zero_stat).
Proof. done. Qed.

(** Listings leave "deleted.txt" out of every directory, lookups only of "/ws":
    below it a file of that name is found though it is not listed. *)
Definition listed (n : list Z) : Prop := is_dots n = false ∧ n ≠ deleted_txt.
#[export] Instance listed_dec n : Decision (listed n).
Proof. apply _. Defined.

Lemma fill_entries_lists names s : (fill_entries (H:=H) names s).1 = filter listed names.
Proof.
  revert s. induction names as [|n names IH]; intros s; [done|]. cbn [fill_entries].
  destruct (is_dots n) eqn:Hn.
  { rewrite IH, filter_cons_False; [done|]. intros [? _]. congruence. }
  case_bool_decide as Hd.
  - rewrite (callback_step _ _ _ tt (fuse_count (H:=H) FUSE_COUNTER_HIDDEN_READDIR s).2) by done.
    rewrite IH, filter_cons_False; [done|]. by intros [_ ?].
  - rewrite filter_cons_True, <- (IH s) by done. unfold mbind, callback_bind.
    by destruct (fill_entries names s) as [rest s'].
Qed.

Lemma deleted_below_listed_not s h cs names :
  Forall component cs → cs ≠ [] → cs ≠ [deleted_txt] →
  Z.of_nat (length (active_target s ++ joined (cs ++ [deleted_txt]))) < PATH_MAX →
  h_opendir os (active_target s ++ joined cs) h = inl names →
  (agent_fuse_readdir os (at_ws ++ joined cs) (s, h)).1 =
    (0, [bytes_of_string "."; bytes_of_string ".."] ++ filter listed names) ∧
  (agent_fuse_getattr os (at_ws ++ joined (cs ++ [deleted_txt])) (s, h)).1 =
    stat_entry h (active_target s ++ joined (cs ++ [deleted_txt])).
Proof.
  intros Hcs Hne Hd Hl Ho.
  assert (component deleted_txt) as Hdel by (split; [done|by refine (bool_decide_unpack _ _)]).
  split.
  - set (s' := (fuse_count_request (H:=H) FUSE_COUNTER_READDIR (s, h)).2.1).
    unfold agent_fuse_readdir. cbv zeta.
    rewrite (callback_step _ _ _ tt (s', h)) by done. rewrite bool_decide_false by done.
    unfold with_backing.
    assert (Z.of_nat (length (active_target s ++ joined cs)) < PATH_MAX) as Hl'
      by (rewrite joined_app, !length_app in Hl; rewrite length_app; lia).
    rewrite (callback_step _ _ _ _ _ (backing_below s' h cs _ Hcs Hd Hl')).
    rewrite (callback_step _ _ _ (inl names) (s', h)) by by unfold of_host, in_host; change (active_target s') with (active_target s); cbn; rewrite Ho.
    pose proof (fill_entries_lists names (s', h)) as Hf. unfold mbind, callback_bind.
    destruct (fill_entries names (s', h)) as [rest s'']. cbn in Hf |- *. by subst rest.
  - destruct (getattr_below s h (cs ++ [deleted_txt])) as (s' & _ & ->); [| |done|done].
    + apply Forall_app. by split; [|constructor].
    + destruct cs; [done|]. by destruct cs.
Qed.

(** *** The policy *)

Context (cg : Z) (target : namei_ext_target).
Context (Hctx : ∀ n, Z.of_nat (length n) < PATH_MAX →
  looks_up (ctx_of n) n ∧ ctx_cgroup_id (ctx_of n) = cg).
Context (Htarget : namei_ext_find_target_rcu hash_min cg 1 ts = Some target).

Lemma policy_entry_governed dir n w :
  governed dir = true → Z.of_nat (length n) < PATH_MAX →
  (policy_entry dir n w).1 =
    if bool_decide (n = bytes_of_string "ws") then inr (text (tgt_path target)) else
    if bool_decide (n = deleted_txt) then inl (- ENOENT) else inr (dir ++ [chr "/"] ++ n).
Proof.
  intros Hg Hn. destruct (Hctx n Hn) as [Hl Hcg]. unfold policy_entry. rewrite Hg. cbn [negb].
  pose proof (agent_workspace_is_view hash_min ts w _ _ Hl) as Hv. rewrite Hcg in Hv.
  destruct (AgentWorkspaceView.agent_workspace_view_policy w _) as [[action w'] c].
  destruct Hv as [-> _]. cbn [fst]. unfold agent_workspace_name_view, select_registered.
  rewrite Htarget. cbn [fmap option_fmap option_map from_option].
  destruct (bool_decide _); [done|]. by destruct (bool_decide _).
Qed.

Lemma lookups_agree cs s h pre st w :
  Forall component (pre ++ cs) → text (tgt_path target) = active_target s →
  (∀ t, governed (active_target s ++ t) = bool_decide (t = [])) →
  (pre = [] → head cs ≠ Some (bytes_of_string "ws")) → pre ≠ [deleted_txt] →
  Z.of_nat (length (active_target s ++ joined (pre ++ cs))) < PATH_MAX →
  (lookup_over_fuse (at_ws ++ joined pre) cs st (s, h)).1 =
    lookup_in_view h (active_target s ++ joined pre) cs st w.
Proof.
  revert s pre st w. induction cs as [|n cs IH]; intros s pre st w Hcs Ht Hg Hws Hd Hl; [done|].
  rewrite cons_middle, app_assoc in Hcs, Hl. cbn [lookup_over_fuse lookup_in_view]. cbv zeta.
  assert ((at_ws ++ joined pre) ++ [chr "/"] ++ n = at_ws ++ joined (pre ++ [n])) as ->
    by by rewrite joined_snoc, <- app_assoc.
  assert ((policy_entry (active_target s ++ joined pre) n w).1 =
    if bool_decide (pre ++ [n] = [deleted_txt]) then inl (- ENOENT)
    else inr (active_target s ++ joined (pre ++ [n]))) as Hp.
  { rewrite joined_snoc. destruct pre as [|c pre].
    - change (joined []) with (@nil Z). rewrite policy_entry_governed.
      2: by rewrite Hg, bool_decide_true.
      2: { rewrite (joined_app _ cs), !length_app in Hl. cbn in Hl. rewrite length_app in Hl. cbn in Hl. lia. }
      rewrite bool_decide_false by (intros ->; by apply Hws). rewrite app_nil_r.
      destruct (decide (n = deleted_txt)) as [->|Hn]; [by rewrite !bool_decide_true|].
      rewrite !bool_decide_false; [done| |done]. by intros [= ?].
    - unfold policy_entry. rewrite Hg, !bool_decide_false by (done || by destruct pre).
      cbn [negb fst]. by rewrite <- app_assoc. }
  destruct (policy_entry _ n w) as [entry w']. cbn [fst] in Hp. subst entry.
  case_bool_decide as Hdel.
  { rewrite Hdel. unfold mbind, callback_bind.
    pose proof (getattr_deleted s h) as Hget.
    destruct (agent_fuse_getattr os _ (s, h)) as [r s']. cbn [fst] in Hget. by subst r. }
  destruct (getattr_below s h (pre ++ [n])) as (s' & Hs & Hget).
  { by apply Forall_app in Hcs as [? _]. }
  { done. }
  { rewrite (joined_app _ cs), !length_app in Hl. rewrite length_app. lia. }
  rewrite (callback_step _ _ _ _ _ Hget). destruct (stat_entry _ _) as [ret st'].
  destruct (negb _); [done|]. rewrite <- Hs in *. apply IH; try done.
  by destruct pre.
Qed.

(** C28: The daemon and the policy give the same answers.  Any sequence of components
    below "ws" that are not symlinks, looked up one after the other, ends with
    the same error or the same attributes through the daemon and in the view of
    agent_workspace_view, run on the context of each component, when the policy
    governs the root and the active directory and the directory is its
    registered target; except that the policy selects a second "ws" too. *)
Theorem fuse_answers_as_policy cs s h root st w :
  Forall component cs → head cs ≠ Some (bytes_of_string "ws") →
  text (tgt_path target) = active_target s → governed root = true →
  (∀ t, governed (active_target s ++ t) = bool_decide (t = [])) →
  Z.of_nat (length (active_target s ++ joined cs)) < PATH_MAX →
  (lookup_over_fuse [] (bytes_of_string "ws" :: cs) st (s, h)).1 =
    lookup_in_view h root (bytes_of_string "ws" :: cs) st w.
Proof.
  intros Hcs Hws Ht Hr Hg Hl. cbn [lookup_over_fuse lookup_in_view]. cbv zeta.
  pose proof (policy_entry_governed root (bytes_of_string "ws") w Hr ltac:(by vm_compute)) as Hp.
  rewrite bool_decide_true in Hp by done.
  destruct (policy_entry root _ w) as [entry w']. cbn [fst] in Hp. subst entry.
  destruct (getattr_below s h []) as (s' & Hs & Hget); [done|done| |].
  { rewrite length_app in *. cbn. lia. }
  change ([] ++ [chr "/"] ++ bytes_of_string "ws") with (at_ws ++ joined []).
  rewrite (callback_step _ _ _ _ _ Hget). rewrite Ht.
  change (joined []) with (@nil Z). rewrite app_nil_r.
  destruct (stat_entry h (active_target s)) as [ret st'].
  destruct (negb _); [done|]. rewrite <- Hs in *.
  rewrite <- (app_nil_r (active_target s')). by apply (lookups_agree cs s' h []).
Qed.
End lookups.

(** ** The control pipe

    What is known of the pipes: [pending] is what a reader will get before the
    end of file, [sent] what a writer has put in; calls take or give at least a
    byte, or are interrupted, [patience] times at most. *)
Record pipes_ok {H} (os : host H) (pending sent : H → list Z) (patience : H → nat) : Prop := {
  pk_read : ∀ size h, (0 < size)%nat →
    match h_read os size h with
    | (inl bytes, h') => (length bytes ≤ size)%nat ∧ pending h = bytes ++ pending h' ∧
        (bytes = [] → pending h = []) ∧ sent h' = sent h ∧ (patience h' ≤ patience h)%nat
    | (inr e, h') => e = EINTR ∧ pending h' = pending h ∧ sent h' = sent h ∧
        (patience h' < patience h)%nat
    end;
  pk_write : ∀ buf h, buf ≠ [] →
    match h_write os buf h with
    | (inl n, h') => 0 < n ≤ Z.of_nat (length buf) ∧ sent h' = sent h ++ take (Z.to_nat n) buf ∧
        pending h' = pending h ∧ (patience h' ≤ patience h)%nat
    | (inr e, h') => e = EINTR ∧ pending h' = pending h ∧ sent h' = sent h ∧
        (patience h' < patience h)%nat
    end;
  pk_invalidate : ∀ path h, let h' := (h_invalidate os path h).2 in
    pending h' = pending h ∧ sent h' = sent h ∧ (patience h' ≤ patience h)%nat
}.

Section pipes.
Context {H : Type} (os : host H) (pending sent : H → list Z) (patience : H → nat).
Context (Hpipes : pipes_ok os pending sent patience).

(** Between [h] and [h'] the daemon has taken [got] and given [put]. *)
Definition moved (got put : list Z) (h h' : H) : Prop :=
  pending h = got ++ pending h' ∧ sent h' = sent h ++ put ∧ (patience h' ≤ patience h)%nat.

Lemma read_full_moves fuel size h :
  (size + patience h < fuel)%nat →
  ∃ ret bytes h', read_full os fuel size h = Some (ret, bytes, h') ∧
    if decide (size ≤ length (pending h))%nat
    then ret = 0 ∧ bytes = take size (pending h) ∧ moved bytes [] h h'
    else ret = - EPIPE ∧ moved (pending h) [] h h'.
Proof.
  revert size h. induction fuel as [|fuel IH]; intros size h Hf; [lia|]. cbn [read_full].
  destruct (Nat.eqb_spec size 0) as [->|Hs].
  { eexists _, _, _. split; [done|]. rewrite decide_True by lia.
    split_and!; [done..|]. unfold moved. by rewrite app_nil_r. }
  pose proof (pk_read _ _ _ _ Hpipes size h ltac:(lia)) as Hr.
  destruct (h_read os size h) as [[bytes|e] h'].
  - destruct Hr as (Hle & Hp & Hz & Hsent & Hpat). destruct bytes as [|b bytes].
    { eexists _, _, _. split; [done|]. rewrite Hz by done. cbn in Hp. unfold moved.
      rewrite decide_False by (cbn; lia). by rewrite app_nil_r. }
    destruct (IH (size - length (b :: bytes))%nat h') as (ret & rest & h'' & -> & Hrest); [cbn; lia|].
    cbn [mbind option_bind]. eexists _, _, _. split; [done|]. unfold moved in *.
    rewrite Hp, length_app. case_decide; case_decide; try lia.
    + destruct Hrest as (-> & -> & Hq & -> & ?). rewrite take_app_ge by lia.
      split_and!; [done..| |by rewrite Hsent|lia]. by rewrite <- app_assoc, <- Hq.
    + destruct Hrest as (-> & Hq & -> & ?). split_and!; [done| |by rewrite Hsent|lia].
      rewrite <- app_assoc. by rewrite <- Hq.
  - destruct Hr as (-> & Hp & Hsent & Hpat). cbn [Z.eqb]. rewrite Z.eqb_refl.
    destruct (IH size h') as (ret & rest & h'' & -> & Hrest); [lia|].
    eexists _, _, _. split; [done|]. unfold moved in *. rewrite Hp, Hsent in Hrest.
    case_decide; [destruct Hrest as (? & ? & ? & ? & ?)|destruct Hrest as (? & ? & ? & ?)];
      split_and!; try done; lia.
Qed.

Lemma write_full_moves fuel buf h :
  (length buf + patience h < fuel)%nat →
  ∃ h', write_full os fuel buf h = Some (0, h') ∧ moved [] buf h h'.
Proof.
  revert buf h. induction fuel as [|fuel IH]; intros buf h Hf; [lia|]. cbn [write_full].
  case_bool_decide as Hb.
  { subst buf. exists h. split; [done|]. unfold moved. by rewrite app_nil_r. }
  pose proof (pk_write _ _ _ _ Hpipes buf h Hb) as Hw.
  destruct (h_write os buf h) as [[n|e] h'].
  - destruct Hw as (Hn & Hs & Hp & Hpat).
    destruct (IH (drop (Z.to_nat n) buf) h') as (h'' & -> & Hq & Hs' & ?); [rewrite length_drop; lia|].
    exists h''. split; [done|]. unfold moved. rewrite Hs', Hs, <- app_assoc, take_drop.
    cbn in Hq |- *. split_and!; [congruence|done|lia].
  - destruct Hw as (-> & Hp & Hs & Hpat). rewrite Z.eqb_refl.
    destruct (IH buf h') as (h'' & -> & Hq & Hs' & ?); [lia|].
    exists h''. split; [done|]. unfold moved. cbn in Hq |- *. split_and!; [congruence..|lia].
Qed.
(** *** Messages *)

Definition in_int (z : Z) : Prop := - 2 ^ 31 ≤ z < 2 ^ 31.

Lemma bytes_int_bytes z rest : in_int z → bytes_int (int_bytes z ++ rest) = z.
Proof.
  intros Hz. unfold bytes_int. change (take 4 _) with (int_bytes z). unfold int_bytes, to_int.
  cbn [foldr]. unfold in_int in Hz.
  assert (0 ≤ u32 z < 2 ^ 32) as Hu by (apply wrap_in_width; lia).
  assert (u32 z mod 256 + 256 * (u32 z / 256 mod 256 + 256 * (u32 z / 65536 mod 256 +
    256 * (u32 z / 16777216 + 256 * 0))) = u32 z) as ->.
  { change 65536 with (256 * 256). change 16777216 with (256 * 256 * 256).
    rewrite <- !Z.div_div by lia. set (u := u32 z) in *.
    pose proof (Z.div_mod u 256). pose proof (Z.div_mod (u / 256) 256).
    pose proof (Z.div_mod (u / 256 / 256) 256). lia. }
  assert (u32 (u32 z) = u32 z) as -> by (by apply wrap_small).
  unfold u32, wrap in *. destruct (decide (0 ≤ z)).
  - rewrite Z.mod_small by lia. by rewrite (proj2 (Z.ltb_lt _ _)) by lia.
  - assert (z mod 2 ^ 32 = z + 2 ^ 32) as ->.
    { symmetry. apply (Z.mod_unique _ _ (- 1)); lia. }
    rewrite (proj2 (Z.ltb_ge _ _)) by lia. lia.
Qed.

Lemma bytes_request_bytes r rest :
  in_int (rq_command r) → in_int (rq_epoch r) → bytes_request (request_bytes r ++ rest) = r.
Proof.
  intros Hc He. destruct r as [c e]. unfold bytes_request, request_bytes. cbn [rq_command rq_epoch] in *.
  rewrite <- app_assoc. rewrite bytes_int_bytes by done.
  change (drop 4 (int_bytes c ++ int_bytes e ++ rest)) with (int_bytes e ++ rest).
  by rewrite bytes_int_bytes.
Qed.

(** *** The daemon *)

Definition same_place (s s' : fuse_workspace_state) : Prop :=
  ws_base s' = ws_base s ∧ ws_upper s' = ws_upper s ∧ ws_active_epoch s' = ws_active_epoch s.

Lemma invalidate_moves paths response s h :
  0 ≤ rs_invalidations response → rs_invalidations response + Z.of_nat (length paths) < 2 ^ 32 →
  let '(response', (s', h')) := invalidate_paths os paths response (s, h) in
  rs_invalidations response' = rs_invalidations response + Z.of_nat (length paths) ∧
  same_place s s' ∧ moved [] [] h h'.
Proof.
  revert response s h. induction paths as [|path paths IH]; intros response s h H0 Hl.
  { cbn. unfold moved, same_place. rewrite app_nil_r. split_and!; done || lia. }
  cbn [invalidate_paths length] in *. cbv zeta.
  pose proof (pk_invalidate _ _ _ _ Hpipes path h) as Hinv. cbv zeta in Hinv.
  destruct (h_invalidate os path h) as [ret h1] eqn:Hret. cbn [snd] in Hinv.
  rewrite (callback_step _ _ _ ret (s, h1)) by by unfold in_host; cbn; rewrite Hret.
  set (s1 := (fuse_count_state (H:=H) FUSE_COUNTER_INVALIDATE_ATTEMPT (s, h1)).2.1).
  rewrite (callback_step _ _ _ tt (s1, h1)) by done.
  assert (u32 (rs_invalidations response + 1) = rs_invalidations response + 1) as Hu
    by (apply wrap_small; unfold in_width; lia).
  destruct (negb (ret =? 0)).
  - set (s2 := (fuse_count_state (H:=H) FUSE_COUNTER_INVALIDATE_ERROR (s1, h1)).2.1).
    rewrite (callback_step _ _ _ tt (s2, h1)) by done.
    match goal with |- context [invalidate_paths os paths ?r (s2, h1)] =>
      specialize (IH r s2 h1) end.
    destruct (invalidate_paths _ _ _ _) as [r' [s' h']]. cbn [rs_invalidations] in IH.
    rewrite Hu in IH. destruct IH as (-> & Hs & Hm); [lia..|]. split_and!; [lia|exact Hs|].
    unfold moved in *. rewrite !app_nil_r in *. cbn [app] in *. destruct Hinv as (? & ? & ?), Hm as (? & ? & ?).
    split_and!; [congruence..|lia].
  - match goal with |- context [invalidate_paths os paths ?r (s1, h1)] =>
      specialize (IH r s1 h1) end.
    destruct (invalidate_paths _ _ _ _) as [r' [s' h']]. cbn [rs_invalidations] in IH.
    rewrite Hu in IH. destruct IH as (-> & Hs & Hm); [lia..|]. split_and!; [lia|exact Hs|].
    unfold moved in *. rewrite !app_nil_r in *. cbn [app] in *. destruct Hinv as (? & ? & ?), Hm as (? & ? & ?).
    split_and!; [congruence..|lia].
Qed.

(** The requests the daemon accepts, what it answers, and the epoch it has then. *)
Definition accepted (r : fuse_control_request) : bool :=
  (rq_command r =? FUSE_CONTROL_SET_EPOCH) && ((rq_epoch r =? 0) || (rq_epoch r =? 1)).
Definition answered (r : fuse_control_request) (response : fuse_control_response) : Prop :=
  if accepted r then rs_invalidations response = 6 else response = mk_response (- EINVAL) 0.
Definition epoch_after (epoch : Z) (r : fuse_control_request) : Z :=
  if accepted r then rq_epoch r else epoch.

Lemma answer_moves r s h :
  let '(response, (s', h')) := answer_request os r (s, h) in
  answered r response ∧ ws_base s' = ws_base s ∧ ws_upper s' = ws_upper s ∧
  ws_active_epoch s' = epoch_after (ws_active_epoch s) r ∧ moved [] [] h h'.
Proof.
  unfold answer_request, answered, epoch_after, accepted.
  destruct (rq_command r =? _), (rq_epoch r =? 0), (rq_epoch r =? 1);
    cbn [negb andb orb mret callback_ret];
    try (split_and!; try done; unfold moved; rewrite app_nil_r; split_and!; done || lia);
    rewrite (callback_step _ _ _ tt (with_epoch (rq_epoch r) s, h)) by done;
    pose proof (invalidate_moves epoch_paths (mk_response 0 0) (with_epoch (rq_epoch r) s) h
      ltac:(cbn; lia) ltac:(cbn; lia)) as Hm;
    destruct (invalidate_paths _ _ _ _) as [response [s' h']];
    destruct Hm as (Hr & (? & ? & ?) & Hm); by split_and!.
Qed.
Definition sound_request (r : fuse_control_request) : Prop :=
  in_int (rq_command r) ∧ in_int (rq_epoch r).

(** A message arrives as it was sent. *)
Lemma message_arrives io r rest h :
  sound_request r → (sizeof_message + patience h < io)%nat → pending h = request_bytes r ++ rest →
  ∃ h', read_full os io sizeof_message h = Some (0, request_bytes r, h') ∧
    bytes_request (request_bytes r) = r ∧ pending h' = rest ∧ sent h' = sent h ∧
    (patience h' ≤ patience h)%nat.
Proof.
  intros [Hc He] Hio Hp. destruct (read_full_moves io sizeof_message h Hio) as (ret & bytes & h' & Hr & Hm).
  rewrite Hp in Hm. rewrite decide_True in Hm by (rewrite length_app; cbn; unfold sizeof_message; lia).
  destruct Hm as (-> & -> & Hq & Hs & Hpat).
  change (take sizeof_message (request_bytes r ++ rest)) with (request_bytes r) in *.
  rewrite Hp in Hq. apply app_inv_head in Hq. exists h'. split; [done|]. split.
  - rewrite <- (app_nil_r (request_bytes r)). by apply bytes_request_bytes.
  - by rewrite app_nil_r in Hs.
Qed.

(** C29: The control pipe is served.  In whatever pieces the requests arrive, and
    however often a read or a write is interrupted, each gets one response, in
    order: EINVAL unless it sets an epoch that there is, else the number of the
    paths invalidated.  The epoch is then that of the last accepted request, the
    directories are what they were, and the thread ends with 0 when it is asked
    to stop and with EPIPE at the end of the file. *)
Theorem control_serves_requests io fuel reqs stop s h :
  Forall (λ r, sound_request r ∧ rq_command r ≠ FUSE_CONTROL_STOP) reqs →
  pending h = concat (map request_bytes reqs) ++
    match stop with Some (r, rest) => request_bytes r ++ rest | None => [] end →
  match stop with Some (r, _) => sound_request r ∧ rq_command r = FUSE_CONTROL_STOP | None => True end →
  (sizeof_message + patience h < io)%nat → (length reqs < fuel)%nat →
  ∃ responses s' h',
    fuse_control_loop os io fuel (s, h) =
      Some (match stop with Some _ => 0 | None => - EPIPE end, (s', h')) ∧
    Forall2 answered reqs responses ∧
    sent h' = sent h ++ concat (map response_bytes
      (responses ++ match stop with Some _ => [mk_response 0 0] | None => [] end)) ∧
    ws_active_epoch s' = fold_left epoch_after reqs (ws_active_epoch s) ∧
    ws_base s' = ws_base s ∧ ws_upper s' = ws_upper s.
Proof.
  revert fuel s h. induction reqs as [|r reqs IH]; intros fuel s h Hreqs Hp Hstop Hio Hf;
    (destruct fuel as [|fuel]; [cbn in Hf; lia|]); cbn [fuse_control_loop snd fst].
  - exists []. destruct stop as [[r rest]|].
    + destruct Hstop as [Hr Hs]. destruct (message_arrives io r rest h) as (h1 & -> & Hm & _ & Hs1 & Hpat);
        [done..|]. cbn [mbind option_bind negb Z.eqb]. rewrite Hm, Hs.
      destruct (write_full_moves io (response_bytes (mk_response 0 0)) h1) as (h2 & -> & _ & Hs2 & _);
        [cbn; unfold sizeof_message in *; lia|].
      exists s, h2. rewrite Hs2, Hs1. done.
    + destruct (read_full_moves io sizeof_message h Hio) as (ret & bytes & h' & -> & Hm).
      rewrite Hp in Hm. destruct Hm as (-> & _ & Hs & _). exists s, h'. rewrite Hs. done.
  - apply Forall_cons in Hreqs as [[Hr Hn] Hreqs]. cbn [map concat] in Hp. rewrite <- app_assoc in Hp.
    destruct (message_arrives io r _ h Hr Hio Hp) as (h1 & -> & Hm & Hp1 & Hs1 & Hpat1).
    cbn [mbind option_bind negb Z.eqb]. rewrite Hm, (proj2 (Z.eqb_neq _ _)) by done.
    pose proof (answer_moves r s h1) as Ha.
    destruct (answer_request os r (s, h1)) as [response [s2 h2]].
    destruct Ha as (Ha & Hb & Hu & He & Hp2 & Hs2 & Hpat2). cbn [snd fst].
    destruct (write_full_moves io (response_bytes response) h2) as (h3 & -> & Hp3 & Hs3 & Hpat3);
      [cbn; unfold sizeof_message in *; lia|]. cbn [mbind option_bind negb Z.eqb].
    destruct (IH fuel s2 h3) as (responses & s' & h' & -> & Hall & Hs & He' & Hb' & Hu'); [done| |done| | |].
    { cbn in Hp2, Hp3. by rewrite <- Hp3, <- Hp2. }
    { lia. }
    { cbn in Hf. lia. }
    exists (response :: responses), s', h'. split; [done|]. split; [by constructor|].
    cbn [fold_left app map concat]. rewrite Hs, Hs3, Hs2, Hs1, app_nil_r, <- app_assoc.
    split_and!; congruence.
Qed.
End pipes.
