(* ===== verification/Litmus.v ===== *)
(** * The retirement litmus (experiments/namei_ext_target_lifetime)

    The state machine that retirement_litmus.bpf.c runs from kprobes to hold a
    reader of a borrowed target while a writer replaces or clears it.  The
    shared structure is a memory of integer cells, one per field. *)

From S2P Require Import Prelude.

Definition LITMUS_IDLE : Z := 0.
Definition LITMUS_ARMED : Z := 1.
Definition LITMUS_HELD : Z := 2.
Definition LITMUS_RELEASED : Z := 3.
Definition LITMUS_DONE : Z := 4.
Definition LITMUS_TIMEOUT : Z := 5.

Definition LITMUS_REPLACE : Z := 1.
Definition LITMUS_CLEAR : Z := 2.

Definition TIMEOUT_DEADLINE : Z := 1.
Definition TIMEOUT_LOOP_LIMIT : Z := 2.

Definition ERROR_RESOLVE_RESULT : Z := 1.
Definition ERROR_NOT_RCU : Z := 2.
Definition ERROR_REDIRECT_STATE : Z := 4.
Definition ERROR_TARGET_IDENTITY : Z := 8.
Definition ERROR_DUPLICATE_EVENT : Z := 16.
Definition ERROR_UPDATE_CLASS : Z := 32.

(** The fields of struct retirement_litmus_state. *)
Inductive lfield :=
  | cookie | state | mode | expected_cgroup_id | observed_cgroup_id | observed_mount
  | observed_dentry | deadline_ns | event_seq | hold_seq | update_entry_seq
  | clear_entry_seq | grace_entry_seq | reader_release_seq | clear_exit_seq
  | update_exit_seq | hold_ns | update_entry_ns | clear_entry_ns | grace_entry_ns
  | reader_release_ns | clear_exit_ns | update_exit_ns | hold_cookie | update_cookie
  | grace_cookie | release_cookie | exit_cookie | resolve_attempts | resolve_matches
  | update_entries | clear_entries | grace_entries | clear_exits | update_exits
  | error_flags | version | reader_tid | writer_tid | expected_target_id
  | observed_target_id | observed_reader_tid | observed_writer_tid | observed_reader_cpu
  | observed_writer_cpu | timeout_reason | resolve_redirect | resolve_rcu_walk.

(** The position of a field in the structure. *)
Definition lfield_index (f : lfield) : nat :=
  match f with
  | cookie => 0 | state => 1 | mode => 2 | expected_cgroup_id => 3
  | observed_cgroup_id => 4 | observed_mount => 5 | observed_dentry => 6
  | deadline_ns => 7 | event_seq => 8 | hold_seq => 9 | update_entry_seq => 10
  | clear_entry_seq => 11 | grace_entry_seq => 12 | reader_release_seq => 13
  | clear_exit_seq => 14 | update_exit_seq => 15 | hold_ns => 16 | update_entry_ns => 17
  | clear_entry_ns => 18 | grace_entry_ns => 19 | reader_release_ns => 20
  | clear_exit_ns => 21 | update_exit_ns => 22 | hold_cookie => 23 | update_cookie => 24
  | grace_cookie => 25 | release_cookie => 26 | exit_cookie => 27
  | resolve_attempts => 28 | resolve_matches => 29 | update_entries => 30
  | clear_entries => 31 | grace_entries => 32 | clear_exits => 33 | update_exits => 34
  | error_flags => 35 | version => 36 | reader_tid => 37 | writer_tid => 38
  | expected_target_id => 39 | observed_target_id => 40 | observed_reader_tid => 41
  | observed_writer_tid => 42 | observed_reader_cpu => 43 | observed_writer_cpu => 44
  | timeout_reason => 45 | resolve_redirect => 46 | resolve_rcu_walk => 47
  end%nat.
Definition lfield_eqb (a b : lfield) : bool := Nat.eqb (lfield_index a) (lfield_index b).

Definition retirement_litmus_state : Type := lfield → Z.

Definition put (f : lfield) (v : Z) (s : retirement_litmus_state) : retirement_litmus_state :=
  λ g, if lfield_eqb g f then v else s g.

(** [next_event()]: the new sequence number, and the state. *)
Definition next_event (s : retirement_litmus_state) : Z * retirement_litmus_state :=
  let v := u64 (s event_seq + 1) in (v, put event_seq v s).

Definition set_error (error : Z) (s : retirement_litmus_state) : retirement_litmus_state :=
  put error_flags (Z.lor (s error_flags) error) s.

(** [__sync_val_compare_and_swap(&state, from, to)]: the old value. *)
Definition cas_state (from to : Z) (s : retirement_litmus_state)
  : Z * retirement_litmus_state :=
  (s state, if s state =? from then put state to s else s).

(** What a probe reads from its surroundings: the thread, the time, the CPU. *)
Record probe_env := mk_probe { pe_tid : Z; pe_ns : Z; pe_cpu : Z }.

(** struct litmus_redirect, as far as the probe reads it *)
Record litmus_redirect := mk_litmus_redirect {
  lr_target_pending : bool; lr_target_active : bool; lr_target_borrowed : bool;
  lr_target_id : Z; lr_target_cgroup_id : Z; lr_mnt : Z; lr_dentry : Z }.

(** ** The reader's probes *)

(** [di] and [si] are the arguments of [namei_ext_resolve_target]. *)
Definition capture_borrow_args (e : probe_env) (di si : Z) (s : retirement_litmus_state)
  : retirement_litmus_state :=
  if negb (pe_tid e =? s reader_tid) || negb (s state =? LITMUS_ARMED) then s else
  let attempts := s resolve_attempts in
  let s := put resolve_attempts (u64 (attempts + 1)) s in
  if negb (attempts =? 0) then set_error ERROR_DUPLICATE_EVENT s else
  put resolve_rcu_walk (u32 si) (put resolve_redirect di s).

(** The return probe up to the wait: [result] is the return value,
    [redirect] what the pointer reads as ([None] when it cannot be read). The
    result says whether the wait is entered. *)
Definition hold_borrowed_target (e : probe_env) (result : Z)
  (redirect : option litmus_redirect) (s : retirement_litmus_state)
  : bool * retirement_litmus_state :=
  if negb (pe_tid e =? s reader_tid) || negb (s state =? LITMUS_ARMED) then (false, s) else
  if negb (s resolve_attempts =? 1) || (s resolve_redirect =? 0)
  then (false, set_error ERROR_DUPLICATE_EVENT s) else
  if negb (result =? 0) then (false, set_error ERROR_RESOLVE_RESULT s) else
  if s resolve_rcu_walk =? 0 then (false, set_error ERROR_NOT_RCU s) else
  match redirect with
  | None => (false, set_error ERROR_REDIRECT_STATE s)
  | Some r =>
      if negb (lr_target_active r) || lr_target_pending r || negb (lr_target_borrowed r) ||
         (lr_mnt r =? 0) || (lr_dentry r =? 0)
      then (false, set_error ERROR_REDIRECT_STATE s) else
      if negb (lr_target_cgroup_id r =? s expected_cgroup_id) ||
         negb (lr_target_id r =? s expected_target_id)
      then (false, set_error ERROR_TARGET_IDENTITY s) else
      let s := put observed_cgroup_id (lr_target_cgroup_id r) s in
      let s := put observed_target_id (lr_target_id r) s in
      let s := put observed_reader_tid (pe_tid e) s in
      let s := put observed_reader_cpu (pe_cpu e) s in
      let s := put observed_mount (lr_mnt r) s in
      let s := put observed_dentry (lr_dentry r) s in
      let s := put hold_cookie (s cookie) s in
      let s := put hold_ns (pe_ns e) s in
      let '(v, s) := next_event s in
      let s := put hold_seq v s in
      let '(old, s) := cas_state LITMUS_ARMED LITMUS_HELD s in
      if negb (old =? LITMUS_ARMED) then (false, set_error ERROR_DUPLICATE_EVENT s) else
      (true, put resolve_matches (u64 (s resolve_matches + 1)) s)
  end.

(** One iteration of the wait: whether it stops. *)
Definition wait_for_writer (now : Z) (s : retirement_litmus_state)
  : bool * retirement_litmus_state :=
  if s state =? LITMUS_RELEASED then (true, s) else
  if now <? s deadline_ns then (false, s) else
  let s := put timeout_reason TIMEOUT_DEADLINE s in
  (true, (cas_state LITMUS_HELD LITMUS_TIMEOUT s).2).

(** After the wait. *)
Definition finish_hold (e : probe_env) (s : retirement_litmus_state)
  : retirement_litmus_state :=
  if s state =? LITMUS_RELEASED then
    let s := put release_cookie (s cookie) s in
    let s := put reader_release_ns (pe_ns e) s in
    let '(v, s) := next_event s in
    let s := put reader_release_seq v s in
    put state LITMUS_DONE s
  else if s state =? LITMUS_HELD then
    put state LITMUS_TIMEOUT (put timeout_reason TIMEOUT_LOOP_LIMIT s)
  else s.

(** ** The writer's probes *)

Definition mark_update_entry (e : probe_env) (s : retirement_litmus_state)
  : retirement_litmus_state :=
  if negb (pe_tid e =? s writer_tid) || negb (s state =? LITMUS_HELD) then s else
  if negb (s update_entries =? 0) then set_error ERROR_DUPLICATE_EVENT s else
  let s := put update_cookie (s cookie) s in
  let s := put observed_writer_tid (pe_tid e) s in
  let s := put observed_writer_cpu (pe_cpu e) s in
  let s := put update_entry_ns (pe_ns e) s in
  let '(v, s) := next_event s in
  put update_entries 1 (put update_entry_seq v s).

Definition mark_clear_entry (e : probe_env) (s : retirement_litmus_state)
  : retirement_litmus_state :=
  if negb (pe_tid e =? s writer_tid) || negb (s state =? LITMUS_HELD) then s else
  if negb (s mode =? LITMUS_CLEAR) || (s update_entry_seq =? 0)
  then set_error ERROR_UPDATE_CLASS s else
  if negb (s clear_entries =? 0) then set_error ERROR_DUPLICATE_EVENT s else
  let s := put clear_entry_ns (pe_ns e) s in
  let '(v, s) := next_event s in
  put clear_entries 1 (put clear_entry_seq v s).

Definition release_reader_at_grace_entry (e : probe_env) (s : retirement_litmus_state)
  : retirement_litmus_state :=
  if negb (pe_tid e =? s writer_tid) || negb (s state =? LITMUS_HELD) ||
     (s update_entry_seq =? 0) then s else
  if ((s mode =? LITMUS_CLEAR) && (s clear_entry_seq =? 0)) ||
     ((s mode =? LITMUS_REPLACE) && negb (s clear_entry_seq =? 0)) ||
     (negb (s mode =? LITMUS_CLEAR) && negb (s mode =? LITMUS_REPLACE))
  then set_error ERROR_UPDATE_CLASS s else
  if negb (s grace_entries =? 0) then set_error ERROR_DUPLICATE_EVENT s else
  let s := put grace_cookie (s cookie) s in
  let s := put grace_entry_ns (pe_ns e) s in
  let '(v, s) := next_event s in
  let s := put grace_entries 1 (put grace_entry_seq v s) in
  let '(old, s) := cas_state LITMUS_HELD LITMUS_RELEASED s in
  if negb (old =? LITMUS_HELD) then set_error ERROR_DUPLICATE_EVENT s else s.

Definition mark_clear_exit (e : probe_env) (s : retirement_litmus_state)
  : retirement_litmus_state :=
  if negb (pe_tid e =? s writer_tid) || negb (s state =? LITMUS_DONE) ||
     negb (s mode =? LITMUS_CLEAR) || (s clear_entry_seq =? 0) then s else
  if negb (s clear_exits =? 0) then set_error ERROR_DUPLICATE_EVENT s else
  let s := put clear_exit_ns (pe_ns e) s in
  let '(v, s) := next_event s in
  put clear_exits 1 (put clear_exit_seq v s).

Definition mark_update_exit (e : probe_env) (s : retirement_litmus_state)
  : retirement_litmus_state :=
  if negb (pe_tid e =? s writer_tid) || negb (s state =? LITMUS_DONE) ||
     (s update_entry_seq =? 0) then s else
  if negb (s update_exits =? 0) then set_error ERROR_DUPLICATE_EVENT s else
  let s := put exit_cookie (s cookie) s in
  let s := put update_exit_ns (pe_ns e) s in
  let '(v, s) := next_event s in
  put update_exits 1 (put update_exit_seq v s).

(** ** Interleavings

    The reader's return probe is three stages, between which the writer's
    probes run; each probe stage is one step. *)

Inductive reader_pc := Outside | Waiting | Finishing.

Inductive litmus_step : retirement_litmus_state * reader_pc →
                        retirement_litmus_state * reader_pc → Prop :=
  | step_capture e di si s pc :
      litmus_step (s, pc) (capture_borrow_args e di si s, pc)
  | step_hold e result r s :
      litmus_step (s, Outside)
        ((hold_borrowed_target e result r s).2,
         if (hold_borrowed_target e result r s).1 then Waiting else Outside)
  | step_wait now s :
      litmus_step (s, Waiting)
        ((wait_for_writer now s).2,
         if (wait_for_writer now s).1 then Finishing else Waiting)
  | step_loop_limit s : litmus_step (s, Waiting) (s, Finishing)
  | step_finish e s : litmus_step (s, Finishing) (finish_hold e s, Outside)
  | step_update_entry e s pc : litmus_step (s, pc) (mark_update_entry e s, pc)
  | step_clear_entry e s pc : litmus_step (s, pc) (mark_clear_entry e s, pc)
  | step_grace e s pc : litmus_step (s, pc) (release_reader_at_grace_entry e s, pc)
  | step_clear_exit e s pc : litmus_step (s, pc) (mark_clear_exit e s, pc)
  | step_update_exit e s pc : litmus_step (s, pc) (mark_update_exit e s, pc).

(** The runner arms the machine: everything but the parameters is zero. *)
Definition armed (ck md cg rt wt tid dl : Z) : retirement_litmus_state := λ f,
  match f with
  | cookie => ck | state => LITMUS_ARMED | mode => md | expected_cgroup_id => cg
  | expected_target_id => tid | reader_tid => rt | writer_tid => wt | deadline_ns => dl
  | version => 2
  | _ => 0
  end.
