(* ===== verification/LitmusProps.v ===== *)
(** * Properties of the retirement litmus

    Whatever the interleaving, a litmus that ends in DONE is evidence: the
    sequence numbers it recorded are ordered as the experiment claims. *)

From S2P Require Import Prelude Litmus.

(** ** What each state of the machine promises about the recorded order *)

Definition none_after_grace (s : retirement_litmus_state) : Prop :=
  s reader_release_seq = 0 ∧ s clear_exit_seq = 0 ∧ s update_exit_seq = 0 ∧
  s clear_exits = 0 ∧ s update_exits = 0.

Definition phase_armed (s : retirement_litmus_state) : Prop :=
  s state = 1 ∧ s event_seq = 0 ∧ s hold_seq = 0 ∧ s update_entry_seq = 0 ∧
  s clear_entry_seq = 0 ∧ s grace_entry_seq = 0 ∧ s update_entries = 0 ∧
  s clear_entries = 0 ∧ s grace_entries = 0 ∧ none_after_grace s.

Definition phase_held (s : retirement_litmus_state) : Prop :=
  s state = 2 ∧ s hold_seq = 1 ∧ s grace_entry_seq = 0 ∧ s grace_entries = 0 ∧
  none_after_grace s ∧
  (s update_entry_seq = 0 ∧ s update_entries = 0 ∧ s clear_entry_seq = 0 ∧
   s clear_entries = 0 ∧ s event_seq = 1 ∨
   s update_entry_seq = 2 ∧ s update_entries = 1 ∧
   (s clear_entry_seq = 0 ∧ s clear_entries = 0 ∧ s event_seq = 2 ∨
    s mode = 2 ∧ s clear_entry_seq = 3 ∧ s clear_entries = 1 ∧ s event_seq = 3)).

(** The writer's part of the evidence, ending with the grace period. *)
Definition writer_evidence (s : retirement_litmus_state) : Prop :=
  s hold_seq = 1 ∧ s update_entry_seq = 2 ∧
  (s mode = 2 ∧ s clear_entry_seq = 3 ∧ s grace_entry_seq = 4 ∨
   s mode = 1 ∧ s clear_entry_seq = 0 ∧ s grace_entry_seq = 3).

Definition phase_released (s : retirement_litmus_state) : Prop :=
  s state = 3 ∧ writer_evidence s ∧ s event_seq = s grace_entry_seq ∧ none_after_grace s.

Definition exit_recorded (seq exits : Z) (s : retirement_litmus_state) : Prop :=
  seq = 0 ∧ exits = 0 ∨ s reader_release_seq < seq ∧ exits = 1.

Definition phase_done (s : retirement_litmus_state) : Prop :=
  s state = 4 ∧ writer_evidence s ∧
  s reader_release_seq = s grace_entry_seq + 1 ∧
  exit_recorded (s clear_exit_seq) (s clear_exits) s ∧
  exit_recorded (s update_exit_seq) (s update_exits) s ∧
  s event_seq = s reader_release_seq + s clear_exits + s update_exits.

Inductive litmus_inv (s : retirement_litmus_state) : Prop :=
  | inv_armed : phase_armed s → litmus_inv s
  | inv_held : phase_held s → litmus_inv s
  | inv_released : phase_released s → litmus_inv s
  | inv_done : phase_done s → litmus_inv s
  | inv_timeout : s state = 5 → litmus_inv s.

Lemma u64_succ v : 0 ≤ v ≤ 16 → u64 (v + 1) = v + 1.
Proof. intros ?. apply wrap_small. unfold in_width. lia. Qed.

(** Read the cells of a memory built by [put]. *)
Ltac litmus_read :=
  cbv [put set_error cas_state next_event lfield_eqb lfield_index] in *;
  cbn [Nat.eqb fst snd] in *.
Ltac litmus_unfold :=
  unfold phase_armed, phase_held, phase_released, phase_done, writer_evidence,
    exit_recorded, none_after_grace, LITMUS_ARMED, LITMUS_HELD, LITMUS_RELEASED,
    LITMUS_DONE, LITMUS_TIMEOUT, LITMUS_CLEAR, LITMUS_REPLACE in *.
(** Close a step by naming the phase it reaches. *)
Ltac litmus_phase C := apply C; litmus_unfold; litmus_read; rewrite ?u64_succ by lia; lia.
Ltac litmus_stay H :=
  inversion H as [P|P|P|P|P];
  [ litmus_phase inv_armed | litmus_phase inv_held | litmus_phase inv_released
  | litmus_phase inv_done | litmus_phase inv_timeout ].

Lemma set_error_inv err s : litmus_inv s → litmus_inv (set_error err s).
Proof. intros H. litmus_stay H. Qed.

Lemma capture_inv e di si s : litmus_inv s → litmus_inv (capture_borrow_args e di si s).
Proof.
  intros H. unfold capture_borrow_args. destruct (_ || _); [done|]. cbv zeta.
  destruct (negb (s resolve_attempts =? 0)); litmus_stay H.
Qed.
Lemma wait_inv now s : litmus_inv s → litmus_inv (wait_for_writer now s).2.
Proof.
  intros H. unfold wait_for_writer. destruct (_ =? LITMUS_RELEASED); [done|].
  destruct (_ <? _); [done|]. cbv zeta. litmus_read. destruct (s state =? LITMUS_HELD) eqn:E.
  - litmus_phase inv_timeout.
  - litmus_stay H.
Qed.
Lemma finish_inv e s : litmus_inv s → litmus_inv (finish_hold e s).
Proof.
  intros H. unfold finish_hold. destruct (s state =? LITMUS_RELEASED) eqn:E.
  - litmus_unfold. apply Z.eqb_eq in E. inversion H as [P|P|P|P|P]; litmus_unfold; try lia.
    litmus_phase inv_done.
  - destruct (s state =? LITMUS_HELD); [litmus_phase inv_timeout | done].
Qed.

(** The phases a guard on the state excludes. *)
Ltac litmus_cases H := unfold_bools; inversion H as [P|P|P|P|P]; litmus_unfold; try lia.
Ltac litmus_guard_as G := match goal with
  | |- litmus_inv (if ?b then _ else _) => destruct b eqn:G; [by auto using set_error_inv|]
  | |- litmus_inv (if ?b then _ else _).2 => destruct b eqn:G; [by simpl; auto using set_error_inv|]
  end.
Ltac litmus_guard := let G := fresh "G" in litmus_guard_as G.

Lemma update_entry_inv e s : litmus_inv s → litmus_inv (mark_update_entry e s).
Proof.
  intros H. unfold mark_update_entry. do 2 litmus_guard. cbv zeta.
  litmus_cases H. litmus_phase inv_held.
Qed.
Lemma clear_entry_inv e s : litmus_inv s → litmus_inv (mark_clear_entry e s).
Proof.
  intros H. unfold mark_clear_entry. do 3 litmus_guard. cbv zeta.
  litmus_cases H. litmus_phase inv_held.
Qed.

(** The class check of the grace probe leaves the two shapes of an update. *)
Lemma grace_class s :
  (s mode =? LITMUS_CLEAR) && (s clear_entry_seq =? 0) ||
  (s mode =? LITMUS_REPLACE) && negb (s clear_entry_seq =? 0) ||
  negb (s mode =? LITMUS_CLEAR) && negb (s mode =? LITMUS_REPLACE) = false →
  s mode = 2 ∧ s clear_entry_seq ≠ 0 ∨ s mode = 1 ∧ s clear_entry_seq = 0.
Proof.
  unfold LITMUS_CLEAR, LITMUS_REPLACE.
  destruct (Z.eqb_spec (s mode) 2), (Z.eqb_spec (s mode) 1), (Z.eqb_spec (s clear_entry_seq) 0);
    simpl; intros; try discriminate; lia.
Qed.
Lemma grace_inv e s : litmus_inv s → litmus_inv (release_reader_at_grace_entry e s).
Proof.
  intros H. unfold release_reader_at_grace_entry.
  litmus_guard. litmus_guard_as E2. apply grace_class in E2. litmus_guard. cbv zeta.
  unfold_bools. litmus_read. unfold LITMUS_HELD in *.
  match goal with K : s state = 2 |- _ => rewrite K end. cbn [Z.eqb negb Pos.eqb].
  litmus_cases H. litmus_phase inv_released.
Qed.
Lemma clear_exit_inv e s : litmus_inv s → litmus_inv (mark_clear_exit e s).
Proof.
  intros H. unfold mark_clear_exit. do 2 litmus_guard. cbv zeta.
  litmus_cases H. litmus_phase inv_done.
Qed.
Lemma update_exit_inv e s : litmus_inv s → litmus_inv (mark_update_exit e s).
Proof.
  intros H. unfold mark_update_exit. do 2 litmus_guard. cbv zeta.
  litmus_cases H. litmus_phase inv_done.
Qed.
Lemma hold_inv e result r s : litmus_inv s → litmus_inv (hold_borrowed_target e result r s).2.
Proof.
  intros H. unfold hold_borrowed_target.
  do 4 litmus_guard. destruct r as [r|]; [|by apply set_error_inv].
  do 2 litmus_guard. cbv zeta. unfold_bools. litmus_read. unfold LITMUS_ARMED in *.
  match goal with K : s state = 1 |- _ => rewrite K end. cbn [Z.eqb negb Pos.eqb snd].
  litmus_cases H. litmus_phase inv_held.
Qed.

Lemma litmus_step_inv c c' : litmus_step c c' → litmus_inv c.1 → litmus_inv c'.1.
Proof.
  destruct 1; simpl; auto using capture_inv, hold_inv, wait_inv, finish_inv,
    update_entry_inv, clear_entry_inv, grace_inv, clear_exit_inv, update_exit_inv.
Qed.

Lemma litmus_reach_inv c c' : rtc litmus_step c c' → litmus_inv c.1 → litmus_inv c'.1.
Proof. induction 1; eauto using litmus_step_inv. Qed.

Lemma armed_inv ck md cg rt wt tid dl : litmus_inv (armed ck md cg rt wt tid dl).
Proof. apply inv_armed. repeat split. Qed.

(** C40: whatever the interleaving of the reader's and the writer's probes, a
    litmus that was armed and reached DONE has recorded the order the
    experiment needs: the reader held the target first, then the writer
    entered the update, then (in CLEAR mode only) the clearing, then the grace
    period, and only then was the reader released; each event has the exact
    sequence number of its rank, and an exit that was recorded lies after the
    release. *)
Theorem litmus_done_is_evidence ck md cg rt wt tid dl s pc :
  rtc litmus_step (armed ck md cg rt wt tid dl, Outside) (s, pc) →
  s state = LITMUS_DONE →
  s hold_seq = 1 ∧ s update_entry_seq = 2 ∧
  (s mode = LITMUS_CLEAR ∧ s clear_entry_seq = 3 ∧ s grace_entry_seq = 4 ∨
   s mode = LITMUS_REPLACE ∧ s clear_entry_seq = 0 ∧ s grace_entry_seq = 3) ∧
  s reader_release_seq = s grace_entry_seq + 1 ∧
  (s clear_exit_seq = 0 ∨ s reader_release_seq < s clear_exit_seq) ∧
  (s update_exit_seq = 0 ∨ s reader_release_seq < s update_exit_seq).
Proof.
  intros Hr Hs. pose proof (litmus_reach_inv _ _ Hr (armed_inv _ _ _ _ _ _ _)) as H.
  cbn [fst] in H. litmus_cases H.
Qed.

(** A run in CLEAR mode that ends in DONE. *)
Definition example_redirect : litmus_redirect := mk_litmus_redirect false true true 9 7 100 200.
Definition example_run : retirement_litmus_state :=
  let rd := mk_probe 1 10 0 in
  let wr := mk_probe 2 20 1 in
  let s := armed 5 LITMUS_CLEAR 7 1 2 9 1000 in
  let s := (hold_borrowed_target rd 0 (Some example_redirect) (capture_borrow_args rd 64 1 s)).2 in
  let s := release_reader_at_grace_entry wr (mark_clear_entry wr (mark_update_entry wr s)) in
  mark_update_exit wr (mark_clear_exit wr (finish_hold rd s)).

Lemma litmus_done_is_evidence_witness :
  example_run state = LITMUS_DONE ∧ example_run reader_release_seq = 5.
Proof.
  assert (rtc litmus_step (armed 5 LITMUS_CLEAR 7 1 2 9 1000, Outside) (example_run, Outside)) as Hr.
  { eapply rtc_l; [apply (step_capture (mk_probe 1 10 0) 64 1)|].
    eapply rtc_l; [apply (step_hold (mk_probe 1 10 0) 0 (Some example_redirect))|].
    eapply rtc_l; [apply (step_update_entry (mk_probe 2 20 1))|].
    eapply rtc_l; [apply (step_clear_entry (mk_probe 2 20 1))|].
    eapply rtc_l; [apply (step_grace (mk_probe 2 20 1))|].
    eapply rtc_l; [apply (step_wait 30)|].
    eapply rtc_l; [apply (step_finish (mk_probe 1 10 0))|].
    eapply rtc_l; [apply (step_clear_exit (mk_probe 2 20 1))|].
    eapply rtc_l; [apply (step_update_exit (mk_probe 2 20 1))|]. apply rtc_refl. }
  pose proof (litmus_done_is_evidence _ _ _ _ _ _ _ _ _ Hr eq_refl) as (_ & _ & Hm & Hrel & _).
  split; [reflexivity|]. rewrite Hrel. reflexivity.
Defined.
