(* ===== verification/Example.v ===== *)
(** * A concrete kernel

    A hierarchy of three cgroups, one of which has a policy scoped to one
    directory, and a toy dentry cache: the inputs at which the theorems'
    hypotheses are shown to hold. *)

From S2P Require Import Prelude Abi PolicyLib PoliciesBasic Kernel Targets Scopes ScopeFacts.
From S2P Require Import ScopeApi ScopeSystem Cgroups EffectiveFacts Dispatch CgroupFacts.
From S2P Require Import CgroupProps DispatchProps System SystemProps Lookup Walk.

(** ** Hashing *)

Definition hash_mod (k : Z) : nat := Z.to_nat (k mod 256).

Lemma hash_mod_lt k : (hash_mod k < scope_buckets)%nat.
Proof.
  unfold hash_mod, scope_buckets, NAMEI_EXT_SCOPE_HASH_BITS. simpl.
  pose proof (Z.mod_pos_bound k 256). lia.
Qed.
Lemma hash_mod_lt_targets k : (hash_mod k < target_buckets)%nat.
Proof. exact (hash_mod_lt k). Qed.

#[export] Instance example_scopes : PolicyScopes scopes_state := scopes_policy hash_mod.
#[export] Instance example_laws : PolicyScopesLaws scopes_state (scopes_inv hash_mod) :=
  scopes_policy_laws hash_mod hash_mod_lt.

Abbreviation kstate := (cgroups_state scopes_state).

(** ** Deciding the conditions of the steps *)

Lemma live_in_map (st : kstate) d : live st d → d ∈ (map_to_list (gs_cgroups st)).*1.
Proof.
  unfold live, cgroup_of. destruct (gs_cgroups st !! d) as [c|] eqn:E; [|done]. intros _.
  apply list_elem_of_fmap. exists (d, c). split; [done|]. by apply elem_of_map_to_list.
Qed.

(** Check a property of every cgroup that is alive. *)
Definition all_live (st : kstate) (f : Z → bool) : bool :=
  forallb (λ d, cg_ref_zero (cgroup_of st d) || f d) (map_to_list (gs_cgroups st)).*1.

Lemma all_live_spec st f : all_live st f = true → ∀ d, live st d → f d = true.
Proof.
  unfold all_live. rewrite forallb_forall. intros Hf d Hd.
  specialize (Hf d). rewrite <- list_elem_of_In in Hf. specialize (Hf (live_in_map _ _ Hd)).
  unfold live in Hd. by rewrite Hd in Hf.
Qed.

Definition descendants_ok (st : kstate) (cg : Z) (descs : list Z) : bool :=
  bool_decide (NoDup descs) &&
  all_live st (λ d, Bool.eqb (bool_decide (d ∈ descs)) (bool_decide (cg ∈ cgroup_path st d))).

Lemma descendants_ok_spec st cg descs :
  descendants_ok st cg descs = true → is_descendants st cg descs.
Proof.
  unfold descendants_ok. intros H. apply andb_true_iff in H as [Hn Ha].
  split; [by apply bool_decide_eq_true in Hn|]. intros d Hd.
  pose proof (all_live_spec _ _ Ha d Hd) as E. simpl in E. apply eqb_prop in E.
  by rewrite <- (bool_decide_eq_true (d ∈ descs)), E, bool_decide_eq_true.
Qed.

Definition addr_free (st : scopes_state) (a : Z) : bool :=
  negb (a =? TOMBSTONE_ADDR) && forallb (λ n, negb (sn_addr n =? a)) (concat (sc_index st)).

Lemma addr_free_spec st a : addr_free st a = true → fresh_addr st a.
Proof.
  unfold addr_free. intros H. apply andb_true_iff in H as [Ht Ha]. unfold_bools.
  split; [done|]. intros n Hn. rewrite forallb_forall in Ha.
  specialize (Ha n). rewrite <- list_elem_of_In in Ha. specialize (Ha Hn). by unfold_bools.
Qed.

(** ** The hierarchy

    Cgroup 1 is the root, 2 and 3 are its children; program 50 is attached to
    2 and its policy is scoped to [managed_dir]. *)

Definition no_anchor (_ : Z) : Z + Z := inl (- ENOENT).
Definition no_purge (l : list Z) (_ : nat) : list Z := l.
Definition plenty : allocs := mk_allocs true true (λ _, true).
Definition managed_dir : path := mk_path 1 10.
Definition other_dir : path := mk_path 1 20.

Definition create (cg parent : Z) (st : kstate) : kstate :=
  (cgroup_bpf_inherit true cg (upd_cgroup cg (λ _, fresh_cgroup parent st) st)).2.
Definition attach (cg prog flags : Z) (descs : list Z) (st : kstate) : Z * kstate :=
  cgroup_bpf_attach no_anchor no_anchor no_anchor no_anchor plenty descs cg prog NULL NULL
    flags 0 0 st.

Definition k1 : kstate := create 1 NULL boot.
Definition k2 : kstate := create 2 1 k1.
Definition k3 : kstate := create 3 1 k2.
Definition k4 : kstate := (attach 2 50 0 [2] k3).2.
Definition scope_managed : scope_op := OpExact (Some 4096) false 2 managed_dir.
Definition k5 : kstate := upd_scopes (λ s, (scope_step hash_mod scope_managed s).2) k4.

Abbreviation example_reachable := (sys_reachable hash_mod no_anchor no_anchor no_anchor
  no_anchor no_purge).

Lemma k3_reachable : example_reachable k3.
Proof.
  unfold k3, k2, k1, create.
  eapply sys_next; [eapply sys_next; [eapply sys_next; [apply sys_boot|]|]|];
    apply sys_create; first [by vm_compute | by left | by right; vm_compute].
Qed.
Lemma k3_children : is_descendants k3 2 [2].
Proof. apply descendants_ok_spec. by vm_compute. Qed.
Lemma k4_reachable : example_reachable k4.
Proof.
  eapply sys_next; [apply k3_reachable|]. unfold k4, attach. apply sys_attach.
  - by vm_compute.
  - apply k3_children.
  - by intros d _ _.
  - by left.
Qed.
Lemma k5_reachable : example_reachable k5.
Proof.
  eapply sys_next; [apply k4_reachable|]. apply sys_scope; [done|].
  intros a [= <-]. apply addr_free_spec. by vm_compute.
Qed.

(** The same hierarchy through the invariant. *)
Lemma k5_inv : sys_inv hash_mod k5.
Proof. eapply reachable_inv; [apply hash_mod_lt | apply k5_reachable]. Qed.
Lemma k3_inv : sys_inv hash_mod k3.
Proof. eapply reachable_inv; [apply hash_mod_lt | apply k3_reachable]. Qed.

(** ** A toy dentry cache

    Every component resolves to dentry 77; a dentry is a directory unless its
    number is negative. *)

Definition cache_inode (_ : Z) : option inode := Some (mk_inode (Some 8) 1234 1).
Definition cache_hash (_ : Z) (name : list Z) : Z := u32 (foldl Z.add 0 name).
Definition no_flags_word (_ : flags_t) : Z := 0.
Definition cache_seq (_ : Z) : Z := 2.
Definition cache_dir (d : Z) : bool := 0 <? d.
Definition no_op_hash (_ : Z) : bool := false.
Definition no_d_hash (_ : Z) (q : qstr) : Z * qstr := (0, q).

Section toy.
Context {W : Type}.
Definition unlazy_ok (st : walk W) : bool * walk W := (true, st).
Definition find_77 (st : walk W) : dentry_res * walk W := (PPtr 77, st).
Definition drop_link (st : walk W) : walk W := st.
Definition step_to (_ d : Z) (st : walk W) : link_res * walk W :=
  (PNull, on_nd (jump_to (mk_path 1 d) (cache_inode d)) st).
Definition dots_stay (st : walk W) : link_res * walk W := (PNull, st).
Definition may_write (_ : walk W) (_ : Z) : Z := 0.
Definition open_77 (_ : open_flags) (_ : bool) (_ : file) (st : walk W)
  : option (dentry_res * bool * file * walk W) :=
  Some (PPtr 77, false, mk_file true false (mk_path 1 77), st).
Definition no_deleg (st : walk W) : Z * walk W := (0, st).
End toy.

Definition example_name (s : String.string) : qstr :=
  mk_qstr 0 (Z.of_nat (length (bytes_of_string s))) (bytes_of_string s ++ [0]).
Definition at_name (p : path) (s : String.string) : nameidata :=
  mk_nd p (example_name s) null_path (cache_inode (p_dentry p)) ∅ false false false 0 0 0
    LAST_NORM [] false 0 None.
Definition start {W} (p : path) (s : String.string) (w : W) : walk W :=
  mk_walk (at_name p s) empty_targets w.

(** The redirect record on the stack. *)
Definition stack_redirect : namei_ext_redirect :=
  mk_redirect false false false false 0 0 0 0 (replicate NAME_MAX_nat 170) null_path.
Definition open_read : open_flags := mk_open 0 0 {[LOOKUP_OPEN]} {[LOOKUP_FOLLOW]}.
Definition new_file : file := mk_file false false null_path.

(** Program 50 hides "secret". *)
Definition example_prog (_ : Z) : bpf_program unit := HideSecret.hide_secret_policy.
Definition cgroup_ino (cg : Z) : Z := cg + 1000.
