(* ===== verification/Witnesses.v ===== *)
(** * The theorems at concrete inputs

    For each property with hypotheses, a kernel, a policy or a message at
    which they hold, and what the property says there. *)

From S2P Require Import Prelude Abi PolicyLib PoliciesBasic PolicyFacts PolicyProps Kernel.
From S2P Require Import Targets Scopes ScopeFacts ScopeProps ScopeApi ScopeSystem Cgroups.
From S2P Require Import EffectiveFacts Dispatch CgroupFacts CgroupProps DispatchProps System.
From S2P Require Import Lookup Walk LookupProps WalkProps SystemProps Readdir ReaddirProps.
From S2P Require Import Control Harness HarnessProps Example.

(** ** The whole system *)



Lemma unmanaged_unchanged_witness :
  let walk_with enabled := walk_component cache_inode cache_hash no_flags_word
    (policy_of hash_mod example_prog cgroup_ino k5 3) hash_mod ∅ cache_dir cache_seq
    cache_inode no_op_hash no_d_hash unlazy_ok find_77 find_77 drop_link step_to dots_stay
    enabled (namei_ext_parent_maybe_managed hash_mod (gs_scopes k5)) stack_redirect 0
    (start managed_dir "secret" tt) in
  walk_with (key_enabled k5) = walk_with false.
Proof.
  apply (unmanaged_unchanged hash_mod hash_mod_lt no_anchor no_anchor no_anchor no_anchor
    no_purge example_prog cgroup_ino cache_inode cache_hash no_flags_word ∅ cache_dir
    cache_seq cache_inode no_op_hash no_d_hash unlazy_ok find_77 find_77 drop_link step_to
    dots_stay may_write open_77 no_deleg k5 3 stack_redirect 0 1 open_read new_file
    (start managed_dir "secret" tt) k5_reachable); [by vm_compute|]. left. by vm_compute.
Defined.

(** ** Scopes *)

Definition active : scopes_state := (scope_step hash_mod (OpSetActive 2 true) initial_scopes).2.
Definition scoped : scopes_state := (scope_step hash_mod scope_managed active).2.

Lemma active_reachable : scope_reachable hash_mod active.
Proof. apply (reach_op hash_mod (OpSetActive 2 true)); [apply reach_boot|done]. Qed.
Lemma scoped_reachable : scope_reachable hash_mod scoped.
Proof.
  apply (reach_op hash_mod scope_managed); [apply active_reachable|].
  intros a [= <-]. apply addr_free_spec. by vm_compute.
Qed.
Lemma add_other_ok : op_ok (OpAdd (Some 8192) false 2 other_dir) scoped.
Proof. intros a [= <-]. apply addr_free_spec. by vm_compute. Qed.

Lemma prefilter_no_false_negative_witness :
  namei_ext_parent_maybe_managed hash_mod scoped managed_dir = true.
Proof.
  apply (prefilter_no_false_negative hash_mod hash_mod_lt scoped 2); [apply scoped_reachable|..];
    by vm_compute.
Defined.

Lemma prefilter_exact_witness :
  namei_ext_parent_maybe_managed hash_mod scoped other_dir = false ∧
  sc_global_users scoped = 0.
Proof.
  destruct (prefilter_exact hash_mod hash_mod_lt scoped other_dir scoped_reachable) as [Hm Hg].
  split; [by vm_compute|]. rewrite Hg; by vm_compute.
Defined.

Lemma scope_ops_refine_spec_witness :
  (scope_step hash_mod (OpAdd (Some 8192) false 2 other_dir) scoped).1 = 0 ∧
  scope_view (scope_step hash_mod (OpAdd (Some 8192) false 2 other_dir) scoped).2 2 =
    (Some [managed_dir; other_dir], true).
Proof.
  pose proof (scope_ops_refine_spec hash_mod hash_mod_lt (OpAdd (Some 8192) false 2 other_dir)
    scoped scoped_reachable) as H.
  destruct (scope_step hash_mod _ scoped) as [ret st'].
  destruct (spec_step _ _) as [ret' sp'] eqn:E. destruct H as [-> Hv]. cbn [fst snd].
  rewrite Hv. vm_compute in E. injection E as <- <-. split; by vm_compute.
Defined.

Lemma scope_refs_balanced_witness :
  foreign_scope_refs
    (scope_step hash_mod (OpAdd (Some 8192) false 2 other_dir) scoped).2 other_dir = 0.
Proof.
  rewrite (scope_refs_balanced hash_mod hash_mod_lt _ _ _ scoped_reachable add_other_ok).
  by vm_compute.
Defined.

(** ** Attachments and dispatch *)

Lemma attach_keeps_inv_witness : cgroups_inv (scopes_inv hash_mod) k4.
Proof.
  apply (attach_keeps_inv (scopes_inv hash_mod) no_anchor no_anchor no_anchor no_anchor plenty
    [2] 2 50 NULL NULL 0 0 0 k3); [apply k3_inv|apply k3_children|].
  change (attach 2 50 0 [2] k3 = (0, k4)). unfold k4. by destruct (attach 2 50 0 [2] k3) eqn:E;
    vm_compute in E; injection E as <- <-.
Defined.

(** No array for cgroup 2: the attachment fails. *)
Definition starved : allocs := mk_allocs true true (λ _, false).

Definition starved_attach : Z * kstate :=
  cgroup_bpf_attach no_anchor no_anchor no_anchor no_anchor starved [2] 2 50 NULL NULL
    BPF_F_ALLOW_MULTI 0 0 k3.


Lemma k5_children : is_descendants k5 2 [2].
Proof. apply descendants_ok_spec. by vm_compute. Qed.

Lemma detach_keeps_inv_witness :
  let '(err, st') := cgroup_bpf_detach no_purge plenty [2] 2 50 NULL 0 k5 in
  err = 0 ∧ cgroups_inv (scopes_inv hash_mod) st' ∧ cg_progs (cgroup_of st' 2) = [].
Proof.
  pose proof (detach_keeps_inv (scopes_inv hash_mod) no_purge plenty [2] 2 50 NULL 0 k5
    (si_cgroups _ _ k5_inv) k5_children (λ _ _ _, eq_refl)) as H.
  assert ((cgroup_bpf_detach no_purge plenty [2] 2 50 NULL 0 k5).1 = 0) as He by (by vm_compute).
  destruct (cgroup_bpf_detach no_purge plenty [2] 2 50 NULL 0 k5) as [err st'].
  simpl in He. destruct H as (Hi & Hp & _). destruct (Hp He) as (i & Hf & ->).
  split_and!; [done..|]. vm_compute in Hf. injection Hf as <-. by vm_compute.
Defined.

Definition a_ctx : bpf_namei_ext_ctx :=
  namei_ext_init_ctx cache_inode (Some other_dir) None BPF_NAMEI_EXT_LOOKUP 0
    (example_name "secret").

Lemma prefilter_sound_for_dispatch_witness :
  cgroup_bpf_run_namei_ext example_prog cgroup_ino k5 2 other_dir tt a_ctx =
    (BPF_NAMEI_EXT_PASS, tt, a_ctx).
Proof.
  apply (prefilter_sound_for_dispatch (scopes_inv hash_mod) example_prog cgroup_ino);
    [apply k5_inv | apply (si_tree _ _ k5_inv) | by vm_compute | by vm_compute].
Defined.


Lemma dispatch_confined_witness :
  let '(action, _, ctx') :=
    cgroup_bpf_run_namei_ext example_prog cgroup_ino k5 2 managed_dir tt a_ctx in
  namei_ext_retval_ok action = true ∧
  same_inputs (set_cgroup_id (cgroup_ino 2) a_ctx) ctx'.
Proof.
  pose proof (dispatch_confined example_prog cgroup_ino k5 2 managed_dir tt a_ctx
    (λ _, hide_secret_verified)) as H.
  destruct (cgroup_bpf_run_namei_ext _ _ _ _ _ _ _) as [[action w] ctx'] eqn:E.
  destruct H as (Hr & _ & _). split; [done|]. vm_compute in E. by injection E as _ _ <-.
Defined.

Lemma single_effective_policy_witness :
  cg_effective (cgroup_of k5 2) = Some [50].
Proof.
  rewrite (single_effective_policy (scopes_inv hash_mod) example_prog cgroup_ino k5 2
    (si_cgroups _ _ k5_inv)); [by vm_compute..|].
  intros p Hp. vm_compute in Hp. apply list_elem_of_In in Hp.
  destruct Hp as [<-|[<-|[]]]; by vm_compute.
Defined.

(** ** One consultation *)

Definition redirecting_ctx : bpf_namei_ext_ctx :=
  namei_ext_set_redirect (bytes_of_string "tool.real") 9 a_ctx.

Lemma a_ctx_wf : ctx_wf a_ctx.
Proof. apply init_ctx_wf; by vm_compute. Qed.
Lemma redirecting_ctx_wf : ctx_wf redirecting_ctx.
Proof. apply set_redirect_wf, a_ctx_wf. Qed.

Lemma redirect_valid_iff_witness : component_name (bytes_of_string "tool.real").
Proof.
  apply (proj1 (redirect_valid_iff redirecting_ctx redirecting_ctx_wf ltac:(by vm_compute))).
  by vm_compute.
Defined.

Lemma kernel_key_identifies_component_witness :
  kernel_key cache_inode 7 None (cache_inode 10) 0 0 (example_name "secret") ≠
  kernel_key cache_inode 7 None (cache_inode 10) 0 0 (example_name "public").
Proof.
  unfold cache_inode at 2 4. intros H%kernel_key_identifies_component; by vm_compute.
Defined.

Definition long_prefix : list Z := replicate NAME_MAX_nat (chr "a").

Lemma long_names_share_key_witness :
  kernel_key cache_inode 7 None None 0 0 (mk_qstr 1 66 (long_prefix ++ bytes_of_string "-1")) =
  kernel_key cache_inode 7 None None 0 0 (mk_qstr 2 66 (long_prefix ++ bytes_of_string "-2")).
Proof.
  by apply (long_names_share_key cache_inode 7 None None 0 0 1 2 long_prefix
    (bytes_of_string "-1") (bytes_of_string "-2")).
Defined.

Definition run_hide (w : unit) (_ : path) (c : bpf_namei_ext_ctx) :=
  HideSecret.hide_secret_policy w c.

(** The hiding policy leaves the replacement alone. *)
Lemma run_hide_ok w p c :
  ctx_wf c → 0 ≤ ctx_redirect_name_len c →
  let '(action, _, c') := run_hide w p c in
  namei_ext_retval_ok action = true ∧ ctx_wf c' ∧ 0 ≤ ctx_redirect_name_len c'.
Proof.
  intros Hwf Hl. pose proof (prog_wf (p:=HideSecret.hide_secret_policy) w c Hwf) as H1.
  pose proof (prog_retval (p:=HideSecret.hide_secret_policy) w c) as H2.
  revert H1 H2. unfold run_hide, HideSecret.hide_secret_policy. simpl.
  unfold mbind, policy_bind, get_ctx. by destruct (_ && _).
Qed.

Lemma lookup_outcome_safe_witness :
  let '(err, r, _) := namei_ext_lookup cache_inode cache_hash no_flags_word run_hide
                        managed_dir None (example_name "public") 0 ∅ stack_redirect tt in
  err = 0 ∧ r_target_active r = false.
Proof.
  pose proof (lookup_outcome_safe cache_inode cache_hash no_flags_word run_hide managed_dir
    None (example_name "public") 0 ∅ stack_redirect tt) as H.
  destruct (namei_ext_lookup _ _ _ _ _ _ _ _ _ _ _) as [[err r] w] eqn:E.
  destruct H as (_ & Ht & _); [by vm_compute..|by intros [] ??; apply run_hide_ok|].
  split; [|done]. vm_compute in E. by injection E as <- _ _.
Defined.

(** ** The walk *)

Definition run_managed (w : unit) (p : path) (c : bpf_namei_ext_ctx) :=
  if path_equal p managed_dir then HideSecret.hide_secret_policy w c
  else (BPF_NAMEI_EXT_PASS, w, c).

Lemma prefilter_transparent_witness :
  let walk_with managed := walk_component cache_inode cache_hash no_flags_word run_managed
    hash_mod ∅ cache_dir cache_seq cache_inode no_op_hash no_d_hash unlazy_ok find_77 find_77
    drop_link step_to dots_stay true managed stack_redirect 0 (start other_dir "secret" tt) in
  walk_with (λ p, path_equal p managed_dir) = walk_with (λ _, true).
Proof.
  apply (prefilter_transparent cache_inode cache_hash no_flags_word run_managed hash_mod ∅
    cache_dir cache_seq cache_inode no_op_hash no_d_hash unlazy_ok find_77 find_77 drop_link
    step_to dots_stay may_write open_77 no_deleg (λ p, path_equal p managed_dir) stack_redirect 0 1
    open_read new_file (start other_dir "secret" tt)).
  intros p w c Hp. unfold run_managed. by rewrite Hp.
Defined.

Lemma hide_is_enoent_witness :
  (walk_component_namei_ext cache_inode cache_hash no_flags_word run_managed hash_mod ∅
    cache_dir cache_seq cache_inode no_op_hash no_d_hash unlazy_ok find_77 find_77 drop_link
    step_to stack_redirect 0 (start managed_dir "secret" tt)).1 = PErr (- ENOENT).
Proof.
  pose (st := start managed_dir "secret" tt).
  pose (c := (policy_answer cache_inode no_flags_word run_managed st).2).
  rewrite (hide_is_enoent cache_inode cache_hash no_flags_word run_managed hash_mod ∅ cache_dir
    cache_seq cache_inode no_op_hash no_d_hash unlazy_ok find_77 find_77 drop_link step_to
    stack_redirect 0 st tt c); by vm_compute.
Defined.

Definition run_alias (w : unit) (_ : path) (c : bpf_namei_ext_ctx) :=
  RedirectAlias.redirect_alias_policy w c.
Definition at_tool : walk unit := start managed_dir "tool" tt.
Definition alias_ctx : bpf_namei_ext_ctx :=
  (policy_answer cache_inode no_flags_word run_alias at_tool).2.

Lemma alias_ctx_wf : ctx_wf alias_ctx.
Proof.
  unfold alias_ctx, policy_answer, run_alias.
  apply (prog_wf (p:=RedirectAlias.redirect_alias_policy)), init_ctx_wf; by vm_compute.
Qed.

