(* ===== verification/WitnessesRcu.v ===== *)
(** * Concrete interleavings

    Runs of scope operations against the lockless prefilter and of registry
    writers against the lookup of a target, given as schedules of moves. *)

From S2P Require Import Prelude Abi Kernel Rcu Scopes ScopeFacts ScopeProps ScopeRcu ScopeRcuFacts.
From S2P Require Import ScopeGrace ScopeRcuProps ScopeLinear ScopeLive Targets TargetRcu TargetRcuProps.
From S2P Require Import TargetLinear TargetRefine Example.

Inductive move :=
  | MStart (op : scope_op)
  | MStore
  | MFinish
  | MLoad
  | MCall.

Definition fresh_op_dec (op : scope_op) (m : rcu_mem) : bool :=
  match op_alloc op with Some a => bool_decide (a ∉ rm_used m) | None => true end.

Definition run_move (parent : path) (mv : move) (c : rcu_conf) : option rcu_conf :=
  let '(mk_conf m code fs r t) := c in
  match mv, code, fs, r with
  | MStart op, [], _, _ =>
      if fresh_op_dec op m
      then Some (mk_conf (start_mem op m) (op_instrs op (rm_scopes m)) fs r t) else None
  | MStore, [ISync; IGrace; IFree s], _, _ => Some (mk_conf m [] (FSync s :: fs) r t)
  | MStore, ISync :: _, _, _ => None
  | MStore, i :: code', _, _ =>
      Some (mk_conf (exec_mem hash_mod i m) code' fs r (match i with ISeq => t + 1 | _ => t end))
  | MFinish, _, FSync s :: fs', _ => Some (mk_conf m code (FGrace s (in_section r) :: fs') r t)
  | MFinish, _, FGrace s false :: fs', _ => Some (mk_conf m code (FFree s :: fs') r t)
  | MFinish, _, FFree s :: fs', _ => Some (mk_conf (exec_mem hash_mod (IFree s) m) code fs' r t)
  | MLoad, _, _, _ =>
      let r' := reader_step hash_mod parent m r in
      Some (mk_conf m code (reader_left (in_section r') <$> fs) r' t)
  | MCall, _, _, RDone _ => Some (mk_conf m code fs RBegin t)
  | _, _, _, _ => None
  end.

Lemma run_move_step parent mv c c' :
  run_move parent mv c = Some c' → rcu_step hash_mod parent c c'.
Proof.
  destruct c as [m code fs r t]. destruct mv as [op| | | |]; simpl.
  - destruct code; [|done]. destruct (fresh_op_dec op m) eqn:Hf; [|done]. intros [= <-].
    apply step_start. unfold fresh_op_dec in Hf. intros a Ha. rewrite Ha in Hf.
    by apply bool_decide_eq_true in Hf.
  - destruct code as [|i code]; [done|].
    assert (i = ISync ∨ i ≠ ISync) as [->|Hi] by (destruct i; (by left) || by right).
    + destruct code as [|[] [|[] []]]; try done. intros [= <-]. apply step_unlock.
    + intros H. assert (c' = mk_conf (exec_mem hash_mod i m) code fs r
        (match i with ISeq => t + 1 | _ => t end)) as -> by (destruct i; congruence).
      by apply step_store.
  - intros H. destruct fs as [|[s|s [|]|s] fs]; repeat case_match; simplify_eq.
    all: first [apply (step_sync _ _ s _ _ [])|apply (step_grace _ _ s _ _ [])
               |apply (step_free _ _ s _ _ [])].
  - intros H. assert (c' = mk_conf m code
      (reader_left (in_section (reader_step hash_mod parent m r)) <$> fs)
      (reader_step hash_mod parent m r) t) as -> by (repeat case_match; congruence).
    apply step_reader.
  - intros H. destruct r; repeat case_match; simplify_eq; apply step_call.
Qed.

Fixpoint run (parent : path) (mvs : list move) (c : rcu_conf) : option rcu_conf :=
  match mvs with
  | [] => Some c
  | mv :: rest => c' ← run_move parent mv c; run parent rest c'
  end.

Lemma run_steps parent mvs c c' : run parent mvs c = Some c' → rcu_steps hash_mod parent c c'.
Proof.
  revert c. induction mvs as [|mv mvs IH]; intros c; simpl.
  - intros [= <-]. apply rtc_refl.
  - intros (c1 & Hm & Hr)%bind_Some. apply (rtc_l _ _ c1); [by apply (run_move_step _ mv)|]. by apply IH.
Qed.

Definition run_from_boot (parent : path) (mvs : list move) : rcu_conf :=
  default boot_conf (run parent mvs boot_conf).

(** A policy becomes active without a scope, *)
Definition activation : list move := MStart (OpSetActive 2 true) :: replicate 4 MStore.

(** and is given a scope while the prefilter is about to answer yes for
    another directory: the prefilter sees the write section, starts again,
    and answers no. *)
Definition rescope : list move :=
  replicate 4 MLoad ++ MStart (OpExact (Some 4096) false 2 managed_dir) ::
  replicate 2 MStore ++ replicate 2 MLoad ++ replicate 5 MStore ++ replicate 4 MLoad.

Definition before_rescope : rcu_conf := run_from_boot other_dir activation.
Definition after_rescope : rcu_conf :=
  default boot_conf (run other_dir rescope before_rescope).

Lemma before_rescope_steps : rcu_steps hash_mod other_dir boot_conf before_rescope.
Proof. apply (run_steps _ activation). by vm_compute. Qed.

(** A reader reaches the node of the scope, which is then replaced by the
    empty one: that operation waits for the reader before it frees the node,
    and meanwhile another one starts. *)
Definition removal : list move :=
  activation ++ MStart (OpExact (Some 4096) false 2 managed_dir) :: replicate 7 MStore ++
  replicate 6 MLoad ++ MStart (OpEmpty (Some 8192) false 2) :: replicate 7 MStore ++
  [MFinish; MStart (OpExact (Some 12288) false 2 other_dir); MStore].

Definition waiting : rcu_conf := run_from_boot managed_dir removal.

Definition managed_node : namei_ext_scope := mk_scope 4096 0 managed_dir.

Lemma waiting_steps : rcu_steps hash_mod managed_dir boot_conf waiting.
Proof. apply (run_steps _ removal). by vm_compute. Qed.

(** ** The theorems at these runs *)

Lemma reader_linearizable_witness :
  ∃ c, rcu_steps hash_mod other_dir before_rescope c ∧
    rcu_steps hash_mod other_dir c after_rescope ∧ Z.even (rc_ticks c) = true ∧
    namei_ext_parent_maybe_managed hash_mod (rm_scopes (rc_mem c)) other_dir = false.
Proof.
  apply (reader_linearizable hash_mod hash_mod_lt other_dir before_rescope after_rescope);
    [apply before_rescope_steps|by vm_compute|apply (run_steps _ rescope); by vm_compute
    |by vm_compute|by vm_compute].
Defined.

Lemma reader_no_false_negative_witness :
  namei_ext_parent_maybe_managed hash_mod (rm_scopes (rc_mem before_rescope)) other_dir = true ∧
  ∃ c, rcu_steps hash_mod other_dir before_rescope c ∧
    rcu_steps hash_mod other_dir c after_rescope ∧ Z.even (rc_ticks c) = true ∧
    ∀ cg, cs_active (cgroup_scope_of (rm_scopes (rc_mem c)) cg) = true →
      namei_ext_policy_parent_matches (rm_scopes (rc_mem c)) cg other_dir = false.
Proof.
  split; [by vm_compute|].
  apply (reader_no_false_negative hash_mod hash_mod_lt other_dir before_rescope after_rescope);
    [apply before_rescope_steps|by vm_compute|apply (run_steps _ rescope); by vm_compute
    |by vm_compute|by vm_compute].
Defined.

Lemma reader_never_at_freed_node_witness :
  removed (rc_mem waiting) = [managed_node] ∧ managed_node ∉ rm_freed (rc_mem waiting).
Proof.
  split; [by vm_compute|].
  apply (reader_never_at_freed_node hash_mod hash_mod_lt managed_dir waiting 4);
    [apply waiting_steps|by vm_compute].
Defined.

Lemma reader_returns_bounded_witness :
  rc_finishing waiting = [FGrace (mk_scope_set 4096 [managed_dir]) true] ∧
  ∃ k found, (k ≤ 9)%nat ∧
    Nat.iter k (reader_step hash_mod managed_dir (rc_mem waiting)) (rc_reader waiting) =
      RDone found.
Proof.
  split; [by vm_compute|].
  destruct (reader_returns_bounded hash_mod hash_mod_lt managed_dir waiting waiting_steps)
    as (k & found & Hk & Hr & _); [by vm_compute|].
  exists k, found. split; [|exact Hr]. etrans; [exact Hk|]. vm_compute. lia.
Defined.

Lemma scope_updates_never_deadlock_witness :
  rc_finishing waiting = [FGrace (mk_scope_set 4096 [managed_dir]) true] ∧ rc_code waiting ≠ [] ∧
  ∃ c' found, rcu_steps hash_mod managed_dir waiting c' ∧ rc_code c' = [] ∧
    rc_finishing c' = [] ∧ rc_reader c' = RDone found.
Proof.
  split_and!; [by vm_compute|by vm_compute|].
  apply (scope_updates_never_deadlock hash_mod hash_mod_lt managed_dir waiting waiting_steps).
Defined.

(** ** Targets: schedules *)

Inductive tmove :=
  | VGet (p : path)                       (* path_get by a writer *)
  | VRegister (a cg tid : Z) (p : path)   (* with the reference first in the owners' hands *)
  | VClear (cg : Z)
  | VDel
  | VUnlock
  | VFinish
  | VLoad
  | VTake.

Definition trun_move (cg tid : Z) (mv : tmove) (c : target_conf) : option target_conf :=
  let '(mk_tconf (mk_tmem t refs used) cl fs own r) := c in
  match mv with
  | VGet p => Some (mk_tconf (mk_tmem t (path_get p refs) used) cl fs (p :: own) r)
  | VRegister a cg' tid' p =>
      if decide ((a ∉ used) ∧ tid' ≠ 0 ∧ p_mnt p ≠ NULL ∧ p_dentry p ≠ NULL ∧ cl = None ∧
                 head own = Some p)
      then let '(old, t') := register_store hash_mod (mk_tnode a (mk_target cg' tid' p)) t in
           Some (mk_tconf (mk_tmem t' refs ({[a]} ∪ used)) None
                   (retire (from_option (λ o, [o]) [] old) fs) (tail own) r)
      else None
  | VClear cg' =>
      match cl with
      | None => Some (mk_tconf (mk_tmem t refs used) (Some (cg', [])) fs own r)
      | Some _ => None
      end
  | VDel =>
      '(cg', retired) ← cl; n ← next_of_cgroup cg' t;
      Some (mk_tconf (mk_tmem (table_del (node_bkt hash_mod) n t) refs used)
              (Some (cg', n :: retired)) fs own r)
  | VUnlock =>
      '(cg', retired) ← cl;
      match next_of_cgroup cg' t with
      | None => Some (mk_tconf (mk_tmem t refs used) None (retire retired fs) own r)
      | Some _ => None
      end
  | VFinish =>
      match fs with
      | FSync ns :: fs' =>
          Some (mk_tconf (mk_tmem t refs used) cl (FGrace ns (target_section r) :: fs') own r)
      | FGrace ns false :: fs' => Some (mk_tconf (mk_tmem t refs used) cl (FFree ns :: fs') own r)
      | FFree (n :: ns) :: fs' =>
          Some (mk_tconf (mk_tmem (table_free [n] t) (path_put (node_path n) refs) used) cl
                  (FFree ns :: fs') own r)
      | _ => None
      end
  | VLoad =>
      let r' := target_load hash_mod cg tid (mk_tmem t refs used) r in
      Some (mk_tconf (mk_tmem t refs used) cl (reader_left (target_section r') <$> fs) own r')
  | VTake =>
      match r with
      | TFound n =>
          Some (mk_tconf (mk_tmem t (path_get (node_path n) refs) used) cl
                  (reader_left false <$> fs) (node_path n :: own) TIdle)
      | _ => None
      end
  end.

Lemma trun_move_step cg tid mv c c' :
  trun_move cg tid mv c = Some c' → target_step hash_mod cg tid c c'.
Proof.
  destruct c as [[t refs used] cl fs own r]. destruct mv as [p|a cg' tid' p|cg'| | | | |]; simpl.
  - intros [= <-]. apply t_path_get.
  - destruct (decide _) as [(Ha & Hz & Hm & Hd & -> & Ho)|]; [|done].
    destruct own as [|q own]; [done|]. injection Ho as ->. destruct (register_store _ _ _) eqn:Hr.
    intros [= <-]. by apply (t_register _ _ _ a cg' tid' p _ _ _ _ _ _ []).
  - destruct cl; [done|]. intros [= <-]. apply t_clear_lock.
  - destruct cl as [[cg' retired]|]; [|done]. simpl. intros (n & Hn & [= <-])%bind_Some.
    by apply t_clear_del.
  - destruct cl as [[cg' retired]|]; [|done]. simpl. destruct (next_of_cgroup _ _) eqn:Hn; [done|].
    intros [= <-]. by apply t_clear_unlock.
  - destruct fs as [|[ns|ns [|]|[|n ns]] fs]; try done; intros [= <-].
    + apply (t_sync _ _ _ ns _ _ []).
    + apply (t_grace _ _ _ ns _ _ []).
    + apply (t_free _ _ _ n ns _ _ _ _ []).
  - intros [= <-]. apply t_load.
  - destruct r; try done. intros [= <-]. apply t_get.
Qed.

Fixpoint trun (cg tid : Z) (mvs : list tmove) (c : target_conf) : option target_conf :=
  match mvs with
  | [] => Some c
  | mv :: rest => c' ← trun_move cg tid mv c; trun cg tid rest c'
  end.

Lemma trun_steps cg tid mvs c c' :
  trun cg tid mvs c = Some c' → target_steps hash_mod cg tid c c'.
Proof.
  revert c. induction mvs as [|mv mvs IH]; intros c; simpl.
  - intros [= <-]. apply rtc_refl.
  - intros (c1 & Hm & Hr)%bind_Some. apply (rtc_l _ _ c1); [by apply (trun_move_step _ _ mv)|].
    by apply IH.
Qed.

(** A target is registered, *)
Definition registration : list tmove := [VGet managed_dir; VRegister 4096 2 7 managed_dir].

(** an RCU walk finds it, and it is replaced and then cleared under the walk;
    both grace periods wait for the walk. *)
Definition replacement : list tmove :=
  [VLoad; VLoad; VLoad; VGet other_dir; VRegister 8192 2 7 other_dir; VFinish;
   VClear 2; VDel; VUnlock; VFinish].

(** A lookup that begins after that finds nothing. *)
Definition too_late : list tmove := [VClear 2; VDel; VUnlock; VLoad; VLoad].

Definition with_target : target_conf := default boot_targets (trun 2 7 registration boot_targets).
Definition borrowing : target_conf := default boot_targets (trun 2 7 replacement with_target).
Definition missed : target_conf := default boot_targets (trun 2 7 too_late with_target).

Definition first_target : target_node := mk_tnode 4096 (mk_target 2 7 managed_dir).
Definition second_target : target_node := mk_tnode 8192 (mk_target 2 7 other_dir).

Lemma with_target_steps : target_steps hash_mod 2 7 boot_targets with_target.
Proof. apply (trun_steps _ _ registration). by vm_compute. Qed.
Lemma borrowing_steps : target_steps hash_mod 2 7 with_target borrowing.
Proof. apply (trun_steps _ _ replacement). by vm_compute. Qed.
Lemma missed_steps : target_steps hash_mod 2 7 with_target missed.
Proof. apply (trun_steps _ _ too_late). by vm_compute. Qed.

(** *** The theorems at these runs *)

Lemma target_in_use_alive_witness :
  unlinked (tm_table (tc_mem borrowing)) = [second_target; first_target] ∧
  (first_target ∉ rt_freed (tm_table (tc_mem borrowing))) ∧
  1 ≤ ref_count (tm_refs (tc_mem borrowing)) managed_dir.
Proof.
  destruct (target_in_use_alive hash_mod hash_mod_lt_targets 2 7 borrowing) as [Hf Hr].
  { etrans; [apply with_target_steps|apply borrowing_steps]. }
  split_and!; [by vm_compute| |].
  - apply Hf. right. by vm_compute.
  - apply (Hr first_target). by vm_compute.
Defined.

Lemma target_refs_balanced_witness :
  ref_count (tm_refs (tc_mem borrowing)) managed_dir = 1 ∧
  ref_count (tm_refs (tc_mem borrowing)) other_dir = 1.
Proof.
  assert (target_steps hash_mod 2 7 boot_targets borrowing) as Hs
    by (etrans; [apply with_target_steps|apply borrowing_steps]).
  rewrite !(target_refs_balanced hash_mod hash_mod_lt_targets 2 7 borrowing) by exact Hs.
  by vm_compute.
Defined.

Lemma target_lookup_linearizable_witness :
  (∃ c, target_steps hash_mod 2 7 with_target c ∧ target_steps hash_mod 2 7 c borrowing ∧
     namei_ext_find_target_rcu hash_mod 2 7 (targets_of (tc_mem c)) =
       Some (mk_target 2 7 managed_dir)) ∧
  (∃ c, target_steps hash_mod 2 7 with_target c ∧ target_steps hash_mod 2 7 c missed ∧
     namei_ext_find_target_rcu hash_mod 2 7 (targets_of (tc_mem c)) = None).
Proof.
  split.
  - apply (target_lookup_linearizable hash_mod hash_mod_lt_targets 2 7 with_target borrowing)
      with (n := first_target);
      [apply with_target_steps|by vm_compute|apply borrowing_steps|by vm_compute].
  - apply (target_lookup_linearizable hash_mod hash_mod_lt_targets 2 7 with_target missed);
      [apply with_target_steps|by vm_compute|apply missed_steps|by vm_compute].
Defined.

Lemma registry_stores_refine_witness :
  ∃ t' retired,
    clear_run hash_mod 1 2 (tm_table (tc_mem with_target)) [] = Some (t', retired) ∧
    namei_ext_clear_targets 2 (targets_of (tc_mem with_target)) =
      targets_of (mk_tmem t' (path_put_all (node_path <$> retired)
        (tm_refs (tc_mem with_target))) (tm_used (tc_mem with_target))).
Proof.
  apply (registry_stores_refine hash_mod hash_mod_lt_targets 2 7 with_target with_target_steps).
Defined.
