(* ===== verification/WitnessesPath.v ===== *)
(** * A concrete file system

    Four directories and files and a symlink under [managed_dir], the root,
    where the policy of cgroup 2 hides "secret": the inputs at which the
    theorems about whole pathnames are applied. *)

From S2P Require Import Prelude Abi PolicyLib PoliciesBasic PolicyProps Kernel Targets Scopes.
From S2P Require Import ScopeApi ScopeSystem Cgroups EffectiveFacts CgroupFacts Dispatch System.
From S2P Require Import Lookup LookupProps Walk SystemProps PathWalk PathInv PathRefs PathSafe.
From S2P Require Import PathTotal PathExact PathView PathViewFacts PathResolve PathPolicies Example.

(** ** The tree

    10 is the root, with "secret" (11), "docs" (12), the symlink "l" (13) and
    "tool.real" (15);
    12 has a "secret" (14) of its own and a directory "sub" (20); from 90 on
    dentries are negative. *)

Definition c_string (s : String.string) : list Z := bytes_of_string s ++ [0].

Definition toy_child (p : path) (n : list Z) : Z :=
  if (p_dentry p =? 10) && bool_decide (n = bytes_of_string "secret") then 11 else
  if (p_dentry p =? 10) && bool_decide (n = bytes_of_string "docs") then 12 else
  if (p_dentry p =? 10) && bool_decide (n = bytes_of_string "l") then 13 else
  if (p_dentry p =? 10) && bool_decide (n = bytes_of_string "tool.real") then 15 else
  if (p_dentry p =? 12) && bool_decide (n = bytes_of_string "secret") then 14 else
  if (p_dentry p =? 12) && bool_decide (n = bytes_of_string "sub") then 20 else 99.

Definition toy_body (d : Z) : list Z := if d =? 13 then c_string "docs/../secret" else [0].
Definition toy_inode (d : Z) : option inode :=
  if 90 <=? d then None else Some (mk_inode (Some 8) d 1).
Definition toy_tree : tree := mk_tree toy_child (λ p d, mk_path (p_mnt p) d) toy_body (λ _ _, DPass).

Definition toy_lookup {W} (st : walk W) : Z :=
  toy_child (nd_path (wk_nd st)) (q_bytes (nd_last (wk_nd st))).

(** The file system that finds what [look] says; lookups in rcu-walk fail on 14,
    so that the walk has to switch. *)
Definition toy_over {W} (look : walk W → Z)
  (run : W → path → bpf_namei_ext_ctx → Z * W * bpf_namei_ext_ctx) : vfs W := {|
  v_backing_inode := λ _, None;
  v_full_name_hash := cache_hash;
  v_flags_word := no_flags_word;
  v_run := run;
  v_hash_min := hash_mod;
  v_scoped := {[LOOKUP_BENEATH; LOOKUP_IN_ROOT]};
  v_can_lookup := λ d, (d =? 10) || (d =? 12) || (d =? 20);
  v_is_symlink := λ d, d =? 13;
  v_managed := λ _, false;
  v_inode := toy_inode;
  v_parent := λ d, if (d =? 14) || (d =? 20) then 12 else 10;
  v_op_hash := λ _, false;
  v_hash := λ _ q, (0, q);
  v_weak_revalidate := λ _, None;
  v_seq := λ _, 2;
  v_seq_retry := λ _ _ _, false;
  v_mount_retry := λ _, false;
  v_rename_retry := λ _, false;
  v_grab := λ _ _, true;
  v_grab_dentry := λ _ _, true;
  v_d_lookup_rcu := λ st, if look st =? 14 then None else Some (look st, 2);
  v_d_lookup := λ st, Some (look st);
  v_revalidate := λ _ _, 1;
  v_lookup_slow := λ st, PPtr (look st);
  v_follow_mount_rcu := λ _ _, None;
  v_traverse_mounts := λ st d,
    (if bool_decide (toy_inode d = None) then - ENOENT else 0,
     mk_path (p_mnt (nd_path (wk_nd st))) d, false, nd_total_link_count (wk_nd st));
  v_choose_mountpoint_rcu := λ _ _, None;
  v_choose_mountpoint := λ _ _, None;
  v_mnt_root := λ _, 10;
  v_path_connected := λ _ _, true;
  v_nosymfollow := λ _, false;
  v_path_is_under := λ _ _, true;
  v_may_exec := λ _ _, 0;
  v_security_follow_link := λ _ _, 0;
  v_protected_symlinks := false;
  v_owner_is_fsuid := λ _ _, true;
  v_sticky_world_writable := λ _, false;
  v_same_owner := λ _ _, true;
  v_i_link := λ _, None;
  v_get_link := λ _ d b, if b then GetBody (toy_body d) else GetErr (- ECHILD);
  v_atime := λ _ _, false;
  v_alloc_stack := λ _, true;
  v_fs_root := managed_dir;
  v_pwd := managed_dir;
  v_fd := λ _, None;
  v_fd_search := λ _, true
|}.
Definition toy {W} := toy_over (W := W) toy_lookup.

Lemma c_string_ok s :
  (length (bytes_of_string s) < 4096)%nat → forallb (λ b, (0 <=? b) && (b <? 256)) (c_string s) = true →
  cstring (c_string s) ∧ Forall is_byte (c_string s).
Proof.
  intros Hl Hb. split; [split|].
  - apply elem_of_app. right. by left.
  - unfold c_string, PATH_MAX. rewrite length_app. simpl. lia.
  - apply Forall_forall. intros b Hin. rewrite forallb_forall in Hb.
    apply list_elem_of_In in Hin. specialize (Hb b Hin). unfold_bools. unfold is_byte, in_width. lia.
Qed.
Lemma toy_body_ok d : cstring (toy_body d) ∧ Forall is_byte (toy_body d).
Proof.
  unfold toy_body. destruct (d =? 13); [apply c_string_ok; [vm_compute; lia|done]|].
  apply (c_string_ok ""); [vm_compute; lia|done].
Qed.

Section laws.
Context {W : Type} (run : W → path → bpf_namei_ext_ctx → Z * W * bpf_namei_ext_ctx).

Lemma toy_over_ok look : env_ok (toy_over look run).
Proof.
  split; try done.
  - intros st d [] body; [intros [= <-]; apply toy_body_ok|done].
  - by intros st d [].
Qed.
Lemma toy_ok : env_ok (toy run).
Proof. apply toy_over_ok. Qed.
Lemma toy_shows : shows (toy run) toy_tree.
Proof.
  split; try done.
  - intros st d seq. cbn. destruct (_ =? 14); [done|]. by intros [= <- _].
  - by intros st d [= <-].
  - by left.
  - intros st d. by exists false.
  - intros d. apply toy_body_ok.
  - intros d. cbn. unfold toy_inode. intros H. unfold_bools. by subst d.
  - by right.
  - by left.
  - by left.
Qed.
End laws.

(** ** The running system *)

Abbreviation toy_policy := (policy_of hash_mod example_prog cgroup_ino k5 2).
Definition toy_system : vfs unit := toy toy_policy.
Definition toy_walk : walk unit := start managed_dir "x" tt.
Definition toy_view : tree :=
  viewed hash_mod cgroup_ino toy_system (mk_targets (ts_table (wk_targets toy_walk)) ∅) k5 2
    hide_secret_view toy_tree.
Definition rounds : nat := 42.
Definition steps : nat := Z.to_nat 200000.

Definition toy_lookup_of (fuel : nat) (s : String.string) : option (Z * path * walk unit) :=
  filename_lookup toy_system (key_enabled k5)
    (namei_ext_parent_maybe_managed hash_mod (gs_scopes k5)) stack_redirect rounds fuel 0 AT_FDCWD
    (c_string s) {[LOOKUP_FOLLOW]} None toy_walk.

(** What the reference says. *)
Example toy_resolves :
  (λ s, resolve_pathname toy_system toy_view 40 None AT_FDCWD (c_string s) {[LOOKUP_FOLLOW]})
    <$> ["/secret"%string; "docs/secret"%string; "/docs/../docs//secret"%string; "l"%string;
         "docs/secret/"%string; "."%string; ""%string]
  = [inl (- ENOENT); inr (mk_path 1 14); inr (mk_path 1 14); inl (- ENOENT); inl (- ENOTDIR);
     inr managed_dir; inr managed_dir].
Proof. by vm_compute. Qed.
(** What the walk does. *)
Example toy_looks_up :
  (λ s, from_option fst (1, null_path) (toy_lookup_of 60 s))
    <$> ["/secret"%string; "docs/secret"%string; "/docs/../docs//secret"%string; "l"%string;
         "docs/secret/"%string; "."%string; ""%string]
  = [(- ENOENT, null_path); (0, mk_path 1 14); (0, mk_path 1 14); (- ENOENT, null_path);
     (- ENOTDIR, null_path); (0, managed_dir); (0, managed_dir)].
Proof. by vm_compute. Qed.

Lemma toy_request s :
  (length (bytes_of_string s) < 4096)%nat → forallb (λ b, (0 <=? b) && (b <? 256)) (c_string s) = true →
  request toy_system None (c_string s) {[LOOKUP_FOLLOW]} 0 rounds steps.
Proof.
  intros Hl Hb. destruct (c_string_ok s Hl Hb) as [Hc Hbytes]. pose proof (cstring_max _ Hc).
  split; try done.
  - intros f Hf Hs. apply elem_of_difference in Hf as [->%elem_of_singleton _]. by revert Hs; vm_compute.
  - unfold steps, PATH_MAX, MAXSYMLINKS in *. lia.
Qed.

Lemma toy_live : live k5 2.
Proof. by vm_compute. Qed.
Lemma toy_effective : effective_spec k5 2 = [50].
Proof. by vm_compute. Qed.
Lemma toy_means :
  means toy_system toy_view (mk_targets (ts_table (wk_targets toy_walk)) ∅).
Proof.
  apply (policy_means hash_mod hash_mod_lt no_anchor no_anchor no_anchor no_anchor no_purge
    example_prog cgroup_ino _ _ _ k5 2 50); [apply k5_reachable|apply toy_live|apply toy_effective|done| | |done].
  - exact hide_secret_verified.
  - exact hide_secret_name_view.
Qed.


Lemma lookup_is_resolution_witness :
  ∃ err p st', filename_lookup toy_system true (λ _, true) stack_redirect rounds steps 0 AT_FDCWD
      (c_string "docs/secret") {[LOOKUP_FOLLOW]} None toy_walk = Some (err, p, st') ∧
    err = 0 ∧ p = mk_path 1 14.
Proof.
  destruct (lookup_is_resolution toy_system toy_view stack_redirect None rounds steps AT_FDCWD
    (c_string "docs/secret") {[LOOKUP_FOLLOW]} 0 toy_walk) as (err & p & st' & Hl & Ha).
  - apply toy_ok.
  - apply (shows_view _ toy_tree); [done..|apply toy_shows].
  - apply toy_means.
  - by vm_compute.
  - apply toy_request; [vm_compute; lia|done].
  - exists err, p, st'. split; [exact Hl|]. destruct Ha as (k & _ & Ha).
    assert (∀ k, resolve_pathname toy_system toy_view k None AT_FDCWD (c_string "docs/secret")
      {[LOOKUP_FOLLOW]} = inr (mk_path 1 14)) as Hr by by intros []; vm_compute.
    rewrite Hr in Ha. exact Ha.
Defined.

Lemma view_is_tree_witness :
  resolve toy_system toy_view managed_dir 40 (mk_wish true false false) managed_dir
    [bytes_of_string "l"] =
  resolve toy_system (physical toy_view 99) managed_dir 40 (mk_wish true false false) managed_dir
    [bytes_of_string "l"].
Proof.
  apply view_is_tree; [|done]. intros p n. cbn. destruct (governs _ _ _ _); [|done].
  unfold hide_secret_view. by destruct (bool_decide _).
Defined.

(** ** What lookups hold *)

Lemma lookup_refs_balanced_witness :
  ∃ st', toy_lookup_of 60 "/docs/../docs//secret" = Some (0, mk_path 1 14, st') ∧
  ∀ q, q ≠ null_path → foreign_refs (wk_targets st') q =
    foreign_refs (wk_targets toy_walk) q + (if bool_decide (q = mk_path 1 14) then 1 else 0).
Proof.
  assert (∃ st', toy_lookup_of 60 "/docs/../docs//secret" = Some (0, mk_path 1 14, st'))
    as [st' Hl] by (eexists; by vm_compute).
  exists st'. split; [exact Hl|]. unfold toy_lookup_of in Hl. intros q Hq.
  assert (0 ∈ c_string "/docs/../docs//secret") as H0
    by (apply (c_string_ok "/docs/../docs//secret"); [vm_compute; lia|done]).
  pose proof (lookup_refs_balanced toy_system (toy_ok _) _ _ _ _ _ _ _ _ _ _ _ _ _ _ H0
    (Z.le_refl 0) Hl q Hq) as H.
  exact H.
Defined.

Lemma lookup_returns_witness : is_Some (toy_lookup_of steps "l").
Proof.
  apply (lookup_returns toy_system (toy_ok _)); [|done|done|].
  - by apply (c_string_ok "l"); [vm_compute; lia|].
  - unfold steps, PATH_MAX, MAXSYMLINKS. change (length (c_string "l")) with 2%nat. lia.
Defined.

Lemma link_stack_in_bounds_witness :
  stack_ok (wk_nd (walk_component toy_system true (λ _, true) stack_redirect WALK_TRAILING toy_walk).2).
Proof.
  apply (link_stack_in_bounds toy_system (toy_ok _) true (λ _, true) stack_redirect WALK_TRAILING 60
    (PPtr (c_string "l"))); [|done|].
  - split; unfold nd_depth; simpl; unfold EMBEDDED_LEVELS; lia.
  - by apply (c_string_ok "l"); [vm_compute; lia|].
Defined.
