(* ===== verification/WitnessesOpen.v ===== *)
(** * Opens of the concrete file system

    A file system in which everything may be opened over the tree of [WitnessesPath]; the policy of cgroup 2 hides "secret", and
    another one redirects "tool". *)

From S2P Require Import Prelude Abi PolicyLib PoliciesBasic PolicyProps Kernel Targets Scopes.
From S2P Require Import ScopeApi ScopeSystem Cgroups EffectiveFacts CgroupFacts Dispatch System.
From S2P Require Import Lookup LookupProps Walk SystemProps PathWalk PathOpen PathInv PathRefs PathSafe.
From S2P Require Import PathTotal PathOpenSafe PathOpenTotal PathOpenProps PathExact PathView PathViewFacts.
From S2P Require Import PathResolve PathOpenView PathOpenResolve PathPolicies PathOpenPolicies Example WitnessesPath.

Definition toy_mode (i : inode) : Z :=
  if (i_ino i =? 10) || (i_ino i =? 12) || (i_ino i =? 20) then S_IFDIR else if i_ino i =? 13 then S_IFLNK else S_IFREG.

Definition toy_open {W} : vopen W := {|
  o_want_write := λ _ _, 0;
  o_break_deleg_wait := λ st, (0, wk_maps st);
  o_dead_dir := λ _, false;
  o_d_lookup := λ st, Some (toy_lookup st);
  o_d_alloc_parallel := λ st, inr (toy_lookup st);
  o_in_lookup := λ _ _, false;
  o_invalidate := λ st _, wk_maps st;
  o_d_alloc := λ _ _, None;
  o_inode := λ _ d, toy_inode d;
  o_mode := toy_mode;
  o_append := λ _, false;
  o_is_dir := λ _ d, (d =? 10) || (d =? 12) || (d =? 20);
  o_is_reg := λ _ d, (d =? 11) || (d =? 14) || (d =? 15);
  o_inode_permission := λ _ _ _, 0;
  o_owner_or_capable := λ _ _, true;
  o_has_mapping := λ _, true;
  o_noexec := λ _, false;
  o_may_open_dev := λ _, true;
  o_protected_regular := 0;
  o_protected_fifos := 0;
  o_security_path_mknod := λ _ _, 0;
  o_security_inode_create := λ _ _, 0;
  o_security_file_post_open := λ _ _, 0;
  o_security_file_truncate := λ _ _, 0;
  o_try_break_deleg := λ _, (0, false);
  o_has_atomic_open := λ _, false;
  o_atomic_open := λ st _ _, mk_fs_open 0 false false NULL (wk_maps st);
  o_fs_lookup := λ st _, (PNull, wk_maps st);
  o_has_create := λ _, true;
  o_create := λ st _ _, (0, wk_maps st);
  o_has_tmpfile := λ _, false;
  o_tmpfile := λ st _, mk_fs_open 0 false false NULL (wk_maps st);
  o_dentry_open := λ st _, (0, true, wk_maps st);
  o_get_write_access := λ _ _, 0;
  o_truncate := λ st _, (0, wk_maps st);
  o_alloc_file := λ _, 0
|}.

Lemma toy_open_ok {W} : open_ok (W:=W) toy_open.
Proof. by split. Qed.
Lemma toy_shows_open {W} run : shows_open (W:=W) (toy run) toy_open toy_tree.
Proof. split; try done; [by intros st d [= <-]|by left]. Qed.
Lemma toy_settles {W} run : settles (W:=W) (toy run) toy_open (λ _, 0%nat) 1.
Proof. split; try done. intros w. lia. Qed.
Lemma open_read_plain : plain_open open_read.
Proof. by split. Qed.
Lemma read_intent : LOOKUP_RCU ∉ op_intent open_read.
Proof. cbn. by rewrite not_elem_of_singleton. Qed.

(** *** Under the policy of cgroup 2 *)

Definition toy_open_of (fuel : nat) (op : open_flags) (s : String.string)
  : option (Z * file * walk unit) :=
  do_file_open toy_system toy_open (key_enabled k5)
    (namei_ext_parent_maybe_managed hash_mod (gs_scopes k5)) stack_redirect rounds fuel 1 0 AT_FDCWD
    (c_string s) op toy_walk.

Definition open_create : open_flags :=
  mk_open O_CREAT 0 {[LOOKUP_OPEN; LOOKUP_CREATE]} {[LOOKUP_FOLLOW]}.

Example toy_opens :
  (λ s, from_option (λ r, (r.1.1, f_path r.1.2)) (1, null_path) (toy_open_of 60 open_read s))
    <$> ["/secret"%string; "docs/secret"%string; "l"%string; "docs/secret/"%string; "docs"%string]
  = [(- ENOENT, null_path); (0, mk_path 1 14); (- ENOENT, null_path); (- ENOTDIR, null_path);
     (0, mk_path 1 12)].
Proof. by vm_compute. Qed.
(** With O_CREAT: a hidden name is not created, a directory is not a file. *)
Example toy_creates :
  (λ s, from_option (λ r, (r.1.1, f_created r.1.2, f_path r.1.2)) (1, false, null_path)
    (toy_open_of 60 open_create s))
    <$> ["/secret"%string; "docs/secret"%string; "docs"%string]
  = [(- ENOENT, false, null_path); (0, false, mk_path 1 14);
     (- EISDIR, false, null_path)].
Proof. by vm_compute. Qed.

Lemma open_refs_balanced_witness :
  ∃ r, toy_open_of 60 open_read "docs/secret" = Some r ∧ balanced toy_walk r ∧ r.1.1 = 0.
Proof.
  assert (∃ r, toy_open_of 60 open_read "docs/secret" = Some r ∧ r.1.1 = 0) as (r & Hr & He)
    by (eexists; by vm_compute).
  exists r. split_and!; [exact Hr| |exact He].
  refine (proj1 (open_refs_balanced toy_system (toy_ok _) toy_open toy_open_ok _ _ stack_redirect
    rounds 60 1 0 AT_FDCWD (c_string "docs/secret") open_read _ (Z.le_refl 0) read_intent toy_walk) r Hr).
  apply (c_string_ok "docs/secret"); [vm_compute; lia|done].
Defined.

Lemma toy_short : short_redirects toy_system.
Proof.
  apply (policy_short hash_mod hash_mod_lt no_anchor no_anchor no_anchor no_anchor no_purge
    example_prog cgroup_ino _ k5 2); [apply k5_reachable|apply toy_live| |done].
  rewrite toy_effective. apply Forall_singleton. split; [exact hide_secret_verified|].
  exact hide_secret_short.
Qed.

Lemma create_intent : LOOKUP_RCU ∉ op_intent open_create.
Proof. cbn. by rewrite not_elem_of_union, !not_elem_of_singleton. Qed.

Lemma open_returns_witness : is_Some (toy_open_of steps open_create "l").
Proof.
  refine (proj1 (open_returns toy_system (toy_ok _) toy_open toy_open_ok _ _ stack_redirect rounds
    steps 1 0 AT_FDCWD (c_string "l") open_create _ (Z.le_refl 0) create_intent
    (λ _, 0%nat) toy_walk (toy_settles _) toy_short eq_refl eq_refl _)).
  - by apply (c_string_ok "l"); [vm_compute; lia|].
  - unfold steps, PATH_MAX, MAXSYMLINKS. change (length (c_string "l")) with 2%nat. lia.
Defined.



(** *** A redirected name *)

Definition alias_run (w : unit) (_ : path) (c : bpf_namei_ext_ctx) :=
  RedirectAlias.redirect_alias_policy w c.
Definition toy_alias : vfs unit := toy alias_run.
Definition alias_view : tree :=
  mk_tree toy_child (cross toy_tree) toy_body (λ _, redirect_alias_view (λ _, None)).

Lemma alias_means ts : means toy_alias alias_view ts.
Proof.
  intros w p f q Hq.
  assert (looks_up (namei_ext_init_ctx (v_backing_inode toy_alias) (Some p)
    (v_inode toy_alias (p_dentry p)) BPF_NAMEI_EXT_LOOKUP (v_flags_word toy_alias f) q) (q_bytes q))
    as Hc.
  { destruct (init_looks_up toy_alias 0 (Some p) (v_inode toy_alias (p_dentry p))
      (v_flags_word toy_alias f) q Hq) as [_ He Hl Hn]. split; [|done..].
    destruct Hq as [[??] ?]. by apply init_ctx_wf. }
  pose proof (redirect_alias_name_view (v_hash_min toy_alias) ts w _ _ Hc) as Hv.
  pose proof (prog_wf (p:=RedirectAlias.redirect_alias_policy) w _ (lu_wf _ _ Hc)) as Hwf.
  cbn [v_run toy_alias toy toy_over]. unfold alias_run.
  destruct (RedirectAlias.redirect_alias_policy w _) as [[action w'] c']. destruct Hv as [Hv Hl].
  split; [|auto]. rewrite Hv. cbn [view alias_view]. done.
Qed.

