(* ===== verification/WitnessesChange.v ===== *)
(** * Changes of the concrete file system

    The file system of [WitnessesPath] with names that may be removed and moved,
    but no room for new ones, and a delegation of everything that has to be
    broken first; the policy of cgroup 2 hides "secret". *)

From stdpp Require Import gmultiset.
From S2P Require Import Prelude Abi PolicyLib PoliciesBasic PolicyProps PolicyViews Kernel Targets Scopes.
From S2P Require Import ScopeApi ScopeSystem Cgroups EffectiveFacts CgroupFacts Dispatch System.
From S2P Require Import Lookup LookupProps Walk WalkProps SystemProps PathWalk PathOpen PathInv PathRefs PathSafe.
From S2P Require Import PathTotal PathExact PathView PathNames PathFrame PathViewFacts PathViewProps.
From S2P Require Import PathResolve PathPolicies PathParent PathPositive PathParentResolve.
From S2P Require Import PathChange PathChangeSafe PathChangeCalls Example WitnessesPath WitnessesOpen.

(** ** The file system

    91 and 92 are negative dentries in the cache: "moved" under the root and
    under "docs/sub". *)

Definition ENOSPC : Z := 28.

Record fs := mk_fs {
  fs_names : gmap Z (Z * list Z);  (** the parent and the name of a dentry *)
  fs_gone : gset Z;                (** dentries without an inode any more *)
  fs_leases : nat
}.

Definition fs_inode (w : fs) (d : Z) : option inode :=
  if decide (d ∈ fs_gone w) then None else toy_inode d.
Definition fs_parent (w : fs) (d : Z) : Z := from_option fst 10 (fs_names w !! d).
Definition fs_is_dir (w : fs) (d : Z) : bool :=
  match fs_inode w d with Some _ => (d =? 10) || (d =? 12) || (d =? 20) | None => false end.
Definition fs_lookup (w : fs) (base : Z) (name : list Z) : option Z :=
  find (λ d, (fs_parent w d =? base) && negb (d =? base) &&
             bool_decide (snd <$> fs_names w !! d = Some name))
    [11; 12; 13; 14; 15; 20; 91; 92].

(** [d] gets the name and the parent of [d']. *)
Definition fs_renamed (d d' : Z) (w : fs) (names : gmap Z (Z * list Z)) : gmap Z (Z * list Z) :=
  <[ d := (fs_parent w d', from_option snd [] (fs_names w !! d')) ]> names.
Definition fs_move (w : fs) (d d' : Z) : fs :=
  mk_fs (fs_renamed d d' w (fs_names w)) (fs_gone w) (fs_leases w).
Definition fs_exchange (w : fs) (d d' : Z) : fs :=
  mk_fs (fs_renamed d d' w (fs_renamed d' d w (fs_names w))) (fs_gone w) (fs_leases w).
Definition fs_delete (w : fs) (d : Z) : fs :=
  mk_fs (fs_names w) ({[ d ]} ∪ fs_gone w) (fs_leases w).
Definition fs_unlease (w : fs) : Z * fs :=
  match fs_leases w with O => (- EBUSY, w) | S n => (0, mk_fs (fs_names w) (fs_gone w) n) end.

Definition toy_fs : fs := {|
  fs_names := list_to_map [
    (11, (10, bytes_of_string "secret")); (12, (10, bytes_of_string "docs"));
    (13, (10, bytes_of_string "l")); (15, (10, bytes_of_string "tool.real"));
    (14, (12, bytes_of_string "secret")); (20, (12, bytes_of_string "sub"));
    (91, (10, bytes_of_string "moved")); (92, (20, bytes_of_string "moved"))];
  fs_gone := ∅;
  fs_leases := 1
|}.

Definition changing_system : vfs fs :=
  toy_over (λ st, default 99 (fs_lookup (wk_maps st) (p_dentry (nd_path (wk_nd st)))
                                (q_bytes (nd_last (wk_nd st)))))
    (λ w p c, let '(action, _, c) := toy_policy () p c in (action, w, c)).

Definition toy_change : vchange fs := {|
  c_inode := fs_inode;
  c_parent := fs_parent;
  c_is_dir := fs_is_dir;
  c_sb := λ _, 8;
  c_backing_inode := fs_inode;
  c_nfs_renamed := λ _ _, false;
  c_i_sb := λ _, 8;
  c_mode := λ _, toy_mode;
  c_nlink := λ _ _, 1;
  c_max_links := λ _, 0;
  c_append := λ _ _, false;
  c_immutable := λ _ _, false;
  c_swapfile := λ _ _, false;
  c_dead := λ _ _, false;
  c_kernel_file := λ _ _, false;
  c_linkable := λ _ _, false;
  c_valid_ids := λ _ _ _, true;
  c_unmapped_id := λ _ _ _, false;
  c_permission := λ _ _ _ _, 0;
  c_check_sticky := λ _ _ _ _, false;
  c_has_mapping := λ _ _, true;
  c_owner_or_capable := λ _ _ _, true;
  c_capable_mknod := true;
  c_protected_hardlinks := true;
  c_decode_dev := λ dev, dev;
  c_strip_sgid := λ _ _ m, m;
  c_strip_umask := λ _ m, m;
  c_security := λ _ _, 0;
  c_mountpoint := λ _ _, false;
  c_want_write := λ _ _, 0;
  c_try_break_deleg := λ w _, if (fs_leases w =? 0)%nat then (0, false) else (- EAGAIN, true);
  c_break_deleg_wait := fs_unlease;
  c_retry_estale := λ e f, (e =? - ESTALE) && negb (fl LOOKUP_REVAL f);
  c_d_lookup := λ w base q, fs_lookup w base (q_bytes q);
  c_revalidate := λ _ _ _, 1;
  c_invalidate := λ w _, w;
  c_d_alloc := λ w _ _, (None, w);
  c_d_delete := fs_delete;
  c_shrink := λ w _, w;
  c_dont_mount := λ w _, w;
  c_detach_mounts := λ w _, w;
  c_d_move := fs_move;
  c_d_exchange := fs_exchange;
  c_set_dead := λ w _, w;
  c_clear_linkable := λ w _, w;
  c_has := λ _ _, true;
  c_does_d_move := λ _, false;
  c_lookup := λ w _ _ _, (PErr (- ENOENT), w);
  c_create := λ w _ _ _, (- ENOSPC, w);
  c_mknod := λ w _ _ _ _, (- ENOSPC, w);
  c_mkdir := λ w _ _ _, (PErr (- ENOSPC), w);
  c_rmdir := λ w _ _, (0, w);
  c_unlink := λ w _ _, (0, w);
  c_symlink := λ w _ _ _, (- ENOSPC, w);
  c_link := λ w _ _ _, (- ENOSPC, w);
  c_rename := λ w _ _ _ _ _, (0, w)
|}.

Definition toy_call (c : syscall) (s : change fs) : outcome fs Z :=
  run_call changing_system toy_change 5 (key_enabled k5)
    (namei_ext_parent_maybe_managed hash_mod (gs_scopes k5)) stack_redirect rounds 400 3 0 c s.
Definition toy_start (w : fs) : change fs := mk_change (start managed_dir "x" w) ∅ false.
(** What the calls return, one after the other, each in the world the last left. *)
Fixpoint toy_calls (cs : list syscall) (w : fs) : list (option Z) :=
  match cs with
  | [] => []
  | c :: cs =>
      match toy_call c (toy_start w) with
      | Done e s => Some e :: toy_calls cs (wk_maps (ch_walk s))
      | Crash _ => [None]
      end
  end.
Abbreviation rename_to a b f := (Renameat2 AT_FDCWD (c_string a) AT_FDCWD (c_string b) f).
Abbreviation unlink_of a := (Unlinkat AT_FDCWD (c_string a) 0).

(** The policy hides "secret" from lookups, not from [unlink]. *)
Example unlink_ignores_policy :
  toy_calls [unlink_of "secret"; unlink_of "secret"; unlink_of "docs/secret"; unlink_of "docs";
             unlink_of "l/"; unlink_of "secret/x"] toy_fs
  = [Some 0; Some (- ENOENT); Some 0; Some (- EISDIR); Some (- ENOTDIR); Some (- ENOENT)].
Proof. by vm_compute. Qed.
(** A directory does not move below itself; when "sub" has moved up, "docs" may
    move below it. *)
Example renames_run :
  toy_calls [rename_to "docs" "docs/sub/moved" 0; rename_to "docs" "docs/sub" RENAME_EXCHANGE;
             rename_to "docs/sub" "docs" 0; rename_to "docs/sub" "moved" 0;
             rename_to "docs" "moved/moved" 0; rename_to "moved" "moved/moved/secret" 0;
             rename_to "moved" "l" RENAME_NOREPLACE; rename_to "moved/moved/secret" "moved" RENAME_EXCHANGE;
             rename_to "l" "." 0] toy_fs
  = [Some (- EINVAL); Some (- EINVAL); Some (- ENOTEMPTY); Some 0; Some 0; Some (- EINVAL);
     Some (- EEXIST); Some (- EINVAL); Some (- EBUSY)].
Proof. by vm_compute. Qed.

(** ** What the theorems assume *)

Abbreviation fs_grows := (grows changing_system toy_change 5 fs_leases).
Abbreviation fs_keeps := (keeps changing_system toy_change 5 fs_leases).

Lemma fs_child w base name d : fs_lookup w base name = Some d → child toy_change w base d.
Proof.
  unfold fs_lookup. intros [_ H]%find_some. unfold_bools. split; cbn; [done|]. intros ->. congruence.
Qed.

Lemma fs_policy_runs : runs_in changing_system fs_grows.
Proof.
  intros w p c. assert ((v_run changing_system w p c).1.2 = w) as ->; [|reflexivity].
  change (v_run changing_system w p c) with
    (let '(action, _, c') := toy_policy () p c in (action, w, c')).
  by destruct (toy_policy () p c) as [[??]?].
Qed.

Lemma fs_unleases w e w' : fs_unlease w = (e, w') →
  fs_grows w w' ∧ (e = 0 → (fs_leases w' < fs_leases w)%nat).
Proof.
  unfold fs_unlease. destruct (fs_leases w) as [|n] eqn:Hn; intros [= <- <-].
  - split; [reflexivity|done].
  - split; [|cbn; lia]. split; try done; [by intros []; split|cbn; lia].
Qed.

Lemma fs_deletes w d : spares toy_change d w (fs_delete w d).
Proof.
  split; [|done|].
  - intros x i Hx. unfold c_inode, toy_change, fs_inode. cbn [fs_delete fs_gone].
    destruct (decide (x ∈ fs_gone w)); [done|]. rewrite decide_False; [done|].
    by intros [?%elem_of_singleton|?]%elem_of_union.
  - intros Ha x Hx. apply Ha. revert Hx. unfold c_is_dir, toy_change, fs_is_dir, fs_inode.
    cbn [fs_delete fs_gone]. destruct (decide (x ∈ fs_gone w)); [|by destruct (decide _)].
    rewrite decide_True by set_solver. done.
Qed.

Lemma fs_parent_renamed w names d d' gone l x :
  fs_parent (mk_fs (fs_renamed d d' w names) gone l) x =
    if x =? d then fs_parent w d' else fs_parent (mk_fs names gone l) x.
Proof.
  unfold fs_renamed, fs_parent. cbn [fs_names]. destruct (x =? d) eqn:Hx; unfold_bools.
  - subst x. by rewrite lookup_insert_eq.
  - by rewrite lookup_insert_ne.
Qed.

Lemma toy_changes : change_ok changing_system toy_change 5 fs_leases.
Proof.
  split; [exact fs_policy_runs|..]; try (intros; reflexivity).
  - intros w d. apply fs_deletes.
  - intros w d d'. split; [done..|]. intros x. apply fs_parent_renamed.
  - intros w d d'. split; [done..|]. intros x. unfold with_exchange.
    etrans; [apply fs_parent_renamed|]. destruct (x =? d); [done|]. apply fs_parent_renamed.
  - intros w base q d. apply fs_child.
  - intros w base q r w' [= <- <-]. by split; [reflexivity|].
  - intros w base dir d f r w' _ _ [= <- <-]. by split; [reflexivity|].
  - intros w dir d mode r w' [= <- <-]. by split; [reflexivity|].
  - intros w dir d dir' d' f e w' [= <- <-]. by split.
  - intros w i. cbn. by destruct (_ =? 0)%nat.
  - exact fs_unleases.
  - intros e f. cbn. intros H. unfold_bools. split; [done|]. revert H0. unfold fl.
    by rewrite bool_decide_eq_false.
Qed.

Lemma toy_positive : positive_ok changing_system.
Proof.
  split; try done.
  - intros d. cbn. intros H. assert (d = 10 ∨ d = 12 ∨ d = 20) as [-> |[-> | ->]] by (unfold_bools; lia); eauto.
  - intros st d err p j c. cbn. intros [= <- <- <- <-]. case_bool_decide as Hd; [done|].
    intros _. cbn. by destruct (toy_inode d).
  - by intros st d [].
Qed.

Lemma toy_dir d : fs_is_dir toy_fs d = true → d = 10 ∨ d = 12 ∨ d = 20.
Proof. unfold fs_is_dir. destruct (fs_inode toy_fs d); [|done]. intros H. unfold_bools. lia. Qed.
Lemma toy_fs_inode d i : fs_inode toy_fs d = Some i → i_ino i = d.
Proof.
  unfold fs_inode. destruct (decide _); [done|]. unfold toy_inode. destruct (_ <=? _); [done|].
  by intros [= <-].
Qed.

Lemma toy_tree_ok : tree_ok changing_system toy_change 5 toy_fs.
Proof.
  split.
  - intros d. cbn. intros H.
    assert (d = 10 ∨ d = 12 ∨ d = 20) as [-> |[-> | ->]] by (unfold_bools; lia); by vm_compute.
  - done.
  - intros d [-> |[-> | ->]]%toy_dir; by eexists.
  - done.
  - intros d d' i _ Hd%toy_fs_inode Hd'%toy_fs_inode. congruence.
  - intros d i [-> |[-> | ->]]%toy_dir [= <-]; by vm_compute.
  - exists (λ d, if d =? 10 then 0%nat else if d =? 12 then 1%nat else 2%nat).
    intros d [-> |[-> | ->]]%toy_dir; (split; [vm_compute; lia|]); vm_compute; auto 10.
Qed.

Lemma toy_can_change c :
  Forall cstring (call_names c) →
  can_change changing_system toy_change 5 fs_leases rounds steps 3 0 c (toy_start toy_fs).
Proof.
  intros Hc. split.
  - apply toy_over_ok.
  - apply toy_positive.
  - apply toy_changes.
  - done.
  - done.
  - apply toy_tree_ok.
  - exact Hc.
  - done.
  - unfold MAXSYMLINKS, rounds. lia.
  - unfold steps, PATH_MAX, MAXSYMLINKS. lia.
  - cbn. lia.
  - done.
  - done.
Qed.

(** ** The theorems at it *)

Abbreviation toy_run := (run_call changing_system toy_change 5 (key_enabled k5)
    (namei_ext_parent_maybe_managed hash_mod (gs_scopes k5)) stack_redirect rounds steps 3 0).
Definition moving_sub : syscall := rename_to "docs/sub" "moved" 0.

Lemma moving_sub_names : Forall cstring (call_names moving_sub).
Proof.
  cbn [moving_sub call_names]. rewrite !Forall_cons.
  split_and!; [apply c_string_ok; [vm_compute; lia|done]..|done].
Qed.

Lemma change_calls_safe_witness :
  ∃ e s', toy_run moving_sub (toy_start toy_fs) = Done e s' ∧ ch_held s' = ∅ ∧ ch_delegated s' = false.
Proof.
  destruct (change_calls_safe changing_system toy_change 5 fs_leases (key_enabled k5)
    (namei_ext_parent_maybe_managed hash_mod (gs_scopes k5)) stack_redirect rounds steps 3 0
    moving_sub (toy_start toy_fs)) as (e & s' & Hr & Hh & Hd & _).
  - apply toy_can_change, moving_sub_names.
  - exists e, s'. split; [exact Hr|split; [exact Hh|exact Hd]].
Defined.


