(* ===== verification/WitnessesIo.v ===== *)
(** * The theorems at concrete inputs, continued

    The policies' views, targets, enumeration, the control files and the
    harness. *)

From S2P Require Import Prelude Abi PolicyLib PoliciesBasic PoliciesTable PoliciesFamily.
From S2P Require Import PolicyFacts PolicyProps PolicyViews Kernel Targets Scopes ScopeFacts.
From S2P Require Import Lookup Walk LookupProps WalkProps Readdir ReaddirProps Control.
From S2P Require Import Harness HarnessProps Example.

(** ** Views *)

Definition ctx_of (event cg : Z) (s : String.string) : bpf_namei_ext_ctx :=
  set_cgroup_id cg (namei_ext_init_ctx cache_inode (Some managed_dir) (cache_inode 10)
                      event 0 (example_name s)).

Definition action_7 : BuildActionSandboxing.bas_maps :=
  BuildActionSandboxing.mk_bas ∅ {[root_of 7 8 1234 := 1]}
    {[ctx_key (ctx_of BPF_NAMEI_EXT_LOOKUP 7 "main.c") := 1]} [].

(** The undeclared header is hidden, from lookups and from listings. *)
Lemma build_action_hermetic_witness :
  (∀ event, answer (BuildActionSandboxing.build_action_sandboxing_policy action_7
     (ctx_of event 7 "util.h")) = hide (ctx_of event 7 "util.h")) ∧
  (∀ event, answer (BuildActionSandboxing.build_action_sandboxing_policy action_7
     (ctx_of event 7 "main.c")) = pass (ctx_of event 7 "main.c")).
Proof.
  split; intros event; rewrite (build_action_hermetic action_7 7 8 1234) by done;
    by vm_compute.
Defined.

(** Cgroup 7 holds a grant on the document, cgroup 9 does not. *)
Definition shared_doc (cg : Z) : bpf_namei_ext_ctx := ctx_of BPF_NAMEI_EXT_LOOKUP cg "document".
Definition sharing (grants : bpf_hash Z) : ApplicationFileSharing.afs_maps :=
  ApplicationFileSharing.mk_afs
    {[set_key_cgroup_id 0 (ctx_key (shared_doc 7)) := 1]} grants [].
Definition grant_7 : bpf_hash Z := {[ctx_key (shared_doc 7) := 4]}.

Lemma sharing_is_isolated_witness :
  answer (ApplicationFileSharing.application_file_sharing_policy (sharing grant_7)
            (shared_doc 9)) = hide (shared_doc 9) ∧
  answer (ApplicationFileSharing.application_file_sharing_policy (sharing grant_7)
            (shared_doc 7)) = select 4 (shared_doc 7).
Proof.
  destruct (sharing_is_isolated (sharing ∅) (sharing grant_7) (shared_doc 9))
    as (_ & _ & ->); [by vm_compute|by vm_compute|done| |].
  - intros k Hk. simpl. rewrite lookup_empty. apply lookup_singleton_ne.
    intros <-. by vm_compute in Hk.
  - destruct (sharing_is_isolated (sharing grant_7) (sharing grant_7) (shared_doc 7))
      as (_ & Hg & _); [by vm_compute|by vm_compute|done|done|].
    split; [by vm_compute|]. apply (Hg 4); [by vm_compute|done|by vm_compute].
Defined.

(** ** The walk *)

(** The stack holds 170 in every byte: the redirected name seems to end in a
    slash. *)
Definition tool_ctx : bpf_namei_ext_ctx :=
  (RedirectAlias.redirect_alias_policy tt (ctx_of BPF_NAMEI_EXT_LOOKUP 7 "tool")).2.

Lemma tool_ctx_wf : ctx_wf tool_ctx.
Proof.
  apply (prog_wf (p:=RedirectAlias.redirect_alias_policy)), set_cgroup_id_wf, init_ctx_wf;
    by vm_compute.
Qed.

Lemma redirected_slash_unrelated_to_path_witness :
  ∃ saved nd', namei_ext_apply_redirect (at_name managed_dir "tool")
    (namei_ext_fill_redirect cache_hash managed_dir tool_ctx stack_redirect) =
    Some (saved, nd') ∧ q_bytes (nd_last nd') = bytes_of_string "tool.real" ∧
  trailing_slashes nd' = Some true.
Proof.
  do 2 eexists. split; [done|]. split; [by vm_compute|].
  rewrite (redirected_slash_unrelated_to_path cache_hash managed_dir tool_ctx stack_redirect
    (at_name managed_dir "tool") (nd_last (at_name managed_dir "tool")));
    [by vm_compute|apply tool_ctx_wf|by vm_compute..|done].
Defined.

Definition run_portal (w : unit) (_ : path) (c : bpf_namei_ext_ctx) :=
  SelectPortal.fxmark_select_policy w (set_cgroup_id 7 c).
Definition portal : path := mk_path 1 30.
(** The writer's reference on the directory it registers. *)
Definition opened : targets_state := mk_targets (ts_table empty_targets) {[portal := 1]}.
Definition one_target : targets_state :=
  (namei_ext_register_target hash_mod true false 7 1 portal opened).2.
Definition at_view : walk unit := mk_walk (at_name managed_dir "view") one_target tt.
Definition portal_ctx : bpf_namei_ext_ctx :=
  (policy_answer cache_inode no_flags_word run_portal at_view).2.

Lemma one_target_repr : targets_repr hash_mod one_target {[(7, 1) := portal]}.
Proof.
  assert (targets_repr hash_mod opened ∅) as H
    by (destruct (empty_targets_repr hash_mod hash_mod_lt_targets); by split).
  exact (register_target_repr hash_mod hash_mod_lt_targets opened ∅ true false 7 1 portal H).
Qed.


(** ** Enumeration *)

Definition run_dir (w : unit) (c : bpf_namei_ext_ctx) := HideSecret.hide_secret_policy w c.
Definition secret_view (name : list Z) : option (list Z) :=
  if bool_decide (name = bytes_of_string "secret") then None else Some name.
Definition entry (ino : Z) (s : String.string) : dir_entry :=
  mk_entry (bytes_of_string s) 0 ino 8 false.
Definition listing : list dir_entry := [entry 1 "a"; entry 2 "secret"; entry 3 "b"].
Definition dir_inode : inode := mk_inode (Some 8) 1234 1.

(** The smallest buffer that holds one of these records. *)
Lemma getdents_delivers_view_witness :
  ∃ ds, read_all cache_inode cache_hash run_dir managed_dir dir_inode 4 listing 24 0 tt = Some ds ∧
    shown <$> ds = [(1, 8, bytes_of_string "a"); (3, 8, bytes_of_string "b")].
Proof.
  apply (getdents_delivers_view cache_inode cache_hash run_dir managed_dir dir_inode
    secret_view listing 24 tt).
  - intros e [] He. unfold listing in He.
    repeat (apply elem_of_cons in He as [-> | He]; [by vm_compute; naive_solver|]).
    by apply elem_of_nil in He.
  - intros e t He Ht. unfold listing in He.
    repeat (apply elem_of_cons in He as [-> | He];
      [by vm_compute in Ht; simplify_eq; vm_compute|]).
    by apply elem_of_nil in He.
Defined.

(** A policy that answers SELECT_TARGET to an enumeration. *)
Lemma readdir_error_delivered_witness :
  let '(ret, ds, p, _) := read_call cache_inode cache_hash
    (λ w c, (BPF_NAMEI_EXT_SELECT_TARGET, w, c)) managed_dir dir_inode listing 1024 0 tt in
  ret = - EOPNOTSUPP ∧ ds = [] ∧ p = 0.
Proof.
  apply (readdir_error_delivered cache_inode cache_hash
    (λ w c, (BPF_NAMEI_EXT_SELECT_TARGET, w, c)) managed_dir dir_inode listing 1024
    (entry 1 "a") [entry 2 "secret"; entry 3 "b"] tt); [done|done|].
  split; [done|]. by right; right.
Defined.

(** ** The control files *)

Definition is_clear (l : list Z) : bool :=
  bool_decide (l = bytes_of_string "clear") ||
  bool_decide (l = bytes_of_string "clear" ++ [10]).
Definition open_files (fd : Z) : option path :=
  if fd =? 3 then Some portal else None.
Definition cgroup_7 : write_env := mk_env true 7 true true false 7 (Some 1).
Definition no_control : control_state := mk_control empty_targets (initial_scopes) 0 0.

Lemma register_write_refines_witness :
  let '(ret, st') := namei_ext_register_target_write hash_mod id open_files is_clear scan_uu
                       cgroup_7 (bytes_of_string "1 3") no_control in
  ret = 3 ∧ targets_repr hash_mod (ct_targets st') {[(7, 1) := portal]}.
Proof.
  pose proof (register_write_refines hash_mod hash_mod_lt_targets id open_files is_clear scan_uu
    cgroup_7 (bytes_of_string "1 3") no_control ∅
    (empty_targets_repr hash_mod hash_mod_lt_targets)) as H.
  destruct (namei_ext_register_target_write _ _ _ _ _ _ _ _) as [ret st'] eqn:E.
  assert (ret = 3) as Hret by (vm_compute in E; by injection E as <- _).
  destruct H as ([[H _]|[_ H]] & _); [lia|]. by split.
Defined.

Definition scan_command (_ : list Z) : list Z * Z * Z := (bytes_of_string "set", 3, 2).
(** Cgroup 7 runs under the policy of cgroup 5. *)
Definition guest_7 : write_env := mk_env true 7 true true false 5 (Some 1).

Lemma parent_write_confined_witness :
  let '(ret, st') := namei_ext_policy_parent_write hash_mod open_files cache_dir scan_command
                       guest_7 (bytes_of_string "set 3") no_control in
  scope_view (ct_scopes st') 7 = scope_view initial_scopes 7.
Proof.
  pose proof (parent_write_confined hash_mod open_files cache_dir scan_command guest_7
    (bytes_of_string "set 3") no_control 7) as H.
  destruct (namei_ext_policy_parent_write _ _ _ _ _ _ _) as [ret st'].
  destruct H as (H & _). apply H. by right.
Defined.

(** ** The harness *)

Definition stat_disk (_ : list Z) : stat_t + Z := inl (mk_stat 8 1234).
Definition map_ok : map_info := mk_map_info 5 sizeof_component_key 4.

Lemma harness_key_is_kernel_key_witness :
  ∃ key, fill_component_key stat_disk 7 (bytes_of_string "/d") (bytes_of_string "x") = inl key ∧
    key = kernel_key cache_inode 7 None (Some dir_inode) BPF_NAMEI_EXT_LOOKUP 0
            (mk_qstr 0 1 (bytes_of_string "x")).
Proof.
  destruct (harness_key_is_kernel_key cache_inode stat_disk 7 (bytes_of_string "/d")
    (bytes_of_string "x") (mk_stat 8 1234) dir_inode 0 0 8) as (key & Hk & Hiff);
    [done|by vm_compute; lia|done|done|].
  exists key. split; [done|]. by apply Hiff.
Defined.

Definition key_x : namei_ext_component_key :=
  mk_key 0 1 7 8 1234 (zero_pad NAME_MAX_nat (bytes_of_string "x")).

Lemma component_map_roundtrip_witness :
  namei_ext_component_map_lookup stat_disk true (Some map_ok) 7 (bytes_of_string "/d")
    (bytes_of_string "x") (Some 0) {[key_x := 9]} = (0, Some 9).
Proof.
  destruct (component_map_roundtrip stat_disk true (Some map_ok) 7 (bytes_of_string "/d")
    (bytes_of_string "x") key_x 9 ∅ {[key_x := 9]}) as [H _]; [done..|exact H].
Defined.

(** Only "/t" can be opened. *)
Definition open_t (p : list Z) : Z + Z :=
  if bool_decide (p = bytes_of_string "/t") then inl 3 else inr ENOENT.

Lemma messages_read : reads_messages is_clear scan_uu.
Proof.
  intros a b Ha Hb. split; [by apply scan_uu_message|].
  unfold register_message, is_clear.
  destruct (fmt_u_spec a Ha) as (Hd & Hn & _). destruct (fmt_u a) as [|d ds]; [done|].
  apply Forall_cons in Hd as [Hd _]. unfold digit in Hd.
  rewrite !bool_decide_false; [done|..]; simpl; intros [= Hc _]; vm_compute in Hc; lia.
Qed.
Lemma opens_t : opens_ok open_files open_t.
Proof.
  intros p. unfold open_t. case_bool_decide; [|done]. split; [by vm_compute|].
  by exists portal.
Qed.


(** The clock moves a second at each reading and the child never ends. *)
Definition slow_clock (n : nat) : Z + Z := inl (1000000000 * Z.of_nat n).

Lemma wait_control_terminates_witness :
  ∃ ret, namei_ext_wait_control_child slow_clock (λ _, NotYet) None 60 = Some ret.
Proof. apply (wait_control_terminates slow_clock (λ _, NotYet) None 0 59); by vm_compute. Defined.

Definition finishes (n : nat) : wait_poll := if (n <? 2)%nat then NotYet else Ready (Exited 0).

Lemma wait_control_success_witness : ∃ i, finishes i = Ready (Exited 0).
Proof.
  apply (wait_control_success slow_clock finishes None 5); [done|..|by vm_compute].
  - intros i e. unfold finishes. by destruct (_ <? _)%nat.
  - done.
Defined.

(** ** The FUSE daemon

    "/b" has "main.txt" and a "deleted.txt" that is not to be seen.  The pipes
    take and give three bytes at a time, after being interrupted. *)

From S2P Require Import PathInv PathView PathPolicies WitnessesPath FuseDaemon.

Record pipe_world := mk_pipes { pw_in : list Z; pw_out : list Z; pw_interrupts : nat }.

Definition backing_files : list (list Z) :=
  [bytes_of_string "/b"; bytes_of_string "/b/main.txt"; bytes_of_string "/b/deleted.txt"].
Definition plain_stat : stat_buf := mk_stat_buf 0x81a4 1 [].

Definition toy_host : host pipe_world := {|
  h_lstat := λ p _, if bool_decide (p ∈ backing_files) then inl plain_stat else inr ENOENT;
  h_opendir := λ _ _, inl [];
  h_open := λ _ _ _ h, (inl 3, h);
  h_close := λ _ h, (None, h);
  h_mknod := λ _ _ _ h, (None, h);
  h_pread := λ _ _ _ _, inl [];
  h_pwrite := λ _ _ _ h, (inl 0, h);
  h_truncate := λ _ _ h, (None, h);
  h_readlink := λ _ _ _, inl [];
  h_unlink := λ _ h, (None, h);
  h_rename := λ _ _ h, (None, h);
  h_invalidate := λ _ h, (0, h);
  h_read := λ size h,
    match pw_interrupts h with
    | S n => (inr EINTR, mk_pipes (pw_in h) (pw_out h) n)
    | O => let n := Nat.min 3 size in
           (inl (take n (pw_in h)), mk_pipes (drop n (pw_in h)) (pw_out h) O)
    end;
  h_write := λ buf h,
    (inl (Z.of_nat (Nat.min 3 (length buf))), mk_pipes (pw_in h) (pw_out h ++ take 3 buf) (pw_interrupts h))
|}.

Lemma toy_pipes : pipes_ok toy_host pw_in pw_out pw_interrupts.
Proof.
  split.
  - intros size h Hs. cbn -[Nat.min take drop]. destruct (pw_interrupts h) eqn:Hn.
    + cbn -[Nat.min take drop]. rewrite take_drop, length_take. split_and!; try (done || lia).
      intros Ht. destruct (pw_in h), size; done || lia.
    + cbn. split_and!; try done. lia.
  - intros buf h Hb. cbn -[Nat.min take drop]. rewrite Nat2Z.id. destruct buf as [|b buf]; [done|].
    split_and!; [cbn [length]; lia..| |done|lia]. f_equal.
    destruct (decide (length (b :: buf) ≤ 3)%nat).
    + by rewrite !take_ge by lia.
    + by rewrite Nat.min_l by lia.
  - intros path h. cbn. done.
Qed.

Definition toy_daemon : fuse_workspace_state :=
  mk_workspace (bytes_of_string "/b") (bytes_of_string "/u") 0 (replicate 19 0).
Definition epoch_requests : list fuse_control_request := [mk_request 1 1; mk_request 1 5; mk_request 7 0].
Definition toy_requests : pipe_world :=
  mk_pipes (concat (map request_bytes epoch_requests) ++ request_bytes (mk_request 2 0) ++ []) [] 4.

Lemma control_serves_requests_witness :
  ∃ s' h', fuse_control_loop toy_host 20 4 (toy_daemon, toy_requests) = Some (0, (s', h')) ∧
    ws_active_epoch s' = 1 ∧ length (pw_out h') = 32%nat.
Proof.
  destruct (control_serves_requests toy_host pw_in pw_out pw_interrupts toy_pipes 20 4 epoch_requests
    (Some (mk_request 2 0, [])) toy_daemon toy_requests) as (rs & s' & h' & Hl & Hr & Hs & He & _).
  - repeat constructor; done || (unfold in_int; cbn; lia).
  - done.
  - split; [|done]. split; unfold in_int; cbn; lia.
  - cbn. unfold sizeof_message. lia.
  - cbn. lia.
  - exists s', h'. split; [exact Hl|]. split; [exact He|]. rewrite Hs.
    apply Forall2_length in Hr. destruct rs as [|? [|? [|? [|]]]]; done.
Defined.

Definition component_ctx (n : list Z) : bpf_namei_ext_ctx :=
  set_cgroup_id 7 (namei_ext_init_ctx (λ _, None) (Some managed_dir) (cache_inode 10)
    BPF_NAMEI_EXT_LOOKUP 0 (mk_qstr 0 (Z.of_nat (length n)) n)).
Definition base_target : namei_ext_target := mk_target 7 1 portal.
Definition base_registered : targets_state :=
  mk_targets (<[ target_bkt hash_mod 7 1 := [base_target] ]> (ts_table empty_targets)) ∅.
Definition view_governs (t : list Z) : bool :=
  bool_decide (t = bytes_of_string "/v") || bool_decide (t = bytes_of_string "/b").

Lemma component_ctx_ok n :
  Z.of_nat (length n) < PATH_MAX → looks_up (component_ctx n) n ∧ ctx_cgroup_id (component_ctx n) = 7.
Proof.
  intros Hn. split; [|done]. set (q := mk_qstr 0 (Z.of_nat (length n)) n).
  assert (q_bytes q = n) as Hq by (unfold q_bytes; cbn; by rewrite Nat2Z.id, take_ge).
  rewrite <- Hq at 2. apply (init_looks_up toy_system 7 (Some managed_dir) (cache_inode 10) 0 q).
  unfold name_ok, in_width. cbn. unfold PATH_MAX in Hn. lia.
Qed.

(** "main.txt" is there for both, "deleted.txt" for neither. *)
Lemma fuse_answers_as_policy_witness :
  (∀ st, (lookup_over_fuse toy_host [] [bytes_of_string "ws"; deleted_txt] st
      (toy_daemon, toy_requests)).1 = (- ENOENT, zero_stat)) ∧
  lookup_in_view toy_host hash_mod base_registered (λ _, bytes_of_string "/b") component_ctx
    view_governs toy_requests (bytes_of_string "/v")
    [bytes_of_string "ws"; bytes_of_string "main.txt"] zero_stat [] = (0, plain_stat).
Proof.
  assert (∀ n, component n → n ≠ bytes_of_string "ws" → Z.of_nat (length n) < 100 →
    ∀ st, (lookup_over_fuse toy_host [] [bytes_of_string "ws"; n] st (toy_daemon, toy_requests)).1 =
    lookup_in_view toy_host hash_mod base_registered (λ _, bytes_of_string "/b") component_ctx
      view_governs toy_requests (bytes_of_string "/v") [bytes_of_string "ws"; n] st []) as H.
  { intros n Hc Hws Hl st.
    apply (fuse_answers_as_policy toy_host hash_mod base_registered (λ _, bytes_of_string "/b")
      component_ctx view_governs 7 base_target component_ctx_ok eq_refl).
    - by constructor.
    - by intros [= ->].
    - done.
    - done.
    - intros t. unfold view_governs. rewrite bool_decide_false by done. apply bool_decide_ext.
      split; [|by intros ->]. intros Ht. by apply (app_inv_head (bytes_of_string "/b")).
    - rewrite length_app. cbn. rewrite length_app. cbn. unfold PATH_MAX. lia. }
  split.
  - intros st. rewrite H; [by vm_compute| |done|by vm_compute].
    split; [done|by refine (bool_decide_unpack _ _)].
  - rewrite <- H; [by vm_compute| |done|by vm_compute].
    split; [done|by refine (bool_decide_unpack _ _)].
Defined.
